(* ===== verification/_CoqProject ===== *)
-Q . S2P
Prelude.v
Layout.v
State.v
Str.v
Spinlock.v
Kalloc.v
Vm.v
VmInv.v
VmOps.v
VmAlloc.v
VmSpace.v
VmCopy.v
VmProps.v
Sched.v
Uaccess.v
Sleeplock.v
Ports.v
Apic.v
Ide.v
Memide.v
Mp.v
Console.v
Kbd.v
Bio.v
Log.v
Inode.v
Fs.v
File.v
Proc.v
Thread.v
Exec.v
Syscall.v
Sysfile.v
Trap.v
Eval.v
UserMem.v
SchedProps.v
PipeProps.v
ProcProps.v
ThreadProps.v
JoinProps.v
BufList.v
BioProps.v
LogProps.v
TransProps.v
ArgProps.v
ConsProps.v
PrintProps.v
PathProps.v
SchedLive.v
GrowProps.v
KbdProps.v
ForkProps.v
BallocProps.v
Bakery.v
Umalloc.v
UmallocProps.v
Ulib.v
UlibProps.v
User.v
Grep.v
GrepProps.v
Utils.v
UtilsProps.v
Sh.v
ShLex.v
ShGrammar.v
ShProps.v
ShParse.v
ShRun.v
ShRunProps.v
Bootmain.v
BootmainProps.v
Mkfs.v
MkfsProps.v
MkfsImage.v
