(* ===== verification/Prelude.v ===== *)
(** * xv6 with kernel threads: a verification development

    The program is xv6 for the x86, a small Unix kernel in C, changed so that a process can
    have several threads: the threads of a process share one [struct sharedData] (page
    table, size, open files, table of threads), and [thread_create], [thread_exit] and
    [thread_join] are new system calls.  All file names below are those of the repository's
    src/ directory.

    ** How the code is modelled

    Every C function of the kernel is a Rocq function with the function's name, in a small
    state monad ([K], this file).  The state is a [world]: the record [kern] of all global
    variables (State.v), with a list of what other threads do to them.  A computation
    returns a value ([Ok]) or ends as C code in a kernel can: [Panic], [Fault] (a pointer
    that is not valid), [Spin] (a lock of another CPU), [Switched] (the CPU is given away
    and not given back, or the power fails), [OutOfFuel] (a bound of the model).  Integers
    are Z with the wrap-around of their C type written out ([u32], [s32], [u8]).  Kernel
    memory is an array of bytes: page tables, user memory and the free list of pages live in
    it and are read and written by address.  Structs of static arrays are records in lists,
    and pointers to them are indices.

    Concurrency.  Between two switches a kernel thread runs alone, as the spin locks and the
    masking of interrupts intend; [swtch] takes what the others have done, an arbitrary
    function on the kernel, from the world.  Where interleaving within that is the point,
    it is a step relation: spin locks (Spinlock.v) and the bakery lock (Bakery.v).
    Devices are input streams and an output trace per port or register (Ports.v).  A loss
    of power is a stop before a transfer of the disk driver; writing one block is atomic.

    Parameters are the addresses that the linker chooses ([KernelSyms], with the laws that
    kernel.ld states) and, for the code above the disk driver, the driver ([DiskDriver]),
    instantiated by ide.c, memide.c, or memide.c with losses of power.

    ** The files, and the parts of the program they model

    - Prelude.v: integers, record update, the monad.  Layout.v: param.h, memlayout.h, mmu.h.
      State.v: the structs and global variables.
    - Str.v: string.c.  Spinlock.v: spinlock.c.  Kalloc.v: kalloc.c.  Vm.v: vm.c.
    - Sched.v: the scheduler, [sched], [sleep], [wakeup] of proc.c.  Proc.v: processes
      ([allocproc], [fork], [exit], [wait], [kill], [growproc], [userinit]).  Thread.v:
      [thread_create], [thread_exit], [thread_join].  Exec.v: exec.c and [loaduvm].
    - Uaccess.v: accesses of the kernel to user addresses.  Syscall.v: syscall.c and
      sysproc.c.  Sysfile.v: sysfile.c.  Trap.v: trap.c and main.c.
    - Sleeplock.v: sleeplock.c.  Ports.v: x86.h.  Apic.v: lapic.c, ioapic.c, picirq.c.
      Mp.v: mp.c.  Console.v: console.c, uart.c.  Kbd.v: kbd.c, kbd.h.
    - Ide.v: ide.c.  Memide.v: memide.c.  Bio.v: bio.c.  Log.v: log.c.  Inode.v and Fs.v:
      fs.c.  File.v: file.c and pipe.c.
    - Bakery.v: pthread_lock_linux.c.

    ** What the theorems show

    - Memory (Kalloc.v, VmInv.v to VmProps.v).  The free list is a list of distinct pages,
      and [kalloc], [kfree] and [freerange] are its operations.  A page directory is a
      partial map from virtual pages to entries; [mappages], [allocuvm], [deallocuvm],
      [setupkvm], [copyuvm], [freevm] and [copyout] are operations on that map which keep
      each page in one place, also when memory runs out half way.
    - Locks (Spinlock.v).  Mutual exclusion in every interleaving of the steps of [acquire]
      and [release]; what [acquire] does on a free lock, on a lock of this CPU and of another.
    - Processes and threads (SchedProps.v, SchedLive.v, ProcProps.v, ThreadProps.v,
      JoinProps.v, GrowProps.v).  A sleeping process misses no wakeup; a round of the
      scheduler dispatches every process that is runnable when it starts; [allocproc],
      [thread_create], [thread_exit], [thread_join] and [growproc] on each of their
      branches, with the pages and locks that the failing branches do not give back.
    - System calls (ArgProps.v).  The checks on pointers and strings from user space accept
      exactly what lies in the process.
    - Disk (BufList.v, BioProps.v, LogProps.v, TransProps.v, BallocProps.v).  The buffer
      cache refines the array of blocks; [commit] and recovery make a transaction atomic and
      durable whenever the power fails, also during recovery; a sequence of transactions
      leaves the effect of a first part of it; allocation of a block is one of them.
    - Files and devices (PipeProps.v, PathProps.v, ConsProps.v, PrintProps.v, KbdProps.v).
      A pipe is a bounded queue; [skipelem] splits paths; the console's ring buffer is a
      line editor; [printint] writes numerals; the keyboard delivers bytes.
    - Bakery.v.  Mutual exclusion, absence of overflow and of deadlock, and the final count
      over a memory where stores are seen at once; two threads in the critical section over
      the store buffers of an x86.

    Eval.v holds the judgements in which the proofs about the kernel are written ([evals]:
    returns with this result and kernel; [ends]: returns with a property; [leads]: any
    outcome), and UserMem.v the accesses to user memory in terms of the map of VmInv.v.

    ** Bounds and fuel

    Loops over a range of addresses, blocks or bytes have the length of the range as fuel,
    and the theorems about them say that the code returns, so that it is enough.  Loops that
    wait ([sleep] in a loop) have one turn for each time the thread can be resumed, and
    one more: the execution is suspended before they run out.  Polling a device has the length of
    its input stream.  In theorems, integers have their full 32 bits; the limits are those
    of param.h.

    ** Not modelled

    - Assembly: bootasm.S, entry.S, entryother.S, initcode.S, swtch.S, trapasm.S, usys.S and
      the vectors that vectors.pl generates.  [swtch] is the step described above; the trap
      frame is the record that trapasm.S builds.
    - bootmain.c, which runs before the kernel; mkfs.c, which runs on the host.
    - User programs and their library (sh.c, ulib.c, umalloc.c, printf.c, the utilities, the
      tests).  The kernel model takes the memory of a process as arbitrary bytes.
    - Effects below the model: the translation buffer, caches, the time of devices, partial
      writes of a block, interrupts between two instructions of the kernel outside a lock.
    - The messages of [allocuvm] on the console, which its caller does not see. *)

From stdpp Require Export base decidable gmap list strings fin_maps.
From Stdlib Require Export ZArith Lia.

#[global] Open Scope Z_scope.

(** ** Machine integers

    A C [uint] is an integer in [0, 2^32); a C [int] is the same 32-bit pattern
    read in two's complement. *)

Definition two32 : Z := 4294967296.
Definition two31 : Z := 2147483648.
Definition u32 (x : Z) : Z := x mod two32.
Definition s32 (x : Z) : Z := let y := u32 x in if y <? two31 then y else y - two32.
Definition u16 (x : Z) : Z := x mod 65536.
Definition s16 (x : Z) : Z := let y := u16 x in if y <? 32768 then y else y - 65536.
Definition u8 (x : Z) : Z := x mod 256.
Definition s8 (x : Z) : Z := let y := u8 x in if y <? 128 then y else y - 256.

(** C truth value of an [int]. *)
Definition truthy (x : Z) : bool := negb (x =? 0).
Definition b2z (b : bool) : Z := if b then 1 else 0.

(** ** Record update

    [r <| f := v |>] is C's [r.f = v].  Each record declares its eta expansion
    once, and the setter of a field is computed from it. *)

Class Settable (R : Type) := eta : R → R.
Class Setter {R E : Type} (getter : R → E) := set : (E → E) → R → R.
Arguments set {R E} getter {_} _ _.

Ltac solve_setter :=
  match goal with
  | |- @Setter ?R ?E ?g =>
      let e := eval hnf in (@eta R _) in
      match eval pattern g in e with
      | ?u _ => let t := eval cbv beta in (fun (f : E → E) (r : R) => u (fun r' => f (g r')) r) in exact t
      end
  end.
#[export] Hint Extern 0 (Setter _) => solve_setter : typeclass_instances.

Notation "r <| f := v |>" := (set f (λ _, v) r)
  (at level 1, f at level 11, v at level 99, left associativity, format "r  <| f  :=  v |>").
Notation "r <| f ::= g |>" := (set f g r)
  (at level 1, f at level 11, g at level 99, left associativity, format "r  <| f  ::=  g |>").

(** ** Computations

    Kernel code is a state transformer.  It returns a value ([Ok]), or it stops
    in one of the ways C code running in the kernel can stop:
    - [Panic msg]: the code called [panic(msg)], which freezes the machine;
    - [Fault]: the code dereferenced a pointer that does not point to a live
      object, or an address that the current page table does not map;
    - [Spin]: the CPU spins on a lock that another CPU holds;
    - [Switched s]: the code switched to the scheduler in state [s] and has not
      been resumed;
    - [OutOfFuel]: a loop bound of the model was reached.  Theorems about code
      with such a loop show that this does not happen. *)

Inductive outcome (S A : Type) : Type :=
| Ok (a : A) (s : S)
| Panic (msg : string)
| Fault
| Spin
| Switched (s : S)
| OutOfFuel.
Arguments Ok {S A} a s.
Arguments Panic {S A} msg.
Arguments Fault {S A}.
Arguments Spin {S A}.
Arguments Switched {S A} s.
Arguments OutOfFuel {S A}.

Definition M (S A : Type) : Type := S → outcome S A.

Section Monad.
Context {S : Type}.

#[export] Instance M_ret : MRet (M S) := λ A a s, Ok a s.

#[export] Instance M_bind : MBind (M S) := λ A B f m s,
  match m s with
  | Ok a s' => f a s'
  | Panic msg => Panic msg
  | Fault => Fault
  | Spin => Spin
  | Switched s' => Switched s'
  | OutOfFuel => OutOfFuel
  end.

Definition gets {A} (f : S → A) : M S A := λ s, Ok (f s) s.
Definition modify (f : S → S) : M S unit := λ s, Ok tt (f s).
Definition panic {A} (msg : string) : M S A := λ _, Panic msg.
Definition fault {A} : M S A := λ _, Fault.
Definition out_of_fuel {A} : M S A := λ _, OutOfFuel.

(** Dereference: a missing object is a fault. *)
Definition deref {A} (o : option A) : M S A :=
  match o with Some a => mret a | None => fault end.

Definition when (b : bool) (m : M S unit) : M S unit := if b then m else mret tt.

(** [for(x in l) body(x)]. *)
Fixpoint for_each {A} (l : list A) (body : A → M S unit) : M S unit :=
  match l with
  | [] => mret tt
  | x :: l' => _ ← body x; for_each l' body
  end.

(** [for(x in l) body(x)] whose body may leave the loop with a result. *)
Fixpoint for_find {A B} (l : list A) (body : A → M S (option B)) : M S (option B) :=
  match l with
  | [] => mret None
  | x :: l' =>
      r ← body x;
      match r with
      | Some b => mret (Some b)
      | None => for_find l' body
      end
  end.

(** [for(;;)] with a loop variable: [inl] continues, [inr] leaves the loop. *)
Fixpoint iterate {A B} (fuel : nat) (body : A → M S (A + B)) (a : A) : M S B :=
  match fuel with
  | O => out_of_fuel
  | Datatypes.S fuel' =>
      r ← body a;
      match r with
      | inl a' => iterate fuel' body a'
      | inr b => mret b
      end
  end.

(** Running a sequence one command at a time. *)

Lemma bind_ok {A B} (m : M S A) (f : A → M S B) s a s' :
  m s = Ok a s' → (m ≫= f) s = f a s'.
Proof. unfold mbind, M_bind. by intros ->. Qed.

Lemma bind_panic {A B} (m : M S A) (f : A → M S B) s msg :
  m s = Panic msg → (m ≫= f) s = Panic msg.
Proof. unfold mbind, M_bind. by intros ->. Qed.

Lemma bind_fault {A B} (m : M S A) (f : A → M S B) s :
  m s = Fault → (m ≫= f) s = Fault.
Proof. unfold mbind, M_bind. by intros ->. Qed.

Lemma bind_switched {A B} (m : M S A) (f : A → M S B) s s' :
  m s = Switched s' → (m ≫= f) s = Switched s'.
Proof. unfold mbind, M_bind. by intros ->. Qed.

Lemma bind_spin {A B} (m : M S A) (f : A → M S B) s : m s = Spin → (m ≫= f) s = Spin.
Proof. unfold mbind, M_bind. by intros ->. Qed.

Lemma bind_ok_inv {A B} (m : M S A) (f : A → M S B) s b s' :
  (m ≫= f) s = Ok b s' → ∃ a s1, m s = Ok a s1 ∧ f a s1 = Ok b s'.
Proof. unfold mbind, M_bind. destruct (m s); naive_solver. Qed.

Lemma bind_assoc {A B C} (m : M S A) (f : A → M S B) (g : B → M S C) s :
  ((m ≫= f) ≫= g) s = (m ≫= λ a, f a ≫= g) s.
Proof. unfold mbind, M_bind. by destruct (m s). Qed.

Lemma bind_ext {A B} (m : M S A) (f g : A → M S B) s :
  (∀ a s', f a s' = g a s') → (m ≫= f) s = (m ≫= g) s.
Proof. intros H. unfold mbind, M_bind. destruct (m s); [apply H|done..]. Qed.

(** The first command may be replaced by one with the same outcome. *)
Lemma bind_cong {A B} (m m' : M S A) (f : A → M S B) s s' :
  m s = m' s' → (m ≫= f) s = (m' ≫= f) s'.
Proof. intros H. unfold mbind, M_bind. by rewrite H. Qed.

Lemma bind_gets {A B} (f : S → A) (k : A → M S B) s : (gets f ≫= k) s = k (f s) s.
Proof. done. Qed.

Lemma bind_modify {B} (f : S → S) (k : unit → M S B) s : (modify f ≫= k) s = k tt (f s).
Proof. done. Qed.

Lemma bind_ret {A B} (a : A) (k : A → M S B) s : (mret a ≫= k) s = k a s.
Proof. done. Qed.

Lemma for_each_app {A} (l1 l2 : list A) (body : A → M S unit) s :
  for_each (l1 ++ l2) body s = (for_each l1 body ≫= λ _, for_each l2 body) s.
Proof.
  revert s. induction l1 as [|x l1 IH]; intros s; [done|].
  simpl. rewrite bind_assoc. unfold mbind, M_bind.
  by destruct (body x s).
Qed.

(** Invariant rule: the body takes [I] of the items done so far to [I] of one
    more. *)
Lemma for_each_inv {A} (I : list A → S → Prop) (l : list A) (body : A → M S unit) s :
  I [] s →
  (∀ done x s, x ∈ l → I done s → ∃ s', body x s = Ok tt s' ∧ I (done ++ [x]) s') →
  ∃ s', for_each l body s = Ok tt s' ∧ I l s'.
Proof.
  intros H0 Hstep.
  assert (∀ todo dn s, dn ++ todo = l → I dn s →
    ∃ s', for_each todo body s = Ok tt s' ∧ I l s') as Hgen.
  { induction todo as [|x todo IH]; intros dn s1 Hl HI; simpl.
    - rewrite app_nil_r in Hl. subst. eauto.
    - destruct (Hstep dn x s1) as (s2 & Hb & HI2); [set_solver|done|].
      rewrite (bind_ok _ _ _ _ _ Hb).
      apply (IH (dn ++ [x])); [by rewrite <- app_assoc|done]. }
  by apply (Hgen l []).
Qed.

(** A scan whose body finds nothing on the items of [l1] and stops on [x]. *)
Lemma for_find_hit {A B} (l1 : list A) x l2 (body : A → M S (option B)) s b s' :
  (∀ y, y ∈ l1 → body y s = Ok None s) →
  body x s = Ok (Some b) s' →
  for_find (l1 ++ x :: l2) body s = Ok (Some b) s'.
Proof.
  intros Hmiss Hhit. induction l1 as [|y l1 IH]; simpl.
  - by rewrite (bind_ok _ _ _ _ _ Hhit).
  - rewrite (bind_ok _ _ _ _ _ (Hmiss y ltac:(set_solver))). apply IH. set_solver.
Qed.

Lemma for_find_miss {A B} (l : list A) (body : A → M S (option B)) s :
  (∀ y, y ∈ l → body y s = Ok None s) →
  for_find l body s = Ok None s.
Proof.
  intros Hmiss. induction l as [|y l IH]; simpl; [done|].
  rewrite (bind_ok _ _ _ _ _ (Hmiss y ltac:(set_solver))). apply IH. set_solver.
Qed.

End Monad.

#[global] Arguments mbind : simpl never.
#[global] Opaque M_bind.

(** [mstep H]: run the first command of the goal's sequence with [H : m s = Ok a s'].
    The hypotheses of [H] come first, then the rest of the sequence. *)
Ltac mstep H := etransitivity; [eapply bind_ok; eapply H | cbv beta].
(** Run the leading reads and writes of the state. *)
Ltac mpure :=
  repeat first
    [ rewrite bind_assoc | rewrite bind_gets | rewrite bind_modify | rewrite bind_ret ];
  cbv beta.

(** ** Lists *)

Lemma elem_of_rev {A} (l : list A) x : x ∈ rev l ↔ x ∈ l.
Proof. by rewrite !list_elem_of_In, <- in_rev. Qed.

Lemma list_alter_insert {A} (f : A → A) (l : list A) i x :
  l !! i = Some x → alter f i l = <[i:=f x]> l.
Proof.
  intros Hl. apply list_eq. intros j. destruct (decide (i = j)) as [<-|].
  - by rewrite list_lookup_alter_eq, Hl, list_lookup_insert_eq by (by eapply lookup_lt_Some).
  - by rewrite list_lookup_alter_ne, list_lookup_insert_ne.
Qed.
