(* ===== verification/Layout.v ===== *)
(** * Constants and address arithmetic: param.h, memlayout.h, mmu.h

    The limits of the system, the layout of the kernel address space and the
    macros that take a virtual address or a page-table entry apart, with the
    arithmetic facts about them that the page-table code relies on. *)

From S2P Require Import Prelude.

Create HintDb layout.

(** ** param.h *)
Definition NPROC : Z := 64.
Definition KSTACKSIZE : Z := 4096.
Definition NCPU : Z := 8.
Definition NOFILE : Z := 16.
Definition NFILE : Z := 100.
Definition NINODE : Z := 50.
Definition NDEV : Z := 10.
Definition ROOTDEV : Z := 1.
Definition MAXARG : Z := 32.
Definition MAXOPBLOCKS : Z := 10.
Definition LOGSIZE : Z := MAXOPBLOCKS * 3.
Definition NBUF : Z := MAXOPBLOCKS * 3.
Definition FSSIZE : Z := 1000.

(** ** memlayout.h *)
Definition EXTMEM : Z := 0x100000.
Definition PHYSTOP : Z := 0xE000000.
Definition DEVSPACE : Z := 0xFE000000.
Definition KERNBASE : Z := 0x80000000.
Definition KERNLINK : Z := KERNBASE + EXTMEM.
Definition V2P (a : Z) : Z := u32 (u32 a - KERNBASE).
Definition P2V (a : Z) : Z := u32 (a + KERNBASE).

(** ** mmu.h *)
Definition FL_IF : Z := 0x200.
Definition SEG_KCODE : Z := 1.
Definition SEG_KDATA : Z := 2.
Definition SEG_UCODE : Z := 3.
Definition SEG_UDATA : Z := 4.
Definition SEG_TSS : Z := 5.
Definition DPL_USER : Z := 3.
Definition PTXSHIFT : Z := 12.
Definition PDXSHIFT : Z := 22.
Definition NPDENTRIES : Z := 1024.
Definition NPTENTRIES : Z := 1024.
Definition PGSIZE : Z := 4096.
Definition PDX (va : Z) : Z := Z.land (Z.shiftr (u32 va) PDXSHIFT) 0x3FF.
Definition PTX (va : Z) : Z := Z.land (Z.shiftr (u32 va) PTXSHIFT) 0x3FF.
Definition PGADDR (d t o : Z) : Z :=
  u32 (Z.lor (Z.lor (Z.shiftl d PDXSHIFT) (Z.shiftl t PTXSHIFT)) o).
Definition PGROUNDUP (sz : Z) : Z := Z.land (u32 (sz + PGSIZE - 1)) (u32 (Z.lnot (PGSIZE - 1))).
Definition PGROUNDDOWN (a : Z) : Z := Z.land a (u32 (Z.lnot (PGSIZE - 1))).
Definition PTE_P : Z := 1.
Definition PTE_W : Z := 2.
Definition PTE_U : Z := 4.
Definition PTE_ADDR (pte : Z) : Z := Z.land (u32 pte) (u32 (Z.lnot 0xFFF)).
Definition PTE_FLAGS (pte : Z) : Z := Z.land (u32 pte) 0xFFF.

(** ** 32-bit values and aligned addresses *)

Definition is_u32 (x : Z) : Prop := 0 ≤ x < two32.
Definition pg_aligned (a : Z) : Prop := a mod PGSIZE = 0.

#[export] Hint Unfold NPROC KSTACKSIZE NOFILE NFILE NINODE EXTMEM PHYSTOP DEVSPACE KERNBASE
  KERNLINK PGSIZE NPDENTRIES NPTENTRIES PTE_P PTE_W PTE_U PTXSHIFT PDXSHIFT two32 two31
  is_u32 pg_aligned : layout.

(** Linear arithmetic over the constants above; [zl] also knows division and
    remainder by a constant. *)
Ltac kl := autounfold with layout in *; lia.
Ltac zl := autounfold with layout in *; Z.to_euclidean_division_equations; lia.

Lemma u32_id x : is_u32 x → u32 x = x.
Proof. intros. unfold u32. by apply Z.mod_small. Qed.

Lemma u32_range x : is_u32 (u32 x).
Proof. apply Z.mod_pos_bound. done. Qed.

Lemma u32_idemp x : u32 (u32 x) = u32 x.
Proof. apply u32_id, u32_range. Qed.

Lemma s32_u32 x : s32 (u32 x) = s32 x.
Proof. unfold s32. by rewrite u32_idemp. Qed.

Lemma s32_range x : - two31 ≤ s32 x < two31.
Proof.
  unfold s32. pose proof (u32_range x) as H. unfold is_u32, two32, two31 in *.
  destruct (Z.ltb_spec (u32 x) 2147483648); lia.
Qed.

Lemma s32_id x : - two31 ≤ x < two31 → s32 x = x.
Proof.
  intros H. unfold s32, u32, two31, two32 in *.
  destruct (Z.ltb_spec (x mod 4294967296) 2147483648); Z.to_euclidean_division_equations; lia.
Qed.

(** ** Page numbers and offsets *)

Lemma land_pgmask a : is_u32 a → Z.land a (u32 (Z.lnot (PGSIZE - 1))) = a - a mod PGSIZE.
Proof.
  intros Ha.
  change (u32 (Z.lnot (PGSIZE - 1))) with (Z.land (Z.ones 32) (Z.lnot (Z.ones 12))).
  rewrite Z.land_assoc, Z.land_ones by lia.
  rewrite (Z.mod_small a (2 ^ 32)) by (unfold is_u32, two32 in Ha; lia).
  rewrite <- Z.ldiff_land, Z.ldiff_ones_r, Z.shiftl_mul_pow2, Z.shiftr_div_pow2 by lia.
  change (2 ^ 12) with 4096. zl.
Qed.

Lemma PGROUNDDOWN_spec a : is_u32 a → PGROUNDDOWN a = a - a mod PGSIZE.
Proof. apply land_pgmask. Qed.

Lemma PGROUNDUP_spec a :
  0 ≤ a → a + PGSIZE - 1 < two32 → PGROUNDUP a = PGSIZE * ((a + PGSIZE - 1) / PGSIZE).
Proof.
  intros H1 H2. unfold PGROUNDUP. rewrite land_pgmask by apply u32_range.
  rewrite u32_id by kl. zl.
Qed.

Lemma PGROUNDUP_aligned a : pg_aligned (PGROUNDUP a).
Proof.
  unfold PGROUNDUP, pg_aligned. rewrite land_pgmask by apply u32_range. zl.
Qed.

Lemma PGROUNDUP_bounds a :
  0 ≤ a → a + PGSIZE - 1 < two32 → a ≤ PGROUNDUP a < a + PGSIZE.
Proof. intros. rewrite PGROUNDUP_spec by done. zl. Qed.

Lemma PGROUNDUP_id a : 0 ≤ a → a + PGSIZE - 1 < two32 → pg_aligned a → PGROUNDUP a = a.
Proof. unfold pg_aligned. intros. rewrite PGROUNDUP_spec by done. zl. Qed.

Lemma PDX_spec a : is_u32 a → PDX a = a / 4194304.
Proof.
  intros Ha. unfold PDX. rewrite u32_id by done.
  rewrite Z.shiftr_div_pow2 by done. change 0x3FF with (Z.ones 10).
  rewrite Z.land_ones by done. unfold PDXSHIFT.
  change (2 ^ 22) with 4194304. change (2 ^ 10) with 1024. unfold is_u32 in Ha. zl.
Qed.

Lemma PTX_spec a : is_u32 a → PTX a = (a / 4096) mod 1024.
Proof.
  intros Ha. unfold PTX. rewrite u32_id by done.
  rewrite Z.shiftr_div_pow2 by done. change 0x3FF with (Z.ones 10).
  by rewrite Z.land_ones by done.
Qed.

Lemma PDX_range a : 0 ≤ PDX a < NPDENTRIES.
Proof.
  unfold PDX. change 0x3FF with (Z.ones 10). rewrite Z.land_ones by done.
  apply Z.mod_pos_bound. done.
Qed.

Lemma PTX_range a : 0 ≤ PTX a < NPTENTRIES.
Proof.
  unfold PTX. change 0x3FF with (Z.ones 10). rewrite Z.land_ones by done.
  apply Z.mod_pos_bound. done.
Qed.

(** The two indexes and the offset determine the address. *)
Lemma va_decompose a :
  is_u32 a → a = PDX a * 4194304 + PTX a * 4096 + a mod PGSIZE.
Proof. intros Ha. rewrite PDX_spec, PTX_spec by done. unfold is_u32 in Ha. zl. Qed.

(** Two page-aligned addresses with the same indexes are equal. *)
Lemma va_index_inj a b :
  is_u32 a → is_u32 b → pg_aligned a → pg_aligned b →
  PDX a = PDX b → PTX a = PTX b → a = b.
Proof.
  intros Ha Hb Pa Pb Hd Ht. rewrite (va_decompose a Ha), (va_decompose b Hb).
  unfold pg_aligned in *. lia.
Qed.

(** First address of the next page directory entry, as [deallocuvm] computes it. *)
Lemma PGADDR_next_pde a :
  is_u32 a → PDX a < 1023 → PGADDR (PDX a + 1) 0 0 = (a / 4194304 + 1) * 4194304.
Proof.
  intros Ha Hd. unfold PGADDR. rewrite Z.shiftl_0_l, !Z.lor_0_r.
  rewrite Z.shiftl_mul_pow2 by done. rewrite PDX_spec in * by done.
  unfold is_u32 in Ha. change (2 ^ PDXSHIFT) with 4194304. rewrite u32_id; [done|].
  unfold is_u32. zl.
Qed.

(** ** Page-table entries *)

Lemma PTE_ADDR_spec e : is_u32 e → PTE_ADDR e = e - e mod PGSIZE.
Proof. intros He. unfold PTE_ADDR. rewrite u32_id by done. by apply land_pgmask. Qed.

Lemma PTE_FLAGS_spec e : is_u32 e → PTE_FLAGS e = e mod PGSIZE.
Proof.
  intros He. unfold PTE_FLAGS. rewrite u32_id by done.
  change 0xFFF with (Z.ones 12). by rewrite Z.land_ones by done.
Qed.

(** An aligned address and flags below the page size occupy disjoint bits. *)
Lemma lor_flags pa f : pg_aligned pa → 0 ≤ f < PGSIZE → Z.lor pa f = pa + f.
Proof.
  intros Hpa Hf. symmetry. apply Z.add_nocarry_lor.
  assert (pa = Z.shiftl (pa / 4096) 12) as ->.
  { rewrite Z.shiftl_mul_pow2 by done. unfold pg_aligned in Hpa. change (2 ^ 12) with 4096. zl. }
  assert (f = Z.land f (Z.ones 12)) as ->.
  { rewrite Z.land_ones by done. rewrite Z.mod_small; kl. }
  apply Z.bits_inj'. intros n Hn. rewrite !Z.land_spec, Z.bits_0.
  destruct (Z.ltb_spec n 12).
  - by rewrite Z.shiftl_spec_low.
  - rewrite Z.ones_spec_high by lia. by rewrite !andb_false_r.
Qed.

Lemma PTE_ADDR_mk pa f :
  is_u32 pa → pg_aligned pa → 0 ≤ f < PGSIZE → PTE_ADDR (Z.lor pa f) = pa.
Proof.
  intros Hu Hpa Hf. rewrite lor_flags by done. unfold pg_aligned, is_u32 in *.
  rewrite PTE_ADDR_spec by (unfold is_u32; zl). zl.
Qed.

Lemma PTE_FLAGS_mk pa f :
  is_u32 pa → pg_aligned pa → 0 ≤ f < PGSIZE → PTE_FLAGS (Z.lor pa f) = f.
Proof.
  intros Hu Hpa Hf. rewrite lor_flags by done. unfold pg_aligned, is_u32 in *.
  rewrite PTE_FLAGS_spec by (unfold is_u32; zl). zl.
Qed.

Lemma land_flag_bit e k : 0 ≤ k → Z.land e (2 ^ k) = 2 ^ k * Z.b2z (Z.testbit e k).
Proof.
  intros Hk. rewrite Z.land_comm. apply Z.bits_inj'. intros n Hn.
  rewrite Z.land_spec, Z.pow2_bits_eqb by done.
  destruct (Z.testbit e k) eqn:He; simpl Z.b2z.
  - rewrite Z.mul_1_r, Z.pow2_bits_eqb by done.
    destruct (Z.eqb_spec k n) as [->|]; [done|done].
  - rewrite Z.mul_0_r, Z.bits_0. destruct (Z.eqb_spec k n) as [->|]; done.
Qed.

(** ** Kernel virtual and physical addresses *)

Lemma V2P_P2V pa : 0 ≤ pa < KERNBASE → V2P (P2V pa) = pa.
Proof.
  intros. unfold V2P, P2V. rewrite u32_idemp.
  rewrite (u32_id (pa + _)) by (unfold is_u32; kl). rewrite u32_id; unfold is_u32; kl.
Qed.

Lemma P2V_V2P a : KERNBASE ≤ a < two32 → P2V (V2P a) = a.
Proof.
  intros. unfold V2P, P2V. rewrite (u32_id a) by (unfold is_u32; kl).
  rewrite (u32_id (a - _)) by (unfold is_u32; kl). rewrite u32_id; unfold is_u32; kl.
Qed.

Lemma V2P_spec a : KERNBASE ≤ a < two32 → V2P a = a - KERNBASE.
Proof.
  intros. unfold V2P. rewrite (u32_id a) by (unfold is_u32; kl).
  apply u32_id. unfold is_u32; kl.
Qed.

Lemma P2V_spec pa : 0 ≤ pa < KERNBASE → P2V pa = pa + KERNBASE.
Proof. intros. unfold P2V. apply u32_id. unfold is_u32; kl. Qed.
