(* ===== verification/State.v ===== *)
(** * The kernel's data: structs, global variables, memory

    One record per C struct, and the record [kern] of every global variable of
    the kernel.  Pointers to elements of a static array ([struct proc *],
    [struct file *], ...) are an [option nat]: [None] is the null pointer and
    [Some i] is the address of element [i].  Objects that live in a page
    returned by [kalloc] ([struct sharedData], [struct pipe], and the trap frame
    and context on a kernel stack) are kept in a typed map from their address. *)

From S2P Require Import Prelude Layout.

(** ** Byte memory

    Kernel memory is addressed by kernel virtual addresses, which map directly
    to physical memory.  A cell holds a byte; words are little endian. *)

Definition memory : Type := Z → Z.

Definition fill (m : memory) (a n : Z) (f : Z → Z) : memory :=
  λ x, if (a <=? x) && (x <? a + n) then f (x - a) else m x.

Definition byte_of (v i : Z) : Z := u8 (Z.shiftr v (8 * i)).

Definition load32 (m : memory) (a : Z) : Z :=
  u8 (m a) + 256 * u8 (m (a + 1)) + 65536 * u8 (m (a + 2)) + 16777216 * u8 (m (a + 3)).

Definition store32 (m : memory) (a v : Z) : memory := fill m a 4 (byte_of v).

(** ** Linker symbols (kernel.ld)

    Addresses chosen by the linker.  The laws are what kernel.ld states: the
    kernel's text is linked at KERNLINK, [data] starts a page after it, [end]
    follows, and the image lies below the end of physical memory. *)
Class KernelSyms := {
  sym_data : Z;
  sym_end : Z;
  sym_cpus : Z;
  sym_forkret : Z;
  sym_trapret : Z;
  sym_initcode : Z;      (* _binary_initcode_start *)
  initcode_size : Z;     (* _binary_initcode_size *)
  sym_data_aligned : pg_aligned sym_data;
  sym_data_range : KERNLINK < sym_data;
  sym_end_range : sym_data ≤ sym_end;
  sym_end_top : sym_end < KERNBASE + PHYSTOP
}.

(** A concrete image: data at 0x80108000, end at 0x80115000. *)
Program Definition image_syms : KernelSyms :=
  {| sym_data := 0x80108000; sym_end := 0x80115000; sym_cpus := 0x80112000;
     sym_forkret := 0x80103a00; sym_trapret := 0x80105900;
     sym_initcode := 0x8010b460; initcode_size := 44 |}.
Solve Obligations with (done || (autounfold with layout; lia)).

(** ** spinlock.h, sleeplock.h *)

(** The sleep locks of the kernel: one per buffer and one per cached inode. *)
Inductive slid := SL_buf (i : nat) | SL_inode (i : nat).

(** The spin locks of the kernel, by the object that contains them. *)
Inductive lockid :=
| L_ptable | L_kmem | L_bcache | L_log | L_icache | L_ftable | L_tickslock | L_cons | L_idelock
| L_sleep (l : slid)
| L_pipe (p : Z).

#[export] Instance slid_eq_dec : EqDecision slid.
Proof. solve_decision. Defined.
#[export] Instance lockid_eq_dec : EqDecision lockid.
Proof. solve_decision. Defined.

#[export] Instance lockid_countable : Countable lockid.
Proof.
  refine (inj_countable
    (λ l, match l with
          | L_ptable => (0, 0) | L_kmem => (1, 0) | L_bcache => (2, 0) | L_log => (3, 0)
          | L_icache => (4, 0) | L_ftable => (5, 0) | L_tickslock => (6, 0) | L_cons => (7, 0)
          | L_idelock => (8, 0) | L_sleep (SL_buf i) => (9, Z.of_nat i)
          | L_sleep (SL_inode i) => (10, Z.of_nat i) | L_pipe p => (11, p)
          end)
    (λ c, match c with
          | (0, _) => Some L_ptable | (1, _) => Some L_kmem | (2, _) => Some L_bcache
          | (3, _) => Some L_log | (4, _) => Some L_icache | (5, _) => Some L_ftable
          | (6, _) => Some L_tickslock | (7, _) => Some L_cons | (8, _) => Some L_idelock
          | (9, i) => Some (L_sleep (SL_buf (Z.to_nat i)))
          | (10, i) => Some (L_sleep (SL_inode (Z.to_nat i)))
          | (11, p) => Some (L_pipe p)
          | _ => None
          end) _).
  intros [| | | | | | | | |[i|i]|p]; try done; by rewrite Nat2Z.id.
Defined.

Record spinlock := mkSpinlock {
  locked : Z;           (* Is the lock held? *)
  lname : string;       (* Name of lock *)
  lcpu : option nat     (* The cpu holding the lock *)
}.
#[export] Instance eta_spinlock : Settable spinlock := λ r, mkSpinlock (locked r) (lname r) (lcpu r).

Record sleeplock := mkSleeplock {
  sl_locked : Z;
  sl_name : string;
  sl_pid : Z
}.
#[export] Instance eta_sleeplock : Settable sleeplock :=
  λ r, mkSleeplock (sl_locked r) (sl_name r) (sl_pid r).

(** ** Sleep channels

    [sleep] and [wakeup] only compare the channel pointer.  The kernel sleeps on
    the address of a process, of [ticks], of the log, of a buffer, of a sleep
    lock, of a pipe's [nread]/[nwrite] fields and of [input.r]; any other value
    is a raw address, the null pointer included. *)
Inductive chan :=
| ch_addr (a : Z) | ch_proc (i : nat) | ch_ticks | ch_log | ch_buf (i : nat)
| ch_sleep (l : slid) | ch_pipe_nread (p : Z) | ch_pipe_nwrite (p : Z) | ch_input.
#[export] Instance chan_eq_dec : EqDecision chan.
Proof. solve_decision. Defined.

Definition chan_of_proc (p : option nat) : chan :=
  match p with Some i => ch_proc i | None => ch_addr 0 end.

(** ** proc.h *)

Inductive procstate := UNUSED | EMBRYO | SLEEPING | RUNNABLE | RUNNING | ZOMBIE.
#[export] Instance procstate_eq_dec : EqDecision procstate.
Proof. solve_decision. Defined.
(** The value of the enumerator. *)
Definition procstate_code (st : procstate) : Z :=
  match st with
  | UNUSED => 0 | EMBRYO => 1 | SLEEPING => 2 | RUNNABLE => 3 | RUNNING => 4 | ZOMBIE => 5
  end.

Record segdesc := mkSeg {
  sd_lim_15_0 : Z; sd_base_15_0 : Z; sd_base_23_16 : Z; sd_type : Z; sd_s : Z; sd_dpl : Z;
  sd_p : Z; sd_lim_19_16 : Z; sd_avl : Z; sd_rsv1 : Z; sd_db : Z; sd_g : Z; sd_base_31_24 : Z
}.
#[export] Instance eta_segdesc : Settable segdesc := λ r,
  mkSeg (sd_lim_15_0 r) (sd_base_15_0 r) (sd_base_23_16 r) (sd_type r) (sd_s r) (sd_dpl r)
    (sd_p r) (sd_lim_19_16 r) (sd_avl r) (sd_rsv1 r) (sd_db r) (sd_g r) (sd_base_31_24 r).

Record cpu := mkCpu {
  apicid : Z;            (* Local APIC ID *)
  ts_esp0 : Z;           (* ts.esp0, ts.ss0, ts.iomb: the task state fields the kernel sets *)
  ts_ss0 : Z;
  ts_iomb : Z;
  gdt : list segdesc;    (* x86 global descriptor table *)
  started : Z;           (* Has the CPU started? *)
  ncli : Z;              (* Depth of pushcli nesting. *)
  intena : Z;            (* Were interrupts enabled before pushcli? *)
  cproc : option nat     (* The process running on this cpu or null *)
}.
#[export] Instance eta_cpu : Settable cpu := λ r,
  mkCpu (apicid r) (ts_esp0 r) (ts_ss0 r) (ts_iomb r) (gdt r) (started r) (ncli r) (intena r)
    (cproc r).

Record context := mkContext { c_edi : Z; c_esi : Z; c_ebx : Z; c_ebp : Z; c_eip : Z }.
#[export] Instance eta_context : Settable context :=
  λ r, mkContext (c_edi r) (c_esi r) (c_ebx r) (c_ebp r) (c_eip r).

Record trapframe := mkTf {
  tf_edi : Z; tf_esi : Z; tf_ebp : Z; tf_oesp : Z; tf_ebx : Z; tf_edx : Z; tf_ecx : Z; tf_eax : Z;
  tf_gs : Z; tf_fs : Z; tf_es : Z; tf_ds : Z; tf_trapno : Z;
  tf_err : Z; tf_eip : Z; tf_cs : Z; tf_eflags : Z; tf_esp : Z; tf_ss : Z
}.
#[export] Instance eta_trapframe : Settable trapframe := λ r,
  mkTf (tf_edi r) (tf_esi r) (tf_ebp r) (tf_oesp r) (tf_ebx r) (tf_edx r) (tf_ecx r) (tf_eax r)
    (tf_gs r) (tf_fs r) (tf_es r) (tf_ds r) (tf_trapno r)
    (tf_err r) (tf_eip r) (tf_cs r) (tf_eflags r) (tf_esp r) (tf_ss r).

(** Sizes of the structs on the kernel stack. *)
Definition sizeof_trapframe : Z := 76.
Definition sizeof_context : Z := 20.

Definition zero_tf : trapframe := mkTf 0 0 0 0 0 0 0 0 0 0 0 0 0 0 0 0 0 0 0.
Definition zero_context : context := mkContext 0 0 0 0 0.

(** Data shared by the threads of one process. *)
Record sharedData := mkShared {
  sz : Z;                       (* Size of process memory (bytes) *)
  pgdir : Z;                    (* Page table *)
  ofile : list (option nat);    (* Open files *)
  cwd : option nat;             (* Current directory *)
  numOfThread : Z;              (* how many threads are linked to this data *)
  threads : list (option nat);  (* master and threads: at most 6 *)
  isThere : list Z              (* is threads[i] occupied? *)
}.
#[export] Instance eta_sharedData : Settable sharedData := λ r,
  mkShared (sz r) (pgdir r) (ofile r) (cwd r) (numOfThread r) (threads r) (isThere r).

(** Number of entries of [threads] and [isThere]. *)
Definition NTHREAD : nat := 6.

Definition zero_shared : sharedData :=
  mkShared 0 0 (replicate (Z.to_nat NOFILE) None) None 0 (replicate NTHREAD None) (replicate NTHREAD 0).

Record proc := mkProc {
  kstack : Z;               (* Bottom of kernel stack for this process *)
  state : procstate;        (* Process state *)
  pid : Z;                  (* Process ID *)
  parent : option nat;      (* Parent process *)
  tf : Z;                   (* Trap frame for current syscall *)
  pcontext : Z;             (* swtch() here to run process *)
  pchan : chan;             (* If non-zero, sleeping on chan *)
  killed : Z;               (* If non-zero, have been killed *)
  pname : list Z;           (* Process name (debugging) *)
  sharePtr : Z;             (* data shared with the threads of the same process *)
  orderOfThread : Z;        (* thread id *)
  retval : Z;               (* value passed to thread_exit *)
  imMaster : Z;             (* is this the master thread? *)
  stack : Z                 (* start address of the stack *)
}.
#[export] Instance eta_proc : Settable proc := λ r,
  mkProc (kstack r) (state r) (pid r) (parent r) (tf r) (pcontext r) (pchan r) (killed r) (pname r)
    (sharePtr r) (orderOfThread r) (retval r) (imMaster r) (stack r).

(** A zeroed slot of the process table. *)
Definition zero_proc : proc :=
  mkProc 0 UNUSED 0 None 0 0 (ch_addr 0) 0 (replicate 16 0) 0 0 0 0 0.

(** ** fs.h, file.h, buf.h, pipe.c, log.c *)

Definition BSIZE : Z := 512.
Definition ROOTINO : Z := 1.
Definition NDIRECT : Z := 12.
Definition NINDIRECT : Z := BSIZE / 4.
Definition MAXFILE : Z := NDIRECT + NINDIRECT.

Record superblock := mkSb {
  sb_size : Z; sb_nblocks : Z; sb_ninodes : Z; sb_nlog : Z; sb_logstart : Z; sb_inodestart : Z;
  sb_bmapstart : Z
}.

Inductive fdtype := FD_NONE | FD_PIPE | FD_INODE.
#[export] Instance fdtype_eq_dec : EqDecision fdtype.
Proof. solve_decision. Defined.

Record file := mkFile {
  f_type : fdtype; f_ref : Z; f_readable : Z; f_writable : Z; f_pipe : Z; f_ip : option nat; f_off : Z
}.
#[export] Instance eta_file : Settable file := λ r,
  mkFile (f_type r) (f_ref r) (f_readable r) (f_writable r) (f_pipe r) (f_ip r) (f_off r).
Definition zero_file : file := mkFile FD_NONE 0 0 0 0 None 0.

Record inode := mkInode {
  ip_dev : Z; ip_inum : Z; ip_ref : Z; ip_lock : sleeplock; ip_valid : Z;
  ip_type : Z; ip_major : Z; ip_minor : Z; ip_nlink : Z; ip_size : Z; ip_addrs : list Z
}.
#[export] Instance eta_inode : Settable inode := λ r,
  mkInode (ip_dev r) (ip_inum r) (ip_ref r) (ip_lock r) (ip_valid r) (ip_type r) (ip_major r)
    (ip_minor r) (ip_nlink r) (ip_size r) (ip_addrs r).

Definition B_VALID : Z := 2.
Definition B_DIRTY : Z := 4.

(** A buffer; [b_prev] and [b_next] are indexes in [bcache], where [NBUF]
    stands for [bcache.head]. *)
Record buf := mkBuf {
  b_flags : Z; b_dev : Z; b_blockno : Z; b_lock : sleeplock; b_refcnt : Z;
  b_prev : nat; b_next : nat; b_qnext : option nat; b_data : list Z
}.
#[export] Instance eta_buf : Settable buf := λ r,
  mkBuf (b_flags r) (b_dev r) (b_blockno r) (b_lock r) (b_refcnt r) (b_prev r) (b_next r) (b_qnext r)
    (b_data r).
Definition zero_sleeplock : sleeplock := mkSleeplock 0 "" 0.
Definition zero_buf : buf :=
  mkBuf 0 0 0 zero_sleeplock 0 0 0 None (replicate (Z.to_nat BSIZE) 0).
Definition zero_inode : inode :=
  mkInode 0 0 0 zero_sleeplock 0 0 0 0 0 0 (replicate (Z.to_nat (NDIRECT + 1)) 0).

Definition PIPESIZE : Z := 512.
Record pipe := mkPipe {
  p_data : list Z; p_nread : Z; p_nwrite : Z; p_readopen : Z; p_writeopen : Z
}.
#[export] Instance eta_pipe : Settable pipe := λ r,
  mkPipe (p_data r) (p_nread r) (p_nwrite r) (p_readopen r) (p_writeopen r).

Record log := mkLog {
  log_start : Z; log_size : Z; log_outstanding : Z; log_committing : Z; log_dev : Z;
  lh_n : Z; lh_block : list Z
}.
#[export] Instance eta_log : Settable log := λ r,
  mkLog (log_start r) (log_size r) (log_outstanding r) (log_committing r) (log_dev r) (lh_n r)
    (lh_block r).

(** ** Devices *)

(** An entry of [devsw]: the functions are those of the console, or null. *)
Inductive device := DEV_none | DEV_console.

(** mmu.h: a gate descriptor for interrupts and traps. *)
Record gatedesc := mkGate {
  g_off_15_0 : Z; g_cs : Z; g_args : Z; g_rsv1 : Z; g_type : Z; g_s : Z; g_dpl : Z; g_p : Z;
  g_off_31_16 : Z
}.

(** Reads of an I/O port return the bytes of [port_in] in order; writes are recorded
    in [port_out], last first.  The rest are the static variables of the drivers. *)
Record devstate := mkDev {
  port_in : Z → list Z;
  port_out : list (Z * Z);
  cons_locking : Z;            (* cons.locking *)
  panicked : Z;
  in_buf : list Z;             (* input.buf *)
  in_r : Z; in_w : Z; in_e : Z;
  kbd_shift : Z;               (* kbdgetc's shift *)
  uart : Z;                    (* is there a uart? *)
  devsw : list device;
  idequeue : option nat;
  havedisk1 : Z;
  disksize : Z;                (* memide.c: size of the disk in blocks *)
  lapic : Z;                   (* address of the local APIC *)
  ioapicid : Z;
  idt : list gatedesc;
  idtr : option Z              (* limit in the interrupt descriptor table register *)
}.
#[export] Instance eta_devstate : Settable devstate := λ r,
  mkDev (port_in r) (port_out r) (cons_locking r) (panicked r) (in_buf r) (in_r r) (in_w r) (in_e r)
    (kbd_shift r) (uart r) (devsw r) (idequeue r) (havedisk1 r) (disksize r) (lapic r) (ioapicid r)
    (idt r) (idtr r).

(** ** The whole kernel *)

(** The processor executing the code, and the state of every spin lock. *)
Record hwstate := mkHw {
  cpus : list cpu;            (* cpus[0..ncpu) *)
  lapicid : Z;                (* local APIC id of the executing CPU *)
  eflags : Z;                 (* its flags register *)
  cr3 : Z;                    (* its page-table register (physical address) *)
  locks : lockid → spinlock
}.
#[export] Instance eta_hwstate : Settable hwstate := λ r,
  mkHw (cpus r) (lapicid r) (eflags r) (cr3 r) (locks r).

Record kern := mkKern {
  hw : hwstate;
  mem : memory;
  freelist : Z;               (* kmem.freelist *)
  use_lock : Z;               (* kmem.use_lock *)
  kpgdir : Z;
  procs : list proc;          (* ptable.proc *)
  nextpid : Z;
  initproc : option nat;
  shared : gmap Z sharedData;
  frames : gmap Z trapframe;
  ctxs : gmap Z context;
  ticks : Z;
  first : Z;                  (* forkret's static variable *)
  ftable : list file;
  pipes : gmap Z pipe;
  icache : list inode;
  bcache : list buf;          (* bcache.buf, then bcache.head at index NBUF *)
  klog : log;
  sb : superblock;
  disk : Z → list Z;          (* contents of each block of the disk *)
  devs : devstate
}.
#[export] Instance eta_kern : Settable kern := λ r,
  mkKern (hw r) (mem r) (freelist r) (use_lock r) (kpgdir r) (procs r) (nextpid r) (initproc r)
    (shared r) (frames r) (ctxs r) (ticks r) (first r) (ftable r) (pipes r) (icache r) (bcache r)
    (klog r) (sb r) (disk r) (devs r).

(** The zeroed globals of the kernel image, on a machine with one CPU that has
    interrupts enabled and runs no process. *)
Definition null_seg : segdesc := mkSeg 0 0 0 0 0 0 0 0 0 0 0 0 0.
Definition boot_cpu : cpu := mkCpu 0 0 0 0 (replicate 6 null_seg) 0 0 0 None.
Definition boot_hw : hwstate := mkHw [boot_cpu] 0 FL_IF 0 (λ _, mkSpinlock 0 "" None).
Definition boot_devs : devstate :=
  mkDev (λ _, []) [] 0 0 (replicate 128 0) 0 0 0 0 0 (replicate (Z.to_nat NDEV) DEV_none) None 0 0 0 0 [] None.
Definition boot_kern : kern :=
  mkKern boot_hw (λ _, 0) 0 0 0 (replicate (Z.to_nat NPROC) zero_proc) 1 None ∅ ∅ ∅ 0 1
    (replicate (Z.to_nat NFILE) zero_file) ∅ (replicate (Z.to_nat NINODE) zero_inode)
    (replicate (S (Z.to_nat NBUF)) zero_buf) (mkLog 0 0 0 0 0 0 (replicate (Z.to_nat LOGSIZE) 0))
    (mkSb 0 0 0 0 0 0 0)
    (λ _, replicate (Z.to_nat BSIZE) 0) boot_devs.

(** A kernel thread gives up the CPU in [swtch] and is resumed later, after other
    threads and interrupt handlers have run.  [resumes] lists what they do to the
    kernel between each switch of the executing thread and its resumption; it is
    an arbitrary parameter of every execution. *)
Record world := mkWorld { ks : kern; resumes : list (kern → kern) }.
#[export] Instance eta_world : Settable world := λ r, mkWorld (ks r) (resumes r).

(** Kernel code. *)
Abbreviation K := (M world).

Definition getk {A} (f : kern → A) : M world A := gets (λ w, f (ks w)).
Definition modk (f : kern → kern) : M world unit := modify (λ w, w <| ks ::= f |>).

Lemma bind_getk {A B} (f : kern → A) (k : A → M world B) w : (getk f ≫= k) w = k (f (ks w)) w.
Proof. done. Qed.
Lemma bind_modk {B} (f : kern → kern) (k : unit → M world B) w :
  (modk f ≫= k) w = k tt (w <| ks ::= f |>).
Proof. done. Qed.

(** Run the leading reads and writes of kernel variables. *)
Ltac kpure :=
  repeat first
    [ rewrite bind_assoc | rewrite bind_getk | rewrite bind_modk
    | rewrite bind_gets | rewrite bind_modify | rewrite bind_ret ];
  cbv beta.

(** ** Loads and stores *)

Lemma fill_in m a n f x : a ≤ x < a + n → fill m a n f x = f (x - a).
Proof.
  intros. unfold fill. destruct (Z.leb_spec a x), (Z.ltb_spec x (a + n)); simpl; lia || done.
Qed.

Lemma fill_out m a n f x : x < a ∨ a + n ≤ x → fill m a n f x = m x.
Proof.
  intros. unfold fill. destruct (Z.leb_spec a x), (Z.ltb_spec x (a + n)); simpl; lia || done.
Qed.

Lemma u8_range x : 0 ≤ u8 x < 256.
Proof. apply Z.mod_pos_bound. done. Qed.

Lemma load32_range m a : is_u32 (load32 m a).
Proof.
  unfold load32. pose proof (u8_range (m a)). pose proof (u8_range (m (a + 1))).
  pose proof (u8_range (m (a + 2))). pose proof (u8_range (m (a + 3))). kl.
Qed.

Lemma load32_ext m m' a : (∀ x, a ≤ x < a + 4 → m x = m' x) → load32 m a = load32 m' a.
Proof. intros H. unfold load32. rewrite !H by lia. done. Qed.

Lemma byte_of_combine v :
  byte_of v 0 + 256 * byte_of v 1 + 65536 * byte_of v 2 + 16777216 * byte_of v 3 = u32 v.
Proof.
  unfold byte_of, u8, u32, two32. rewrite !Z.shiftr_div_pow2 by lia.
  change (2 ^ (8 * 0)) with 1. change (2 ^ (8 * 1)) with 256.
  change (2 ^ (8 * 2)) with 65536. change (2 ^ (8 * 3)) with 16777216. zl.
Qed.

Lemma byte_of_u8 v i : u8 (byte_of v i) = byte_of v i.
Proof. unfold byte_of, u8. by rewrite Z.mod_mod. Qed.

Lemma load32_store32 m a v : load32 (store32 m a v) a = u32 v.
Proof.
  unfold load32, store32. rewrite !fill_in by lia.
  replace (a - a) with 0 by lia. replace (a + 1 - a) with 1 by lia.
  replace (a + 2 - a) with 2 by lia. replace (a + 3 - a) with 3 by lia.
  rewrite !byte_of_u8. apply byte_of_combine.
Qed.

Lemma load32_store32_ne m a b v : a + 4 ≤ b ∨ b + 4 ≤ a → load32 (store32 m a v) b = load32 m b.
Proof. intros. apply load32_ext. intros. unfold store32. apply fill_out. lia. Qed.

Lemma load32_zero m a : (∀ x, a ≤ x < a + 4 → m x = 0) → load32 m a = 0.
Proof. intros H. unfold load32. rewrite !H by lia. done. Qed.
