(* ===== verification/Str.v ===== *)
(** * string.c: memory and string routines

    The kernel's [memset], [memmove], [memcmp] and string functions over byte
    memory, loop by loop.  The theorems give each routine its closed form: what
    every byte of memory holds afterwards. *)

From S2P Require Import Prelude Layout State.

(** ** Definitions *)

Definition store8 (m : memory) (a v : Z) : memory := λ x, if x =? a then v else m x.

(** [cld; rep stosb] and [cld; rep stosl]. *)
Definition stosb (m : memory) (addr data cnt : Z) : memory := fill m addr cnt (λ _, u8 data).
Definition stosl (m : memory) (addr data cnt : Z) : memory :=
  fill m addr (4 * cnt) (λ i, byte_of data (i mod 4)).

Definition memset (m : memory) (dst c n : Z) : memory :=
  if (Z.rem (s32 dst) 4 =? 0) && (n mod 4 =? 0) then
    let c := Z.land c 0xFF in
    stosl m dst (Z.lor (Z.lor (Z.lor (Z.shiftl c 24) (Z.shiftl c 16)) (Z.shiftl c 8)) c) (n / 4)
  else
    stosb m dst c n.

Fixpoint memcmp (m : memory) (s1 s2 : Z) (n : nat) : Z :=
  match n with
  | O => 0
  | S n' =>
      if negb (u8 (m s1) =? u8 (m s2)) then u8 (m s1) - u8 (m s2)
      else memcmp m (s1 + 1) (s2 + 1) n'
  end.

(** The two copy loops of [memmove]: from the end down, and from the start up. *)
Fixpoint copy_down (m : memory) (d s : Z) (n : nat) : memory :=
  match n with
  | O => m
  | S n' => copy_down (store8 m (d - 1) (m (s - 1))) (d - 1) (s - 1) n'
  end.
Fixpoint copy_up (m : memory) (d s : Z) (n : nat) : memory :=
  match n with
  | O => m
  | S n' => copy_up (store8 m d (m s)) (d + 1) (s + 1) n'
  end.

Definition memmove (m : memory) (dst src : Z) (n : nat) : memory :=
  if (src <? dst) && (dst <? src + Z.of_nat n)
  then copy_down m (dst + Z.of_nat n) (src + Z.of_nat n) n
  else copy_up m dst src n.

Definition memcpy (m : memory) (dst src : Z) (n : nat) : memory := memmove m dst src n.

Fixpoint strncmp (m : memory) (p q : Z) (n : nat) : Z :=
  match n with
  | O => 0
  | S n' =>
      if truthy (m p) && (m p =? m q) then strncmp m (p + 1) (q + 1) n'
      else u8 (m p) - u8 (m q)
  end.

(** [while(n-- > 0) *s++ = 0] *)
Fixpoint zero_up (m : memory) (s : Z) (n : nat) : memory :=
  match n with
  | O => m
  | S n' => zero_up (store8 m s 0) (s + 1) n'
  end.

Fixpoint strncpy (m : memory) (s t : Z) (n : nat) : memory :=
  match n with
  | O => m
  | S n' =>
      let c := m t in
      let m' := store8 m s c in
      if truthy c then strncpy m' (s + 1) (t + 1) n' else zero_up m' (s + 1) n'
  end.

(** The copy loop of [safestrcpy] with [k] bytes of room before the terminator. *)
Fixpoint safestrcpy_loop (m : memory) (s t : Z) (k : nat) : memory :=
  match k with
  | O => store8 m s 0
  | S k' =>
      let c := m t in
      let m' := store8 m s c in
      if truthy c then safestrcpy_loop m' (s + 1) (t + 1) k' else store8 m' (s + 1) 0
  end.
Definition safestrcpy (m : memory) (s t n : Z) : memory :=
  if n <=? 0 then m else safestrcpy_loop m s t (Z.to_nat (n - 1)).

(** [for(n = 0; s[n]; n++);] started at index [n]. *)
Fixpoint strlen_loop (fuel : nat) (m : memory) (s n : Z) : option Z :=
  match fuel with
  | O => None
  | S fuel' => if truthy (m (s + n)) then strlen_loop fuel' m s (n + 1) else Some n
  end.
Definition strlen (fuel : nat) (m : memory) (s : Z) : option Z := strlen_loop fuel m s 0.

(** The bytes of a C string of length [k] at [s]. *)
Definition cstring (m : memory) (s : Z) (k : nat) : Prop :=
  (∀ i, 0 ≤ i < Z.of_nat k → m (s + i) ≠ 0) ∧ m (s + Z.of_nat k) = 0.

(** ** Closed forms *)

Lemma store8_eq m a v : store8 m a v a = v.
Proof. unfold store8. by rewrite Z.eqb_refl. Qed.

Lemma store8_ne m a v x : x ≠ a → store8 m a v x = m x.
Proof. unfold store8. by intros ->%Z.eqb_neq. Qed.

(** Rewrites a read of an updated cell. *)
Ltac st8 :=
  repeat match goal with
  | |- context [store8 ?m ?a ?v ?x] =>
      first [ rewrite (store8_ne m a v x) by lia
            | replace (store8 m a v x) with v
                by (symmetry; replace x with a by lia; apply store8_eq) ]
  end.

Lemma truthy_spec x : truthy x = true ↔ x ≠ 0.
Proof. unfold truthy. destruct (Z.eqb_spec x 0); naive_solver. Qed.
Lemma truthy_false x : truthy x = false ↔ x = 0.
Proof. unfold truthy. destruct (Z.eqb_spec x 0); naive_solver. Qed.

Lemma byte_rep_table :
  forallb (λ c, forallb (λ i,
    byte_of (Z.lor (Z.lor (Z.lor (Z.shiftl c 24) (Z.shiftl c 16)) (Z.shiftl c 8)) c) i =? c)
    (seqZ 0 4)) (seqZ 0 256) = true.
Proof. vm_compute. reflexivity. Qed.

(** The word that [memset] stores with [stosl] has the byte in every position. *)
Lemma byte_of_replicated c i : 0 ≤ c < 256 → 0 ≤ i < 4 →
  byte_of (Z.lor (Z.lor (Z.lor (Z.shiftl c 24) (Z.shiftl c 16)) (Z.shiftl c 8)) c) i = c.
Proof.
  intros Hc Hi. pose proof byte_rep_table as H. rewrite forallb_forall in H.
  assert (In c (seqZ 0 256)) as H1%H by (apply list_elem_of_In, elem_of_seqZ; lia).
  rewrite forallb_forall in H1. apply Z.eqb_eq, H1, list_elem_of_In, elem_of_seqZ. lia.
Qed.

(** Both branches of [memset] fill exactly the [n] bytes at [dst]. *)
Lemma memset_closed m dst c n x : 0 ≤ n →
  memset m dst c n x = if (dst <=? x) && (x <? dst + n) then u8 c else m x.
Proof.
  intros Hn. unfold memset.
  destruct (_ && _) eqn:Hal; [|done].
  apply andb_true_iff in Hal as [_ Hn4%Z.eqb_eq].
  unfold stosl, fill. replace (4 * (n / 4)) with n by zl.
  destruct (_ && _); [|done].
  change 0xFF with (Z.ones 8). rewrite Z.land_ones by lia. change (2 ^ 8) with 256.
  apply byte_of_replicated; [apply Z.mod_pos_bound; lia|zl].
Qed.

Lemma memset_in m dst c n x : 0 ≤ n → dst ≤ x < dst + n → memset m dst c n x = u8 c.
Proof.
  intros. rewrite memset_closed by done.
  destruct (Z.leb_spec dst x), (Z.ltb_spec x (dst + n)); simpl; lia || done.
Qed.

Lemma memset_out m dst c n x : 0 ≤ n → x < dst ∨ dst + n ≤ x → memset m dst c n x = m x.
Proof.
  intros. rewrite memset_closed by done.
  destruct (Z.leb_spec dst x), (Z.ltb_spec x (dst + n)); simpl; lia || done.
Qed.

Lemma copy_up_closed n m d s x : d ≤ s ∨ s + Z.of_nat n ≤ d →
  copy_up m d s n x =
    if (d <=? x) && (x <? d + Z.of_nat n) then m (s + (x - d)) else m x.
Proof.
  revert m d s. induction n as [|n IH]; intros m d s Hds; simpl copy_up.
  - destruct (Z.leb_spec d x), (Z.ltb_spec x (d + Z.of_nat 0)); simpl; lia || done.
  - rewrite IH by lia.
    destruct (Z.leb_spec (d + 1) x), (Z.ltb_spec x (d + 1 + Z.of_nat n)),
      (Z.leb_spec d x), (Z.ltb_spec x (d + Z.of_nat (S n))); simpl; try lia; st8; try done;
      f_equal; lia.
Qed.

Lemma copy_down_closed n m d s x : s ≤ d ∨ d + Z.of_nat n ≤ s →
  copy_down m (d + Z.of_nat n) (s + Z.of_nat n) n x =
    if (d <=? x) && (x <? d + Z.of_nat n) then m (s + (x - d)) else m x.
Proof.
  revert m. induction n as [|n IH]; intros m Hds; simpl copy_down.
  - destruct (Z.leb_spec d x), (Z.ltb_spec x (d + Z.of_nat 0)); simpl; lia || done.
  - replace (d + Z.of_nat (S n) - 1) with (d + Z.of_nat n) by lia.
    replace (s + Z.of_nat (S n) - 1) with (s + Z.of_nat n) by lia.
    rewrite IH by lia.
    destruct (Z.leb_spec d x), (Z.ltb_spec x (d + Z.of_nat n)),
      (Z.ltb_spec x (d + Z.of_nat (S n))); simpl; try lia; st8; try done;
      f_equal; lia.
Qed.

(** [memmove] copies correctly whether or not the two ranges overlap. *)
Lemma memmove_closed m dst src n x :
  memmove m dst src n x =
    if (dst <=? x) && (x <? dst + Z.of_nat n) then m (src + (x - dst)) else m x.
Proof.
  unfold memmove.
  destruct (Z.ltb_spec src dst), (Z.ltb_spec dst (src + Z.of_nat n)); simpl;
    first [apply copy_down_closed; lia | apply copy_up_closed; lia].
Qed.

Lemma memmove_in m dst src n x :
  dst ≤ x < dst + Z.of_nat n → memmove m dst src n x = m (src + (x - dst)).
Proof.
  intros. rewrite memmove_closed.
  destruct (Z.leb_spec dst x), (Z.ltb_spec x (dst + Z.of_nat n)); simpl; lia || done.
Qed.

Lemma memmove_out m dst src n x :
  x < dst ∨ dst + Z.of_nat n ≤ x → memmove m dst src n x = m x.
Proof.
  intros. rewrite memmove_closed.
  destruct (Z.leb_spec dst x), (Z.ltb_spec x (dst + Z.of_nat n)); simpl; lia || done.
Qed.

Lemma zero_up_closed n m s x :
  zero_up m s n x = if (s <=? x) && (x <? s + Z.of_nat n) then 0 else m x.
Proof.
  revert m s. induction n as [|n IH]; intros m s; simpl zero_up.
  - destruct (Z.leb_spec s x), (Z.ltb_spec x (s + Z.of_nat 0)); simpl; lia || done.
  - rewrite IH.
    destruct (Z.leb_spec (s + 1) x), (Z.ltb_spec x (s + 1 + Z.of_nat n)),
      (Z.leb_spec s x), (Z.ltb_spec x (s + Z.of_nat (S n))); simpl; try lia; st8; done.
Qed.

Lemma strlen_loop_spec k fuel m s n :
  (∀ i, n ≤ i < n + Z.of_nat k → m (s + i) ≠ 0) → m (s + (n + Z.of_nat k)) = 0 →
  (k < fuel)%nat → strlen_loop fuel m s n = Some (n + Z.of_nat k).
Proof.
  revert fuel n. induction k as [|k IH]; intros [|fuel] n Hnz Hz Hf; try lia; simpl.
  - rewrite (proj2 (truthy_false _)); [f_equal; lia|]. rewrite <- Hz. f_equal. lia.
  - rewrite (proj2 (truthy_spec _)) by (apply Hnz; lia).
    rewrite IH; [f_equal; lia|intros; apply Hnz; lia| |lia].
    rewrite <- Hz. f_equal. lia.
Qed.

(** The string at [p], cut at its first NUL or after [n] bytes. *)
Fixpoint take_str (m : memory) (p : Z) (n : nat) : list Z :=
  match n with
  | O => []
  | S n' => if truthy (m p) then m p :: take_str m (p + 1) n' else []
  end.

Lemma take_str_ext m m' p n :
  (∀ x, p ≤ x < p + Z.of_nat n → m x = m' x) → take_str m p n = take_str m' p n.
Proof.
  revert p. induction n as [|n IH]; intros p H; simpl; [done|].
  rewrite (H p) by lia. destruct (truthy _); [|done]. f_equal. apply IH. intros. apply H. lia.
Qed.

(** Outside the destination, [strncpy] changes nothing. *)
Lemma strncpy_out n m s t x :
  x < s ∨ s + Z.of_nat n ≤ x → strncpy m s t n x = m x.
Proof.
  revert m s t. induction n as [|n IH]; intros m s t Hx; simpl; [done|].
  destruct (truthy (m t)).
  - rewrite IH by lia. apply store8_ne. lia.
  - rewrite zero_up_closed.
    destruct (Z.leb_spec (s + 1) x), (Z.ltb_spec x (s + 1 + Z.of_nat n)); simpl; try lia;
      apply store8_ne; lia.
Qed.

(** The [i]-th byte that [strncpy] leaves in the destination. *)
Lemma strncpy_in n m s t i :
  s + Z.of_nat n ≤ t ∨ t + Z.of_nat n ≤ s → (i < n)%nat →
  strncpy m s t n (s + Z.of_nat i) = default 0 (take_str m t n !! i).
Proof.
  revert m s t i. induction n as [|n IH]; intros m s t i Hd Hi; [lia|]. simpl.
  destruct (truthy (m t)) eqn:Ht.
  - destruct i as [|i].
    + rewrite strncpy_out by lia. st8. done.
    + replace (s + Z.of_nat (S i)) with (s + 1 + Z.of_nat i) by lia.
      rewrite IH by lia. simpl. f_equal. f_equal. apply take_str_ext.
      intros. apply store8_ne. lia.
  - apply truthy_false in Ht. rewrite zero_up_closed.
    destruct (Z.leb_spec (s + 1) (s + Z.of_nat i)),
      (Z.ltb_spec (s + Z.of_nat i) (s + 1 + Z.of_nat n)); simpl; try lia; try done; st8; done.
Qed.

Lemma safestrcpy_loop_out k m s t x :
  x < s ∨ s + Z.of_nat k < x → safestrcpy_loop m s t k x = m x.
Proof.
  revert m s t. induction k as [|k IH]; intros m s t Hx; simpl.
  - apply store8_ne. lia.
  - destruct (truthy (m t)); [rewrite IH by lia|]; st8; done.
Qed.

Lemma safestrcpy_loop_str k m s t :
  s + Z.of_nat k < t ∨ t + Z.of_nat k ≤ s →
  take_str (safestrcpy_loop m s t k) s (S k) = take_str m t k.
Proof.
  revert m s t. induction k as [|k IH]; intros m s t Hd; [simpl; by rewrite store8_eq|].
  simpl safestrcpy_loop. change (take_str m t (S k)) with
    (if truthy (m t) then m t :: take_str m (t + 1) k else []).
  destruct (truthy (m t)) eqn:Ht.
  - set (m' := store8 m s (m t)).
    cut (safestrcpy_loop m' (s + 1) (t + 1) k s = m t); [intros Hs|].
    + change (take_str ?m0 s (S (S k))) with
        (if truthy (m0 s) then m0 s :: take_str m0 (s + 1) (S k) else []).
      rewrite Hs, Ht. f_equal. rewrite IH by lia. apply take_str_ext.
      intros. unfold m'. apply store8_ne. lia.
    + rewrite safestrcpy_loop_out by lia. unfold m'. by st8.
  - cbn [take_str]. by rewrite store8_ne, store8_eq, Ht by lia.
Qed.

(** ** Properties *)

(** [memset(dst, c, n)] leaves the byte [c & 0xff] in each of the [n] bytes
    at [dst] and changes no other byte, on both its word and its byte path. *)
Lemma memset_fills (m : memory) (dst c n : Z) :
  0 ≤ n →
  (∀ x, dst ≤ x < dst + n → memset m dst c n x = u8 c) ∧
  (∀ x, x < dst ∨ dst + n ≤ x → memset m dst c n x = m x).
Proof. auto using memset_in, memset_out. Qed.

(** [memmove(dst, src, n)] makes the [n] bytes at [dst] equal to what the [n]
    bytes at [src] were before the call, and changes no other byte, also when
    the two ranges overlap in either direction. *)
Lemma memmove_copies (m : memory) (dst src : Z) (n : nat) :
  (∀ i, 0 ≤ i < Z.of_nat n → memmove m dst src n (dst + i) = m (src + i)) ∧
  (∀ x, x < dst ∨ dst + Z.of_nat n ≤ x → memmove m dst src n x = m x).
Proof.
  split; [intros i Hi|auto using memmove_out].
  rewrite memmove_in by lia. f_equal. lia.
Qed.

(** [strncmp(p, q, n)] returns 0 exactly when the two strings, each cut at its
    NUL or after [n] bytes, are the same. *)
Lemma strncmp_equal (m : memory) (p q : Z) (n : nat) :
  (∀ x, 0 ≤ m x < 256) →
  strncmp m p q n = 0 ↔ take_str m p n = take_str m q n.
Proof.
  intros Hb. revert p q. induction n as [|n IH]; intros p q; simpl; [done|].
  unfold u8. rewrite !Z.mod_small by apply Hb.
  destruct (truthy (m p)) eqn:Hp, (Z.eqb_spec (m p) (m q)) as [He|He];
    destruct (truthy (m q)) eqn:Hq; simpl;
    rewrite ?truthy_spec, ?truthy_false in *; try congruence; try (split; [lia|congruence]).
  - rewrite IH, He. split; [by intros ->|congruence].
  - split; [done|lia].
Qed.

(** [safestrcpy(s, t, n)] with [n > 0] and non-overlapping buffers leaves at [s]
    the first [n - 1] bytes of the string at [t], always NUL terminated within
    the [n] bytes, and writes nowhere else. *)
Lemma safestrcpy_copies (m : memory) (s t n : Z) :
  0 < n → s + n ≤ t ∨ t + n ≤ s →
  take_str (safestrcpy m s t n) s (Z.to_nat n) = take_str m t (Z.to_nat (n - 1)) ∧
  (∀ x, x < s ∨ s + n ≤ x → safestrcpy m s t n x = m x).
Proof.
  intros Hn Hd. unfold safestrcpy. rewrite (proj2 (Z.leb_gt n 0)) by lia.
  replace (Z.to_nat n) with (S (Z.to_nat (n - 1))) by lia.
  split; [apply safestrcpy_loop_str; lia|].
  intros x Hx. apply safestrcpy_loop_out. lia.
Qed.

