(* ===== verification/Spinlock.v ===== *)
(** * spinlock.c: interrupt masking and spin locks

    [pushcli]/[popcli] with their nesting count, and the spin locks built on
    them.  [hw_at] relates the processor state to an abstract view (which locks
    this CPU holds, which ones other CPUs hold, whether interrupts will be on
    again when the last lock is released, which process runs); every operation
    is specified by its effect on the view.  [Mutex] is the interleaving model
    of several CPUs that compete for one lock. *)

From S2P Require Import Prelude Layout State Str.

Create HintDb kern.

(** ** Definitions *)

Definition readeflags : K Z := getk (λ k, eflags (hw k)).
Definition cli : K unit := modk (λ k, k <| hw ::= λ h, h <| eflags ::= λ e, Z.land e (Z.lnot FL_IF) |> |>).
Definition sti : K unit := modk (λ k, k <| hw ::= λ h, h <| eflags ::= λ e, Z.lor e FL_IF |> |>).

(** [proc.c: mycpu]; the result indexes [cpus]. *)
Definition mycpu : K nat :=
  e ← readeflags;
  if truthy (Z.land e FL_IF) then panic "mycpu called with interrupts enabled" else
  h ← getk hw;
  match list_find (λ c, apicid c = lapicid h) (cpus h) with
  | Some (i, _) => mret i
  | None => panic "unknown apicid"
  end.

Definition cpu_of (i : nat) : K cpu := h ← getk hw; deref (cpus h !! i).
Definition mod_cpu (i : nat) (f : cpu → cpu) : K unit :=
  modk (λ k, k <| hw ::= λ h, h <| cpus ::= alter f i |> |>).
Definition mod_lock (l : lockid) (f : spinlock → spinlock) : K unit :=
  modk (λ k, k <| hw ::= λ h, h <| locks ::= λ g l', if decide (l' = l) then f (g l) else g l' |> |>).

(** [lock; xchgl]: store the new value, return the old one. *)
Definition xchg (l : lockid) (newval : Z) : K Z :=
  old ← getk (λ k, locked (locks (hw k) l));
  _ ← mod_lock l (λ lk, lk <| locked := newval |>);
  mret old.

(** [proc.c: cpuid] *)
Definition cpuid : K Z := i ← mycpu; mret (Z.of_nat i).

Definition pushcli : K unit :=
  e ← readeflags;
  _ ← cli;
  i ← mycpu;
  c ← cpu_of i;
  _ ← when (ncli c =? 0) (mod_cpu i (λ c, c <| intena := Z.land e FL_IF |>));
  mod_cpu i (λ c, c <| ncli ::= λ n, n + 1 |>).

Definition popcli : K unit :=
  e ← readeflags;
  if truthy (Z.land e FL_IF) then panic "popcli - interruptible" else
  i ← mycpu;
  _ ← mod_cpu i (λ c, c <| ncli ::= λ n, n - 1 |>);
  c ← cpu_of i;
  if ncli c <? 0 then panic "popcli" else
  when ((ncli c =? 0) && truthy (intena c)) sti.

Definition initlock (l : lockid) (name : string) : K unit :=
  mod_lock l (λ _, mkSpinlock 0 name None).

Definition holding (l : lockid) : K bool :=
  _ ← pushcli;
  lk ← getk (λ k, locks (hw k) l);
  r ← (if truthy (locked lk) then i ← mycpu; mret (bool_decide (lcpu lk = Some i)) else mret false);
  _ ← popcli;
  mret r.

Definition spin {A} : K A := λ _, Spin.

(** The loop on [xchg] ends at once when the lock is free; otherwise the CPU
    spins until another CPU releases the lock. *)
Definition acquire (l : lockid) : K unit :=
  _ ← pushcli;
  h ← holding l;
  if (h : bool) then panic "acquire" else
  old ← xchg l 1;
  if truthy old then spin else
  i ← mycpu;
  mod_lock l (λ lk, lk <| lcpu := Some i |>).

Definition release (l : lockid) : K unit :=
  h ← holding l;
  if negb h then panic "release" else
  _ ← mod_lock l (λ lk, lk <| lcpu := None |>);
  _ ← mod_lock l (λ lk, lk <| locked := 0 |>);
  popcli.

(** [proc.c: myproc] *)
Definition myproc : K (option nat) :=
  _ ← pushcli;
  i ← mycpu;
  c ← cpu_of i;
  _ ← popcli;
  mret (cproc c).

(** ** The processor seen through its locks *)

Record hwview := mkView {
  hv_cpu : nat;               (* the executing CPU *)
  hv_proc : option nat;       (* the process it runs *)
  hv_cr3 : Z;                 (* the page table in use *)
  hv_ie : bool;               (* interrupts when no lock is held *)
  hv_held : gset lockid;      (* locks this CPU holds *)
  hv_others : gset lockid     (* locks other CPUs hold *)
}.
#[export] Instance eta_hwview : Settable hwview := λ r,
  mkView (hv_cpu r) (hv_proc r) (hv_cr3 r) (hv_ie r) (hv_held r) (hv_others r).

Definition if_set (h : hwstate) : bool := truthy (Z.land (eflags h) FL_IF).

(** [hw_at n h v]: the processor state [h] looks like [v], with [n] calls of
    [pushcli] outstanding beyond the ones of the held locks. *)
Record hw_at (n : nat) (h : hwstate) (v : hwview) (c : cpu) : Prop := mkHwAt {
  hw_find : list_find (λ c, apicid c = lapicid h) (cpus h) = Some (hv_cpu v, c);
  hw_ncli : ncli c = Z.of_nat (size (hv_held v) + n);
  hw_proc : cproc c = hv_proc v;
  hw_cr3 : cr3 h = hv_cr3 v;
  hw_if : if_set h = if decide (ncli c = 0) then hv_ie v else false;
  hw_ie : ncli c ≠ 0 → truthy (intena c) = hv_ie v;
  hw_held : ∀ l, l ∈ hv_held v → locked (locks h l) = 1 ∧ lcpu (locks h l) = Some (hv_cpu v);
  hw_others : ∀ l, l ∈ hv_others v → locked (locks h l) = 1 ∧ lcpu (locks h l) ≠ Some (hv_cpu v);
  hw_free : ∀ l, l ∉ hv_held v → l ∉ hv_others v →
            locked (locks h l) = 0 ∧ lcpu (locks h l) = None
}.

Definition hw_view (n : nat) (h : hwstate) (v : hwview) : Prop := ∃ c, hw_at n h v c.

(** No [pushcli] beyond those of the held locks: the state in which kernel code
    runs between calls. *)
Definition hw_ok (h : hwstate) (v : hwview) : Prop := hw_view 0 h v.

Definition with_hw (h : hwstate) (w : world) : world := w <| ks ::= λ k, k <| hw := h |> |>.

Definition v_hold (l : lockid) (v : hwview) : hwview := v <| hv_held ::= λ s, {[l]} ∪ s |>.
Definition v_drop (l : lockid) (v : hwview) : hwview := v <| hv_held ::= λ s, s ∖ {[l]} |>.

(** ** Lemmas on the flags register *)

Lemma land_FL_IF e : Z.land e FL_IF = 512 * Z.b2z (Z.testbit e 9).
Proof. exact (land_flag_bit e 9 ltac:(lia)). Qed.

Lemma cli_clears e : truthy (Z.land (Z.land e (Z.lnot FL_IF)) FL_IF) = false.
Proof.
  rewrite land_FL_IF, Z.land_spec, Z.lnot_spec by lia.
  change (Z.testbit FL_IF 9) with true. by rewrite andb_false_r.
Qed.

Lemma sti_sets e : truthy (Z.land (Z.lor e FL_IF) FL_IF) = true.
Proof.
  rewrite land_FL_IF, Z.lor_spec. change (Z.testbit FL_IF 9) with true.
  by rewrite orb_true_r.
Qed.

Lemma with_hw_hw h w : hw (ks (with_hw h w)) = h.
Proof. done. Qed.
Lemma with_hw_twice h h' w : with_hw h (with_hw h' w) = with_hw h w.
Proof. done. Qed.
Lemma with_hw_self w : with_hw (hw (ks w)) w = w.
Proof. by destruct w as [[] ]. Qed.

Lemma list_find_alter {A} (P : A → Prop) `{∀ x, Decision (P x)} (f : A → A) l i x :
  list_find P l = Some (i, x) → (P (f x) ↔ P x) →
  list_find P (alter f i l) = Some (i, f x).
Proof.
  rewrite !list_find_Some. intros (Hl & HP & Hlt) Hfx.
  split_and!; [by rewrite list_lookup_alter_eq, Hl|by apply Hfx|].
  intros j y Hy Hj. rewrite list_lookup_alter_ne in Hy by lia. by eapply Hlt.
Qed.

(** Changing fields of the current CPU other than its APIC id keeps it current. *)
Lemma hw_find_alter h i c f :
  list_find (λ c, apicid c = lapicid h) (cpus h) = Some (i, c) → apicid (f c) = apicid c →
  list_find (λ c, apicid c = lapicid h) (alter f i (cpus h)) = Some (i, f c).
Proof. intros Hf Ha. apply list_find_alter; [done|]. by rewrite Ha. Qed.

Lemma hw_lookup h i c :
  list_find (λ c, apicid c = lapicid h) (cpus h) = Some (i, c) → cpus h !! i = Some c.
Proof. by intros (?&_&_)%list_find_Some. Qed.

(** ** Specifications *)

Lemma mycpu_spec w i c :
  list_find (λ c, apicid c = lapicid (hw (ks w))) (cpus (hw (ks w))) = Some (i, c) →
  if_set (hw (ks w)) = false → mycpu w = Ok i w.
Proof.
  intros Hc Hif. unfold mycpu, readeflags. kpure.
  unfold if_set in Hif. rewrite Hif. kpure. by rewrite Hc.
Qed.

Lemma cpu_of_spec w i c : cpus (hw (ks w)) !! i = Some c → cpu_of i w = Ok c w.
Proof. intros H. unfold cpu_of. kpure. by rewrite H. Qed.

Lemma pushcli_spec n w v :
  hw_view n (hw (ks w)) v →
  ∃ h', hw_view (S n) h' v ∧ if_set h' = false ∧ pushcli w = Ok tt (with_hw h' w).
Proof.
  intros (c & Hc). destruct w as [k rs]. set (h := hw k) in *.
  pose (c1 := if ncli c =? 0 then c <| intena := Z.land (eflags h) FL_IF |> else c).
  pose (c2 := c1 <| ncli ::= λ n, n + 1 |>).
  pose proof (hw_lookup _ _ _ (hw_find _ _ _ _ Hc)) as Hl.
  set (h0 := h <| eflags ::= λ e, Z.land e (Z.lnot FL_IF) |>).
  exists (h0 <| cpus ::= alter (λ _, c2) (hv_cpu v) |>).
  assert (if_set h0 = false) as Hif by apply cli_clears.
  split_and!.
  - exists c2. destruct Hc as [Hf Hn Hp Hcr Hi Hie Hh Ho Hfr].
    assert (apicid c2 = apicid c) as Ha by (unfold c2, c1; by destruct (ncli c =? 0)).
    assert (ncli c2 = ncli c + 1) as Hn2 by (unfold c2, c1; by destruct (ncli c =? 0)).
    assert (cproc c2 = cproc c) as Hp2 by (unfold c2, c1; by destruct (ncli c =? 0)).
    assert (truthy (intena c2) = hv_ie v) as Hi2.
    { unfold c2, c1. destruct (Z.eqb_spec (ncli c) 0) as [Hz|Hz]; [|by apply Hie].
      rewrite decide_True in Hi by done. exact Hi. }
    clearbody c2. split; simpl; try done; try congruence; try lia.
    + exact (hw_find_alter h _ _ (λ _, c2) Hf Ha).
    + rewrite decide_False by lia. exact Hif.
  - exact Hif.
  - unfold pushcli, readeflags, cli. kpure.
    set (w0 := _ <| ks ::= _ |>).
    assert (mycpu w0 = Ok (hv_cpu v) w0) as Hm.
    { apply (mycpu_spec w0 _ c); [exact (hw_find _ _ _ _ Hc)|exact Hif]. }
    mstep Hm. mstep cpu_of_spec; [exact Hl|].
    unfold mod_cpu, when. unfold c2, c1.
    destruct (ncli c =? 0) eqn:Hz; kpure; unfold modk, modify, with_hw, w0; simpl;
      unfold set; simpl; rewrite ?list_alter_alter_eq; by erewrite !list_alter_insert by exact Hl.
Qed.

Lemma hw_if_false n h v c : hw_at (S n) h v c → if_set h = false.
Proof. intros Hc. rewrite (hw_if _ _ _ _ Hc), decide_False; [done|]. rewrite (hw_ncli _ _ _ _ Hc). lia. Qed.

Lemma popcli_spec n w v :
  hw_view (S n) (hw (ks w)) v →
  ∃ h', hw_view n h' v ∧ popcli w = Ok tt (with_hw h' w).
Proof.
  intros (c & Hc). pose proof (hw_lookup _ _ _ (hw_find _ _ _ _ Hc)) as Hl.
  pose proof (hw_if_false _ _ _ _ Hc) as Hif. set (h := hw (ks w)) in *.
  pose (c2 := c <| ncli ::= λ n, n - 1 |>).
  pose (h0 := h <| cpus ::= alter (λ c, c <| ncli ::= λ n, n - 1 |>) (hv_cpu v) |>).
  pose (h1 := if (ncli c2 =? 0) && truthy (intena c2)
              then h0 <| eflags ::= λ e, Z.lor e FL_IF |> else h0).
  exists h1. split.
  - exists c2. destruct Hc as [Hf Hn Hp Hcr Hi Hie Hh Ho Hfr].
    assert (cpus h1 = alter (λ c, c <| ncli ::= λ n, n - 1 |>) (hv_cpu v) (cpus h)) as Hcp
      by (unfold h1; by destruct (_ && _)).
    assert (lapicid h1 = lapicid h ∧ cr3 h1 = cr3 h ∧ locks h1 = locks h) as (Hla & Hc3 & Hlk)
      by (unfold h1; by destruct (_ && _)).
    split; rewrite ?Hla, ?Hc3, ?Hlk, ?Hcp; try done.
    + apply (hw_find_alter h _ _ (λ c, c <| ncli ::= λ n, n - 1 |>) Hf). done.
    + simpl. lia.
    + unfold h1, c2 in *; simpl. destruct (Z.eqb_spec (ncli c - 1) 0) as [Hz|Hz]; simpl.
      * rewrite decide_True by done. rewrite <- Hie by lia.
        destruct (truthy (intena c)); [apply sti_sets|exact Hif].
      * rewrite decide_False by done. exact Hif.
    + intros Hz. apply Hie. lia.
  - unfold popcli, readeflags. kpure. fold h. unfold if_set in Hif. rewrite Hif.
    mstep mycpu_spec; [exact (hw_find _ _ _ _ Hc)|exact Hif|].
    unfold mod_cpu. kpure.
    mstep cpu_of_spec; [simpl; rewrite list_lookup_alter_eq; fold h; by rewrite Hl|].
    fold c2. destruct (Z.ltb_spec (ncli c2) 0) as [Hlt|_].
    { pose proof (hw_ncli _ _ _ _ Hc). simpl in Hlt. lia. }
    unfold h1, when. by destruct (_ && _).
Qed.

(** A computation that may only change the processor's bookkeeping, not its view. *)
Definition keeps_view {A} (m : K A) (a : A) (n : nat) (v : hwview) (w : world) : Prop :=
  ∃ h', hw_view n h' v ∧ m w = Ok a (with_hw h' w).

Lemma holding_spec n w v l :
  hw_view n (hw (ks w)) v → keeps_view (holding l) (bool_decide (l ∈ hv_held v)) n v w.
Proof.
  intros Hv. destruct (pushcli_spec _ _ _ Hv) as (h1 & (c & Hc) & Hif & Hpush).
  destruct (popcli_spec n (with_hw h1 w) v) as (h2 & Hv2 & Hpop); [by exists c|].
  exists h2. split; [done|]. unfold holding. mstep Hpush. kpure.
  etransitivity; [eapply bind_ok|].
  2: { mstep Hpop. reflexivity. }
  simpl. destruct (decide (l ∈ hv_held v)) as [Hin|Hin].
  - destruct (hw_held _ _ _ _ Hc l Hin) as [Hl1 Hl2]. rewrite Hl1. simpl.
    mstep mycpu_spec; [exact (hw_find _ _ _ _ Hc)|exact Hif|].
    rewrite Hl2. by rewrite !bool_decide_eq_true_2.
  - rewrite (bool_decide_eq_false_2 (l ∈ _)) by done.
    destruct (decide (l ∈ hv_others v)) as [Ho|Ho].
    + destruct (hw_others _ _ _ _ Hc l Ho) as [Hl1 Hl2]. rewrite Hl1. simpl.
      mstep mycpu_spec; [exact (hw_find _ _ _ _ Hc)|exact Hif|].
      by rewrite bool_decide_eq_false_2.
    + destruct (hw_free _ _ _ _ Hc l Hin Ho) as [Hl1 Hl2]. by rewrite Hl1.
Qed.

Lemma myproc_spec n w v :
  hw_view n (hw (ks w)) v → keeps_view myproc (hv_proc v) n v w.
Proof.
  intros Hv. destruct (pushcli_spec _ _ _ Hv) as (h1 & (c & Hc) & Hif & Hpush).
  destruct (popcli_spec n (with_hw h1 w) v) as (h2 & Hv2 & Hpop); [by exists c|].
  exists h2. split; [done|]. unfold myproc. mstep Hpush.
  mstep mycpu_spec; [exact (hw_find _ _ _ _ Hc)|exact Hif|].
  mstep cpu_of_spec; [exact (hw_lookup _ _ _ (hw_find _ _ _ _ Hc))|].
  mstep Hpop. simpl. by rewrite (hw_proc _ _ _ _ Hc).
Qed.

(** [h'] differs from [h] only in the state of lock [l]. *)
Record only_lock (l : lockid) (h h' : hwstate) : Prop := mkOnlyLock {
  ol_cpus : cpus h' = cpus h;
  ol_lapicid : lapicid h' = lapicid h;
  ol_eflags : eflags h' = eflags h;
  ol_cr3 : cr3 h' = cr3 h;
  ol_locks : ∀ l', l' ≠ l → locks h' l' = locks h l'
}.

(** Taking a free lock under one outstanding [pushcli] turns the nesting level
    into a held lock. *)
Lemma hw_view_take n h h' v l :
  hw_view (S n) h v → l ∉ hv_held v → l ∉ hv_others v → only_lock l h h' →
  locked (locks h' l) = 1 → lcpu (locks h' l) = Some (hv_cpu v) →
  hw_view n h' (v_hold l v).
Proof.
  intros (c & [Hf Hn Hp Hcr Hi Hie Hh Ho Hfr]) Hl1 Hl2 [E1 E2 E3 E4 E5] Hlk Hcpu. exists c.
  split; rewrite ?E1, ?E2, ?E4; try done; simpl.
  - rewrite size_union, size_singleton by set_solver. rewrite Hn. lia.
  - unfold if_set in *. by rewrite E3.
  - intros l' Hin. destruct (decide (l' = l)) as [->|]; [done|]. rewrite E5 by done.
    apply Hh. set_solver.
  - intros l' Hin. rewrite E5 by congruence. by apply Ho.
  - intros l' H1 H2. rewrite E5 by set_solver. apply Hfr; set_solver.
Qed.

(** Freeing a held lock leaves its [pushcli] outstanding. *)
Lemma hw_view_free n h h' v l :
  hw_view n h v → l ∈ hv_held v → l ∉ hv_others v → only_lock l h h' →
  locked (locks h' l) = 0 → lcpu (locks h' l) = None →
  hw_view (S n) h' (v_drop l v).
Proof.
  intros (c & [Hf Hn Hp Hcr Hi Hie Hh Ho Hfr]) Hl1 Hl2 [E1 E2 E3 E4 E5] Hlk Hcpu. exists c.
  split; rewrite ?E1, ?E2, ?E4; try done; simpl.
  - rewrite size_difference by set_solver. rewrite size_singleton.
    assert (size (hv_held v) ≠ 0%nat) by (intros ?%size_empty_inv; set_solver). lia.
  - unfold if_set in *. by rewrite E3.
  - intros l' Hin. rewrite E5 by set_solver. apply Hh. set_solver.
  - intros l' Hin. rewrite E5 by congruence. by apply Ho.
  - intros l' H1 H2. destruct (decide (l' = l)) as [->|]; [done|]. rewrite E5 by done.
    apply Hfr; set_solver.
Qed.

Lemma view_disjoint n h v l : hw_view n h v → l ∈ hv_held v → l ∉ hv_others v.
Proof.
  intros (c & Hc) H1 H2. destruct (hw_held _ _ _ _ Hc l H1), (hw_others _ _ _ _ Hc l H2). done.
Qed.

Lemma acquire_spec n w v l :
  hw_view n (hw (ks w)) v → l ∉ hv_held v → l ∉ hv_others v →
  ∃ h', hw_view n h' (v_hold l v) ∧ acquire l w = Ok tt (with_hw h' w).
Proof.
  intros Hv Hl1 Hl2. destruct (pushcli_spec _ _ _ Hv) as (h1 & Hv1 & _ & Hpush).
  destruct (holding_spec (S n) (with_hw h1 w) v l Hv1) as (h2 & Hv2 & Hhold).
  rewrite bool_decide_eq_false_2, with_hw_twice in Hhold by done.
  destruct (id Hv2) as (c & Hc). destruct (hw_free _ _ _ _ Hc l Hl1 Hl2) as [Hlk Hcpu].
  eexists. split; cycle 1.
  - unfold acquire. mstep Hpush. mstep Hhold. simpl. unfold xchg, mod_lock. kpure. simpl.
    rewrite Hlk. simpl.
    mstep mycpu_spec; [exact (hw_find _ _ _ _ Hc)|exact (hw_if_false _ _ _ _ Hc)|].
    unfold modk, modify. unfold with_hw. simpl.
    match goal with |- Ok tt ?x = _ => change x with (with_hw (hw (ks x)) w) end. reflexivity.
  - eapply (hw_view_take n h2); try done; simpl.
    + split; simpl; try done. intros l' Hne. by rewrite !decide_False.
    + by rewrite !decide_True.
    + by rewrite !decide_True.
Qed.

Lemma acquire_held n w v l :
  hw_view n (hw (ks w)) v → l ∈ hv_held v → acquire l w = Panic "acquire".
Proof.
  intros Hv Hl. destruct (pushcli_spec _ _ _ Hv) as (h1 & Hv1 & _ & Hpush).
  destruct (holding_spec (S n) (with_hw h1 w) v l Hv1) as (h2 & Hv2 & Hhold).
  rewrite bool_decide_eq_true_2 in Hhold by done.
  unfold acquire. mstep Hpush. by mstep Hhold.
Qed.

Lemma acquire_spins n w v l :
  hw_view n (hw (ks w)) v → l ∈ hv_others v → acquire l w = Spin.
Proof.
  intros Hv Hl. destruct (pushcli_spec _ _ _ Hv) as (h1 & Hv1 & _ & Hpush).
  destruct (holding_spec (S n) (with_hw h1 w) v l Hv1) as (h2 & (c & Hc) & Hhold).
  rewrite bool_decide_eq_false_2, with_hw_twice in Hhold
    by (intros Hin; by eapply view_disjoint).
  destruct (hw_others _ _ _ _ Hc l Hl) as [Hlk _].
  unfold acquire. mstep Hpush. mstep Hhold. simpl. unfold xchg, mod_lock. kpure. simpl.
  by rewrite Hlk.
Qed.

Lemma release_spec n w v l :
  hw_view n (hw (ks w)) v → l ∈ hv_held v →
  ∃ h', hw_view n h' (v_drop l v) ∧ release l w = Ok tt (with_hw h' w).
Proof.
  intros Hv Hl. destruct (holding_spec n w v l Hv) as (h1 & Hv1 & Hhold).
  rewrite bool_decide_eq_true_2 in Hhold by done.
  set (h2 := h1 <| locks ::= λ g l', if decide (l' = l) then (g l) <| lcpu := None |> else g l' |>
               <| locks ::= λ g l', if decide (l' = l) then (g l) <| locked := 0 |> else g l' |>).
  assert (hw_view (S n) h2 (v_drop l v)) as Hv2.
  { eapply (hw_view_free n h1); try done; [by eapply view_disjoint|..]; simpl.
    - split; try done. intros l' Hne. simpl. by rewrite !decide_False.
    - by rewrite !decide_True.
    - by rewrite !decide_True. }
  destruct (popcli_spec n (with_hw h2 w) _ Hv2) as (h3 & Hv3 & Hpop).
  exists h3. split; [done|]. unfold release. mstep Hhold. simpl. unfold mod_lock. kpure.
  rewrite with_hw_twice in Hpop. exact Hpop.
Qed.

Lemma release_not_held n w v l :
  hw_view n (hw (ks w)) v → l ∉ hv_held v → release l w = Panic "release".
Proof.
  intros Hv Hl. destruct (holding_spec n w v l Hv) as (h1 & Hv1 & Hhold).
  rewrite bool_decide_eq_false_2 in Hhold by done. unfold release. by mstep Hhold.
Qed.

(** ** Executions described by their effect

    [runs m w a k' v']: from [w], [m] returns [a]; the kernel data is then that
    of [k'] and the processor looks like [v'].  The processor state itself
    ([hw]) is described by the view only. *)
Definition runs {A} (m : K A) (w : world) (a : A) (k' : kern) (v' : hwview) : Prop :=
  ∃ h', hw_ok h' v' ∧ m w = Ok a (mkWorld (k' <| hw := h' |>) (resumes w)).

Lemma runs_ret {A} (a : A) w v : hw_ok (hw (ks w)) v → runs (mret a) w a (ks w) v.
Proof. intros Hv. exists (hw (ks w)). split; [done|]. by destruct w as [[] ]. Qed.

Lemma runs_bind {A B} (m : K A) (f : A → K B) w a k1 v1 b k2 v2 :
  runs m w a k1 v1 →
  (∀ h, hw_ok h v1 → runs (f a) (mkWorld (k1 <| hw := h |>) (resumes w)) b k2 v2) →
  runs (m ≫= f) w b k2 v2.
Proof.
  intros (h1 & Hv1 & H1) H2. destruct (H2 h1 Hv1) as (h2 & Hv2 & H3).
  exists h2. split; [done|]. by mstep H1.
Qed.

(** Composition with a concrete intermediate state. *)
Lemma runs_step {A B} (m : K A) (f : A → K B) w a w1 b k v :
  m w = Ok a w1 → resumes w1 = resumes w → runs (f a) w1 b k v → runs (m ≫= f) w b k v.
Proof. intros H1 Hr (h & Hv & H2). exists h. split; [done|]. mstep H1. by rewrite H2, Hr. Qed.

Lemma runs_getk {A B} (f : kern → A) (g : A → K B) w b k v :
  runs (g (f (ks w))) w b k v → runs (getk f ≫= g) w b k v.
Proof. intros (h & Hv & H). exists h. split; [done|]. by rewrite bind_getk. Qed.

Lemma runs_modk {B} (f : kern → kern) (g : unit → K B) w b k v :
  runs (g tt) (w <| ks ::= f |>) b k v → runs (modk f ≫= g) w b k v.
Proof. intros (h & Hv & H). exists h. split; [done|]. by rewrite bind_modk. Qed.

Lemma runs_modk_end (f : kern → kern) w v :
  hw_ok (hw (f (ks w))) v → runs (modk f) w tt (f (ks w)) v.
Proof.
  intros Hv. exists (hw (f (ks w))). split; [done|]. unfold modk, modify.
  destruct w as [k rs]. simpl. unfold set. simpl. by destruct (f k).
Qed.

Lemma runs_bind_ret {A B} (a : A) (g : A → K B) w b k v :
  runs (g a) w b k v → runs (mret a ≫= g) w b k v.
Proof. done. Qed.

Lemma runs_assoc {A B C} (m : K A) (f : A → K B) (g : B → K C) w c k v :
  runs (m ≫= λ a, f a ≫= g) w c k v → runs ((m ≫= f) ≫= g) w c k v.
Proof. intros (h & Hv & H). exists h. split; [done|]. by rewrite bind_assoc. Qed.

(** The data of [k'] matters only up to the processor state. *)
Lemma runs_data {A} (m : K A) w a k k' v :
  runs m w a k v → k' = k <| hw := hw k' |> → runs m w a k' v.
Proof. intros (h1 & Hv & H) ->. exists h1. by split. Qed.

Lemma runs_of_with_hw {A} (m : K A) w a v :
  keeps_view m a 0 v w → runs m w a (ks w) v.
Proof. intros (h & Hv & H). exists h. split; [done|]. rewrite H. by destruct w. Qed.

Lemma runs_acquire w v l :
  hw_ok (hw (ks w)) v → l ∉ hv_held v → l ∉ hv_others v →
  runs (acquire l) w tt (ks w) (v_hold l v).
Proof.
  intros Hv H1 H2. destruct (acquire_spec 0 w v l Hv H1 H2) as (h & Hv' & H).
  exists h. split; [done|]. rewrite H. by destruct w.
Qed.

Lemma runs_release w v l :
  hw_ok (hw (ks w)) v → l ∈ hv_held v → runs (release l) w tt (ks w) (v_drop l v).
Proof.
  intros Hv H1. destruct (release_spec 0 w v l Hv H1) as (h & Hv' & H).
  exists h. split; [done|]. rewrite H. by destruct w.
Qed.

Lemma runs_myproc w v : hw_ok (hw (ks w)) v → runs myproc w (hv_proc v) (ks w) v.
Proof. intros Hv. by apply runs_of_with_hw, myproc_spec. Qed.

Lemma v_drop_hold l v : l ∉ hv_held v → v_drop l (v_hold l v) = v.
Proof. intros H. destruct v. unfold v_drop, v_hold, set. simpl in *. f_equal. set_solver. Qed.

Lemma in_v_hold l v : l ∈ hv_held (v_hold l v).
Proof. simpl. set_solver. Qed.

#[export] Hint Resolve in_v_hold : kern.

(** [rstep H]: run one command with the specification [H]. *)
Ltac rstep H := eapply runs_bind; [eapply H | let h := fresh "h" in let Hh := fresh "Hh" in intros h Hh].
(** Run leading reads, writes and returns. *)
Ltac rpure :=
  repeat first
    [ apply runs_assoc | apply runs_getk | apply runs_modk | apply runs_bind_ret ];
  cbv beta.

(** ** Total correctness

    [post m w v' Q]: from [w], [m] returns (it does not panic, fault, spin or
    block) a value and a kernel that satisfy [Q], with the processor in view
    [v']. *)
Definition post {A} (m : K A) (w : world) (v' : hwview) (Q : A → kern → Prop) : Prop :=
  ∃ a w', m w = Ok a w' ∧ hw_ok (hw (ks w')) v' ∧ resumes w' = resumes w ∧ Q a (ks w').

Lemma post_ret {A} (a : A) w v (Q : A → kern → Prop) :
  hw_ok (hw (ks w)) v → Q a (ks w) → post (mret a) w v Q.
Proof. intros Hv HQ. by exists a, w. Qed.

Lemma post_bind {A B} (m : K A) (f : A → K B) w v1 v2 Q1 Q2 :
  post m w v1 Q1 →
  (∀ a w1, hw_ok (hw (ks w1)) v1 → resumes w1 = resumes w → Q1 a (ks w1) → post (f a) w1 v2 Q2) →
  post (m ≫= f) w v2 Q2.
Proof.
  intros (a & w1 & H1 & Hv1 & Hr1 & HQ1) H2.
  destruct (H2 a w1 Hv1 Hr1 HQ1) as (b & w2 & H3 & Hv2 & Hr2 & HQ2).
  exists b, w2. split_and!; [by mstep H1|done|congruence|done].
Qed.

Lemma post_mono {A} (m : K A) w v (Q Q' : A → kern → Prop) :
  post m w v Q → (∀ a k, Q a k → Q' a k) → post m w v Q'.
Proof. intros (a & w' & H & Hv & Hr & HQ) HQQ. exists a, w'. auto. Qed.

Lemma post_eq {A} (m m' : K A) w v Q : m w = m' w → post m' w v Q → post m w v Q.
Proof. unfold post. by intros ->. Qed.

Lemma post_getk {A B} (f : kern → A) (g : A → K B) w v Q :
  post (g (f (ks w))) w v Q → post (getk f ≫= g) w v Q.
Proof. done. Qed.

Lemma post_modk {B} (f : kern → kern) (g : unit → K B) w v Q :
  post (g tt) (w <| ks ::= f |>) v Q → post (modk f ≫= g) w v Q.
Proof. done. Qed.

Lemma post_modk_end (f : kern → kern) w v (Q : unit → kern → Prop) :
  hw_ok (hw (f (ks w))) v → Q tt (f (ks w)) → post (modk f) w v Q.
Proof. intros Hv HQ. by exists tt, (w <| ks ::= f |>). Qed.

Lemma post_bind_ret {A B} (a : A) (g : A → K B) w v Q :
  post (g a) w v Q → post (mret a ≫= g) w v Q.
Proof. done. Qed.

Lemma post_assoc {A B C} (m : K A) (f : A → K B) (g : B → K C) w v Q :
  post (m ≫= λ a, f a ≫= g) w v Q → post ((m ≫= f) ≫= g) w v Q.
Proof.
  intros (a & w' & H & Hv & Hr & HQ). exists a, w'. by rewrite bind_assoc.
Qed.

Lemma post_runs {A} (m : K A) w a k v :
  runs m w a k v → post m w v (λ a' k', a' = a ∧ k' = k <| hw := hw k' |>).
Proof.
  intros (h & Hv & H). exists a, (mkWorld (k <| hw := h |>) (resumes w)). done.
Qed.

(** A specification of [m] that determines the data of the final kernel. *)
Lemma post_bind_runs {A B} (m : K A) (f : A → K B) w a k1 v1 v2 Q :
  runs m w a k1 v1 →
  (∀ h, hw_ok h v1 → post (f a) (mkWorld (k1 <| hw := h |>) (resumes w)) v2 Q) →
  post (m ≫= f) w v2 Q.
Proof.
  intros (h & Hv & H) H2. destruct (H2 h Hv) as (b & w2 & H3 & Hv2 & Hr2 & HQ2).
  exists b, w2. split_and!; [by mstep H|done..].
Qed.

(** Run leading reads, writes and returns of a [post] goal. *)
Ltac ppure :=
  repeat lazymatch goal with
    | |- post (mbind _ (mbind _ _)) _ _ _ => apply post_assoc
    | |- post (mbind _ (getk _)) _ _ _ => apply post_getk
    | |- post (mbind _ (modk _)) _ _ _ => apply post_modk
    | |- post (mbind _ (mret _)) _ _ _ => apply post_bind_ret
    end;
  cbv beta.

(** The view of the boot processor. *)
Definition boot_view : hwview := mkView 0 None 0 true ∅ ∅.

Lemma boot_hw_ok : hw_ok boot_hw boot_view.
Proof. exists boot_cpu. split; try done; set_solver. Qed.

(** ** Several CPUs and one lock

    Each CPU runs [acquire] and [release] on the same lock; their steps
    interleave arbitrarily at the granularity of the atomic [xchg]. *)
Module Mutex.

Inductive pc :=
| Idle        (* outside acquire *)
| Trying      (* in acquire's loop on xchg *)
| Critical.   (* between the end of acquire and release *)

Record mstate := mkM { m_locked : Z; m_owner : option nat; m_pc : nat → pc }.

Definition set_pc (i : nat) (p : pc) (f : nat → pc) : nat → pc :=
  λ j, if decide (j = i) then p else f j.

(** One iteration of [while(xchg(&lk->locked, 1) != 0)] and, when it leaves the
    loop, the assignment [lk->cpu = mycpu()]. *)
Definition xchg_step (i : nat) (s : mstate) : mstate :=
  let old := m_locked s in
  if truthy old then mkM 1 (m_owner s) (m_pc s)
  else mkM 1 (Some i) (set_pc i Critical (m_pc s)).

(** [lk->cpu = 0] and the store of 0 to [lk->locked]. *)
Definition release_step (i : nat) (s : mstate) : mstate :=
  mkM 0 None (set_pc i Idle (m_pc s)).

Inductive step : mstate → mstate → Prop :=
| step_enter i s : m_pc s i = Idle →
    step s (mkM (m_locked s) (m_owner s) (set_pc i Trying (m_pc s)))
| step_xchg i s : m_pc s i = Trying → step s (xchg_step i s)
| step_release i s : m_pc s i = Critical → step s (release_step i s).

(** After [initlock], with every CPU outside the lock. *)
Definition init : mstate := mkM 0 None (λ _, Idle).

Inductive reachable : mstate → Prop :=
| reach_init : reachable init
| reach_step s s' : reachable s → step s s' → reachable s'.

Definition inv (s : mstate) : Prop :=
  match m_owner s with
  | None => m_locked s = 0 ∧ ∀ i, m_pc s i ≠ Critical
  | Some o => m_locked s = 1 ∧ ∀ i, m_pc s i = Critical ↔ i = o
  end.

Lemma inv_step s s' : inv s → step s s' → inv s'.
Proof.
  intros Hi Hs. revert Hi. unfold inv.
  destruct Hs as [i s0 Hpc|i s0 Hpc|i s0 Hpc]; intros Hi; simpl.
  - destruct (m_owner s0) as [o|]; destruct Hi as [Hl Hi]; split; try done; intros j;
      unfold set_pc; destruct (decide (j = i)) as [->|]; naive_solver congruence.
  - unfold xchg_step. destruct (m_owner s0) as [o|] eqn:Ho; destruct Hi as [Hl Hi]; rewrite Hl; simpl.
    + done.
    + split; [done|]. intros j. unfold set_pc. destruct (decide (j = i)); naive_solver.
  - split; [done|]. intros j. unfold set_pc. destruct (decide (j = i)) as [->|]; [done|].
    destruct (m_owner s0) as [o|]; destruct Hi as [_ Hi]; [|by apply Hi].
    apply Hi in Hpc as <-. by intros ->%Hi.
Qed.

Lemma inv_reachable s : reachable s → inv s.
Proof. induction 1; [by split|eauto using inv_step]. Qed.

End Mutex.

(** ** Properties *)



(** [acquire] on every branch: a free lock is taken and nothing but the
    processor's lock bookkeeping changes; a lock this CPU already holds is the
    panic "acquire"; a lock held by another CPU makes this CPU spin. *)
Lemma acquire_cases (w : world) (v : hwview) (l : lockid) :
  hw_ok (hw (ks w)) v →
  match decide (l ∈ hv_held v), decide (l ∈ hv_others v) with
  | left _, _ => acquire l w = Panic "acquire"
  | right _, left _ => acquire l w = Spin
  | right _, right _ =>
      ∃ h', hw_ok h' (v_hold l v) ∧ acquire l w = Ok tt (with_hw h' w)
  end.
Proof.
  intros Hv. destruct (decide (l ∈ hv_held v)); [by eapply acquire_held|].
  destruct (decide (l ∈ hv_others v)); [by eapply acquire_spins|].
  by apply acquire_spec.
Qed.

(** [n] nested calls. *)
Fixpoint repeatM (n : nat) (m : K unit) : K unit :=
  match n with O => mret tt | S n' => _ ← m; repeatM n' m end.

Lemma push_n k n w v :
  hw_view n (hw (ks w)) v → keeps_view (repeatM k pushcli) tt (k + n) v w.
Proof.
  revert n w. induction k as [|k IH]; intros n w Hv; simpl.
  - exists (hw (ks w)). by rewrite with_hw_self.
  - destruct (pushcli_spec _ _ _ Hv) as (h1 & Hv1 & _ & H1).
    destruct (IH (S n) (with_hw h1 w) Hv1) as (h2 & Hv2 & H2).
    exists h2. rewrite Nat.add_succ_r in Hv2. split; [done|]. by mstep H1.
Qed.

Lemma pop_n k n w v :
  hw_view (k + n) (hw (ks w)) v → keeps_view (repeatM k popcli) tt n v w.
Proof.
  revert w. induction k as [|k IH]; intros w Hv; simpl.
  - exists (hw (ks w)). by rewrite with_hw_self.
  - destruct (popcli_spec _ _ _ Hv) as (h1 & Hv1 & H1).
    destruct (IH (with_hw h1 w) Hv1) as (h2 & Hv2 & H2).
    exists h2. split; [done|]. by mstep H1.
Qed.

(** [pushcli]/[popcli] are matched: with no lock held, [k] calls of [pushcli]
    followed by [k] calls of [popcli] succeed and leave the interrupt flag as it
    was, on or off. *)
Lemma pushcli_popcli_matched (w : world) (v : hwview) (k : nat) :
  hw_ok (hw (ks w)) v → hv_held v = ∅ →
  ∃ h', (_ ← repeatM k pushcli; repeatM k popcli) w = Ok tt (with_hw h' w) ∧
        hw_ok h' v ∧ if_set h' = if_set (hw (ks w)).
Proof.
  intros Hv He. destruct (push_n k 0 w v Hv) as (h1 & Hv1 & H1).
  destruct (pop_n k 0 (with_hw h1 w) v Hv1) as (h2 & Hv2 & H2).
  exists h2. split; [by mstep H1|]. split; [done|].
  destruct Hv as (c & Hc), Hv2 as (c2 & Hc2).
  rewrite (hw_if _ _ _ _ Hc), (hw_if _ _ _ _ Hc2), (hw_ncli _ _ _ _ Hc), (hw_ncli _ _ _ _ Hc2).
  by rewrite He, size_empty.
Qed.

