(* ===== verification/Kalloc.v ===== *)
(** * kalloc.c: the physical page allocator

    The free list is threaded through the free pages themselves: the first word
    of a free page is the address of the next one.  [flist] relates that linked
    list in memory to a Rocq list, and the specifications of [kalloc] and
    [kfree] are the pop and push of that list.  Freeing a page overwrites it,
    so the objects that lived in it are gone ([wipe_page]). *)

From S2P Require Import Prelude Layout State Str Spinlock.

Section Kalloc.
Context `{KernelSyms}.

(** ** Definitions *)

(** The typed objects that can live in the page at [v]: a [sharedData] or a pipe
    at its start, a trap frame and a context at its end. *)
Definition wipe_page (v : Z) (k : kern) : kern :=
  k <| shared ::= delete v |>
    <| pipes ::= delete v |>
    <| frames ::= delete (v + KSTACKSIZE - sizeof_trapframe) |>
    <| ctxs ::= delete (v + KSTACKSIZE - sizeof_trapframe - 4 - sizeof_context) |>.

Definition kfree (v : Z) : K unit :=
  if v =? 0 then panic "kfree: attempt to free null pointer" else
  if truthy (v mod PGSIZE) || (v <? sym_end) || (PHYSTOP <=? V2P v) then panic "kfree" else
  (* Fill with junk to catch dangling refs. *)
  _ ← modk (λ k, wipe_page v (k <| mem ::= λ m, memset m v 1 PGSIZE |>));
  ul ← getk use_lock;
  _ ← when (truthy ul) (acquire L_kmem);
  _ ← modk (λ k, k <| mem := store32 (mem k) v (freelist k) |>);
  _ ← modk (λ k, k <| freelist := v |>);
  ul ← getk use_lock;
  when (truthy ul) (release L_kmem).

Definition kalloc : K Z :=
  ul ← getk use_lock;
  _ ← when (truthy ul) (acquire L_kmem);
  r ← getk freelist;
  _ ← when (truthy r) (modk (λ k, k <| freelist := load32 (mem k) r |>));
  ul ← getk use_lock;
  _ ← when (truthy ul) (release L_kmem);
  mret r.

(** [for(; p + PGSIZE <= vend; p += PGSIZE) kfree(p)] *)
Fixpoint freerange_loop (fuel : nat) (p vend : Z) : K unit :=
  match fuel with
  | O => out_of_fuel
  | S fuel' =>
      if p + PGSIZE <=? vend then _ ← kfree p; freerange_loop fuel' (p + PGSIZE) vend
      else mret tt
  end.
Definition freerange (vstart vend : Z) : K unit :=
  let p := PGROUNDUP vstart in
  freerange_loop (S (Z.to_nat ((vend - p) / PGSIZE))) p vend.

Definition kinit1 (vstart vend : Z) : K unit :=
  _ ← initlock L_kmem "kmem";
  _ ← modk (λ k, k <| use_lock := 0 |>);
  freerange vstart vend.

Definition kinit2 (vstart vend : Z) : K unit :=
  _ ← freerange vstart vend;
  modk (λ k, k <| use_lock := 1 |>).

(** ** The free list *)

(** A page that [kfree] accepts. *)
Definition valid_page (v : Z) : Prop :=
  pg_aligned v ∧ sym_end ≤ v ∧ v < KERNBASE + PHYSTOP.

Definition in_page (v x : Z) : Prop := v ≤ x < v + PGSIZE.

Fixpoint flist (m : memory) (p : Z) (L : list Z) : Prop :=
  match L with
  | [] => p = 0
  | x :: L' => p = x ∧ flist m (load32 m x) L'
  end.

Record kmem_inv (k : kern) (L : list Z) : Prop := mkKmemInv {
  km_list : flist (mem k) (freelist k) L;
  km_nodup : NoDup L;
  km_valid : Forall valid_page L
}.

(** The allocator's lock can be taken when it is in use. *)
Definition kmem_ready (k : kern) (v : hwview) : Prop :=
  truthy (use_lock k) = true → L_kmem ∉ hv_held v ∧ L_kmem ∉ hv_others v.

(** ** Lemmas *)

Lemma valid_page_pos v : valid_page v → KERNBASE ≤ v ∧ v + PGSIZE ≤ KERNBASE + PHYSTOP.
Proof.
  intros (Ha & He & Ht). pose proof sym_data_range. pose proof sym_end_range. split; zl.
Qed.

(** Different pages do not overlap. *)
Lemma pages_disjoint v v' x :
  pg_aligned v → pg_aligned v' → in_page v x → in_page v' x → v = v'.
Proof. unfold in_page. intros. zl. Qed.

Lemma flist_ext m m' p L :
  (∀ x a, x ∈ L → in_page x a → m a = m' a) → flist m p L → flist m' p L.
Proof.
  revert p. induction L as [|x L IH]; intros p Hm; simpl; [done|].
  intros [-> Hl]. split; [done|].
  rewrite <- (load32_ext m m' x).
  - apply IH; [|done]. intros y a Hy. apply Hm. set_solver.
  - intros a Ha. apply (Hm x a); [set_solver|]. unfold in_page. kl.
Qed.

Lemma kmem_inv_frame k k' L :
  freelist k' = freelist k → (∀ x a, x ∈ L → in_page x a → mem k' a = mem k a) →
  kmem_inv k L → kmem_inv k' L.
Proof.
  intros Hf Hm [Hl Hn Hv]. split; [|done..]. rewrite Hf.
  eapply flist_ext; [|done]. intros. symmetry. eauto.
Qed.

Lemma kmem_inv_hw k L h : kmem_inv k L → kmem_inv (k <| hw := h |>) L.
Proof. by apply kmem_inv_frame. Qed.

Lemma V2P_valid v : valid_page v → (PHYSTOP <=? V2P v) = false.
Proof.
  intros Hv. pose proof (valid_page_pos _ Hv). rewrite V2P_spec by kl. apply Z.leb_gt. zl.
Qed.

(** [kfree]'s check is [valid_page]. *)
Lemma kfree_check v : v ≠ 0 → is_u32 v →
  (truthy (v mod PGSIZE) || (v <? sym_end) || (PHYSTOP <=? V2P v)) = false ↔ valid_page v.
Proof.
  intros Hz Hu. pose proof sym_data_range. pose proof sym_end_range.
  rewrite !orb_false_iff, truthy_false, Z.ltb_ge, Z.leb_gt. unfold valid_page, pg_aligned. split.
  - intros ((? & ?) & Hp). rewrite V2P_spec in Hp by kl. kl.
  - intros (? & ? & ?). rewrite V2P_spec by kl. kl.
Qed.

(** Taking and releasing the lock when it is in use. *)
Definition v_lock (k : kern) (l : lockid) (v : hwview) : hwview :=
  if truthy (use_lock k) then v_hold l v else v.

Lemma runs_kmem_acquire w v :
  hw_ok (hw (ks w)) v → kmem_ready (ks w) v →
  runs (when (truthy (use_lock (ks w))) (acquire L_kmem)) w tt (ks w) (v_lock (ks w) L_kmem v).
Proof.
  intros Hv Hr. unfold when, v_lock. destruct (truthy _) eqn:E; [|by apply runs_ret].
  destruct Hr; [done|]. by apply runs_acquire.
Qed.

Lemma runs_kmem_release w v k :
  hw_ok (hw (ks w)) (v_lock k L_kmem v) → use_lock (ks w) = use_lock k → kmem_ready k v →
  runs (when (truthy (use_lock (ks w))) (release L_kmem)) w tt (ks w) v.
Proof.
  intros Hv He Hr. unfold when, v_lock in *. rewrite He. destruct (truthy _) eqn:E; [|by apply runs_ret].
  destruct (Hr E). rewrite <- (v_drop_hold L_kmem v) by done.
  apply runs_release; [done|]. auto with kern.
Qed.

(** ** Specifications *)

Lemma kalloc_spec w v L :
  hw_ok (hw (ks w)) v → kmem_ready (ks w) v → kmem_inv (ks w) L →
  runs kalloc w (hd 0 L)
    (match L with [] => ks w | p :: _ => (ks w) <| freelist := load32 (mem (ks w)) p |> end) v.
Proof.
  intros Hv Hr [Hl Hn Hval]. unfold kalloc. rpure.
  eapply runs_bind; [by apply runs_kmem_acquire|intros h Hh]. rpure.
  destruct L as [|p L]; simpl in Hl |- *.
  - rewrite Hl. simpl. rpure.
    eapply runs_bind; [eapply (runs_kmem_release _ v (ks w)); done|intros h2 Hh2].
    eapply runs_data; [by apply runs_ret|by destruct w as [[] ]].
  - destruct Hl as [Hp Hl]. inversion_clear Hval as [|? ? Hpv].
    assert (truthy (freelist (ks w)) = true) as ->.
    { apply truthy_spec. rewrite Hp. pose proof (valid_page_pos _ Hpv). kl. }
    simpl. rpure.
    eapply runs_bind; [eapply (runs_kmem_release _ v (ks w)); done|intros h2 Hh2].
    eapply runs_data; [rewrite Hp; by apply runs_ret|].
    by destruct w as [[] ].
Qed.

Definition kfree_result (p : Z) (k : kern) : kern :=
  (wipe_page p k) <| mem := store32 (memset (mem k) p 1 PGSIZE) p (freelist k) |> <| freelist := p |>.

Lemma kfree_spec w v p :
  hw_ok (hw (ks w)) v → kmem_ready (ks w) v → valid_page p →
  runs (kfree p) w tt (kfree_result p (ks w)) v.
Proof.
  intros Hv Hr Hp. pose proof (valid_page_pos _ Hp) as Hpos. unfold kfree.
  rewrite (proj2 (Z.eqb_neq p 0)) by kl.
  assert (p ≠ 0 ∧ is_u32 p) as [Hz Hu] by kl.
  rewrite (proj2 (kfree_check p Hz Hu) Hp). rpure.
  eapply runs_bind; [by apply (runs_kmem_acquire _ v)|intros h Hh]. rpure.
  eapply runs_data; [eapply (runs_kmem_release _ v (ks w)); done|by destruct w as [[] ]].
Qed.

Lemma flist_head_u32 k L : kmem_inv k L → is_u32 (freelist k).
Proof.
  intros [Hl _ Hv]. destruct L as [|x L]; simpl in Hl; [rewrite Hl; kl|].
  destruct Hl as [-> _]. inversion_clear Hv as [|? ? Hx]. pose proof (valid_page_pos _ Hx). kl.
Qed.

Lemma kfree_mem_out p k a : ¬ in_page p a → mem (kfree_result p k) a = mem k a.
Proof.
  intros Ha. unfold in_page in Ha. simpl. unfold store32.
  rewrite fill_out by kl. apply memset_out; kl.
Qed.

Lemma kfree_inv p k L :
  kmem_inv k L → valid_page p → p ∉ L → kmem_inv (kfree_result p k) (p :: L).
Proof.
  intros Hi Hp Hn. pose proof (flist_head_u32 _ _ Hi) as Hu. destruct Hi as [Hl Hd Hv].
  split; [|by constructor|by constructor]. split; [done|]. simpl.
  rewrite load32_store32, u32_id by done.
  apply (flist_ext (mem k)); [|done]. intros x a Hx Ha. symmetry. apply (kfree_mem_out p k).
  intros Ha'. rewrite Forall_forall in Hv. destruct (Hv x Hx) as (Hx1 & _), Hp as (Hp1 & _).
  apply Hn. by rewrite (pages_disjoint p x a).
Qed.

Lemma kalloc_inv p k L :
  kmem_inv k (p :: L) → kmem_inv (k <| freelist := load32 (mem k) p |>) L.
Proof.
  intros [[Hp Hl] Hd Hv]. inversion_clear Hd. inversion_clear Hv. by split.
Qed.

(** Everything but the processor, memory, the free list and the objects in pages. *)
Definition non_mm (k : kern) :=
  (use_lock k, kpgdir k, procs k, nextpid k, initproc k, ticks k, first k,
   ftable k, icache k, bcache k, klog k, sb k, disk k, devs k).

Definition same_but_mm (k k' : kern) : Prop := non_mm k' = non_mm k.

#[export] Instance same_but_mm_preorder : PreOrder same_but_mm.
Proof. unfold same_but_mm. split; [done|]. intros x y z H1 H2. congruence. Qed.

Lemma same_but_mm_kfree p k : same_but_mm k (kfree_result p k).
Proof. done. Qed.

Lemma same_but_mm_use_lock k k' : same_but_mm k k' → use_lock k' = use_lock k.
Proof. by intros [=]. Qed.

Lemma kmem_ready_mm k k' v : same_but_mm k k' → kmem_ready k v → kmem_ready k' v.
Proof. unfold kmem_ready. by intros ->%same_but_mm_use_lock. Qed.

(** The [n] pages from [p] on. *)
Definition page_run (p : Z) (n : nat) : list Z := (λ i, p + PGSIZE * Z.of_nat i) <$> seq 0 n.

Lemma page_run_S p n : page_run p (S n) = p :: page_run (p + PGSIZE) n.
Proof.
  unfold page_run. rewrite <- cons_seq. simpl. f_equal; [lia|].
  rewrite <- fmap_S_seq, <- list_fmap_compose. apply list_fmap_ext. intros. simpl. lia.
Qed.

Lemma elem_of_page_run p n x :
  x ∈ page_run p n ↔ ∃ i, (i < n)%nat ∧ x = p + PGSIZE * Z.of_nat i.
Proof. unfold page_run. rewrite list_elem_of_fmap. setoid_rewrite elem_of_seq. naive_solver lia. Qed.

Lemma freerange_loop_spec n fuel w v p vend L :
  hw_ok (hw (ks w)) v → kmem_ready (ks w) v → kmem_inv (ks w) L →
  p + PGSIZE * Z.of_nat n ≤ vend < p + PGSIZE * Z.of_nat n + PGSIZE → (n < fuel)%nat →
  Forall valid_page (page_run p n) → (∀ x, x ∈ page_run p n → x ∉ L) →
  ∃ k', runs (freerange_loop fuel p vend) w tt k' v ∧ kmem_inv k' (rev (page_run p n) ++ L) ∧
        same_but_mm (ks w) k'.
Proof.
  revert fuel w p L. induction n as [|n IH]; intros [|fuel] w p L Hv Hr Hi Hb Hf Hp Hd; try lia; cbn [freerange_loop].
  - rewrite (proj2 (Z.leb_gt _ _)) by lia. exists (ks w). split_and!; [by apply runs_ret|done|done].
  - rewrite (proj2 (Z.leb_le _ _)) by kl. rewrite page_run_S in Hp, Hd |- *.
    inversion_clear Hp as [|? ? Hp1 Hp2].
    destruct (kfree_spec w v p Hv Hr Hp1) as (h1 & Hv1 & H1).
    set (w1 := mkWorld _ _) in H1.
    destruct (IH fuel w1 (p + PGSIZE) (p :: L)) as (k' & Hrun & Hi' & Hs); try done; try kl.
    + apply kmem_inv_hw, kfree_inv; [done..|]. apply Hd. set_solver.
    + intros x Hx [->|Hx2]%elem_of_cons; [|by eapply Hd; [right|]].
      apply elem_of_page_run in Hx as (i & _ & Hx). kl.
    + exists k'. split_and!.
      * by eapply runs_step.
      * simpl. by rewrite <- app_assoc.
      * etrans; [|done]. apply same_but_mm_kfree.
Qed.
(** ** Properties *)

(** [kalloc] pops the free list: with no free page it returns 0 and changes
    nothing; otherwise it returns the first free page, a page-aligned page
    above the kernel image that is no longer on the list, and the rest of the
    list is what is free afterwards.  Memory is not touched and the lock is
    released. *)
Lemma kalloc_pops (w : world) (v : hwview) (L : list Z) :
  hw_ok (hw (ks w)) v → kmem_ready (ks w) v → kmem_inv (ks w) L →
  match L with
  | [] => runs kalloc w 0 (ks w) v
  | p :: L' => ∃ k', runs kalloc w p k' v ∧ kmem_inv k' L' ∧ valid_page p ∧ p ∉ L' ∧
                     mem k' = mem (ks w) ∧ same_but_mm (ks w) k'
  end.
Proof.
  intros Hv Hr Hi. pose proof (kalloc_spec w v L Hv Hr Hi) as Hk.
  destruct L as [|p L']; [done|]. eexists. split; [exact Hk|].
  pose proof (kalloc_inv _ _ _ Hi) as Hi'. destruct Hi as [_ Hd Hval].
  by inversion_clear Hd; inversion_clear Hval.
Qed.

(** [kfree] on every pointer: null and out-of-range or unaligned pointers are
    panics; a valid page goes on the front of the free list, its contents are
    overwritten, and no byte outside the page changes. *)
Lemma kfree_pushes (w : world) (v : hwview) (L : list Z) (p : Z) :
  hw_ok (hw (ks w)) v → kmem_ready (ks w) v → kmem_inv (ks w) L → is_u32 p →
  (p = 0 → kfree p w = Panic "kfree: attempt to free null pointer") ∧
  (p ≠ 0 → ¬ valid_page p → kfree p w = Panic "kfree") ∧
  (valid_page p → p ∉ L →
     ∃ k', runs (kfree p) w tt k' v ∧ kmem_inv k' (p :: L) ∧ same_but_mm (ks w) k' ∧
           (∀ a, p + 4 ≤ a < p + PGSIZE → mem k' a = 1) ∧
           (∀ a, ¬ in_page p a → mem k' a = mem (ks w) a)).
Proof.
  intros Hv Hr Hi Hu. split_and!.
  - intros ->. done.
  - intros Hz Hn. unfold kfree. rewrite (proj2 (Z.eqb_neq p 0)) by done.
    destruct (_ || _ || _) eqn:E; [done|]. by apply kfree_check in E.
  - intros Hp Hn. eexists. split; [by apply kfree_spec|].
    split_and!; [by apply kfree_inv|apply same_but_mm_kfree| |apply kfree_mem_out].
    intros a Ha. simpl. unfold store32. rewrite fill_out by lia. by rewrite memset_in by kl.
Qed.

(** allocation undoes freeing: [kfree(p)] followed by [kalloc()] returns [p]
    and leaves the same pages free. *)
Theorem kfree_kalloc (w : world) (v : hwview) (L : list Z) (p : Z) :
  hw_ok (hw (ks w)) v → kmem_ready (ks w) v → kmem_inv (ks w) L → valid_page p → p ∉ L →
  ∃ k', runs (_ ← kfree p; kalloc) w p k' v ∧ kmem_inv k' L.
Proof.
  intros Hv Hr Hi Hp Hn. destruct (kfree_spec w v p Hv Hr Hp) as (h1 & Hv1 & H1).
  set (w1 := mkWorld _ _) in H1.
  assert (kmem_inv (ks w1) (p :: L)) as Hi1 by (by apply kmem_inv_hw, kfree_inv).
  eexists. split; [eapply runs_step; [exact H1|done|]|].
  - apply (kalloc_spec w1 v (p :: L)); done.
  - by apply kalloc_inv.
Qed.

(** [freerange(vstart, vend)] terminates and frees exactly the whole pages of
    the range: the free list gains every page from [PGROUNDUP(vstart)] that ends
    at or before [vend], last page first. *)
Lemma freerange_frees (w : world) (v : hwview) (L : list Z) (vstart vend : Z) :
  hw_ok (hw (ks w)) v → kmem_ready (ks w) v → kmem_inv (ks w) L →
  sym_end ≤ vstart ≤ vend → vend ≤ KERNBASE + PHYSTOP →
  let n := Z.to_nat ((vend - PGROUNDUP vstart) / PGSIZE) in
  (∀ x, x ∈ page_run (PGROUNDUP vstart) n → x ∉ L) →
  ∃ k', runs (freerange vstart vend) w tt k' v ∧
        kmem_inv k' (rev (page_run (PGROUNDUP vstart) n) ++ L) ∧ same_but_mm (ks w) k'.
Proof.
  intros Hv Hr Hi Hs Hb n Hd. unfold freerange. fold n.
  pose proof sym_data_range. pose proof sym_end_range.
  pose proof (PGROUNDUP_aligned vstart) as Ha.
  assert (Z.of_nat n = Z.max 0 ((vend - PGROUNDUP vstart) / PGSIZE)) as Hn by lia. clearbody n.
  destruct (decide (n = 0%nat)) as [->|Hn0].
  - simpl. rewrite (proj2 (Z.leb_gt _ _)) by zl.
    exists (ks w). split_and!; [by apply runs_ret|done|done].
  - assert (vstart ≤ PGROUNDUP vstart) as Hge.
    { apply PGROUNDUP_bounds; kl. }
    apply (freerange_loop_spec n); try done; try lia; [zl|].
    apply Forall_forall. intros x (i & Hi' & ->)%elem_of_page_run.
    split_and!; unfold pg_aligned in *; zl.
Qed.

End Kalloc.

(** ** Witnesses *)

(** A kernel whose only free page is the one at 0x80200000. *)
Definition one_page_world : world := mkWorld (boot_kern <| freelist := 0x80200000 |>) [].

Lemma one_page_inv : @kmem_inv image_syms (ks one_page_world) [0x80200000].
Proof.
  split; [by vm_compute|apply NoDup_singleton|apply Forall_singleton].
  split_and!; by vm_compute.
Qed.

Lemma one_page_ready : kmem_ready (ks one_page_world) boot_view.
Proof. done. Qed.


