(* ===== verification/Vm.v ===== *)
(** * vm.c: page tables and user address spaces

    The two-level page tables of the x86 kept in pages of the allocator, and the
    routines that build, grow, shrink, copy and free a process's address space.
    The lemmas and theorems about them are in VmInv.v, VmOps.v and VmCopy.v.
    Console messages are not part of the model. *)

From S2P Require Import Prelude Layout State Str Spinlock Kalloc.

Section Vm.
Context `{KernelSyms}.

(** [*(uint* )a] for an address in the direct map. *)
Definition ld32 (a : Z) : K Z := getk (λ k, load32 (mem k) a).
Definition st32 (a v : Z) : K unit := modk (λ k, k <| mem ::= λ m, store32 m a v |>).
Definition kmemset (dst c n : Z) : K unit := modk (λ k, k <| mem ::= λ m, memset m dst c n |>).
Definition kmemmove (dst src : Z) (n : nat) : K unit :=
  modk (λ k, k <| mem ::= λ m, memmove m dst src n |>).

Definition walkpgdir (pgdir va : Z) (alloc : bool) : K Z :=
  pde ← ld32 (pgdir + 4 * PDX va);
  if truthy (Z.land pde PTE_P) then
    mret (P2V (PTE_ADDR pde) + 4 * PTX va)
  else if negb alloc then mret 0 else
    pgtab ← kalloc;
    if pgtab =? 0 then mret 0 else
    (* Make sure all those PTE_P bits are zero. *)
    _ ← kmemset pgtab 0 PGSIZE;
    _ ← st32 (pgdir + 4 * PDX va) (Z.lor (Z.lor (Z.lor (V2P pgtab) PTE_P) PTE_W) PTE_U);
    mret (pgtab + 4 * PTX va).

(** The loop of [mappages] at address [a]. *)
Fixpoint mappages_loop (fuel : nat) (pgdir a last pa perm : Z) : K Z :=
  match fuel with
  | O => out_of_fuel
  | S fuel' =>
      pte ← walkpgdir pgdir a true;
      if pte =? 0 then mret (-1) else
      e ← ld32 pte;
      if truthy (Z.land e PTE_P) then panic "remap" else
      _ ← st32 pte (Z.lor (Z.lor pa perm) PTE_P);
      if a =? last then mret 0
      else mappages_loop fuel' pgdir (u32 (a + PGSIZE)) last (u32 (pa + PGSIZE)) perm
  end.
Definition mappages (pgdir va size pa perm : Z) : K Z :=
  let a := PGROUNDDOWN (u32 va) in
  let last := PGROUNDDOWN (u32 (va + size - 1)) in
  mappages_loop (S (Z.to_nat (u32 (last - a) / PGSIZE))) pgdir a last pa perm.

(** The loop of [deallocuvm] at address [a]. *)
Fixpoint deallocuvm_loop (fuel : nat) (pgdir a oldsz : Z) : K unit :=
  match fuel with
  | O => out_of_fuel
  | S fuel' =>
      if negb (a <? oldsz) then mret tt else
      pte ← walkpgdir pgdir a false;
      if pte =? 0 then
        deallocuvm_loop fuel' pgdir (u32 (u32 (PGADDR (PDX a + 1) 0 0 - PGSIZE) + PGSIZE)) oldsz
      else
        e ← ld32 pte;
        _ ← (if truthy (Z.land e PTE_P) then
               let pa := PTE_ADDR e in
               if pa =? 0 then panic "kfree" else
               let v := P2V pa in
               _ ← kfree v;
               st32 pte 0
             else mret tt);
        deallocuvm_loop fuel' pgdir (u32 (a + PGSIZE)) oldsz
  end.
Definition deallocuvm (pgdir oldsz newsz : Z) : K Z :=
  if oldsz <=? newsz then mret oldsz else
  let a := PGROUNDUP newsz in
  _ ← deallocuvm_loop (S (Z.to_nat ((oldsz - a) / PGSIZE + 1))) pgdir a oldsz;
  mret newsz.

Definition freevm (pgdir : Z) : K unit :=
  if pgdir =? 0 then panic "freevm: no pgdir" else
  _ ← deallocuvm pgdir KERNBASE 0;
  _ ← for_each (seqZ 0 NPDENTRIES) (λ i,
        e ← ld32 (pgdir + 4 * i);
        if truthy (Z.land e PTE_P) then kfree (P2V (PTE_ADDR e)) else mret tt);
  kfree pgdir.

(** The table [kmap[]]: virtual address, physical range, permissions. *)
Definition kmap : list (Z * Z * Z * Z) :=
  [ (KERNBASE, 0, EXTMEM, PTE_W);
    (KERNLINK, V2P KERNLINK, V2P sym_data, 0);
    (sym_data, V2P sym_data, PHYSTOP, PTE_W);
    (DEVSPACE, DEVSPACE, 0, PTE_W) ].

Definition setupkvm : K Z :=
  pgdir ← kalloc;
  if pgdir =? 0 then mret 0 else
  _ ← kmemset pgdir 0 PGSIZE;
  if DEVSPACE <? P2V PHYSTOP then panic "PHYSTOP too high" else
  r ← for_find kmap (λ '(virt, phys_start, phys_end, perm),
        r ← mappages pgdir virt (u32 (phys_end - phys_start)) phys_start perm;
        if r <? 0 then _ ← freevm pgdir; mret (Some 0) else mret None);
  mret (default pgdir r).

Definition lcr3 (v : Z) : K unit := modk (λ k, k <| hw ::= λ h, h <| cr3 := v |> |>).

Definition switchkvm : K unit :=
  p ← getk kpgdir;
  lcr3 (V2P p).

Definition kvmalloc : K unit :=
  p ← setupkvm;
  _ ← modk (λ k, k <| kpgdir := p |>);
  switchkvm.

(** The loop of [allocuvm] at address [a]. *)
Fixpoint allocuvm_loop (fuel : nat) (pgdir a oldsz newsz : Z) : K Z :=
  match fuel with
  | O => out_of_fuel
  | S fuel' =>
      if negb (a <? newsz) then mret newsz else
      page ← kalloc;
      if page =? 0 then
        _ ← deallocuvm pgdir newsz oldsz;
        mret 0
      else
        _ ← kmemset page 0 PGSIZE;
        r ← mappages pgdir a PGSIZE (V2P page) (Z.lor PTE_W PTE_U);
        if r <? 0 then
          _ ← deallocuvm pgdir newsz oldsz;
          _ ← kfree page;
          mret 0
        else allocuvm_loop fuel' pgdir (u32 (a + PGSIZE)) oldsz newsz
  end.
Definition allocuvm (pgdir oldsz newsz : Z) : K Z :=
  if KERNBASE <=? newsz then mret 0 else
  if newsz <? oldsz then mret oldsz else
  let a := PGROUNDUP oldsz in
  allocuvm_loop (S (Z.to_nat ((newsz - a) / PGSIZE + 1))) pgdir a oldsz newsz.

(** [init] is the address of the image in kernel memory.  The result of [kalloc] is
    not checked: on a null pointer [memset] writes to virtual address 0. *)
Definition inituvm (pgdir init sz : Z) : K unit :=
  if PGSIZE <=? sz then panic "inituvm: more than a page" else
  page ← kalloc;
  _ ← (if page =? 0 then fault else kmemset page 0 PGSIZE);
  _ ← mappages pgdir 0 PGSIZE (V2P page) (Z.lor PTE_W PTE_U);
  kmemmove page init (Z.to_nat sz).

Definition clearpteu (pgdir uva : Z) : K unit :=
  pte ← walkpgdir pgdir uva false;
  if pte =? 0 then panic "clearpteu" else
  e ← ld32 pte;
  st32 pte (Z.land e (u32 (Z.lnot PTE_U))).

(** The loop of [copyuvm] at address [i]; the result tells whether it got to the
    end ([true]) or ran out of memory. *)
Fixpoint copyuvm_loop (fuel : nat) (d pgdir i sz : Z) : K bool :=
  match fuel with
  | O => out_of_fuel
  | S fuel' =>
      if negb (i <? sz) then mret true else
      pte ← walkpgdir pgdir i false;
      if pte =? 0 then panic "copyuvm: pte should exist" else
      e ← ld32 pte;
      if negb (truthy (Z.land e PTE_P)) then panic "copyuvm: page not present" else
      let pa := PTE_ADDR e in
      let flags := PTE_FLAGS e in
      page ← kalloc;
      if page =? 0 then mret false else
      _ ← kmemmove page (P2V pa) (Z.to_nat PGSIZE);
      r ← mappages d i PGSIZE (V2P page) flags;
      if r <? 0 then _ ← kfree page; mret false
      else copyuvm_loop fuel' d pgdir (u32 (i + PGSIZE)) sz
  end.
Definition copyuvm (pgdir sz : Z) : K Z :=
  d ← setupkvm;
  if d =? 0 then mret 0 else
  ok ← copyuvm_loop (S (Z.to_nat (sz / PGSIZE + 1))) d pgdir 0 sz;
  if (ok : bool) then mret d else
  _ ← freevm d;
  mret 0.

(** ** Access through a page table *)

(** Kernel address of the byte at virtual address [va] of page table [pgdir]. *)
Definition xlate (m : memory) (pgdir va : Z) : option Z :=
  let pde := load32 m (pgdir + 4 * PDX va) in
  if negb (truthy (Z.land pde PTE_P)) then None else
  let pte := load32 m (P2V (PTE_ADDR pde) + 4 * PTX va) in
  if negb (truthy (Z.land pte PTE_P)) then None else
  Some (P2V (PTE_ADDR pte) + va mod PGSIZE).

(** A byte, and a little-endian word, read through a page table. *)
Definition uload8 (m : memory) (pgdir va : Z) : option Z := m <$> xlate m pgdir va.
Definition uload32 (m : memory) (pgdir va : Z) : option Z :=
  b0 ← uload8 m pgdir va; b1 ← uload8 m pgdir (va + 1);
  b2 ← uload8 m pgdir (va + 2); b3 ← uload8 m pgdir (va + 3);
  Some (u8 b0 + 256 * u8 b1 + 65536 * u8 b2 + 16777216 * u8 b3).

(** A load by kernel code from a low virtual address goes through the page table
    in use; an unmapped address is a page fault in the kernel. *)
Definition vld32 (va : Z) : K Z :=
  c ← getk (λ k, cr3 (hw k));
  o ← getk (λ k, uload32 (mem k) (P2V c) va);
  deref o.

(** [*pte] is read even when [walkpgdir] returned a null pointer: the load then
    reads virtual address 0. *)
Definition uva2ka (pgdir uva : Z) : K Z :=
  pte ← walkpgdir pgdir uva false;
  e ← (if pte =? 0 then vld32 0 else ld32 pte);
  if Z.land e PTE_P =? 0 then mret 0 else
  if Z.land e PTE_U =? 0 then mret 0 else
  mret (P2V (PTE_ADDR e)).

(** The bytes of [buf] are given by their position. *)
Fixpoint copyout_loop (fuel : nat) (pgdir va : Z) (buf : list Z) : K Z :=
  match fuel with
  | O => out_of_fuel
  | S fuel' =>
      match buf with
      | [] => mret 0
      | _ :: _ =>
          let len := Z.of_nat (length buf) in
          let va0 := PGROUNDDOWN va in
          pa0 ← uva2ka pgdir va0;
          if pa0 =? 0 then mret (-1) else
          let n := let n := PGSIZE - (va - va0) in if len <? n then len else n in
          _ ← modk (λ k, k <| mem ::= λ m,
                fill m (pa0 + (va - va0)) n (λ i, nth (Z.to_nat i) buf 0) |>);
          copyout_loop fuel' pgdir (u32 (va0 + PGSIZE)) (drop (Z.to_nat n) buf)
      end
  end.
Definition copyout (pgdir va : Z) (buf : list Z) : K Z :=
  copyout_loop (S (length buf)) pgdir va buf.

(** ** Segments and the task state *)

Definition SEG (ty base lim dpl : Z) : segdesc :=
  mkSeg (Z.land (Z.shiftr lim 12) 0xffff) (Z.land (u32 base) 0xffff)
    (Z.land (Z.shiftr (u32 base) 16) 0xff) ty 1 dpl 1
    (Z.shiftr (u32 lim) 28) 0 0 1 1 (Z.shiftr (u32 base) 24).
Definition SEG16 (ty base lim dpl : Z) : segdesc :=
  mkSeg (Z.land lim 0xffff) (Z.land (u32 base) 0xffff)
    (Z.land (Z.shiftr (u32 base) 16) 0xff) ty 1 dpl 1
    (Z.shiftr (u32 lim) 16) 0 0 1 0 (Z.shiftr (u32 base) 24).

Definition STA_X : Z := 8.
Definition STA_W : Z := 2.
Definition STA_R : Z := 2.
Definition STS_T32A : Z := 9.

(** The instructions [lgdt] and [ltr] load the table that the descriptors are in. *)
Definition seginit : K unit :=
  i ← cpuid;
  mod_cpu (Z.to_nat i) (λ c, c <| gdt ::= λ g,
    <[4%nat := SEG STA_W 0 0xffffffff DPL_USER]>
    (<[3%nat := SEG (Z.lor STA_X STA_R) 0 0xffffffff DPL_USER]>
    (<[2%nat := SEG STA_W 0 0xffffffff 0]>
    (<[1%nat := SEG (Z.lor STA_X STA_R) 0 0xffffffff 0]> g))) |>).

(** Address of [cpus[i].ts] and size of the struct. *)
Definition sizeof_cpu : Z := 176.
Definition sizeof_taskstate : Z := 104.
Definition ts_addr (i : nat) : Z := sym_cpus + Z.of_nat i * sizeof_cpu + 8.

Definition switchuvm (p : option nat) : K unit :=
  match p with
  | None => panic "switchuvm: no process"
  | Some pi =>
      pr ← getk (λ k, procs k !! pi);
      p ← deref pr;
      if kstack p =? 0 then panic "switchuvm: no kstack" else
      shd ← getk (λ k, shared k !! sharePtr p);
      sh ← deref shd;
      if pgdir sh =? 0 then panic "switchuvm: no pgdir" else
      _ ← pushcli;
      i ← mycpu;
      _ ← mod_cpu i (λ c, c <| gdt ::= <[5%nat := (SEG16 STS_T32A (ts_addr i) (sizeof_taskstate - 1) 0) <| sd_s := 0 |>]> |>
            <| ts_ss0 := Z.shiftl SEG_KDATA 3 |>
            <| ts_esp0 := u32 (kstack p + KSTACKSIZE) |>
            <| ts_iomb := 0xFFFF |>);
      _ ← lcr3 (V2P (pgdir sh));
      popcli
  end.

End Vm.
