(* ===== verification/VmInv.v ===== *)
(** * The page table as a map, and its representation invariant

    A page directory [pd] in memory [m] denotes a partial map from virtual pages
    to page table entries, [leaf m pd].  [pt_inv] is the representation
    invariant of the two-level structure, [as_inv] that of a whole address
    space with its user frames; both say which pages the structure is made of
    ([own]) and that none of them is free.  The lemmas are the effects of the
    memory writes of vm.c on the map. *)

From S2P Require Import Prelude Layout State Str Spinlock Kalloc Vm.

Definition idx (i : Z) : Prop := 0 ≤ i < NPDENTRIES.
Definition vpage (va : Z) : Prop := pg_aligned va ∧ is_u32 va.
Definition upage (va : Z) : Prop := pg_aligned va ∧ 0 ≤ va < KERNBASE.

Definition present (e : Z) : bool := truthy (Z.land e PTE_P).
Definition frame_of (e : Z) : Z := P2V (PTE_ADDR e).

(** The directory entry [i], and the page of page table entries it points to. *)
Definition pde_at (m : memory) (pd i : Z) : Z := load32 m (pd + 4 * i).
Definition tbl (m : memory) (pd i : Z) : option Z :=
  let e := pde_at m pd i in if present e then Some (frame_of e) else None.

(** The present page table entry of virtual address [va]. *)
Definition leaf (m : memory) (pd va : Z) : option Z :=
  match tbl m pd (PDX va) with
  | Some t => let e := load32 m (t + 4 * PTX va) in if present e then Some e else None
  | None => None
  end.

(** The pages the structure itself is made of. *)
Definition pt_pages (m : memory) (pd x : Z) : Prop :=
  x = pd ∨ ∃ i, idx i ∧ tbl m pd i = Some x.

Lemma PDX_idx va : idx (PDX va).
Proof. apply PDX_range. Qed.
Lemma PTX_idx va : idx (PTX va).
Proof. apply PTX_range. Qed.
#[export] Hint Resolve PDX_idx PTX_idx : kern.

Lemma upage_vpage va : upage va → vpage va.
Proof. intros [? ?]. split; [done|kl]. Qed.
#[export] Hint Resolve upage_vpage : kern.

Lemma vpage_inj va va' : vpage va → vpage va' → PDX va = PDX va' → PTX va = PTX va' → va = va'.
Proof. intros [] [] ??. by apply va_index_inj. Qed.

Lemma word_in_page p i a : idx i → p + 4 * i ≤ a < p + 4 * i + 4 → in_page p a.
Proof. unfold idx, in_page. kl. Qed.

Lemma present_spec e : present e = Z.testbit e 0.
Proof.
  unfold present. change PTE_P with (2 ^ 0). rewrite land_flag_bit by done.
  by destruct (Z.testbit e 0).
Qed.

Lemma present_0 : present 0 = false.
Proof. done. Qed.

(** ** Entries written by the kernel *)

Section Entries.
Variables (pa f : Z).
Hypothesis (Hu : is_u32 pa) (Ha : pg_aligned pa) (Hf : 0 ≤ f < PGSIZE).

Lemma entry_flags : 0 ≤ Z.lor f PTE_P < PGSIZE.
Proof.
  split; [apply Z.lor_nonneg; kl|]. destruct (decide (Z.lor f PTE_P = 0)) as [->|Hz]; [kl|].
  apply (Z.log2_lt_cancel _ 4096). rewrite Z.log2_lor by kl.
  apply Z.max_lub_lt; [|done]. destruct (decide (f = 0)) as [->|]; [done|].
  change (Z.log2 4096) with 12. apply Z.log2_lt_pow2; kl.
Qed.

Lemma entry_u32 : is_u32 (Z.lor (Z.lor pa f) PTE_P).
Proof.
  rewrite <- Z.lor_assoc. pose proof entry_flags. rewrite lor_flags by done.
  unfold pg_aligned, is_u32 in *. zl.
Qed.

Lemma entry_present : present (Z.lor (Z.lor pa f) PTE_P) = true.
Proof. rewrite present_spec, Z.lor_spec. change (Z.testbit PTE_P 0) with true. apply orb_true_r. Qed.

Lemma entry_addr : PTE_ADDR (Z.lor (Z.lor pa f) PTE_P) = pa.
Proof. rewrite <- Z.lor_assoc. apply PTE_ADDR_mk; [done..|apply entry_flags]. Qed.

Lemma entry_pflags : PTE_FLAGS (Z.lor (Z.lor pa f) PTE_P) = Z.lor f PTE_P.
Proof. rewrite <- Z.lor_assoc. apply PTE_FLAGS_mk; [done..|apply entry_flags]. Qed.
End Entries.

Section Inv.
Context `{KernelSyms}.

Lemma V2P_page p : valid_page p → is_u32 (V2P p) ∧ pg_aligned (V2P p) ∧ P2V (V2P p) = p.
Proof.
  intros Hp. pose proof (valid_page_pos p Hp) as Hb. destruct Hp as (Ha & _).
  rewrite P2V_V2P by kl. rewrite V2P_spec by kl. unfold pg_aligned in *. split_and!; zl.
Qed.

Lemma frame_of_mk p f : valid_page p → 0 ≤ f < PGSIZE →
  frame_of (Z.lor (Z.lor (V2P p) f) PTE_P) = p.
Proof.
  intros Hp Hf. destruct (V2P_page p Hp) as (Hu & Ha & He).
  unfold frame_of. by rewrite entry_addr.
Qed.

(** ** Agreement of memories *)

Lemma pde_agree m m' pd i :
  idx i → (∀ a, in_page pd a → m' a = m a) → pde_at m' pd i = pde_at m pd i.
Proof.
  intros Hi Hm. apply load32_ext. intros a Ha. by eapply Hm, word_in_page.
Qed.

Lemma tbl_agree m m' pd i :
  idx i → (∀ a, in_page pd a → m' a = m a) → tbl m' pd i = tbl m pd i.
Proof. intros Hi Hm. unfold tbl. by rewrite (pde_agree m m'). Qed.

Lemma leaf_agree m m' pd va :
  (∀ x a, pt_pages m pd x → in_page x a → m' a = m a) → leaf m' pd va = leaf m pd va.
Proof.
  intros Hm. unfold leaf. rewrite (tbl_agree m m'); [|auto with kern|].
  2:{ intros a. apply Hm. by left. }
  destruct (tbl m pd (PDX va)) as [t|] eqn:Ht; [|done]. simpl.
  rewrite (load32_ext m' m); [done|]. intros a Ha. eapply Hm; [right; eauto with kern|].
  eapply word_in_page; [apply (PTX_idx va)|done].
Qed.

(** ** Invariants *)

(** [own] are the pages that the page table and the allocator may use. *)
Record pt_inv (own : Z → Prop) (m : memory) (pd : Z) (L : list Z) : Prop := mkPtInv {
  pt_free : ∀ x, x ∈ L → own x;
  pt_pd : valid_page pd ∧ pd ∉ L ∧ own pd;
  pt_tbl : ∀ i t, idx i → tbl m pd i = Some t → valid_page t ∧ t ∉ L ∧ t ≠ pd ∧ own t;
  pt_inj : ∀ i j t, idx i → idx j → tbl m pd i = Some t → tbl m pd j = Some t → i = j;
  pt_w : ∀ i t, idx i → tbl m pd i = Some t → Z.land (pde_at m pd i) PTE_W ≠ 0
}.

(** The user half: frames are valid pages, used once, and neither free nor part
    of the page table. *)
Record frames_inv (own : Z → Prop) (m : memory) (pd : Z) (L : list Z) : Prop := mkFramesInv {
  fr_page : ∀ va e, upage va → leaf m pd va = Some e →
    valid_page (frame_of e) ∧ frame_of e ∉ L ∧ ¬ pt_pages m pd (frame_of e) ∧ own (frame_of e);
  fr_inj : ∀ va va' e e', upage va → upage va' → leaf m pd va = Some e → leaf m pd va' = Some e' →
    frame_of e = frame_of e' → va = va'
}.

Definition as_inv (own : Z → Prop) (m : memory) (pd : Z) (L : list Z) : Prop :=
  pt_inv own m pd L ∧ frames_inv own m pd L.

Lemma pt_pages_valid own m pd L x : pt_inv own m pd L → pt_pages m pd x →
  valid_page x ∧ x ∉ L ∧ own x.
Proof. intros Hp [->|(i & Hi & Ht)]; [by apply Hp|].
  by destruct (pt_tbl _ _ _ _ Hp i x Hi Ht) as (? & ? & ? & ?). Qed.

(** Only the map and the set of pages matter. *)
Lemma pt_inv_ext own m m' pd L :
  (∀ i, idx i → pde_at m' pd i = pde_at m pd i) → pt_inv own m pd L → pt_inv own m' pd L.
Proof.
  intros He [H1 H2 H3 H4 H5].
  assert (∀ i, idx i → tbl m' pd i = tbl m pd i) as Ht by (intros i Hi; unfold tbl; by rewrite He).
  split; [done|done| | |].
  - intros i t Hi. rewrite Ht by done. by apply H3.
  - intros i j t Hi Hj. rewrite !Ht by done. by apply H4.
  - intros i t Hi. rewrite Ht, He by done. by apply H5.
Qed.

Lemma pt_pages_ext m m' pd x :
  (∀ i, idx i → tbl m' pd i = tbl m pd i) → pt_pages m' pd x ↔ pt_pages m pd x.
Proof.
  intros Ht. unfold pt_pages. split; (intros [?|(i & Hi & Hx)]; [by left|right; exists i]).
  - by rewrite <- Ht.
  - by rewrite Ht.
Qed.

Lemma frames_inv_ext own m m' pd L :
  (∀ i, idx i → tbl m' pd i = tbl m pd i) →
  (∀ va, upage va → leaf m' pd va = leaf m pd va) →
  frames_inv own m pd L → frames_inv own m' pd L.
Proof.
  intros Ht Hl [H1 H2]. split.
  - intros va e Hva. rewrite Hl by done. setoid_rewrite (pt_pages_ext m); [|done]. by apply H1.
  - intros va va' e e' Hva Hva'. rewrite !Hl by done. by apply H2.
Qed.

(** ** Pages that differ *)

(** [m'] is [m] outside the pages of [P]. *)
Definition mem_frame (P : Z → Prop) (m m' : memory) : Prop :=
  ∀ a, (∀ x, P x → ¬ in_page x a) → m' a = m a.

#[export] Instance mem_frame_preorder P : PreOrder (mem_frame P).
Proof. split; [done|]. intros m1 m2 m3 H1 H2 a Ha. by rewrite H2, H1. Qed.

Lemma mem_frame_mono (P Q : Z → Prop) m m' :
  (∀ x, P x → Q x) → mem_frame P m m' → mem_frame Q m m'.
Proof. intros HPQ Hf a Ha. apply Hf. eauto. Qed.

(** A page outside [P] is the same in both. *)
Lemma mem_frame_page P m m' x a :
  (∀ y, P y → pg_aligned y) → pg_aligned x → ¬ P x → mem_frame P m m' → in_page x a → m' a = m a.
Proof.
  intros HP Hx Hn Hf Ha. apply Hf. intros y Hy Hay. apply Hn.
  by rewrite (pages_disjoint x y a) by eauto.
Qed.

Lemma store32_frame m p i v (P : Z → Prop) : idx i → P p → mem_frame P m (store32 m (p + 4 * i) v).
Proof.
  intros Hi Hp a Ha. unfold store32. apply fill_out. specialize (Ha p Hp).
  unfold in_page, idx in *. kl.
Qed.

Lemma memset_frame m p c (P : Z → Prop) : P p → mem_frame P m (memset m p c PGSIZE).
Proof.
  intros Hp a Ha. apply memset_out; [kl|]. specialize (Ha p Hp). unfold in_page in *. kl.
Qed.

Lemma leaf_frame own m m' pd L (P : Z → Prop) va :
  pt_inv own m pd L → (∀ y, P y → pg_aligned y) → (∀ x, pt_pages m pd x → ¬ P x) →
  mem_frame P m m' → leaf m' pd va = leaf m pd va.
Proof.
  intros Hp Ha Hd Hf. apply leaf_agree. intros x a Hx. eapply mem_frame_page; eauto.
  by destruct (pt_pages_valid _ _ _ _ _ Hp Hx) as ((? & _) & _).
Qed.

Lemma pde_frame own m m' pd L (P : Z → Prop) i :
  pt_inv own m pd L → (∀ y, P y → pg_aligned y) → ¬ P pd → idx i →
  mem_frame P m m' → pde_at m' pd i = pde_at m pd i.
Proof.
  intros Hp Ha Hd Hi Hf. apply pde_agree; [done|]. intros a. eapply mem_frame_page; eauto.
  by destruct (pt_pd _ _ _ _ Hp) as ((? & _) & _).
Qed.

Lemma tbl_frame own m m' pd L (P : Z → Prop) i :
  pt_inv own m pd L → (∀ y, P y → pg_aligned y) → ¬ P pd → idx i →
  mem_frame P m m' → tbl m' pd i = tbl m pd i.
Proof. intros Hp Ha Hd Hi Hf. unfold tbl. by rewrite (pde_frame own m m' pd L P). Qed.

(** ** Writing a page table entry *)

Section Store.
Variables (own : Z → Prop) (m : memory) (pd : Z) (L : list Z) (i t j e : Z).
Hypothesis (Hp : pt_inv own m pd L) (Hi : idx i) (Hj : idx j) (Ht : tbl m pd i = Some t).
Let m' := store32 m (t + 4 * j) e.

Lemma store_pde i' : idx i' → pde_at m' pd i' = pde_at m pd i'.
Proof.
  intros Hi'. destruct (pt_tbl _ _ _ _ Hp i t Hi Ht) as ((Hta & _) & _ & Hne & _).
  destruct (pt_pd _ _ _ _ Hp) as ((Hpa & _) & _). apply pde_agree; [done|]. intros a Ha.
  unfold m', store32. apply fill_out.
  destruct (decide (t + 4 * j ≤ a < t + 4 * j + 4)) as [Hin|]; [|lia].
  destruct Hne. apply (pages_disjoint t pd a); [done..| |done].
  by apply (word_in_page t j).
Qed.

Lemma store_tbl i' : idx i' → tbl m' pd i' = tbl m pd i'.
Proof. intros Hi'. unfold tbl. by rewrite store_pde. Qed.

Lemma store_pt_inv : pt_inv own m' pd L.
Proof. eapply pt_inv_ext; [|done]. apply store_pde. Qed.

Lemma store_leaf va :
  leaf m' pd va =
    if (PDX va =? i) && (PTX va =? j) then (if present (u32 e) then Some (u32 e) else None)
    else leaf m pd va.
Proof.
  unfold leaf. rewrite store_tbl by auto with kern.
  destruct (Z.eqb_spec (PDX va) i) as [->|Hne]; simpl.
  - rewrite Ht. simpl. destruct (Z.eqb_spec (PTX va) j) as [->|Hnj]; unfold m'.
    + by rewrite load32_store32.
    + by rewrite load32_store32_ne by lia.
  - destruct (tbl m pd (PDX va)) as [t'|] eqn:Ht'; [|done]. simpl.
    assert (t' ≠ t) as Htt.
    { intros ->. apply Hne. eapply (pt_inj _ _ _ _ Hp); eauto with kern. }
    destruct (pt_tbl _ _ _ _ Hp _ _ Hi Ht) as ((Hta & _) & _).
    destruct (pt_tbl _ _ _ _ Hp _ _ (PDX_idx va) Ht') as ((Hta' & _) & _).
    assert (load32 m' (t' + 4 * PTX va) = load32 m (t' + 4 * PTX va)) as ->; [|done].
    apply load32_ext. intros a Ha. unfold m', store32. apply fill_out.
    destruct (decide (t + 4 * j ≤ a < t + 4 * j + 4)) as [Hin|]; [|lia].
    destruct Htt. apply (pages_disjoint t' t a); [done..| |by apply (word_in_page t j)].
    apply (word_in_page t' (PTX va)); auto with kern.
Qed.

Lemma store_leaf_vpage va a : vpage va → vpage a → PDX a = i → PTX a = j →
  leaf m' pd va =
    if va =? a then (if present (u32 e) then Some (u32 e) else None) else leaf m pd va.
Proof.
  intros Hva Hvaa Ei Ej. rewrite store_leaf. destruct (Z.eqb_spec va a) as [->|Hne].
  - by rewrite Ei, Ej, !Z.eqb_refl.
  - destruct (Z.eqb_spec (PDX va) i), (Z.eqb_spec (PTX va) j); try done.
    destruct Hne. apply vpage_inj; congruence.
Qed.
End Store.

(** ** Adding a page of entries *)

Section Install.
Variables (own : Z → Prop) (m : memory) (pd : Z) (L : list Z) (i p : Z).
Hypothesis (Hp : pt_inv own m pd (p :: L)) (Hi : idx i) (Ht : tbl m pd i = None)
  (Hpv : valid_page p) (Hnd : p ∉ L).
Let e := Z.lor (Z.lor (Z.lor (V2P p) PTE_P) PTE_W) PTE_U.
Let m' := store32 (memset m p 0 PGSIZE) (pd + 4 * i) e.

Lemma install_entry : is_u32 e ∧ present e = true ∧ frame_of e = p.
Proof.
  assert (e = Z.lor (Z.lor (V2P p) 6) PTE_P) as ->.
  { unfold e. rewrite <- !Z.lor_assoc. f_equal. }
  destruct (V2P_page p Hpv) as (Hu & Ha & _).
  split_and!; [apply entry_u32|apply entry_present|apply frame_of_mk]; try done; kl.
Qed.

Lemma install_ne : p ≠ pd.
Proof. destruct (pt_pd _ _ _ _ Hp) as (_ & Hn & _). set_solver. Qed.

Lemma install_tbl_same : tbl m' pd i = Some p.
Proof.
  unfold tbl, pde_at, m'. rewrite load32_store32. destruct install_entry as (Hu & He & Hf).
  by rewrite u32_id, He, Hf.
Qed.

Lemma install_page_pd x a : pt_pages m pd x ∨ x = pd → in_page x a → memset m p 0 PGSIZE a = m a.
Proof.
  intros Hx. assert (pt_pages m pd x) as Hx' by (destruct Hx as [| ->]; [done|by left]).
  destruct (pt_pages_valid _ _ _ _ _ Hp Hx') as ((Hxa & _) & Hn & _).
  eapply (mem_frame_page (λ y, y = p)); [|done| |by apply memset_frame].
  - intros ? ->. by destruct Hpv.
  - intros ->. set_solver.
Qed.

Lemma install_pde_other i' : idx i' → i' ≠ i → pde_at m' pd i' = pde_at m pd i'.
Proof.
  intros Hi' Hne. unfold pde_at, m'. rewrite load32_store32_ne by lia.
  apply load32_ext. intros a Ha. apply (install_page_pd pd); [by right|]. by apply (word_in_page pd i').
Qed.

Lemma install_tbl_other i' : idx i' → i' ≠ i → tbl m' pd i' = tbl m pd i'.
Proof. intros Hi' Hne. unfold tbl. by rewrite install_pde_other. Qed.

(** The new directory entry is writable. *)
Lemma install_pde_w : Z.land (pde_at m' pd i) PTE_W ≠ 0.
Proof.
  unfold pde_at, m'. rewrite load32_store32. destruct install_entry as (Hu & _). rewrite u32_id by done.
  unfold e. change PTE_W with (2 ^ 1). rewrite land_flag_bit by done. rewrite !Z.lor_spec.
  change (Z.testbit (2 ^ 1) 1) with true. by rewrite orb_true_r.
Qed.

Lemma install_frame : mem_frame (λ x, x = pd ∨ x = p) m m'.
Proof.
  etrans; [apply memset_frame|apply store32_frame]; auto.
Qed.

Lemma install_leaf va : leaf m' pd va = leaf m pd va.
Proof.
  unfold leaf. destruct (decide (PDX va = i)) as [->|Hne].
  - rewrite install_tbl_same, Ht. simpl. unfold m'.
    rewrite load32_zero; [done|]. intros a Ha.
    assert (in_page p a) as Hpa by (eapply word_in_page; [apply (PTX_idx va)|done]).
    unfold store32. rewrite fill_out; [by apply memset_in; [kl|unfold in_page in Hpa; kl]|].
    destruct (decide (pd + 4 * i ≤ a < pd + 4 * i + 4)) as [Hin|]; [|lia].
    destruct install_ne. destruct Hpv as [? _], (pt_pd _ _ _ _ Hp) as ((? & _) & _).
    apply (pages_disjoint p pd a); [done..|by apply (word_in_page pd i)].
  - rewrite install_tbl_other by auto with kern.
    destruct (tbl m pd (PDX va)) as [t|] eqn:Ht'; [|done]. simpl.
    assert (load32 m' (t + 4 * PTX va) = load32 m (t + 4 * PTX va)) as ->; [|done].
    apply load32_ext. intros a Ha.
    destruct (pt_tbl _ _ _ _ Hp _ _ (PDX_idx va) Ht') as ((Hta & _) & Hn & Hd & _).
    eapply mem_frame_page; [|exact Hta| |apply install_frame|by eapply word_in_page; [apply (PTX_idx va)|]].
    + intros y [->| ->]; [by destruct (pt_pd _ _ _ _ Hp) as ((? & _) & _)|by destruct Hpv].
    + intros [->| ->]; set_solver.
Qed.

Lemma install_pt_inv : pt_inv own m' pd L.
Proof.
  pose proof install_ne as Hne. split.
  - intros x Hx. apply (pt_free _ _ _ _ Hp). set_solver.
  - destruct (pt_pd _ _ _ _ Hp) as (? & ? & ?). set_solver.
  - intros i' t Hi'. destruct (decide (i' = i)) as [->|Hd].
    + rewrite install_tbl_same. intros [= <-]. split_and!; try done.
      apply (pt_free _ _ _ _ Hp). set_solver.
    + rewrite install_tbl_other by done. intros Ht'.
      destruct (pt_tbl _ _ _ _ Hp _ _ Hi' Ht') as (? & ? & ? & ?). set_solver.
  - assert (∀ i', idx i' → tbl m pd i' ≠ Some p) as Hno.
    { intros i' Hi' Ht'. destruct (pt_tbl _ _ _ _ Hp _ _ Hi' Ht') as (_ & Hn & _). set_solver. }
    intros i1 i2 t H1 H2. destruct (decide (i1 = i)) as [->|], (decide (i2 = i)) as [->|]; try done.
    + rewrite install_tbl_same, install_tbl_other by done. intros [= <-] ?. by destruct (Hno i2).
    + rewrite install_tbl_same, install_tbl_other by done. intros ? [= <-]. by destruct (Hno i1).
    + rewrite !install_tbl_other by done. by apply (pt_inj _ _ _ _ Hp).
  - intros i' t Hi'. destruct (decide (i' = i)) as [->|Hd]; [intros _; apply install_pde_w|].
    rewrite install_tbl_other, install_pde_other by done. by apply (pt_w _ _ _ _ Hp).
Qed.
End Install.

End Inv.
