(* ===== verification/VmOps.v ===== *)
(** * vm.c: mapping and unmapping pages

    Specifications of [walkpgdir], [mappages], [deallocuvm], [allocuvm],
    [setupkvm] and [freevm] in terms of the map of VmInv.v: what is mapped
    afterwards, which pages were taken from or given back to the allocator, and
    that nothing outside the address space changed. *)

From S2P Require Import Prelude Layout State Str Spinlock Kalloc Vm VmInv.

Section Frame.
Context `{KernelSyms}.

(** The objects that live in the page at [x]. *)
Definition page_objs (k : kern) (x : Z) :=
  (shared k !! x, pipes k !! x, frames k !! (x + KSTACKSIZE - sizeof_trapframe),
   ctxs k !! (x + KSTACKSIZE - sizeof_trapframe - 4 - sizeof_context)).

(** Only the pages of [P], and the allocator's list, may differ. *)
Record kframe (P : Z → Prop) (k k' : kern) : Prop := mkKframe {
  kf_non : same_but_mm k k';
  kf_mem : mem_frame P (mem k) (mem k');
  kf_obj : ∀ x, ¬ P x → page_objs k' x = page_objs k x
}.

#[export] Instance kframe_preorder P : PreOrder (kframe P).
Proof.
  split; [done|]. intros k1 k2 k3 [A1 B1 C1] [A2 B2 C2].
  split; [by etrans|by etrans|]. intros x Hx. by rewrite C2, C1.
Qed.

Lemma kframe_mono (P Q : Z → Prop) k k' : (∀ x, P x → Q x) → kframe P k k' → kframe Q k k'.
Proof.
  intros HPQ [A B C]. split; [done|by eapply mem_frame_mono|]. intros x Hx. apply C. auto.
Qed.

Lemma kframe_hw P k h : kframe P k (k <| hw := h |>).
Proof. done. Qed.

Lemma kframe_mem P k m : mem_frame P (mem k) m → kframe P k (k <| mem := m |>).
Proof. done. Qed.

Lemma kframe_ready P k k' v : kframe P k k' → kmem_ready k v → kmem_ready k' v.
Proof. intros [? _ _]. by apply kmem_ready_mm. Qed.

Lemma kfree_kframe p k : kframe (λ x, x = p) k (kfree_result p k).
Proof.
  split; [done| |].
  - intros a Ha. apply kfree_mem_out. auto.
  - intros x Hx. unfold page_objs. simpl. rewrite !lookup_delete_ne by lia. done.
Qed.

(** ** Growing the page table *)

(** From [k] to [k'], the pages [used] left the free list [L] and became pages of
    entries of [pd]; nothing outside the page table changed. *)
Record grown (own : Z → Prop) (pd : Z) (k k' : kern) (L used L' : list Z) : Prop := mkGrown {
  gw_split : L = used ++ L';
  gw_kmem : kmem_inv k' L';
  gw_pt : pt_inv own (mem k') pd L';
  gw_old : ∀ i t, idx i → tbl (mem k) pd i = Some t → tbl (mem k') pd i = Some t;
  gw_new : ∀ i t, idx i → tbl (mem k') pd i = Some t → tbl (mem k) pd i = Some t ∨ t ∈ used;
  gw_used : ∀ x, x ∈ used → pt_pages (mem k') pd x;
  gw_frame : kframe (pt_pages (mem k') pd) k k'
}.

Lemma grown_refl own pd k L h :
  kmem_inv k L → pt_inv own (mem k) pd L → grown own pd k (k <| hw := h |>) L [] L.
Proof. intros Hk Hp. split; simpl; auto using kmem_inv_hw, kframe_hw. set_solver. Qed.

Lemma grown_pages own pd k k' L u L' x :
  grown own pd k k' L u L' → pt_pages (mem k) pd x → pt_pages (mem k') pd x.
Proof.
  intros Hg [->|(i & Hi & Ht)]; [by left|]. right. exists i. split; [done|].
  by apply (gw_old _ _ _ _ _ _ _ Hg).
Qed.

Lemma grown_trans own pd k1 k2 k3 L1 u1 L2 u2 L3 :
  grown own pd k1 k2 L1 u1 L2 → grown own pd k2 k3 L2 u2 L3 →
  grown own pd k1 k3 L1 (u1 ++ u2) L3.
Proof.
  intros G1 G2. destruct G1 as [A1 B1 C1 D1 E1 U1 F1], (id G2) as [A2 B2 C2 D2 E2 U2 F2]. split; try done.
  - by rewrite A1, A2, app_assoc.
  - eauto.
  - intros i t Hi Ht. destruct (E2 i t Hi Ht) as [Ht'|]; [destruct (E1 i t Hi Ht')|]; set_solver.
  - intros x [Hx|Hx]%elem_of_app; [|by apply U2]. eapply grown_pages; [done|]. by apply U1.
  - etrans; [|done]. eapply kframe_mono; [|done]. intros x Hx. by eapply grown_pages.
Qed.

(** Writing one entry of an existing page of entries. *)
Lemma grown_store own pd k L i t j e :
  kmem_inv k L → pt_inv own (mem k) pd L → idx i → idx j → tbl (mem k) pd i = Some t →
  grown own pd k (k <| mem := store32 (mem k) (t + 4 * j) e |>) L [] L.
Proof.
  intros Hk Hp Hi Hj Ht. pose proof (store_tbl own _ pd L i t j e Hp Hi Hj Ht) as Hs.
  assert (pt_pages (mem k) pd t) as Hpt by (right; eauto).
  assert (mem_frame (λ x, x = t) (mem k) (store32 (mem k) (t + 4 * j) e)) as Hmf
    by by apply store32_frame.
  destruct (pt_pages_valid _ _ _ _ _ Hp Hpt) as ((Hta & _) & Hn & _).
  split; simpl; [done| |by apply (store_pt_inv own _ pd L i)|by intros; rewrite Hs|by intros ? ? ?; rewrite Hs; auto|set_solver|].
  - apply (kmem_inv_frame k); [done| |done]. intros x a Hx Ha. simpl.
    eapply mem_frame_page; [| | |exact Hmf|exact Ha].
    + by intros ? ->.
    + destruct Hk as [_ _ Hv]. rewrite Forall_forall in Hv. by destruct (Hv x Hx).
    + by intros ->.
  - apply kframe_mem. eapply mem_frame_mono; [|exact Hmf]. simpl. intros x ->.
    by apply (pt_pages_ext (mem k)).
Qed.

(** ** walkpgdir *)

Lemma walk_present w pd va alloc t :
  tbl (mem (ks w)) pd (PDX va) = Some t → walkpgdir pd va alloc w = Ok (t + 4 * PTX va) w.
Proof.
  unfold tbl, walkpgdir, ld32. rewrite bind_getk. cbv zeta. fold (present (load32 (mem (ks w)) (pd + 4 * PDX va))).
  destruct (present _); [|done]. intros [= <-]. done.
Qed.

Lemma walk_absent w pd va :
  tbl (mem (ks w)) pd (PDX va) = None → walkpgdir pd va false w = Ok 0 w.
Proof.
  unfold tbl, walkpgdir, ld32. rewrite bind_getk. cbv zeta. fold (present (load32 (mem (ks w)) (pd + 4 * PDX va))).
  by destruct (present _).
Qed.

(** [walkpgdir] with [alloc]: a null pointer only when no page is free; otherwise
    the entry's address, with the same pages mapped as before. *)
Definition walk_post own pd va (k : kern) (L : list Z) (r : Z) (k' : kern) : Prop :=
  ∃ used L', grown own pd k k' L used L' ∧ (∀ va', leaf (mem k') pd va' = leaf (mem k) pd va') ∧
    ((r = 0 ∧ L' = []) ∨ (∃ t, r = t + 4 * PTX va ∧ tbl (mem k') pd (PDX va) = Some t)).

Lemma walk_alloc_new own w v pd va p L h :
  kmem_inv (ks w) (p :: L) → pt_inv own (mem (ks w)) pd (p :: L) →
  tbl (mem (ks w)) pd (PDX va) = None → hw_ok h v →
  post (_ ← kmemset p 0 PGSIZE;
        _ ← st32 (pd + 4 * PDX va) (Z.lor (Z.lor (Z.lor (V2P p) PTE_P) PTE_W) PTE_U);
        mret (p + 4 * PTX va))
    (mkWorld ((ks w) <| freelist := load32 (mem (ks w)) p |> <| hw := h |>) (resumes w)) v
    (walk_post own pd va (ks w) (p :: L)).
Proof.
  intros Hk Hp Ht Hh. unfold kmemset, st32. ppure. apply post_ret; [done|].
  pose proof (kalloc_inv _ _ _ Hk) as Hk'. destruct Hk as [_ Hd Hval].
  inversion_clear Hd as [|? ? Hnd _]. inversion_clear Hval as [|? ? Hpv Hval'].
  set (m' := store32 (memset (mem (ks w)) p 0 PGSIZE) (pd + 4 * PDX va)
    (Z.lor (Z.lor (Z.lor (V2P p) PTE_P) PTE_W) PTE_U)).
  pose proof (install_tbl_same (mem (ks w)) pd (PDX va) p Hpv) as Hts.
  pose proof (install_tbl_other own _ pd L (PDX va) p Hp (PDX_idx va) Ht Hpv Hnd) as Hto.
  fold m' in Hts, Hto.
  exists [p], L. split_and!.
  2: { intros va'. by apply (install_leaf own _ pd L); auto with kern. }
  2: { right. by exists p. }
  split; [done| |by apply install_pt_inv; auto with kern|..]; simpl; fold m'.
  - eapply kmem_inv_frame; [| |exact Hk']; [done|]. intros x a Hx Ha. simpl.
    rewrite Forall_forall in Hval'. destruct (Hval' x Hx) as (Hxa & _).
    destruct (pt_pd _ _ _ _ Hp) as ((Hpa & _) & Hn & _).
    eapply mem_frame_page; [|exact Hxa| |by apply install_frame; auto with kern|exact Ha].
    + intros y [->| ->]; [done|by destruct Hpv].
    + intros [->| ->]; set_solver.
  - intros i t Hi Hit. destruct (decide (i = PDX va)) as [->|]; [congruence|]. by rewrite Hto.
  - intros i t Hi. destruct (decide (i = PDX va)) as [->|].
    + rewrite Hts. intros [= <-]. right. set_solver.
    + rewrite Hto by done. auto.
  - intros x ->%list_elem_of_singleton. right. exists (PDX va). auto with kern.
  - split; [done| |done]. eapply mem_frame_mono; [|by apply install_frame; auto with kern].
    intros x [->| ->]; [by left|right]. exists (PDX va). auto with kern.
Qed.

Lemma walk_alloc_spec own w v pd va L :
  hw_ok (hw (ks w)) v → kmem_ready (ks w) v → kmem_inv (ks w) L →
  pt_inv own (mem (ks w)) pd L →
  post (walkpgdir pd va true) w v (walk_post own pd va (ks w) L).
Proof.
  intros Hv Hr Hk Hp. destruct (tbl (mem (ks w)) pd (PDX va)) as [t|] eqn:Ht.
  - exists (t + 4 * PTX va), w. split_and!; [by apply walk_present|done|done|].
    exists [], L. split_and!; [|done|eauto]. replace (ks w) with ((ks w) <| hw := hw (ks w) |>) at 2
      by (by destruct (ks w)). by apply grown_refl.
  - unfold walkpgdir, ld32. ppure.
    assert (truthy (Z.land (load32 (mem (ks w)) (pd + 4 * PDX va)) PTE_P) = false) as ->.
    { unfold tbl, present in Ht. by destruct (truthy _). }
    simpl. eapply post_bind_runs; [by apply (kalloc_spec _ v L)|]. intros h Hh.
    destruct L as [|p L]; simpl.
    + apply post_ret; [done|]. exists [], []. split_and!; [by apply grown_refl|done|by left].
    + rewrite (proj2 (Z.eqb_neq p 0)); [by apply walk_alloc_new|].
      destruct Hk as [_ _ Hval]. inversion_clear Hval as [|? ? Hpv]. pose proof (valid_page_pos _ Hpv). kl.
Qed.

(** ** mappages *)

Definition entry (pa perm : Z) : Z := Z.lor (Z.lor pa perm) PTE_P.

(** The map [F] with the [n] pages from [a] on mapped to the frames from [pa] on. *)
Definition mapped (a n pa perm : Z) (F : Z → option Z) (va : Z) : option Z :=
  if (a <=? va) && (va <? a + PGSIZE * n) then Some (entry (pa + (va - a)) perm) else F va.

Lemma mapped_0 a pa perm F va : mapped a 0 pa perm F va = F va.
Proof. unfold mapped. destruct (Z.leb_spec a va), (Z.ltb_spec va (a + PGSIZE * 0)); simpl; done || kl. Qed.

Lemma mapped_out a n pa perm F va :
  va < a ∨ a + PGSIZE * n ≤ va → mapped a n pa perm F va = F va.
Proof. intros. unfold mapped. destruct (Z.leb_spec a va), (Z.ltb_spec va (a + PGSIZE * n)); simpl; done || kl. Qed.

Lemma mapped_in a n pa perm F va :
  a ≤ va < a + PGSIZE * n → mapped a n pa perm F va = Some (entry (pa + (va - a)) perm).
Proof. intros. unfold mapped. destruct (Z.leb_spec a va), (Z.ltb_spec va (a + PGSIZE * n)); simpl; done || kl. Qed.

(** Mapping one page and then [n] more. *)
Lemma mapped_S a n pa perm (F G : Z → option Z) va :
  pg_aligned a → pg_aligned va → 0 ≤ n →
  (G va = if va =? a then Some (entry pa perm) else F va) →
  mapped (a + PGSIZE) n (pa + PGSIZE) perm G va = mapped a (n + 1) pa perm F va.
Proof.
  intros Ha Hva Hn HG. unfold mapped at 1.
  destruct (Z.leb_spec (a + PGSIZE) va), (Z.ltb_spec va (a + PGSIZE + PGSIZE * n)); simpl.
  - rewrite mapped_in by kl. do 2 f_equal. lia.
  - rewrite mapped_out, HG by kl. by rewrite (proj2 (Z.eqb_neq va a)) by kl.
  - rewrite HG. destruct (Z.eqb_spec va a) as [->|].
    + rewrite mapped_in by kl. by replace (pa + (a - a)) with pa by lia.
    + rewrite mapped_out; [done|]. unfold pg_aligned in *. zl.
  - kl.
Qed.

Definition map_post own pd a n pa perm (k : kern) (L : list Z) (r : Z) (k' : kern) : Prop :=
  ∃ used L' j, grown own pd k k' L used L' ∧ 0 ≤ j ∧
    ((r = 0 ∧ j = n) ∨ (r = -1 ∧ j < n ∧ L' = [])) ∧
    (∀ va, vpage va → leaf (mem k') pd va = mapped a j pa perm (leaf (mem k) pd) va).

(** One page. *)
Lemma map_one own w v pd a pa perm L :
  hw_ok (hw (ks w)) v → kmem_ready (ks w) v → kmem_inv (ks w) L → pt_inv own (mem (ks w)) pd L →
  vpage a → is_u32 pa → pg_aligned pa → 0 ≤ perm < PGSIZE → leaf (mem (ks w)) pd a = None →
  post (pte ← walkpgdir pd a true;
        if pte =? 0 then mret (-1) else
        e ← ld32 pte;
        if truthy (Z.land e PTE_P) then panic "remap" else
        _ ← st32 pte (entry pa perm);
        mret 0) w v (map_post own pd a 1 pa perm (ks w) L).
Proof.
  intros Hv Hr Hk Hp Ha Hu Hpa Hperm Hl.
  eapply post_bind; [by apply (walk_alloc_spec own _ v pd a L)|].
  intros r w1 Hv1 Hr1 (used & L' & Hg & Hleaf & Hcase).
  destruct Hcase as [[-> HL]|(t & -> & Ht)].
  - simpl. apply post_ret; [done|]. exists used, L', 0. split_and!; [done|done|by right|].
    intros va Hva. by rewrite mapped_0, Hleaf.
  - destruct (pt_tbl _ _ _ _ (gw_pt _ _ _ _ _ _ _ Hg) _ _ (PDX_idx a) Ht) as (Htv & _). pose proof (valid_page_pos _ Htv) as Hpos.
    pose proof (PTX_range a) as Hx.
    rewrite (proj2 (Z.eqb_neq _ 0)) by kl. unfold ld32, st32. ppure.
    pose proof (Hleaf a) as Hla. rewrite Hl in Hla. unfold leaf in Hla. rewrite Ht in Hla.
    cbv zeta in Hla. unfold present in Hla. destruct (truthy _) eqn:E; [done|]. ppure.
    apply post_ret; [done|]. simpl.
    exists used, L', 1. split_and!; [|done|by left|].
    + rewrite <- (app_nil_r used). eapply grown_trans; [done|].
      apply (grown_store own pd (ks w1) L' (PDX a)); eauto using gw_kmem, gw_pt with kern.
    + intros va Hva. simpl. rewrite (store_leaf_vpage own _ pd L' (PDX a) t (PTX a) _
        (gw_pt _ _ _ _ _ _ _ Hg) (PDX_idx a) (PTX_idx a) Ht va a) by done.
      rewrite u32_id by by apply entry_u32. unfold entry at 1. rewrite entry_present. fold (entry pa perm).
      destruct (Z.eqb_spec va a) as [->|Hne].
      * rewrite mapped_in by kl. do 2 f_equal. lia.
      * rewrite mapped_out, Hleaf; [done|]. destruct Ha, Hva. unfold pg_aligned in *. zl.
Qed.

Lemma mappages_loop_S fuel pd a last pa perm w :
  mappages_loop (S fuel) pd a last pa perm w =
  ((pte ← walkpgdir pd a true;
    if pte =? 0 then mret (-1) else
    e ← ld32 pte;
    if truthy (Z.land e PTE_P) then panic "remap" else
    _ ← st32 pte (entry pa perm);
    mret 0) ≫= λ r,
   if r <? 0 then mret r else
   if a =? last then mret 0
   else mappages_loop fuel pd (u32 (a + PGSIZE)) last (u32 (pa + PGSIZE)) perm) w.
Proof.
  cbn [mappages_loop]. rewrite bind_assoc. apply bind_ext. intros pte s.
  destruct (pte =? 0); [done|]. rewrite bind_assoc. apply bind_ext. intros e s'.
  destruct (truthy _); [done|]. by rewrite bind_assoc.
Qed.

Lemma mappages_loop_spec n own fuel w v pd a pa perm L :
  hw_ok (hw (ks w)) v → kmem_ready (ks w) v → kmem_inv (ks w) L → pt_inv own (mem (ks w)) pd L →
  vpage a → pg_aligned pa → 0 ≤ pa → 0 ≤ perm < PGSIZE →
  a + PGSIZE * (Z.of_nat n + 1) ≤ two32 → pa + PGSIZE * (Z.of_nat n + 1) ≤ two32 → (n < fuel)%nat →
  (∀ va, vpage va → a ≤ va < a + PGSIZE * (Z.of_nat n + 1) → leaf (mem (ks w)) pd va = None) →
  post (mappages_loop fuel pd a (a + PGSIZE * Z.of_nat n) pa perm) w v
    (map_post own pd a (Z.of_nat n + 1) pa perm (ks w) L).
Proof.
  revert fuel w a pa L. induction n as [|n IH];
    intros [|fuel] w a pa L Hv Hr Hk Hp Ha Hpa Hpa0 Hperm Hba Hbp Hf Hfree; try lia;
    (eapply post_eq; [apply mappages_loop_S|]);
    (eapply post_bind; [apply (map_one own _ v pd a pa perm L); try done; [kl|apply Hfree; [done|kl]]|]);
    intros r w1 Hv1 Hr1 (u1 & L1 & j1 & Hg & Hj & Hcase & Hleaf).
  - destruct Hcase as [[-> ->]|(-> & Hj1 & HL1)]; cbn [Z.ltb Z.compare].
    + replace (a + PGSIZE * Z.of_nat 0) with a by lia. rewrite Z.eqb_refl.
      apply post_ret; [done|]. exists u1, L1, 1. split_and!; auto.
    + apply post_ret; [done|]. exists u1, L1, j1. split_and!; auto.
  - destruct Hcase as [[-> ->]|(-> & Hj1 & HL1)]; cbn [Z.ltb Z.compare].
    2:{ apply post_ret; [done|]. exists u1, L1, j1. split_and!; auto. right. split_and!; auto. lia. }
    rewrite (proj2 (Z.eqb_neq _ _)) by kl. destruct Ha as [Hal Hau].
    rewrite !u32_id by kl.
    replace (a + PGSIZE * Z.of_nat (S n)) with ((a + PGSIZE) + PGSIZE * Z.of_nat n) by lia.
    assert (∀ va, vpage va → leaf (mem (ks w1)) pd va =
              if va =? a then Some (entry pa perm) else leaf (mem (ks w)) pd va) as Hleaf1.
    { intros va Hva. rewrite Hleaf by done. destruct (Z.eqb_spec va a) as [->|].
      - rewrite mapped_in by kl. do 2 f_equal. lia.
      - destruct Hva. apply mapped_out. unfold pg_aligned in *. zl. }
    eapply post_mono; [apply (IH fuel w1 (a + PGSIZE) (pa + PGSIZE) L1)|]; try done.
    + by eapply kframe_ready; [apply (gw_frame _ _ _ _ _ _ _ Hg)|].
    + apply (gw_kmem _ _ _ _ _ _ _ Hg).
    + apply (gw_pt _ _ _ _ _ _ _ Hg).
    + split; [unfold pg_aligned in *; zl|kl].
    + unfold pg_aligned in *; zl.
    + kl.
    + kl.
    + kl.
    + lia.
    + intros va Hva Hb. rewrite Hleaf1 by done. rewrite (proj2 (Z.eqb_neq _ _)) by kl.
      apply Hfree; [done|kl].
    + intros r k (u2 & L2 & j2 & Hg2 & Hj2 & Hcase & Hleaf2).
      exists (u1 ++ u2), L2, (j2 + 1). split_and!; [by eapply grown_trans|lia| |].
      * destruct Hcase as [[-> ->]|(-> & ? & ?)]; [left|right]; split_and!; try done; lia.
      * intros va Hva. rewrite Hleaf2 by done. apply mapped_S; [done|by destruct Hva|lia|auto].
Qed.

(** The number of pages that [va .. va+size-1] touches. *)
Definition npages (va size : Z) : Z := (va + size - 1) / PGSIZE - va / PGSIZE + 1.

Lemma mappages_spec own w v pd va size pa perm L :
  hw_ok (hw (ks w)) v → kmem_ready (ks w) v → kmem_inv (ks w) L → pt_inv own (mem (ks w)) pd L →
  is_u32 va → 0 < size → va + size ≤ two32 → pg_aligned pa → 0 ≤ pa → 0 ≤ perm < PGSIZE →
  pa + PGSIZE * npages va size ≤ two32 →
  (∀ va', vpage va' → PGROUNDDOWN va ≤ va' < va + size → leaf (mem (ks w)) pd va' = None) →
  post (mappages pd va size pa perm) w v
    (map_post own pd (PGROUNDDOWN va) (npages va size) pa perm (ks w) L).
Proof.
  intros Hv Hr Hk Hp Hu Hs Hb Hpa Hpa0 Hperm Hpb Hfree. unfold mappages.
  rewrite !(u32_id va), !(u32_id (va + size - 1)) by kl.
  rewrite !PGROUNDDOWN_spec in * by kl.
  set (a := va - va mod PGSIZE) in *.
  assert (0 ≤ a ≤ va ∧ pg_aligned a) as [Ha Hal] by (unfold a, pg_aligned; zl).
  set (n := Z.to_nat (npages va size - 1)).
  assert (Z.of_nat n = npages va size - 1) as Hn by (unfold n, npages; zl).
  replace (va + size - 1 - (va + size - 1) mod PGSIZE) with (a + PGSIZE * Z.of_nat n)
    by (rewrite Hn; unfold npages, a; zl).
  replace (npages va size) with (Z.of_nat n + 1) by lia.
  assert (a + PGSIZE * (Z.of_nat n + 1) ≤ va + size + PGSIZE - 1 ∧ a + PGSIZE * (Z.of_nat n + 1) ≤ two32)
    as [Hend Hend2] by (rewrite Hn; unfold npages, a; zl).
  apply mappages_loop_spec; try done; try kl.
  - split; [done|kl].
  - rewrite u32_id by kl. replace (a + PGSIZE * Z.of_nat n - a) with (Z.of_nat n * PGSIZE) by lia.
    rewrite Z.div_mul by done. lia.
  - intros va' Hva' Hr'. apply Hfree; [done|]. destruct Hva' as [Hal' _].
    unfold pg_aligned in *. rewrite Hn in *. unfold npages in *. zl.
Qed.

(** Mapping one aligned page, the form the user half uses. *)
Lemma mappages_page own w v pd va pa perm L :
  hw_ok (hw (ks w)) v → kmem_ready (ks w) v → kmem_inv (ks w) L → pt_inv own (mem (ks w)) pd L →
  upage va → pg_aligned pa → 0 ≤ pa → pa + PGSIZE ≤ two32 → 0 ≤ perm < PGSIZE →
  leaf (mem (ks w)) pd va = None →
  post (mappages pd va PGSIZE pa perm) w v (map_post own pd va 1 pa perm (ks w) L).
Proof.
  intros Hv Hr Hk Hp Hva Hpa Hpa0 Hpab Hperm Hl. destruct Hva as [Hal Hr'].
  assert (PGROUNDDOWN va = va) as Hd.
  { rewrite PGROUNDDOWN_spec by kl. unfold pg_aligned in Hal. lia. }
  assert (npages va PGSIZE = 1) as Hn1 by (unfold npages, pg_aligned in *; zl).
  pose proof (mappages_spec own w v pd va PGSIZE pa perm L) as Hs. rewrite Hd, Hn1 in Hs.
  apply Hs; try done; try kl. intros va' [Hal' _] Hb'.
  replace va' with va; [done|]. unfold pg_aligned in *. zl.
Qed.

(** ** Frames of the user half *)

Lemma grown_frames own pd k k' L used L' :
  grown own pd k k' L used L' → (∀ va, upage va → leaf (mem k') pd va = leaf (mem k) pd va) →
  frames_inv own (mem k) pd L → frames_inv own (mem k') pd L'.
Proof.
  intros Hg Hl [H1 H2]. split.
  - intros va e Hva. rewrite Hl by done. intros He. destruct (H1 va e Hva He) as (Hv & Hn & Hp & Ho).
    pose proof (gw_split _ _ _ _ _ _ _ Hg) as ->.
    split_and!; [done|set_solver| |done]. intros [Hx|(i & Hi & Ht)].
    + apply Hp. by left.
    + destruct (gw_new _ _ _ _ _ _ _ Hg i _ Hi Ht) as [?|?]; [|set_solver].
      apply Hp. right. eauto.
  - intros va va' e e' Hva Hva'. rewrite !Hl by done. by apply H2.
Qed.

(** A page the address space does not use becomes the frame of [va]. *)
Lemma grown_add_frame own pd k k' L used L' va f perm :
  grown own pd k k' L used L' → as_inv own (mem k) pd L → upage va →
  valid_page f → f ∉ L → ¬ pt_pages (mem k) pd f → own f →
  (∀ va' e', upage va' → leaf (mem k) pd va' = Some e' → frame_of e' ≠ f) →
  0 ≤ perm < PGSIZE →
  (∀ va', vpage va' → leaf (mem k') pd va' = mapped va 1 (V2P f) perm (leaf (mem k) pd) va') →
  as_inv own (mem k') pd L'.
Proof.
  intros Hg [Hpt [H1 H2]] Hva Hf HfL Hfp Hfo Hfresh Hperm Hl.
  split; [by eapply gw_pt|]. pose proof (gw_split _ _ _ _ _ _ _ Hg) as ->.
  assert (∀ va', upage va' → leaf (mem k') pd va' =
            if va' =? va then Some (entry (V2P f) perm) else leaf (mem k) pd va') as Hl'.
  { intros va' Hva'. rewrite Hl by auto with kern. destruct (Z.eqb_spec va' va) as [->|].
    - rewrite mapped_in by kl. do 2 f_equal. lia.
    - apply mapped_out. destruct Hva, Hva'. unfold pg_aligned in *. zl. }
  assert (∀ x, ¬ pt_pages (mem k) pd x → x ∉ used → ¬ pt_pages (mem k') pd x) as Hpp.
  { intros x Hx Hu [->|(i & Hi & Ht)]; [apply Hx; by left|].
    destruct (gw_new _ _ _ _ _ _ _ Hg i _ Hi Ht); [apply Hx; right; eauto|done]. }
  split.
  - intros va' e Hva'. rewrite Hl' by done. destruct (Z.eqb_spec va' va) as [->|].
    + intros [= <-]. unfold entry. rewrite frame_of_mk by done. split_and!; [done|set_solver| |done].
      apply Hpp; [done|set_solver].
    + intros He. destruct (H1 va' e Hva' He) as (? & ? & ? & ?).
      split_and!; [done|set_solver| |done]. apply Hpp; [done|set_solver].
  - intros va1 va2 e1 e2 Hv1 Hv2. rewrite !Hl' by done.
    destruct (Z.eqb_spec va1 va) as [->|], (Z.eqb_spec va2 va) as [->|]; [done|..].
    + intros [= <-] He2. unfold entry. rewrite frame_of_mk by done. intros Heq. by destruct (Hfresh va2 e2).
    + intros He1 [= <-]. unfold entry. rewrite frame_of_mk by done. intros Heq. by destruct (Hfresh va1 e1).
    + by apply H2.
Qed.

(** ** deallocuvm *)

Lemma pt_inv_free own m pd L x :
  pt_inv own m pd L → ¬ pt_pages m pd x → own x → pt_inv own m pd (x :: L).
Proof.
  intros [H1 (H2a & H2b & H2c) H3 H4 H5] Hx Ho. split; [set_solver| | |done|done].
  - split_and!; [done| |done]. apply not_elem_of_cons. split; [|done]. intros ->. apply Hx. by left.
  - intros i t Hi Ht. destruct (H3 i t Hi Ht) as (? & ? & ? & ?). split_and!; [done| |done|done].
    apply not_elem_of_cons. split; [|done]. intros ->. apply Hx. right. eauto.
Qed.

Lemma mem_hw_comm k f h : (k <| hw := h |>) <| mem ::= f |> = (k <| mem ::= f |>) <| hw := h |>.
Proof. by destruct k. Qed.

(** What freeing and unmapping the page at [a] does. *)
Definition unmap_result (pte e : Z) (k : kern) : kern :=
  (kfree_result (frame_of e) k) <| mem ::= λ m, store32 m pte 0 |>.

Section Unmap.
Variables (own : Z → Prop) (pd : Z) (k : kern) (L : list Z) (a t e : Z).
Hypothesis (Hk : kmem_inv k L) (Has : as_inv own (mem k) pd L) (Ha : upage a)
  (Ht : tbl (mem k) pd (PDX a) = Some t) (Hl : leaf (mem k) pd a = Some e).
Let k1 := kfree_result (frame_of e) k.
Let k2 := unmap_result (t + 4 * PTX a) e k.

Lemma unmap_frame_ok : valid_page (frame_of e) ∧ frame_of e ∉ L ∧ ¬ pt_pages (mem k) pd (frame_of e) ∧
  own (frame_of e).
Proof. destruct Has as [_ Hf]. exact (fr_page _ _ _ _ Hf a e Ha Hl). Qed.

Lemma unmap_freed :
  kmem_inv k1 (frame_of e :: L) ∧ pt_inv own (mem k1) pd (frame_of e :: L) ∧
  (∀ i, idx i → tbl (mem k1) pd i = tbl (mem k) pd i) ∧
  (∀ va, leaf (mem k1) pd va = leaf (mem k) pd va).
Proof.
  destruct unmap_frame_ok as (Hv & HnL & Hnp & Ho), Has as [Hpt Hf].
  pose proof (kf_mem _ _ _ (kfree_kframe (frame_of e) k)) as Hmf. fold k1 in Hmf.
  assert (∀ y, y = frame_of e → pg_aligned y) as Hal by (intros ? ->; by destruct Hv).
  assert (∀ i, idx i → tbl (mem k1) pd i = tbl (mem k) pd i) as Htbl.
  { intros i Hi. apply (tbl_frame own _ _ pd L (λ x, x = frame_of e)); auto. intros Heq. apply Hnp. rewrite <- Heq. by left. }
  split_and!; [by apply kfree_inv| |done|].
  - apply pt_inv_free; [| |done]; [|by rewrite (pt_pages_ext (mem k))].
    eapply pt_inv_ext; [|done]. intros i Hi. apply (pde_frame own _ _ pd L (λ x, x = frame_of e)); auto.
    intros Heq. apply Hnp. rewrite <- Heq. by left.
  - intros va. apply (leaf_frame own _ _ pd L (λ x, x = frame_of e)); auto. by intros x Hx ->.
Qed.

Lemma unmap_grown : grown own pd k1 k2 (frame_of e :: L) [] (frame_of e :: L).
Proof.
  destruct unmap_freed as (Hk1 & Hp1 & Htb & _).
  apply (grown_store own pd k1 _ (PDX a)); auto with kern. by rewrite Htb by auto with kern.
Qed.

Lemma unmap_tbl i : idx i → tbl (mem k2) pd i = tbl (mem k) pd i.
Proof.
  destruct unmap_freed as (_ & Hp1 & Htb & _). intros Hi. rewrite <- Htb by done.
  apply (store_tbl own _ pd (frame_of e :: L) (PDX a)); auto with kern. by rewrite Htb by auto with kern.
Qed.

Lemma unmap_leaf va : vpage va → leaf (mem k2) pd va = if va =? a then None else leaf (mem k) pd va.
Proof.
  destruct unmap_freed as (_ & Hp1 & Htb & Hle). intros Hva. rewrite <- Hle.
  apply (store_leaf_vpage own (mem k1) pd (frame_of e :: L) (PDX a) t (PTX a) 0); auto with kern.
  by rewrite Htb by auto with kern.
Qed.

Lemma unmap_as_inv : as_inv own (mem k2) pd (frame_of e :: L).
Proof.
  split; [apply (gw_pt _ _ _ _ _ _ _ unmap_grown)|]. destruct Has as [_ [H1 H2]]. split.
  - intros va e' Hva. rewrite unmap_leaf by auto with kern. destruct (Z.eqb_spec va a) as [|Hne]; [done|].
    intros He'. destruct (H1 va e' Hva He') as (? & ? & ? & ?). split_and!; [done| | |done].
    + apply not_elem_of_cons. split; [|done]. intros Heq. apply Hne. by eapply H2.
    + rewrite (pt_pages_ext (mem k)); [done|]. apply unmap_tbl.
  - intros va va' e1 e2 Hva Hva'. rewrite !unmap_leaf by auto with kern.
    destruct (va =? a), (va' =? a); try done. by apply H2.
Qed.

Lemma unmap_kframe : kframe (λ x, pt_pages (mem k) pd x ∨ x = frame_of e) k k2.
Proof.
  transitivity k1; [apply (kframe_mono (λ x, x = frame_of e)); [auto|apply kfree_kframe]|].
  eapply kframe_mono; [|apply (gw_frame _ _ _ _ _ _ _ unmap_grown)]. intros x Hx. left.
  eapply (pt_pages_ext (mem k) (mem k2)); [apply unmap_tbl|done].
Qed.
End Unmap.

(** The frames that map [F] has in the [n] pages from [a] on, in order. *)
Fixpoint frames_from (F : Z → option Z) (a : Z) (n : nat) : list Z :=
  match n with
  | O => []
  | S n' => option_list (frame_of <$> F a) ++ frames_from F (a + PGSIZE) n'
  end.

Lemma frames_from_ext F G a n :
  (∀ i, (i < n)%nat → F (a + PGSIZE * Z.of_nat i) = G (a + PGSIZE * Z.of_nat i)) →
  frames_from F a n = frames_from G a n.
Proof.
  revert a. induction n as [|n IH]; intros a He; [done|]. simpl. f_equal.
  - specialize (He 0%nat ltac:(lia)).
    replace (a + PGSIZE * Z.of_nat 0) with a in He by lia. by rewrite He.
  - apply IH. intros i Hi. specialize (He (S i) ltac:(lia)).
    by replace (a + PGSIZE + PGSIZE * Z.of_nat i) with (a + PGSIZE * Z.of_nat (S i)) by lia.
Qed.

Lemma frames_from_skip F a j n :
  (∀ i, (i < j)%nat → F (a + PGSIZE * Z.of_nat i) = None) →
  frames_from F a (j + n) = frames_from F (a + PGSIZE * Z.of_nat j) n.
Proof.
  revert a. induction j as [|j IH]; intros a He.
  { by replace (a + PGSIZE * Z.of_nat 0) with a by lia. }
  simpl. pose proof (He 0%nat ltac:(lia)) as H0.
  replace (a + PGSIZE * Z.of_nat 0) with a in H0 by lia. rewrite H0. simpl. rewrite IH.
  - by replace (a + PGSIZE + PGSIZE * Z.of_nat j) with (a + PGSIZE * Z.of_nat (S j)) by lia.
  - intros i Hi. specialize (He (S i) ltac:(lia)).
    by replace (a + PGSIZE + PGSIZE * Z.of_nat i) with (a + PGSIZE * Z.of_nat (S i)) by lia.
Qed.

(** The pages of [a .. hi-1] were unmapped and their frames [Fs] freed. *)
Record shrunk own pd a hi (k : kern) (L Fs : list Z) (k' : kern) : Prop := mkShrunk {
  sh_kmem : kmem_inv k' (rev Fs ++ L);
  sh_as : as_inv own (mem k') pd (rev Fs ++ L);
  sh_tbl : ∀ i, idx i → tbl (mem k') pd i = tbl (mem k) pd i;
  sh_leaf : ∀ va, vpage va → leaf (mem k') pd va =
              if (a <=? va) && (va <? hi) then None else leaf (mem k) pd va;
  sh_frame : kframe (λ x, pt_pages (mem k) pd x ∨ x ∈ Fs) k k'
}.

Lemma shrunk_hw own pd a hi k L Fs k' h :
  shrunk own pd a hi k L Fs k' → shrunk own pd a hi k L Fs (k' <| hw := h |>).
Proof.
  intros [A B C D E]. split; try done; [by apply kmem_inv_hw|].
  transitivity k'; [done|apply kframe_hw].
Qed.

Lemma shrunk_nil own pd a hi k L h :
  kmem_inv k L → as_inv own (mem k) pd L →
  (∀ va, vpage va → a ≤ va < hi → leaf (mem k) pd va = None) →
  shrunk own pd a hi k L [] (k <| hw := h |>).
Proof.
  intros Hk Ha Hl. split; try done; [by apply kmem_inv_hw|]. intros va Hva. simpl.
  destruct (Z.leb_spec a va), (Z.ltb_spec va hi); simpl; auto.
Qed.

(** First the pages below [b], then the rest. *)
Lemma shrunk_app own pd a b hi k1 k2 k3 L Fs1 Fs2 :
  shrunk own pd a b k1 L Fs1 k2 → shrunk own pd b hi k2 (rev Fs1 ++ L) Fs2 k3 → a ≤ b →
  (b ≤ hi ∨ ∀ va, vpage va → hi ≤ va < b → leaf (mem k1) pd va = None) →
  shrunk own pd a hi k1 L (Fs1 ++ Fs2) k3.
Proof.
  intros [A1 B1 C1 D1 E1] [A2 B2 C2 D2 E2] Hab Hbh. split.
  - by rewrite rev_app_distr, <- app_assoc.
  - by rewrite rev_app_distr, <- app_assoc.
  - intros i Hi. by rewrite C2, C1.
  - intros va Hva. rewrite D2, D1 by done.
    destruct (Z.leb_spec b va), (Z.ltb_spec va hi), (Z.leb_spec a va), (Z.ltb_spec va b); simpl; try done; try lia.
    destruct Hbh as [?|Hn]; [lia|]. symmetry. apply Hn; [done|lia].
  - transitivity k2; (eapply kframe_mono; [|done]).
    + simpl. set_solver.
    + intros x [Hx|Hx]; [left|set_solver]. by apply (pt_pages_ext (mem k1) (mem k2)).
Qed.

(** One page whose page of entries exists: free it if it is mapped. *)
Lemma dealloc_page own w v pd a t L :
  hw_ok (hw (ks w)) v → kmem_ready (ks w) v → kmem_inv (ks w) L → as_inv own (mem (ks w)) pd L →
  upage a → tbl (mem (ks w)) pd (PDX a) = Some t →
  let e := load32 (mem (ks w)) (t + 4 * PTX a) in
  post (if truthy (Z.land e PTE_P) then
          let pa := PTE_ADDR e in
          if pa =? 0 then panic "kfree" else
          let v := P2V pa in
          _ ← kfree v;
          st32 (t + 4 * PTX a) 0
        else mret tt) w v
    (λ _, shrunk own pd a (a + PGSIZE) (ks w) L (option_list (frame_of <$> leaf (mem (ks w)) pd a))).
Proof.
  intros Hv Hr Hk Has Ha Ht e.
  assert (∀ va, vpage va → a ≤ va < a + PGSIZE → va = a) as Hone.
  { intros va [Hva _] Hb. destruct Ha as [Ha _]. unfold pg_aligned in *. zl. }
  destruct (truthy (Z.land e PTE_P)) eqn:He.
  - assert (leaf (mem (ks w)) pd a = Some e) as Hl
      by (unfold leaf, present; rewrite Ht; fold e; by rewrite He).
    destruct (unmap_frame_ok own pd (ks w) L a e Has Ha Hl) as (Hfv & HfL & _).
    cbv zeta. rewrite Hl. simpl option_list.
    rewrite (proj2 (Z.eqb_neq (PTE_ADDR e) 0)).
    2:{ intros Hz. destruct Hfv as (_ & He1 & _). unfold frame_of in He1. rewrite Hz in He1.
        change (P2V 0) with KERNBASE in He1. pose proof sym_data_range. pose proof sym_end_range. kl. }
    eapply post_bind_runs; [by apply (kfree_spec _ v (frame_of e))|]. intros h Hh.
    apply post_modk_end; [done|].
    assert (shrunk own pd a (a + PGSIZE) (ks w) L [frame_of e] (unmap_result (t + 4 * PTX a) e (ks w))) as Hs.
    { split; simpl.
      - by eapply gw_kmem, unmap_grown.
      - by apply unmap_as_inv.
      - intros i Hi. by apply (unmap_tbl own pd (ks w) L a t e).
      - intros va Hva. rewrite (unmap_leaf own pd (ks w) L a t e) by done.
        destruct (Z.eqb_spec va a) as [->|Hne].
        + by rewrite (proj2 (Z.leb_le a a)), (proj2 (Z.ltb_lt a (a + PGSIZE))) by kl.
        + destruct (Z.leb_spec a va), (Z.ltb_spec va (a + PGSIZE)); simpl; try done.
          destruct Hne. by apply Hone.
      - eapply kframe_mono; [|by apply (unmap_kframe own pd (ks w) L a t e)]. simpl. set_solver. }
    cbn [ks]. rewrite mem_hw_comm. fold (unmap_result (t + 4 * PTX a) e (ks w)). by apply shrunk_hw.
  - assert (leaf (mem (ks w)) pd a = None) as Hl
      by (unfold leaf, present; rewrite Ht; fold e; by rewrite He).
    apply post_ret; [done|]. rewrite Hl. simpl option_list.
    replace (ks w) with ((ks w) <| hw := hw (ks w) |>) at 2 by (by destruct (ks w)).
    apply shrunk_nil; [done..|]. intros va Hva Hb. by rewrite (Hone va).
Qed.

(** No page of a missing page of entries is mapped. *)
Lemma skip_unmapped m pd a va :
  is_u32 a → is_u32 va → tbl m pd (PDX a) = None → a ≤ va < (a / 4194304 + 1) * 4194304 →
  leaf m pd va = None.
Proof.
  intros Ha Hva Ht Hb. unfold leaf. assert (PDX va = PDX a) as ->; [|by rewrite Ht].
  rewrite !PDX_spec by done. zl.
Qed.

Lemma frames_from_skip_end F a n : (∀ i, (i < n)%nat → F (a + PGSIZE * Z.of_nat i) = None) →
  frames_from F a n = [].
Proof. intros Hn. rewrite <- (Nat.add_0_r n). by rewrite frames_from_skip. Qed.

(** The loop from [a] on, with [n] pages left. *)
Definition dealloc_ok own v pd hi (n : nat) : Prop := ∀ fuel w a L,
  hw_ok (hw (ks w)) v → kmem_ready (ks w) v → kmem_inv (ks w) L → as_inv own (mem (ks w)) pd L →
  pg_aligned a → 0 ≤ a ≤ KERNBASE →
  hi ≤ a + PGSIZE * Z.of_nat n → (n = 0%nat ∨ a + PGSIZE * Z.of_nat n < hi + PGSIZE) → (n < fuel)%nat →
  post (deallocuvm_loop fuel pd a hi) w v
    (λ _, shrunk own pd a hi (ks w) L (frames_from (leaf (mem (ks w)) pd) a n)).

Lemma same_hw k : k = k <| hw := hw k |>.
Proof. by destruct k. Qed.

(** The page of entries of [a] exists. *)
Lemma dealloc_loop_page own v pd hi n fuel w a L t :
  dealloc_ok own v pd hi n → hi ≤ KERNBASE →
  hw_ok (hw (ks w)) v → kmem_ready (ks w) v → kmem_inv (ks w) L → as_inv own (mem (ks w)) pd L →
  upage a → a < hi → tbl (mem (ks w)) pd (PDX a) = Some t →
  hi ≤ a + PGSIZE * Z.of_nat (S n) < hi + PGSIZE → (n < fuel)%nat →
  post (deallocuvm_loop (S fuel) pd a hi) w v
    (λ _, shrunk own pd a hi (ks w) L (frames_from (leaf (mem (ks w)) pd) a (S n))).
Proof.
  intros IH Hhi Hv Hr Hk Has Hua Hlt Ht Hn Hf. destruct (id Hua) as [Ha Hb]. cbn [deallocuvm_loop].
  rewrite (proj2 (Z.ltb_lt a hi)) by done. simpl negb. cbv iota.
  destruct (pt_tbl _ _ _ _ (proj1 Has) _ _ (PDX_idx a) Ht) as (Htv & _).
  pose proof (valid_page_pos _ Htv). pose proof (PTX_range a).
  eapply post_eq; [eapply bind_ok, walk_present, Ht|]. cbv beta.
  rewrite (proj2 (Z.eqb_neq _ 0)) by kl. unfold ld32. ppure.
  eapply post_bind; [by apply (dealloc_page own w v pd a t L)|]. intros [] w1 Hv1 _ Hs1.
  rewrite u32_id by kl. set (Fs1 := option_list _) in Hs1.
  eapply post_mono; [apply (IH fuel w1 (a + PGSIZE) (rev Fs1 ++ L))|]; try done; try kl.
  - by eapply kframe_ready; [apply (sh_frame _ _ _ _ _ _ _ _ Hs1)|].
  - apply (sh_kmem _ _ _ _ _ _ _ _ Hs1).
  - apply (sh_as _ _ _ _ _ _ _ _ Hs1).
  - unfold pg_aligned in *. zl.
  - unfold pg_aligned in *. zl.
  - intros [] k' Hs2. cbn [frames_from]. fold Fs1.
    erewrite frames_from_ext; [apply (shrunk_app _ _ _ _ _ _ _ _ _ _ _ Hs1 Hs2); [kl|]|].
    { destruct (decide (a + PGSIZE ≤ hi)); [by left|right].
      intros va [Hva _] Hr2. unfold pg_aligned in *. zl. }
    intros i Hi. rewrite (sh_leaf _ _ _ _ _ _ _ _ Hs1).
    + rewrite (proj2 (Z.ltb_ge _ (a + PGSIZE))) by kl. by rewrite andb_false_r.
    + split; [unfold pg_aligned in *; zl|kl].
Qed.

(** It does not: the loop goes on with the next page of entries. *)
Lemma dealloc_loop_skip own v pd hi n fuel w a L :
  (∀ m, (m < S n)%nat → dealloc_ok own v pd hi m) → hi ≤ KERNBASE →
  hw_ok (hw (ks w)) v → kmem_ready (ks w) v → kmem_inv (ks w) L → as_inv own (mem (ks w)) pd L →
  upage a → a < hi → tbl (mem (ks w)) pd (PDX a) = None →
  hi ≤ a + PGSIZE * Z.of_nat (S n) < hi + PGSIZE → (n < fuel)%nat →
  post (deallocuvm_loop (S fuel) pd a hi) w v
    (λ _, shrunk own pd a hi (ks w) L (frames_from (leaf (mem (ks w)) pd) a (S n))).
Proof.
  intros IH Hhi Hv Hr Hk Has [Ha Hb] Hlt Ht Hn Hf. cbn [deallocuvm_loop].
  rewrite (proj2 (Z.ltb_lt a hi)) by done. simpl negb. cbv iota.
  eapply post_eq; [eapply bind_ok, walk_absent, Ht|]. cbv beta. rewrite Z.eqb_refl.
  set (b := (a / 4194304 + 1) * 4194304).
  assert (a < b ≤ KERNBASE ∧ pg_aligned b) as [Hab Hbal] by (unfold b, pg_aligned in *; zl).
  rewrite PGADDR_next_pde by (rewrite ?PDX_spec by kl; zl). fold b.
  rewrite (u32_id (b - PGSIZE)), u32_id by zl. replace (b - PGSIZE + PGSIZE) with b by lia.
  assert (∀ va, is_u32 va → a ≤ va < b → leaf (mem (ks w)) pd va = None) as Hnone.
  { intros va Hu Hva. apply (skip_unmapped _ _ a); [kl|done..]. }
  assert (shrunk own pd a b (ks w) L [] (ks w)) as Hs1.
  { rewrite (same_hw (ks w)) at 2. apply shrunk_nil; [done..|]. intros va [_ Hu]. by apply Hnone. }
  destruct (decide (hi ≤ b)) as [Hhb|Hhb].
  - rewrite (frames_from_skip_end _ a (S n)).
    2:{ intros i Hi. apply Hnone; [kl|]. unfold pg_aligned in *. zl. }
    eapply post_mono; [apply (IH 0%nat ltac:(lia) fuel w b L); try done; try lia; auto; kl|].
    intros [] k' Hs2. eapply (shrunk_app own pd a b hi _ _ _ L [] []); [done..|lia|].
    right. intros va [_ Hu] Hr2. apply Hnone; [done|lia].
  - set (j := Z.to_nat ((b - a) / PGSIZE)).
    assert (b = a + PGSIZE * Z.of_nat j) as Ej by (unfold j, pg_aligned in *; zl).
    assert (S n = j + (S n - j))%nat as En by kl. rewrite En, frames_from_skip, <- Ej.
    2:{ intros i Hi. apply Hnone; kl. }
    eapply post_mono; [apply (IH (S n - j)%nat ltac:(kl) fuel w b L); try done; try kl|].
    intros [] k' Hs2. eapply (shrunk_app own pd a b hi _ _ _ L [] _); [done..|lia|left; lia].
Qed.

Lemma deallocuvm_loop_spec n own v pd hi : hi ≤ KERNBASE → dealloc_ok own v pd hi n.
Proof.
  intros Hhi. induction n as [n IH] using lt_wf_ind.
  intros [|fuel] w a L Hv Hr Hk Has Ha Hb Hn1 Hn2 Hf; [lia|].
  destruct (Z.ltb_spec a hi) as [Hlt|Hge].
  - destruct n as [|n]; [lia|]. assert (upage a) as Hua by (split; [done|lia]).
    destruct (tbl (mem (ks w)) pd (PDX a)) as [t|] eqn:Ht.
    + eapply dealloc_loop_page; eauto with lia; lia.
    + eapply dealloc_loop_skip; eauto with lia; lia.
  - assert (n = 0%nat) as -> by (destruct Hn2; kl). cbn [deallocuvm_loop].
    rewrite (proj2 (Z.ltb_ge a hi)) by done. apply post_ret; [done|].
    rewrite (same_hw (ks w)) at 3. apply shrunk_nil; [done..|lia].
Qed.

(** The pages between [newsz], rounded up, and [oldsz]. *)
Definition ncovered (newsz oldsz : Z) : nat := Z.to_nat ((oldsz - PGROUNDUP newsz + PGSIZE - 1) / PGSIZE).

Lemma ncovered_bounds newsz oldsz :
  0 ≤ newsz → oldsz ≤ KERNBASE →
  oldsz ≤ PGROUNDUP newsz + PGSIZE * Z.of_nat (ncovered newsz oldsz) ∧
  (ncovered newsz oldsz = 0%nat ∨
   PGROUNDUP newsz + PGSIZE * Z.of_nat (ncovered newsz oldsz) < oldsz + PGSIZE).
Proof. intros H0 H1. unfold ncovered. set (r := PGROUNDUP newsz). zl. Qed.

Lemma deallocuvm_spec own w v pd oldsz newsz L :
  hw_ok (hw (ks w)) v → kmem_ready (ks w) v → kmem_inv (ks w) L → as_inv own (mem (ks w)) pd L →
  0 ≤ newsz < oldsz → oldsz ≤ KERNBASE →
  post (deallocuvm pd oldsz newsz) w v (λ r k', r = newsz ∧
    shrunk own pd (PGROUNDUP newsz) oldsz (ks w) L
      (frames_from (leaf (mem (ks w)) pd) (PGROUNDUP newsz) (ncovered newsz oldsz)) k').
Proof.
  intros Hv Hr Hk Has Hn Ho. unfold deallocuvm. rewrite (proj2 (Z.leb_gt oldsz newsz)) by lia.
  pose proof (PGROUNDUP_bounds newsz ltac:(kl) ltac:(kl)) as Hb.
  pose proof (PGROUNDUP_aligned newsz) as Hal.
  assert (PGROUNDUP newsz ≤ KERNBASE) by (unfold pg_aligned in *; zl).
  set (n := ncovered newsz oldsz).
  assert (Z.of_nat n = Z.max 0 ((oldsz - PGROUNDUP newsz + PGSIZE - 1) / PGSIZE)) as En
    by (unfold n, ncovered; lia).
  clearbody n.
  eapply post_bind; [apply (deallocuvm_loop_spec n own v pd oldsz Ho _ w _ L); try done; zl|].
  intros [] w1 Hv1 _ Hs. by apply post_ret.
Qed.

(** ** Writes outside the page table, and pages held by the caller *)

(** [x] is no part of the address space [pd]. *)
Definition unused (m : memory) (pd x : Z) : Prop :=
  ¬ pt_pages m pd x ∧ ∀ va e, upage va → leaf m pd va = Some e → frame_of e ≠ x.

Lemma as_inv_frame own m m' pd L (P : Z → Prop) :
  as_inv own m pd L → (∀ y, P y → pg_aligned y) → (∀ x, pt_pages m pd x → ¬ P x) → mem_frame P m m' →
  as_inv own m' pd L ∧ (∀ i, idx i → tbl m' pd i = tbl m pd i) ∧ (∀ va, leaf m' pd va = leaf m pd va).
Proof.
  intros [Hp Hf] Hal Hd Hm.
  assert (∀ i, idx i → tbl m' pd i = tbl m pd i) as Ht.
  { intros i Hi. eapply tbl_frame; eauto. apply Hd. by left. }
  assert (∀ va, leaf m' pd va = leaf m pd va) as Hl by (intros va; by eapply leaf_frame).
  split_and!; [split|done|done]; [|by eapply frames_inv_ext].
  eapply pt_inv_ext; [|done]. intros i Hi. eapply pde_frame; eauto. apply Hd. by left.
Qed.

Lemma unused_ext m m' pd x :
  (∀ i, idx i → tbl m' pd i = tbl m pd i) → (∀ va, upage va → leaf m' pd va = leaf m pd va) →
  unused m pd x → unused m' pd x.
Proof.
  intros Ht Hl [H1 H2]. split; [by rewrite (pt_pages_ext m)|].
  intros va e Hva. rewrite Hl by done. by apply H2.
Qed.

Lemma as_inv_tail own m pd L x : as_inv own m pd (x :: L) → as_inv own m pd L ∧ unused m pd x.
Proof.
  intros [[A1 (A2 & A3 & A4) A5 A6 A7] [B1 B2]]. split_and!; [split; split|split].
  - set_solver.
  - set_solver.
  - intros i t Hi Ht. destruct (A5 i t Hi Ht) as (? & ? & ? & ?). set_solver.
  - done.
  - done.
  - intros va e Hva He. destruct (B1 va e Hva He) as (? & ? & ? & ?). set_solver.
  - done.
  - intros [->|(i & Hi & Ht)]; [set_solver|]. destruct (A5 i x Hi Ht). set_solver.
  - intros va e Hva He <-. destruct (B1 va e Hva He) as (_ & Hn & _). set_solver.
Qed.

Lemma as_inv_cons own m pd L x : as_inv own m pd L → unused m pd x → own x → as_inv own m pd (x :: L).
Proof.
  intros [Hp [B1 B2]] [Hx1 Hx2] Ho. split; [by apply pt_inv_free|]. split; [|done].
  intros va e Hva He. destruct (B1 va e Hva He) as (? & ? & ? & ?). split_and!; [done| |done..].
  apply not_elem_of_cons. split; [|done]. by eapply Hx2.
Qed.

(** Freeing a page the address space does not use. *)
Lemma kfree_unused own k pd L p :
  kmem_inv k L → as_inv own (mem k) pd L → valid_page p → p ∉ L → unused (mem k) pd p → own p →
  kmem_inv (kfree_result p k) (p :: L) ∧ as_inv own (mem (kfree_result p k)) pd (p :: L) ∧
  (∀ i, idx i → tbl (mem (kfree_result p k)) pd i = tbl (mem k) pd i) ∧
  (∀ va, leaf (mem (kfree_result p k)) pd va = leaf (mem k) pd va).
Proof.
  intros Hk Has Hp HpL Hu Ho.
  destruct (as_inv_frame own (mem k) (mem (kfree_result p k)) pd L (λ x, x = p)) as (Ha & Ht & Hl).
  - done.
  - intros ? ->. by destruct Hp.
  - intros x Hx ->. by destruct Hu.
  - apply kf_mem, kfree_kframe.
  - split_and!; [by apply kfree_inv| |done|done]. apply as_inv_cons; [done| |done].
    eapply unused_ext; [done| |done]. auto.
Qed.

Lemma elem_of_frames_from F a n x :
  x ∈ frames_from F a n ↔ ∃ i e, (i < n)%nat ∧ F (a + PGSIZE * Z.of_nat i) = Some e ∧ frame_of e = x.
Proof.
  revert a. induction n as [|n IH]; intros a; simpl; [set_solver by lia|].
  rewrite elem_of_app, IH. split.
  - intros [Hx|(i & e & Hi & He & Hx)].
    + destruct (F a) as [e|] eqn:E; simpl in Hx; [|set_solver]. exists 0%nat, e.
      replace (a + PGSIZE * Z.of_nat 0) with a by lia. set_solver by lia.
    + exists (S i), e. split_and!; [lia| |done]. rewrite <- He. f_equal. lia.
  - intros ([|i] & e & Hi & He & Hx).
    + replace (a + PGSIZE * Z.of_nat 0) with a in He by lia. rewrite He. simpl. left. set_solver.
    + right. exists i, e. split_and!; [lia| |done]. rewrite <- He. f_equal. lia.
Qed.

End Frame.
