(* ===== verification/VmAlloc.v ===== *)
(** * vm.c: growing a user address space

    [allocuvm] either maps zeroed, writable user pages over the whole new range,
    or leaves the map as it was: the loop invariant [growing], its preservation,
    and the undo path. *)

From S2P Require Import Prelude Layout State Str Spinlock Kalloc Vm VmInv VmOps.

Section Alloc.
Context `{KernelSyms}.

Section Growing.
(** Permissions and contents of the page mapped at each address. *)
Variables (perm : Z → Z) (content : Z → Z → Z).

(** From [k0] (free list [L0]) to [k] (free list [L]) the pages of [a0 .. a-1] were
    mapped to fresh frames with the given permissions and contents; [Held] are pages taken and not mapped yet. *)
Record growing own pd a0 a (k0 : kern) (L0 : list Z) (k : kern) (L Held : list Z) : Prop := mkGrowing {
  gi_kmem : kmem_inv k L;
  gi_as : as_inv own (mem k) pd L;
  gi_sub : ∃ used, L0 = used ++ L;
  gi_new : ∀ va, upage va → a0 ≤ va < a → ∃ f, leaf (mem k) pd va = Some (entry (V2P f) (perm va)) ∧
             0 ≤ perm va < PGSIZE ∧ valid_page f ∧ f ∈ L0 ∧
             (∀ x, 0 ≤ x < PGSIZE → mem k (f + x) = content va x);
  gi_old : ∀ va, vpage va → ¬ (a0 ≤ va < a) → leaf (mem k) pd va = leaf (mem k0) pd va;
  gi_pages : ∀ x, pt_pages (mem k0) pd x → pt_pages (mem k) pd x;
  gi_pages_new : ∀ x, pt_pages (mem k) pd x → pt_pages (mem k0) pd x ∨ x ∈ L0;
  gi_all : ∀ x, x ∈ L0 → x ∈ L ∨ x ∈ Held ∨ pt_pages (mem k) pd x ∨
             ∃ va e, upage va ∧ a0 ≤ va < a ∧ leaf (mem k) pd va = Some e ∧ frame_of e = x;
  gi_frame : kframe (λ x, pt_pages (mem k) pd x ∨ x ∈ L0) k0 k
}.

Lemma growing_start own pd a k L :
  kmem_inv k L → as_inv own (mem k) pd L → growing own pd a a k L k L [].
Proof.
  intros Hk Ha. split; try done; auto; [by exists []|lia].
Qed.

Lemma growing_hw own pd a0 a k0 L0 k L Held h :
  growing own pd a0 a k0 L0 k L Held → growing own pd a0 a k0 L0 (k <| hw := h |>) L Held.
Proof.
  intros [A B C D E F G I J]. split; try done; [by apply kmem_inv_hw|].
  transitivity k; [done|apply kframe_hw].
Qed.

(** [kalloc] and filling the page. *)
Lemma growing_take own pd a0 a k0 L0 k p L h m' :
  growing own pd a0 a k0 L0 k (p :: L) [] → mem_frame (λ x, x = p) (mem k) m' →
  growing own pd a0 a k0 L0
    (k <| freelist := load32 (mem k) p |> <| hw := h |> <| mem := m' |>) L [p] ∧
  unused m' pd p ∧ valid_page p ∧ p ∉ L ∧ own p.
Proof.
  intros [A B C D E F G I J] Hmf. pose proof (kalloc_inv _ _ _ A) as A'.
  destruct A as [_ Hnd Hval]. inversion_clear Hnd as [|? ? HpL _]. inversion_clear Hval as [|? ? Hpv HvL].
  destruct (as_inv_tail _ _ _ _ _ B) as [B1 Hun].
  assert (∀ y, y = p → pg_aligned y) as Hal by (intros ? ->; by destruct Hpv).
  destruct (as_inv_frame own _ _ pd L (λ x, x = p) B1 Hal ltac:(intros x Hx ->; by destruct Hun) Hmf)
    as (B' & Ht & Hl).
  assert (p ∈ L0) as HpL0 by (destruct C as [u ->]; set_solver).
  assert (∀ f, f ≠ p → pg_aligned f → ∀ x, in_page f x → m' x = mem k x) as Hout.
  { intros f Hf Hfa x. by apply (mem_frame_page (λ x, x = p)). }
  split_and!; [split; simpl; try done| | done..|].
  - apply (kmem_inv_frame (k <| freelist := load32 (mem k) p |>)); [done| |done]. simpl.
    intros x y Hx. rewrite Forall_forall in HvL. destruct (HvL x Hx). apply Hout; [|done]. by intros ->.
  - destruct C as [u ->]. exists (u ++ [p]). by rewrite <- app_assoc.
  - intros va Hva Hr. destruct (D va Hva Hr) as (f & Hf1 & Hf0 & Hf2 & Hf3 & Hf4). exists f. rewrite Hl.
    split_and!; try done; [lia|lia|]. intros x Hx.
    rewrite (Hout f); [auto| |by destruct Hf2|unfold in_page; lia].
    intros ->. by eapply (proj2 Hun), frame_of_mk.
  - intros va Hva Hr. rewrite Hl. auto.
  - intros x Hx. rewrite (pt_pages_ext (mem k)) by done. auto.
  - intros x. rewrite (pt_pages_ext (mem k)) by done. auto.
  - intros x Hx. setoid_rewrite Hl. rewrite (pt_pages_ext (mem k)) by done.
    destruct (I x Hx) as [?|[?|?]]; set_solver.
  - transitivity k; [|split; [done| |done]].
    + eapply kframe_mono; [|done]. intros x. by rewrite (pt_pages_ext (mem k) m').
    + eapply mem_frame_mono; [|done]. intros x ->. by right.
  - by eapply unused_ext.
  - apply (pt_free _ _ _ _ (proj1 B)). set_solver.
Qed.

(** Growing the page table (and perhaps failing to) keeps everything else. *)
Lemma growing_grown own pd a0 a k0 L0 k L p k' used L' :
  growing own pd a0 a k0 L0 k L [p] → unused (mem k) pd p → p ∉ L →
  grown own pd k k' L used L' → (∀ va, vpage va → leaf (mem k') pd va = leaf (mem k) pd va) →
  growing own pd a0 a k0 L0 k' L' [p] ∧ unused (mem k') pd p ∧ p ∉ L'.
Proof.
  intros [A B C D E F G I J] Hun HpL Hg Hl.
  pose proof (gw_split _ _ _ _ _ _ _ Hg) as HL. pose proof (gw_new _ _ _ _ _ _ _ Hg) as Hnew.
  assert (∀ x, pt_pages (mem k') pd x → pt_pages (mem k) pd x ∨ x ∈ used) as Hpp.
  { intros x [->|(i & Hi & Ht)]; [left; by left|].
    destruct (Hnew i x Hi Ht); [left; right; eauto|by right]. }
  assert (∀ x, pt_pages (mem k) pd x → pt_pages (mem k') pd x) as Hpm.
  { intros x. by eapply grown_pages. }
  split_and!; [split|split|set_solver].
  - apply (gw_kmem _ _ _ _ _ _ _ Hg).
  - split; [apply (gw_pt _ _ _ _ _ _ _ Hg)|]. eapply grown_frames; [done| |apply B]. auto with kern.
  - destruct C as [u ->]. exists (u ++ used). by rewrite HL, app_assoc.
  - intros va Hva Hr. destruct (D va Hva Hr) as (f & Hf1 & Hf0 & Hf2 & Hf3 & Hf4). exists f.
    rewrite Hl by auto with kern. split_and!; try done; [lia|lia|]. intros x Hx.
    rewrite (mem_frame_page (pt_pages (mem k') pd) (mem k) (mem k') f);
      [auto| |by destruct Hf2| |apply Hg|unfold in_page; lia].
    + intros y Hy. by destruct (pt_pages_valid _ _ _ _ _ (gw_pt _ _ _ _ _ _ _ Hg) Hy) as ((? & _) & _).
    + intros Hff. destruct (fr_page _ _ _ _ (proj2 B) va _ Hva Hf1) as (_ & HfL & Hfp & _).
      unfold entry in HfL, Hfp. rewrite frame_of_mk in HfL, Hfp by done.
      destruct (Hpp f Hff); set_solver.
  - intros va Hva Hr. rewrite Hl by done. auto.
  - auto.
  - intros x Hx. destruct (Hpp x Hx) as [?|?]; [auto|]. right. destruct C as [u ->]. set_solver.
  - intros x Hx. destruct (I x Hx) as [HxL|[?|[?|(va & e & Hva & Hr & He & Hf)]]]; [|by auto..|].
    + rewrite HL in HxL. apply elem_of_app in HxL as [Hxu|]; [|auto].
      do 2 right. left. by apply (gw_used _ _ _ _ _ _ _ Hg).
    + do 3 right. exists va, e. rewrite Hl by auto with kern. done.
  - transitivity k; (eapply kframe_mono; [|first [exact J|apply Hg]]); simpl; [intros x [?|?]; auto|auto].
  - intros Hp. destruct (Hpp p Hp); [by apply Hun|set_solver].
  - intros va e Hva. rewrite Hl by auto with kern. by apply Hun.
Qed.

(** The page held becomes the frame of [a]. *)
Lemma growing_mapped own pd a0 a k0 L0 k L p k' used L' :
  growing own pd a0 a k0 L0 k L [p] → unused (mem k) pd p → p ∉ L → p ∈ L0 → own p → valid_page p →
  (∀ x, 0 ≤ x < PGSIZE → mem k (p + x) = content a x) → 0 ≤ perm a < PGSIZE → upage a → a0 ≤ a →
  grown own pd k k' L used L' →
  (∀ va, vpage va → leaf (mem k') pd va = mapped a 1 (V2P p) (perm a) (leaf (mem k) pd) va) →
  growing own pd a0 (a + PGSIZE) k0 L0 k' L' [].
Proof.
  intros [A B C D E F G I J] Hun HpL HpL0 Ho Hpv Hz Hpm Ha Ha0 Hg Hl.
  pose proof (gw_split _ _ _ _ _ _ _ Hg) as HL. pose proof (gw_new _ _ _ _ _ _ _ Hg) as Hnew.
  assert (leaf (mem k') pd a = Some (entry (V2P p) (perm a))) as Hla.
  { rewrite Hl, mapped_in by (auto with kern; kl). do 2 f_equal. lia. }
  assert (∀ va, vpage va → va ≠ a → leaf (mem k') pd va = leaf (mem k) pd va) as Hlo.
  { intros va Hva Hne. rewrite Hl by done. apply mapped_out. destruct Ha, Hva. unfold pg_aligned in *. zl. }
  assert (∀ x, pt_pages (mem k') pd x → pt_pages (mem k) pd x ∨ x ∈ used) as Hpp.
  { intros x [->|(i & Hi & Ht)]; [left; by left|].
    destruct (Hnew i x Hi Ht); [left; right; eauto|by right]. }
  assert (as_inv own (mem k') pd L') as B'.
  { eapply (grown_add_frame own pd k k' L used L' a p (perm a)); try done; apply Hun. }
  assert (∀ f x, valid_page f → ¬ pt_pages (mem k') pd f → in_page f x → mem k' x = mem k x) as Hout.
  { intros f x Hf Hn. eapply (mem_frame_page (pt_pages (mem k') pd)); [|by destruct Hf|done|apply Hg].
    intros y Hy. by destruct (pt_pages_valid _ _ _ _ _ (gw_pt _ _ _ _ _ _ _ Hg) Hy) as ((? & _) & _). }
  assert (∀ va f, upage va → leaf (mem k') pd va = Some (entry (V2P f) (perm va)) → valid_page f →
            0 ≤ perm va < PGSIZE → ∀ x, 0 ≤ x < PGSIZE → mem k' (f + x) = mem k (f + x)) as Hsame.
  { intros va f Hva Hf Hfv Hfp x Hx. apply (Hout f); [done| |unfold in_page; lia].
    destruct (fr_page _ _ _ _ (proj2 B') va _ Hva Hf) as (_ & _ & Hfpp & _).
    unfold entry in Hfpp. by rewrite frame_of_mk in Hfpp. }
  split.
  - apply (gw_kmem _ _ _ _ _ _ _ Hg).
  - done.
  - destruct C as [u ->]. exists (u ++ used). by rewrite HL, app_assoc.
  - intros va Hva Hr. destruct (decide (va = a)) as [->|Hne].
    { exists p. split_and!; try done; [lia|lia|]. intros x Hx. rewrite (Hsame a p); auto. }
    destruct (D va Hva) as (f & Hf1 & Hf0 & Hf2 & Hf3 & Hf4).
    { destruct Ha, Hva. unfold pg_aligned in *. zl. }
    exists f. rewrite <- Hlo in Hf1 by auto with kern.
    split_and!; try done; [lia|lia|]. intros x Hx. rewrite (Hsame va f); auto.
  - intros va Hva Hr. rewrite Hlo; [apply E; [done|kl]|done|intros ->; kl].
  - intros x Hx. by eapply grown_pages; [|apply F].
  - intros x Hx. destruct (Hpp x Hx) as [?|?]; [auto|]. right. destruct C as [u ->]. set_solver.
  - intros x Hx. destruct (I x Hx) as [HxL|[Hxp|[?|(va & e & Hva & Hr & He & Hf)]]].
    + rewrite HL in HxL. apply elem_of_app in HxL as [Hxu|]; [|auto].
      do 2 right. left. by apply (gw_used _ _ _ _ _ _ _ Hg).
    + apply list_elem_of_singleton in Hxp as ->. do 3 right. exists a, (entry (V2P p) (perm a)).
      split_and!; [done|done|kl|done|]. by apply frame_of_mk.
    + do 2 right. left. by eapply grown_pages.
    + do 3 right. exists va, e. rewrite Hlo by (auto with kern; intros ->; lia). split_and!; try done; kl.
  - transitivity k; (eapply kframe_mono; [|first [exact J|apply Hg]]); simpl; [|auto].
    intros x [?|?]; [left; by eapply grown_pages|by right].
Qed.

(** ** Giving up *)

(** The map is that of [k0] again; of the pages [L0], those in [L'] are free, those
    in [Held] still held, and the rest are pages of entries. *)
Record restored own pd (k0 : kern) (L0 : list Z) (k' : kern) (L' Held : list Z) : Prop := mkRestored {
  rs_kmem : kmem_inv k' L';
  rs_as : as_inv own (mem k') pd L';
  rs_leaf : ∀ va, vpage va → leaf (mem k') pd va = leaf (mem k0) pd va;
  rs_sub : ∀ x, x ∈ L' → x ∈ L0;
  rs_all : ∀ x, x ∈ L0 → x ∈ L' ∨ x ∈ Held ∨ pt_pages (mem k') pd x;
  rs_pages : ∀ x, pt_pages (mem k0) pd x → pt_pages (mem k') pd x;
  rs_frame : kframe (λ x, pt_pages (mem k') pd x ∨ x ∈ L0) k0 k'
}.

Lemma growing_undo own pd a0 a hi k0 L0 k L Held k' n :
  growing own pd a0 a k0 L0 k L Held → pg_aligned a0 → pg_aligned a → 0 ≤ a0 ≤ a → hi ≤ KERNBASE → a < hi + PGSIZE →
  (∀ va, vpage va → a0 ≤ va < hi → leaf (mem k0) pd va = None) →
  hi ≤ a0 + PGSIZE * Z.of_nat n → (n = 0%nat ∨ a0 + PGSIZE * Z.of_nat n < hi + PGSIZE) →
  let Fs := frames_from (leaf (mem k) pd) a0 n in
  shrunk own pd a0 hi k L Fs k' →
  restored own pd k0 L0 k' (rev Fs ++ L) Held ∧
  (∀ x, x ∈ Fs → ∃ va e, upage va ∧ leaf (mem k) pd va = Some e ∧ frame_of e = x).
Proof.
  intros [A B C D E F G I J] Ha0 Ha Hr Hhi Hahi Hfree Hn1 Hn2 Fs [A' B' C' D' E'].
  assert (∀ x, x ∈ Fs → ∃ va e, upage va ∧ a0 ≤ va < hi ∧ leaf (mem k) pd va = Some e ∧ frame_of e = x) as HFs.
  { intros x (i & e & Hi & He & Hx)%elem_of_frames_from. exists (a0 + PGSIZE * Z.of_nat i), e.
    destruct Hn2 as [->|Hn2]; [lia|].
    split_and!; try done; [split; [unfold pg_aligned in *; zl|kl]|kl..]. }
  assert (∀ x, x ∈ Fs → x ∈ L0) as HFsL.
  { intros x Hx. destruct (HFs x Hx) as (va & e & Hva & Hb & He & Hf).
    destruct (decide (va < a)) as [Hlt|].
    - destruct (D va Hva ltac:(lia)) as (f & Hf1 & Hf0 & Hf2 & Hf3 & _). rewrite Hf1 in He. injection He as <-.
      unfold entry in Hf. rewrite frame_of_mk in Hf by done. by subst.
    - rewrite E in He by (auto with kern; lia). by rewrite Hfree in He by (auto with kern). }
  split; [split; try done|].
  - intros va Hva. rewrite D' by done.
    destruct (Z.leb_spec a0 va), (Z.ltb_spec va hi); simpl; [by rewrite Hfree| |apply E; [done|lia]..].
    apply E; [done|]. intros Hb. destruct Hva as [Hva _]. unfold pg_aligned in *. zl.
  - intros x [Hx|Hx]%elem_of_app; [by apply HFsL, elem_of_rev|].
    destruct C as [u ->]. set_solver.
  - intros x Hx. destruct (I x Hx) as [?|[?|[?|(va & e & Hva & Hb & He & Hf)]]]; [set_solver|by auto| |].
    + do 2 right. by apply (pt_pages_ext (mem k)).
    + left. apply elem_of_app. left. apply elem_of_rev, elem_of_frames_from.
      exists (Z.to_nat ((va - a0) / PGSIZE)), e.
      assert (va < hi) by (destruct Hva; unfold pg_aligned in *; zl).
      assert (a0 + PGSIZE * Z.of_nat (Z.to_nat ((va - a0) / PGSIZE)) = va) as Eva
        by (destruct Hva; unfold pg_aligned in *; zl).
      split_and!; [kl|by rewrite Eva|done].
  - intros x Hx. apply (pt_pages_ext (mem k)); auto.
  - transitivity k.
    + eapply kframe_mono; [|exact J]. intros x. by rewrite (pt_pages_ext (mem k) (mem k')).
    + eapply kframe_mono; [|exact E']. intros x. rewrite (pt_pages_ext (mem k) (mem k')) by done.
      intros [?|?]; auto.
  - intros x Hx. destruct (HFs x Hx) as (va & e & ? & ? & ? & ?). eauto.
Qed.

End Growing.

Definition PTE_WU : Z := Z.lor PTE_W PTE_U.

(** Pages mapped by [allocuvm]: user, writable and zeroed. *)
Abbreviation zeroed := (growing (λ _, PTE_WU) (λ _ _, 0)).

(** [allocuvm]'s result: all pages up to [newsz], or 0 and the map as it was. *)
Definition alloc_post own pd a0 newsz (k0 : kern) (L0 : list Z) (r : Z) (k' : kern) : Prop :=
  (r = newsz ∧ ∃ a L', newsz ≤ a < newsz + PGSIZE ∧ pg_aligned a ∧ zeroed own pd a0 a k0 L0 k' L' []) ∨
  (r = 0 ∧ ∃ L', restored own pd k0 L0 k' L' []).

Section Loop.
Variables (own : Z → Prop) (pd : Z) (k0 : kern) (L0 : list Z) (v : hwview) (oldsz newsz : Z).
Hypothesis (Hr0 : kmem_ready k0 v) (Ho : 0 ≤ oldsz ≤ newsz) (Hn : newsz < KERNBASE).
Let a0 := PGROUNDUP oldsz.
Hypothesis (Hfree : ∀ va, vpage va → a0 ≤ va < newsz → leaf (mem k0) pd va = None).

Lemma a0_facts : pg_aligned a0 ∧ oldsz ≤ a0 < oldsz + PGSIZE.
Proof. split; [apply PGROUNDUP_aligned|apply PGROUNDUP_bounds; kl]. Qed.

(** The undo path: [deallocuvm(pgdir, newsz, oldsz)]. *)
Lemma alloc_undo w a L Held :
  hw_ok (hw (ks w)) v → zeroed own pd a0 a k0 L0 (ks w) L Held → pg_aligned a → a0 ≤ a < newsz →
  post (deallocuvm pd newsz oldsz) w v (λ _ k', ∃ Fs,
    restored own pd k0 L0 k' (rev Fs ++ L) Held ∧
    (∀ x, x ∈ Fs → ∃ va e, upage va ∧ leaf (mem (ks w)) pd va = Some e ∧ frame_of e = x) ∧
    (∀ i, idx i → tbl (mem k') pd i = tbl (mem (ks w)) pd i)).
Proof.
  intros Hv Hg Ha Hb. destruct a0_facts as [Ha0 Hab].
  eapply post_mono; [apply (deallocuvm_spec own w v pd newsz oldsz L)|].
  - done.
  - eapply kframe_ready; [apply (gi_frame _ _ _ _ _ _ _ _ _ _ _ Hg)|done].
  - apply (gi_kmem _ _ _ _ _ _ _ _ _ _ _ Hg).
  - apply (gi_as _ _ _ _ _ _ _ _ _ _ _ Hg).
  - lia.
  - lia.
  - intros r k' [_ Hs]. destruct (ncovered_bounds oldsz newsz ltac:(lia) ltac:(lia)).
    eexists. destruct (growing_undo _ _ _ _ _ _ newsz _ _ _ _ _ k' (ncovered oldsz newsz) Hg) as [R1 R2]; try done; try kl.
    split_and!; [done..|]. apply (sh_tbl _ _ _ _ _ _ _ _ Hs).
Qed.

Lemma growing_ready a w L Held :
  zeroed own pd a0 a k0 L0 (ks w) L Held → kmem_ready (ks w) v.
Proof. intros Hg. eapply kframe_ready; [apply (gi_frame _ _ _ _ _ _ _ _ _ _ _ Hg)|done]. Qed.

(** Out of page table pages: undo, then free the page in hand. *)
Lemma alloc_undo_held w a L p :
  hw_ok (hw (ks w)) v → zeroed own pd a0 a k0 L0 (ks w) L [p] → pg_aligned a → a0 ≤ a < newsz →
  unused (mem (ks w)) pd p → p ∉ L → p ∈ L0 → own p → valid_page p →
  post (_ ← deallocuvm pd newsz oldsz; _ ← kfree p; mret 0) w v (alloc_post own pd a0 newsz k0 L0).
Proof.
  intros Hv Hg Ha Hb Hun HpL HpL0 Hop Hpv.
  eapply post_bind; [by eapply alloc_undo|].
  intros _ w1 Hv1 _ (Fs & [A B C D E F G] & HFs & Htbl).
  assert (p ∉ rev Fs ++ L) as Hp1.
  { rewrite elem_of_app, elem_of_rev. intros [Hx|?]; [|done].
    destruct (HFs p Hx) as (va & e & Hva & He & Hf). by eapply (proj2 Hun). }
  assert (unused (mem (ks w1)) pd p) as Hun1.
  { split; [rewrite (pt_pages_ext (mem (ks w))) by done; apply Hun|]. intros va e Hva He.
    rewrite C in He by auto with kern. intros Hfe.
    destruct (decide (a0 ≤ va < a)) as [Hr|Hr].
    - rewrite Hfree in He; [done|auto with kern|lia].
    - rewrite <- (gi_old _ _ _ _ _ _ _ _ _ _ _ Hg) in He by auto with kern. by eapply (proj2 Hun). }
  destruct (kfree_unused own (ks w1) pd _ p A B Hpv Hp1 Hun1 Hop) as (A' & B' & Ht' & Hl').
  eapply post_bind_runs; [apply (kfree_spec _ v p); [done|by eapply kframe_ready|done]|].
  intros h Hh. apply post_ret; [done|]. right. split; [done|]. exists (p :: rev Fs ++ L).
  split; simpl ks.
  - by apply kmem_inv_hw.
  - done.
  - intros va Hva. rewrite <- C by done. apply Hl'.
  - set_solver.
  - intros x Hx. change (mem _) with (mem (kfree_result p (ks w1))).
    rewrite (pt_pages_ext (mem (ks w1))) by done. destruct (E x Hx) as [?|[?|?]]; set_solver.
  - intros x Hx. apply (pt_pages_ext (mem (ks w1))); auto.
  - transitivity (ks w1).
    + eapply kframe_mono; [|exact G]. intros x. by rewrite (pt_pages_ext (mem (ks w1)) (mem (kfree_result p (ks w1)))).
    + transitivity (kfree_result p (ks w1)); [|apply kframe_hw].
      eapply kframe_mono; [|apply kfree_kframe]. intros x ->. by right.
Qed.

Lemma allocuvm_loop_spec n fuel w a L :
  hw_ok (hw (ks w)) v → zeroed own pd a0 a k0 L0 (ks w) L [] → pg_aligned a → a0 ≤ a →
  newsz ≤ a + PGSIZE * Z.of_nat n → a + PGSIZE * Z.of_nat n < newsz + PGSIZE → (n < fuel)%nat →
  post (allocuvm_loop fuel pd a oldsz newsz) w v (alloc_post own pd a0 newsz k0 L0).
Proof.
  revert fuel w a L. induction n as [|n IH]; intros [|fuel] w a L Hv Hg Ha Hb Hn1 Hn2 Hf; try lia; cbn [allocuvm_loop].
  { rewrite (proj2 (Z.ltb_ge a newsz)) by lia. apply post_ret; [done|]. left. split; [done|].
    exists a, L. split_and!; [lia..|done|done]. }
  destruct a0_facts as [Ha0 Hab]. assert (a < newsz) as Hlt by kl.
  rewrite (proj2 (Z.ltb_lt a newsz)) by done. simpl negb. cbv iota.
  pose proof (growing_ready _ _ _ _ Hg) as Hr. pose proof (gi_kmem _ _ _ _ _ _ _ _ _ _ _ Hg) as Hk.
  eapply post_bind_runs; [by apply (kalloc_spec _ v L)|]. intros h Hh.
  destruct L as [|p L]; simpl hd.
  - cbn [Z.eqb].
    assert (zeroed own pd a0 a k0 L0 ((ks w) <| hw := h |>) [] []) as Hg'
      by by apply growing_hw.
    eapply post_bind; [by apply (alloc_undo (mkWorld _ (resumes w)) a [] [])|].
    intros _ w1 Hv1 _ (Fs & HR & _). apply post_ret; [done|]. right. eauto.
  - destruct (growing_take _ _ _ _ _ _ _ _ _ _ _ h (memset (mem (ks w)) p 0 PGSIZE) Hg)
      as (Hg1 & Hun & Hpv & HpL & Hop); [by apply memset_frame|].
    rewrite (proj2 (Z.eqb_neq p 0)) by (pose proof (valid_page_pos _ Hpv); kl).
    unfold kmemset. ppure. match goal with |- post _ ?W _ _ => set (w1 := W) end.
    assert (p ∈ L0) as HpL0 by (destruct (gi_sub _ _ _ _ _ _ _ _ _ _ _ Hg) as [u ->]; set_solver).
    assert (upage a) as Hua by (split; [done|lia]).
    destruct (V2P_page p Hpv) as (Hu & Hal & _).
    eapply post_bind.
    { apply (mappages_page own w1 v pd a (V2P p) PTE_WU L); try done.
      - apply (gi_kmem _ _ _ _ _ _ _ _ _ _ _ Hg1).
      - apply (proj1 (gi_as _ _ _ _ _ _ _ _ _ _ _ Hg1)).
      - kl.
      - pose proof (valid_page_pos _ Hpv). rewrite V2P_spec; kl.
      - rewrite (gi_old _ _ _ _ _ _ _ _ _ _ _ Hg1) by (auto with kern; lia). apply Hfree; [auto with kern|lia]. }
    intros r w2 Hv2 _ (used & L' & j & Hgr & Hj & Hcase & Hl). destruct Hcase as [[-> ->]|(-> & Hj1 & _)].
    + simpl Z.ltb. cbv iota. rewrite u32_id by kl.
      apply (IH fuel w2 (a + PGSIZE) L'); try done; [|unfold pg_aligned in *; zl|kl..].
      apply (growing_mapped _ _ own pd a0 a k0 L0 (ks w1) L p (ks w2) used L' Hg1); try done.
      intros x Hx. by apply memset_in; kl.
    + simpl Z.ltb. cbv iota. assert (j = 0) as -> by lia.
      destruct (growing_grown _ _ own pd a0 a k0 L0 (ks w1) L p (ks w2) used L' Hg1) as (Hg2 & Hun2 & HpL2); try done.
      { intros va Hva. by rewrite Hl, mapped_0. }
      by apply (alloc_undo_held w2 a L' p).
Qed.

End Loop.

(** [allocuvm] when it has to grow. *)
Lemma allocuvm_spec own w v pd oldsz newsz L :
  hw_ok (hw (ks w)) v → kmem_ready (ks w) v → kmem_inv (ks w) L → as_inv own (mem (ks w)) pd L →
  0 ≤ oldsz →
  (∀ va, vpage va → PGROUNDUP oldsz ≤ va < newsz → leaf (mem (ks w)) pd va = None) →
  oldsz ≤ newsz < KERNBASE →
  post (allocuvm pd oldsz newsz) w v (λ r k', ∃ L',
     kmem_inv k' L' ∧ as_inv own (mem k') pd L' ∧
     kframe (λ x, pt_pages (mem k') pd x ∨ x ∈ L) (ks w) k' ∧
     ((r = newsz ∧
       (∀ va, upage va → PGROUNDUP oldsz ≤ va < newsz → ∃ f, f ∈ L ∧
          leaf (mem k') pd va = Some (entry (V2P f) (Z.lor PTE_W PTE_U)) ∧
          ∀ x, 0 ≤ x < PGSIZE → mem k' (f + x) = 0) ∧
       (∀ va, vpage va → va < PGROUNDUP oldsz ∨ newsz ≤ va →
          leaf (mem k') pd va = leaf (mem (ks w)) pd va)) ∨
      (r = 0 ∧ (∀ va, vpage va → leaf (mem k') pd va = leaf (mem (ks w)) pd va) ∧
       (∀ x, x ∈ L → x ∈ L' ∨ pt_pages (mem k') pd x)))).
Proof.
  intros Hv Hr Hk Has Ho Hfree. unfold allocuvm.
  intros [Hle Hn]. rewrite (proj2 (Z.leb_gt KERNBASE newsz)), (proj2 (Z.ltb_ge newsz oldsz)) by lia.
  pose proof (PGROUNDUP_aligned oldsz) as Hal. pose proof (PGROUNDUP_bounds oldsz Ho ltac:(kl)) as Hb.
  set (a0 := PGROUNDUP oldsz) in *.
  eapply post_mono; [apply (allocuvm_loop_spec own pd (ks w) L v oldsz newsz) with
    (n := Z.to_nat ((newsz - a0 + PGSIZE - 1) / PGSIZE)) (L := L)|]; fold a0; try done; try (unfold pg_aligned in *; zl).
  { by apply growing_start. }
  intros r k' [(-> & a & L' & Ha & Haa & [A B C D E F G I J])|(-> & L' & [A B C D E F G])]; exists L'.
  - split_and!; try done. left. split_and!; [done| |].
    + intros va Hva Hr'. destruct (D va Hva ltac:(lia)) as (f & ? & _ & _ & ? & ?). by exists f.
    + intros va Hva Hr'. apply E; [done|]. intros Hin. destruct Hr'; [lia|].
      destruct Hva. unfold pg_aligned in *. zl.
  - split_and!; try done. right. split_and!; [done|done|]. intros x Hx. destruct (E x Hx) as [?|[?|?]]; set_solver.
Qed.

End Alloc.
