(* ===== verification/VmSpace.v ===== *)
(** * vm.c: making, freeing and copying address spaces

    [freevm] returns every page of an address space to the allocator; [setupkvm]
    makes the kernel half described by [kmap]; [copyuvm] makes a child whose
    pages have the parent's contents and permissions.  On failure both give all
    pages back. *)

From S2P Require Import Prelude Layout State Str Spinlock Kalloc Vm VmInv VmOps VmAlloc.

Section Space.
Context `{KernelSyms}.

(** ** freevm *)

(** The pages of entries, in directory order. *)
Definition tables (m : memory) (pd : Z) : list Z := omap (tbl m pd) (seqZ 0 NPDENTRIES).

Lemma elem_of_tables m pd x : x ∈ tables m pd ↔ ∃ i, idx i ∧ tbl m pd i = Some x.
Proof.
  unfold tables. rewrite list_elem_of_omap. setoid_rewrite elem_of_seqZ. unfold idx.
  split; intros (i & Hi & Ht); exists i; (split; [lia|done]).
Qed.

(** The user frames, in address order. *)
Definition user_frames (m : memory) (pd : Z) : list Z :=
  frames_from (leaf m pd) (PGROUNDUP 0) (ncovered 0 KERNBASE).

Lemma ncovered_all : Z.of_nat (ncovered 0 KERNBASE) = KERNBASE / PGSIZE.
Proof. unfold ncovered. by rewrite Z2Nat.id. Qed.

Lemma elem_of_user_frames m pd x :
  x ∈ user_frames m pd ↔ ∃ va e, upage va ∧ leaf m pd va = Some e ∧ frame_of e = x.
Proof.
  unfold user_frames. rewrite elem_of_frames_from. pose proof ncovered_all as Hn.
  change (PGROUNDUP 0) with 0. generalize dependent (ncovered 0 KERNBASE). intros n Hn. split.
  - intros (i & e & Hi & He & Hx). exists (0 + PGSIZE * Z.of_nat i), e.
    split_and!; [split; unfold pg_aligned; zl|done|done].
  - intros (va & e & [Hal Hb] & He & Hx). exists (Z.to_nat (va / PGSIZE)), e.
    assert (0 + PGSIZE * Z.of_nat (Z.to_nat (va / PGSIZE)) = va) as -> by (unfold pg_aligned in *; zl).
    split_and!; [zl|done|done].
Qed.

(** The loop over the directory, for the entries [l]. *)
Lemma free_tables_spec l w v pd m0 L :
  hw_ok (hw (ks w)) v → kmem_ready (ks w) v → kmem_inv (ks w) L →
  valid_page pd → (∀ i, i ∈ l → idx i) → (∀ i, i ∈ l → tbl (mem (ks w)) pd i = tbl m0 pd i) →
  (∀ x, x ∈ omap (tbl m0 pd) l → valid_page x ∧ x ≠ pd ∧ x ∉ L) → NoDup (omap (tbl m0 pd) l) →
  post (for_each l (λ i,
          e ← ld32 (pd + 4 * i);
          if truthy (Z.land e PTE_P) then kfree (P2V (PTE_ADDR e)) else mret tt)) w v
    (λ _ k', kmem_inv k' (rev (omap (tbl m0 pd) l) ++ L) ∧
             kframe (λ x, x ∈ omap (tbl m0 pd) l) (ks w) k').
Proof.
  revert w L. induction l as [|i l IH]; intros w L Hv Hr Hk Hpd Hl Ht Hx Hnd; cbn [for_each].
  { apply post_ret; [done|]. by split. }
  unfold ld32. ppure.
  pose proof (Ht i ltac:(set_solver)) as Hti. assert (omap (tbl m0 pd) (i :: l) =
    match tbl m0 pd i with Some t => t :: omap (tbl m0 pd) l | None => omap (tbl m0 pd) l end) as Eo by done.
  rewrite Eo in *. clear Eo.
  unfold tbl at 1, pde_at in Hti. unfold present in Hti. destruct (truthy _) eqn:E.
  - destruct (tbl m0 pd i) as [t|] eqn:Et; [|done]. injection Hti as Hft. fold (frame_of (load32 (mem (ks w)) (pd + 4 * i))).
    unfold frame_of in *. rewrite Hft. inversion_clear Hnd as [|? ? Hn1 Hn2].
    destruct (Hx t) as (Htv & Htp & HtL); [set_solver|].
    eapply post_bind_runs; [by apply (kfree_spec _ v t)|]. intros h Hh.
    set (w1 := mkWorld _ _). eapply post_mono; [apply (IH w1 (t :: L))|]; try done.
    + by apply kmem_inv_hw, kfree_inv.
    + set_solver.
    + intros j Hj. rewrite <- Ht by set_solver. apply tbl_agree; [set_solver|]. intros a Ha.
      apply kfree_mem_out. intros Hat. apply Htp. destruct Htv, Hpd. by apply (pages_disjoint t pd a).
    + intros x Hxl. destruct (Hx x) as (? & ? & ?); [set_solver|]. set_solver.
    + intros [] k' [A B]. split; [simpl; by rewrite <- app_assoc|].
      transitivity (ks w1); [transitivity (kfree_result t (ks w)); [|apply kframe_hw]|].
      * eapply kframe_mono; [|apply kfree_kframe]. set_solver.
      * eapply kframe_mono; [|exact B]. set_solver.
  - destruct (tbl m0 pd i) as [t|] eqn:Et; [done|]. ppure.
    apply IH; try done; set_solver.
Qed.

Lemma NoDup_tables own m pd L : pt_inv own m pd L → NoDup (tables m pd).
Proof.
  intros Hp. unfold tables. assert (∀ i, i ∈ seqZ 0 NPDENTRIES → idx i) as Hi.
  { intros i. rewrite elem_of_seqZ. unfold idx. lia. }
  pose proof (NoDup_seqZ 0 NPDENTRIES) as Hnd. revert Hi Hnd. generalize (seqZ 0 NPDENTRIES) as l.
  induction l as [|i l IH]; intros Hi Hnd; [constructor|]. inversion_clear Hnd as [|? ? Hn1 Hn2].
  simpl. destruct (tbl m pd i) as [t|] eqn:Et; [|apply IH; set_solver].
  constructor; [|apply IH; set_solver]. intros (j & Hj & Ej)%list_elem_of_omap.
  apply Hn1. rewrite (pt_inj _ _ _ _ Hp i j t); set_solver.
Qed.

Lemma dealloc_all own w v pd L :
  hw_ok (hw (ks w)) v → kmem_ready (ks w) v → kmem_inv (ks w) L → as_inv own (mem (ks w)) pd L →
  post (deallocuvm pd KERNBASE 0) w v
    (λ _ k', shrunk own pd (PGROUNDUP 0) KERNBASE (ks w) L (user_frames (mem (ks w)) pd) k').
Proof.
  intros Hv Hr Hk Has. unfold user_frames.
  eapply post_mono; [by apply (deallocuvm_spec own w v pd KERNBASE 0 L)|]. by intros r k' [_ Hs].
Qed.

Lemma freevm_spec own w v pd L :
  hw_ok (hw (ks w)) v → kmem_ready (ks w) v → kmem_inv (ks w) L → as_inv own (mem (ks w)) pd L →
  post (freevm pd) w v (λ _ k',
    kmem_inv k' (pd :: rev (tables (mem (ks w)) pd) ++ rev (user_frames (mem (ks w)) pd) ++ L) ∧
    kframe (λ x, pt_pages (mem (ks w)) pd x ∨ x ∈ user_frames (mem (ks w)) pd) (ks w) k').
Proof.
  intros Hv Hr Hk Has. pose proof (pt_pd _ _ _ _ (proj1 Has)) as (Hpd & HpL & _).
  unfold freevm. rewrite (proj2 (Z.eqb_neq pd 0)) by (pose proof (valid_page_pos _ Hpd); kl).
  eapply post_bind; [by apply (dealloc_all own w v pd L)|].
  set (Fs := user_frames _ _). clearbody Fs. intros _ w1 Hv1 _ [A B C D E].
  assert (omap (tbl (mem (ks w)) pd) (seqZ 0 NPDENTRIES) = tables (mem (ks w)) pd) as ET
    by (unfold tables; reflexivity).
  eapply post_bind; [apply (free_tables_spec (seqZ 0 NPDENTRIES) w1 v pd (mem (ks w)) (rev Fs ++ L))|].
  - exact Hv1.
  - by eapply kframe_ready.
  - exact A.
  - exact Hpd.
  - intros i. rewrite elem_of_seqZ. unfold idx. lia.
  - intros i Hi%elem_of_seqZ. apply C. unfold idx. lia.
  - rewrite ET. intros x (i & Hi & Hx)%elem_of_tables. rewrite <- C in Hx by done.
    destruct (pt_tbl _ _ _ _ (proj1 B) i x Hi Hx) as (? & ? & ? & ?). done.
  - rewrite ET. eapply NoDup_tables, Has.
  - rewrite ET. intros [] w2 Hv2 _ [A2 B2].
    assert (pd ∉ rev (tables (mem (ks w)) pd) ++ rev Fs ++ L) as Hnp.
    { rewrite elem_of_app, elem_of_rev, elem_of_tables. intros [(i & Hi & Hx)|Hx].
      - by destruct (pt_tbl _ _ _ _ (proj1 Has) i pd Hi Hx) as (_ & _ & ? & _).
      - by destruct (pt_pd _ _ _ _ (proj1 B)) as (_ & ? & _). }
    assert (kframe (λ x, pt_pages (mem (ks w)) pd x ∨ x ∈ Fs) (ks w) (ks w2)) as HF.
    { transitivity (ks w1); [done|]. eapply kframe_mono; [|exact B2]. intros x.
      rewrite elem_of_tables. intros ?. left. by right. }
    eapply post_mono; [apply post_runs, (kfree_spec w2 v pd)|]; [done|by eapply kframe_ready|done|].
    intros [] k' [_ ->]. split; [by apply kmem_inv_hw, kfree_inv|].
    transitivity (kfree_result pd (ks w2)); [|apply kframe_hw]. transitivity (ks w2); [done|].
    eapply kframe_mono; [|apply kfree_kframe]. intros x ->. left. by left.
Qed.

(** If the address space and the free list make up [L0], all of [L0] is free again. *)
Lemma freevm_returns own w v pd L L0 :
  hw_ok (hw (ks w)) v → kmem_ready (ks w) v → kmem_inv (ks w) L → as_inv own (mem (ks w)) pd L →
  NoDup L0 →
  (∀ x, x ∈ L0 ↔ x ∈ L ∨ pt_pages (mem (ks w)) pd x ∨ x ∈ user_frames (mem (ks w)) pd) →
  post (freevm pd) w v (λ _ k', ∃ L', kmem_inv k' L' ∧ L' ≡ₚ L0 ∧ kframe (λ x, x ∈ L0) (ks w) k').
Proof.
  intros Hv Hr Hk Has Hnd HL. eapply post_mono; [by apply (freevm_spec own w v pd L)|].
  intros [] k' [A B]. eexists. split_and!; [exact A| |].
  - apply NoDup_Permutation; [by destruct A|done|]. intros x.
    rewrite HL, elem_of_cons, !elem_of_app, !elem_of_rev, elem_of_tables. unfold pt_pages. tauto.
  - eapply kframe_mono; [|exact B]. intros x. rewrite HL. tauto.
Qed.

(** ** setupkvm *)

(** An empty directory. *)
Lemma empty_as_inv own m pd L :
  (∀ a, in_page pd a → m a = 0) → valid_page pd → pd ∉ L → own pd → (∀ x, x ∈ L → own x) →
  as_inv own m pd L ∧ (∀ i, idx i → tbl m pd i = None) ∧ (∀ va, leaf m pd va = None).
Proof.
  intros Hz Hpd HpL Ho HoL.
  assert (∀ i, idx i → tbl m pd i = None) as Ht.
  { intros i Hi. unfold tbl, pde_at. rewrite load32_zero; [done|]. intros a Ha. by eapply Hz, word_in_page. }
  assert (∀ va, leaf m pd va = None) as Hl.
  { intros va. unfold leaf. by rewrite Ht by auto with kern. }
  split_and!; [split; split|done|done].
  - done.
  - done.
  - intros i t Hi. by rewrite Ht.
  - intros i j t Hi _. by rewrite Ht.
  - intros i t Hi. by rewrite Ht.
  - intros va e _. by rewrite Hl.
  - intros va va' e e' _ _. by rewrite Hl.
Qed.

Definition kmap_step (F : Z → option Z) (e : Z * Z * Z * Z) : Z → option Z :=
  let '(virt, ps, pe, perm) := e in
  mapped (PGROUNDDOWN virt) (npages virt (u32 (pe - ps))) ps perm F.

(** The kernel half that [kmap] describes. *)
Definition kernel_map : Z → option Z := foldl kmap_step (λ _, None) kmap.

Fixpoint kmap_ok (F : Z → option Z) (l : list (Z * Z * Z * Z)) : Prop :=
  match l with
  | [] => True
  | (virt, ps, pe, perm) :: l' =>
      let size := u32 (pe - ps) in
      (is_u32 virt ∧ 0 < size ∧ virt + size ≤ two32 ∧ pg_aligned ps ∧ 0 ≤ ps ∧ 0 ≤ perm < PGSIZE ∧
       ps + PGSIZE * npages virt size ≤ two32 ∧ KERNBASE ≤ PGROUNDDOWN virt ∧
       (∀ va, vpage va → PGROUNDDOWN virt ≤ va < virt + size → F va = None)) ∧
      kmap_ok (kmap_step F (virt, ps, pe, perm)) l'
  end.

(** A page table whose user half is empty and which with [L] makes up [L0]. *)
Record kernel_half own pd (m : memory) (L L0 : list Z) (F : Z → option Z) : Prop := mkKernelHalf {
  kh_pt : pt_inv own m pd L;
  kh_leaf : ∀ va, vpage va → leaf m pd va = F va;
  kh_user : ∀ va, upage va → leaf m pd va = None;
  kh_all : ∀ x, x ∈ L0 ↔ x ∈ L ∨ pt_pages m pd x
}.

Lemma kernel_half_as own pd m L L0 F : kernel_half own pd m L L0 F → as_inv own m pd L.
Proof.
  intros [A B C D]. split; [done|]. split.
  - intros va e Hva. by rewrite C.
  - intros va va' e e' Hva _. by rewrite C.
Qed.

Lemma kernel_half_frames own pd m L L0 F : kernel_half own pd m L L0 F → ∀ x, x ∉ user_frames m pd.
Proof.
  intros [_ _ C _] x. rewrite elem_of_user_frames. intros (va & e & Hva & He & _). by rewrite C in He.
Qed.

Lemma kernel_half_grown own pd k k' L used L' L0 F G :
  kernel_half own pd (mem k) L L0 F → grown own pd k k' L used L' →
  (∀ va, vpage va → leaf (mem k') pd va = G va) → (∀ va, upage va → G va = F va) →
  kernel_half own pd (mem k') L' L0 G.
Proof.
  intros [A B C D] Hg Hl HG. pose proof (gw_split _ _ _ _ _ _ _ Hg) as HL.
  split; [apply Hg|done| |].
  - intros va Hva. rewrite Hl, HG, <- B by auto with kern. auto.
  - intros x. rewrite D, HL, elem_of_app. split.
    + intros [[?|?]|?]; [right; by apply (gw_used _ _ _ _ _ _ _ Hg)|by left|right; by eapply grown_pages].
    + intros [?|[->|(i & Hi & Ht)]]; [by auto|right; by left|].
      destruct (gw_new _ _ _ _ _ _ _ Hg i x Hi Ht); [right; right; eauto|auto].
Qed.

(** One line of [kmap]: the mapping is added, or everything is freed. *)
Lemma kmap_entry own w v pd L L0 F virt ps pe perm l :
  hw_ok (hw (ks w)) v → kmem_ready (ks w) v → kmem_inv (ks w) L → NoDup L0 → (∀ x, own x ↔ x ∈ L0) →
  kernel_half own pd (mem (ks w)) L L0 F → kmap_ok F ((virt, ps, pe, perm) :: l) →
  post (r ← mappages pd virt (u32 (pe - ps)) ps perm;
        if r <? 0 then _ ← freevm pd; mret (Some 0) else mret None) w v
    (λ r k', (r = Some 0 ∧ ∃ L', kmem_inv k' L' ∧ L' ≡ₚ L0 ∧ kframe own (ks w) k') ∨
             (r = None ∧ ∃ L', kmem_inv k' L' ∧ kframe own (ks w) k' ∧
                kernel_half own pd (mem k') L' L0 (kmap_step F (virt, ps, pe, perm)))).
Proof.
  intros Hv Hr Hk Hnd Hown Hh [(K1 & K2 & K3 & K4 & K5 & K6 & K7 & K8 & K9) _].
  eapply post_bind; [apply (mappages_spec own w v pd virt _ ps perm L); try done|].
  { apply Hh. }
  { intros va Hva Hb. rewrite (kh_leaf _ _ _ _ _ _ Hh) by done. auto. }
  intros r w1 Hv1 _ (used & L' & j & Hg & Hj & Hcase & Hl).
  assert (kernel_half own pd (mem (ks w1)) L' L0 (mapped (PGROUNDDOWN virt) j ps perm F)) as Hh'.
  { eapply kernel_half_grown; [done|done| |].
    - intros va Hva. rewrite Hl by done. unfold mapped. by rewrite (kh_leaf _ _ _ _ _ _ Hh).
    - intros va [_ Hva]. apply mapped_out. lia. }
  assert (kframe own (ks w) (ks w1)) as Hf.
  { eapply kframe_mono; [|apply Hg]. intros x Hx. rewrite Hown, (kh_all _ _ _ _ _ _ Hh'). auto. }
  pose proof (gw_kmem _ _ _ _ _ _ _ Hg) as Hk1.
  destruct Hcase as [[-> ->]|(-> & _)]; simpl Z.ltb; cbv iota.
  - apply post_ret; [done|]. right. split; [done|]. by exists L'.
  - eapply post_bind; [apply (freevm_returns own w1 v pd L' L0)|].
    + done.
    + by eapply kframe_ready.
    + done.
    + by eapply kernel_half_as.
    + done.
    + intros x. rewrite (kh_all _ _ _ _ _ _ Hh').
      pose proof (kernel_half_frames _ _ _ _ _ _ Hh' x). tauto.
    + intros [] w2 Hv2 _ (L2 & A & B & C). apply post_ret; [done|]. left. split; [done|].
      exists L2. split_and!; [done..|]. transitivity (ks w1); [done|].
      eapply kframe_mono; [|exact C]. intros x. by rewrite Hown.
Qed.

Lemma kmap_loop own v pd L0 l :
  NoDup L0 → (∀ x, own x ↔ x ∈ L0) → ∀ w L F,
  hw_ok (hw (ks w)) v → kmem_ready (ks w) v → kmem_inv (ks w) L →
  kernel_half own pd (mem (ks w)) L L0 F → kmap_ok F l →
  post (for_find l (λ '(virt, phys_start, phys_end, perm),
          r ← mappages pd virt (u32 (phys_end - phys_start)) phys_start perm;
          if r <? 0 then _ ← freevm pd; mret (Some 0) else mret None)) w v
    (λ r k', (r = Some 0 ∧ ∃ L', kmem_inv k' L' ∧ L' ≡ₚ L0 ∧ kframe own (ks w) k') ∨
             (r = None ∧ ∃ L', kmem_inv k' L' ∧ kframe own (ks w) k' ∧
                kernel_half own pd (mem k') L' L0 (foldl kmap_step F l))).
Proof.
  intros Hnd Hown. induction l as [|[[[virt ps] pe] perm] l IH]; intros w L F Hv Hr Hk Hh Hok; cbn [for_find].
  { apply post_ret; [done|]. right. split; [done|]. by exists L. }
  eapply post_bind; [by apply (kmap_entry own w v pd L L0 F virt ps pe perm l)|].
  intros r w1 Hv1 _ [(-> & L' & A & B & C)|(-> & L' & A & C & Hh1)].
  - apply post_ret; [done|]. left. split; [done|]. by exists L'.
  - eapply post_mono; [apply (IH w1 L' (kmap_step F (virt, ps, pe, perm)))|]; try done.
    + by eapply kframe_ready.
    + apply Hok.
    + intros r k' [(-> & L2 & A2 & B2 & C2)|(-> & L2 & A2 & C2 & Hh2)]; [left|right]; (split; [done|]);
        exists L2; split_and!; try done; by transitivity (ks w1).
Qed.

Lemma kmap_correct : kmap_ok (λ _, None) kmap.
Proof.
  pose proof sym_data_range as H1. pose proof sym_end_range as H2. pose proof sym_end_top as H3.
  pose proof sym_data_aligned as H4.
  assert (V2P sym_data = sym_data - KERNBASE) as E1 by (apply V2P_spec; kl).
  assert (V2P KERNLINK = EXTMEM) as E2 by done.
  assert (PGROUNDDOWN sym_data = sym_data) as E3.
  { rewrite PGROUNDDOWN_spec by kl. unfold pg_aligned in H4. lia. }
  unfold kmap. rewrite E1, E2. cbn [kmap_ok kmap_step]. rewrite E3.
  assert (u32 (EXTMEM - 0) = EXTMEM) as -> by done.
  assert (u32 (0 - DEVSPACE) = 0x2000000) as -> by done.
  rewrite !u32_id by kl.
  change (PGROUNDDOWN KERNBASE) with KERNBASE. change (PGROUNDDOWN KERNLINK) with KERNLINK.
  change (PGROUNDDOWN DEVSPACE) with DEVSPACE.
  assert (npages KERNBASE EXTMEM = 256) as -> by done. assert (npages DEVSPACE 0x2000000 = 8192) as -> by done.
  assert (npages KERNLINK (sym_data - KERNBASE - EXTMEM) = (sym_data - KERNLINK) / PGSIZE) as ->
    by (unfold npages, pg_aligned in *; zl).
  assert (npages sym_data (PHYSTOP - (sym_data - KERNBASE)) = (KERNBASE + PHYSTOP - sym_data) / PGSIZE) as ->
    by (unfold npages, pg_aligned in *; zl).
  unfold pg_aligned in *. repeat split; try kl; try zl; intros va [Hva _] Hb;
    rewrite ?mapped_out by (unfold pg_aligned in *; zl); done.
Qed.

(** [setupkvm] either makes the kernel half out of free pages, or returns 0 and
    every page is free again. *)
Lemma setupkvm_spec w v L :
  hw_ok (hw (ks w)) v → kmem_ready (ks w) v → kmem_inv (ks w) L →
  post setupkvm w v (λ r k', kframe (λ x, x ∈ L) (ks w) k' ∧
    ((r = 0 ∧ ∃ L', kmem_inv k' L' ∧ L' ≡ₚ L) ∨
     (r ≠ 0 ∧ r ∈ L ∧ ∃ L', kmem_inv k' L' ∧ kernel_half (λ x, x ∈ L) r (mem k') L' L kernel_map))).
Proof.
  intros Hv Hr Hk. unfold setupkvm.
  eapply post_bind_runs; [by apply (kalloc_spec _ v L)|]. intros h Hh.
  destruct L as [|pd L]; simpl hd.
  { apply post_ret; [done|]. split; [apply kframe_hw|]. left. split; [done|]. exists [].
    split; [by apply kmem_inv_hw|done]. }
  pose proof (kalloc_inv _ _ _ Hk) as Hk1. destruct Hk as [_ Hnd Hval].
  inversion Hnd as [|? ? HpL _]; subst. inversion_clear Hval as [|? ? Hpv HvL].
  rewrite (proj2 (Z.eqb_neq pd 0)) by (pose proof (valid_page_pos _ Hpv); kl).
  unfold kmemset. ppure. change (DEVSPACE <? P2V PHYSTOP) with false. cbv iota.
  match goal with |- post _ ?W _ _ => set (w1 := W) end.
  assert (mem (ks w1) = memset (mem (ks w)) pd 0 PGSIZE) as Em by done.
  assert (mem_frame (λ x, x = pd) (mem (ks w)) (mem (ks w1))) as Hmf by (rewrite Em; by apply memset_frame).
  assert (kmem_inv (ks w1) L) as Hkw1.
  { eapply kmem_inv_frame; [| |exact Hk1]; [done|]. intros x a Hx. rewrite Forall_forall in HvL.
    destruct (HvL x Hx). apply (mem_frame_page (λ x, x = pd)); [|done| |done].
    - intros ? ->. by destruct Hpv.
    - by intros ->. }
  destruct (empty_as_inv (λ x, x ∈ pd :: L) (mem (ks w1)) pd L) as ([Hpt _] & Ht & Hl); [|done|done|set_solver..|].
  { intros a Ha. rewrite Em. apply memset_in; [kl|unfold in_page in Ha; kl]. }
  assert (kframe (λ x, x ∈ pd :: L) (ks w) (ks w1)) as Hf1.
  { split; [done| |done]. eapply mem_frame_mono; [|exact Hmf]. set_solver. }
  assert (hw_ok (hw (ks w1)) v) as Hv1 by done. clearbody w1. eapply post_bind.
  - apply (kmap_loop (λ x, x ∈ pd :: L) v pd (pd :: L) kmap Hnd ltac:(done) w1 L (λ _, None)).
    + done.
    + by eapply kframe_ready.
    + done.
    + split; try done. intros x. unfold pt_pages. split.
      * intros [->|?]%elem_of_cons; auto.
      * intros [?|[->|(i & Hi & Hx)]]; [set_solver..|]. by rewrite Ht in Hx.
    + apply kmap_correct.
  - intros r w2 Hv2 _ [(-> & L2 & A2 & B2 & C2)|(-> & L2 & A2 & C2 & Hh2)]; apply post_ret; try done;
      (split; [by transitivity (ks w1)|]); [left|right].
    + split; [done|]. by exists L2.
    + pose proof (valid_page_pos _ Hpv). split_and!; [simpl; kl|set_solver|by exists L2].
Qed.

End Space.

#[global] Opaque user_frames tables.
#[global] Typeclasses Opaque user_frames tables.
