(* ===== verification/VmCopy.v ===== *)
(** * vm.c: copying an address space, and copying to user memory

    [copyuvm] gives the child a frame of its own for every page of the parent,
    with the parent's bytes and permission bits.  [copyout] writes bytes through
    a page table. *)

From S2P Require Import Prelude Layout State Str Spinlock Kalloc Vm VmInv VmOps VmAlloc VmSpace.

Section Copy.
Context `{KernelSyms}.

(** ** copyuvm *)

(** A memory [m] in which the parent [pgdir] is as in [m0]. *)
Definition same_space (m0 m : memory) (pgdir : Z) : Prop :=
  (∀ i, idx i → tbl m pgdir i = tbl m0 pgdir i) ∧ (∀ va, leaf m pgdir va = leaf m0 pgdir va) ∧
  (∀ va e x, upage va → leaf m0 pgdir va = Some e → in_page (frame_of e) x → m x = m0 x).

(** Changing pages that are free in [m0] does not touch the parent. *)
Lemma same_space_frame own m0 m pgdir L :
  as_inv own m0 pgdir L → Forall valid_page L → mem_frame (λ x, x ∈ L) m0 m → same_space m0 m pgdir.
Proof.
  intros Has HvL Hm. rewrite Forall_forall in HvL.
  destruct (as_inv_frame own m0 m pgdir L (λ x, x ∈ L)) as (_ & Ht & Hl); try done.
  - intros y Hy. by destruct (HvL y Hy).
  - intros x Hx. by destruct (pt_pages_valid _ _ _ _ _ (proj1 Has) Hx) as (_ & ? & _).
  - split_and!; [done..|]. intros va e x Hva He Hx.
    destruct (fr_page _ _ _ _ (proj2 Has) va e Hva He) as ((Hal & _) & Hn & _).
    eapply (mem_frame_page (λ x, x ∈ L)); [|exact Hal|exact Hn|exact Hm|exact Hx].
    intros y Hy. by destruct (HvL y Hy).
Qed.

(** What the copy of [va] must have. *)
Definition copy_perm (m0 : memory) (pgdir va : Z) : Z := PTE_FLAGS (default 0 (leaf m0 pgdir va)).
Definition copy_content (m0 : memory) (pgdir va x : Z) : Z := m0 (frame_of (default 0 (leaf m0 pgdir va)) + x).

(** A child that was given up on: it and [L'] make up all of [L0]. *)
Record given_up own d (L0 : list Z) (k' : kern) (L' : list Z) : Prop := mkGivenUp {
  gu_kmem : kmem_inv k' L';
  gu_as : as_inv own (mem k') d L';
  gu_all : ∀ x, x ∈ L0 ↔ x ∈ L' ∨ pt_pages (mem k') d x ∨ x ∈ user_frames (mem k') d
}.

Section Child.
Variables (own : Z → Prop) (m0 : memory) (pgdir d : Z) (k1 : kern) (L0 L1 : list Z) (v : hwview) (sz : Z).
Hypothesis (Hown : ∀ x, own x ↔ x ∈ L0) (Hd : kernel_half own d (mem k1) L1 L0 kernel_map)
  (Hr1 : kmem_ready k1 v).
Hypothesis (Hpar : ∃ own', as_inv own' m0 pgdir L0) (HvL : Forall valid_page L0)
  (Hm1 : mem_frame (λ x, x ∈ L0) m0 (mem k1)).
Hypothesis (Hsz : 0 ≤ sz ≤ KERNBASE)
  (Hall : ∀ va, upage va → va < sz → ∃ e, leaf m0 pgdir va = Some e).

Abbreviation copied := (growing (copy_perm m0 pgdir) (copy_content m0 pgdir) own d 0).

Lemma copied_frame a k L Held : copied a k1 L1 k L Held →
  kframe (λ x, x ∈ L0) k1 k ∧ same_space m0 (mem k) pgdir.
Proof.
  intros Hg. assert (kframe (λ x, x ∈ L0) k1 k) as Hf.
  { eapply kframe_mono; [|apply (gi_frame _ _ _ _ _ _ _ _ _ _ _ Hg)]. simpl. intros x.
    rewrite (kh_all _ _ _ _ _ _ Hd). intros [Hx|?]; [|by left].
    destruct (gi_pages_new _ _ _ _ _ _ _ _ _ _ _ Hg x Hx); auto. }
  split; [done|]. destruct Hpar as [own' Hp]. eapply same_space_frame; [exact Hp|done|].
  etrans; [exact Hm1|apply Hf].
Qed.

Lemma copied_all a k L Held : copied a k1 L1 k L Held → (∀ x, x ∈ Held → x ∈ L1) →
  ∀ x, x ∈ L0 ↔ x ∈ L ∨ x ∈ Held ∨ pt_pages (mem k) d x ∨ x ∈ user_frames (mem k) d.
Proof.
  intros [A B C D E F G I J] HH x. rewrite (kh_all _ _ _ _ _ _ Hd), elem_of_user_frames. split.
  - intros [Hx|Hx]; [|by auto]. destruct (I x Hx) as [?|[?|[?|(va & e & Hva & _ & He & Hf)]]]; [by auto..|].
    do 3 right. eauto.
  - intros [Hx|[Hx|[Hx|(va & e & Hva & He & Hf)]]].
    + left. destruct C as [u ->]. set_solver.
    + left. auto.
    + destruct (G x Hx); auto.
    + left. destruct (decide (va < a)) as [Hlt|Hge].
      * destruct (D va Hva) as (f & Hf1 & Hf0 & Hf2 & Hf3 & _); [destruct Hva; lia|].
        rewrite Hf1 in He. injection He as <-. unfold entry in Hf. rewrite frame_of_mk in Hf by done. by subst.
      * rewrite E in He by (auto with kern; lia). by rewrite (kh_user _ _ _ _ _ _ Hd) in He.
Qed.

Lemma copied_given_up a k L : copied a k1 L1 k L [] → given_up own d L0 k L.
Proof.
  intros Hg. split; [apply Hg..|]. intros x.
  rewrite (copied_all _ _ _ _ Hg) by set_solver. set_solver.
Qed.

(** The page in hand is freed. *)
Lemma copied_free_held a k L p : copied a k1 L1 k L [p] → unused (mem k) d p → p ∉ L → p ∈ L1 →
  valid_page p → given_up own d L0 (kfree_result p k) (p :: L).
Proof.
  intros Hg Hun HpL HpL1 Hpv.
  assert (own p) as Ho. { rewrite Hown, (kh_all _ _ _ _ _ _ Hd). auto. }
  destruct (kfree_unused own k d L p) as (A & B & Ht & Hl); try done; [apply Hg..|].
  split; [done..|]. intros x. rewrite (copied_all _ _ _ _ Hg) by set_solver.
  rewrite (pt_pages_ext (mem k) (mem (kfree_result p k))) by done.
  rewrite !elem_of_user_frames, !elem_of_cons, elem_of_nil. setoid_rewrite Hl. tauto.
Qed.

(** One page of the parent: its entry, and the copy of its frame. *)
Lemma parent_entry i k : same_space m0 (mem k) pgdir → upage i → i < sz →
  ∃ t e, tbl (mem k) pgdir (PDX i) = Some t ∧ t ≠ 0 ∧ load32 (mem k) (t + 4 * PTX i) = e ∧
    leaf m0 pgdir i = Some e ∧ truthy (Z.land e PTE_P) = true ∧
    (∀ x, 0 ≤ x < PGSIZE → mem k (frame_of e + x) = copy_content m0 pgdir i x) ∧
    copy_perm m0 pgdir i = PTE_FLAGS e ∧ is_u32 e ∧ KERNBASE ≤ t.
Proof.
  intros (Ht & Hl & Hc) Hi Hlt. destruct (Hall i Hi Hlt) as [e He]. pose proof (Hl i) as Hli.
  rewrite He in Hli. unfold leaf in Hli. destruct (tbl (mem k) pgdir (PDX i)) as [t|] eqn:Et; [|done].
  cbv zeta in Hli. destruct (present _) eqn:Ep; [|done]. injection Hli as Hli.
  destruct Hpar as [own' Hp]. rewrite Ht in Et by auto with kern.
  destruct (pt_tbl _ _ _ _ (proj1 Hp) _ _ (PDX_idx i) Et) as (Htv & _).
  pose proof (valid_page_pos _ Htv).
  exists t, e. rewrite <- Hli. split_and!; try done.
  - kl.
  - by rewrite Hli.
  - intros x Hx. rewrite (Hc i e); [|done|done|rewrite Hli; unfold in_page; lia].
    unfold copy_content. rewrite He. simpl. by rewrite Hli.
  - unfold copy_perm. rewrite He. simpl. by rewrite Hli.
  - apply load32_range.
  - kl.
Qed.

Definition copy_post (ok : bool) (k' : kern) : Prop :=
  (ok = true ∧ ∃ i L', sz ≤ i < sz + PGSIZE ∧ pg_aligned i ∧ copied i k1 L1 k' L' []) ∨
  (ok = false ∧ ∃ L', given_up own d L0 k' L' ∧ kframe (λ x, x ∈ L0) k1 k').

Lemma copied_ready a w L Held : copied a k1 L1 (ks w) L Held → kmem_ready (ks w) v.
Proof. intros Hg. eapply kframe_ready; [apply (gi_frame _ _ _ _ _ _ _ _ _ _ _ Hg)|done]. Qed.

Lemma memmove_frame m dst src (P : Z → Prop) : P dst → mem_frame P m (memmove m dst src (Z.to_nat PGSIZE)).
Proof.
  intros Hp a Ha. apply memmove_out. specialize (Ha dst Hp). unfold in_page in Ha.
  rewrite Z2Nat.id by done. lia.
Qed.

(** A page in hand with the parent's bytes is mapped, or given back. *)
Lemma copy_map_page w i L p fuel :
  (∀ w' L', hw_ok (hw (ks w')) v → copied (i + PGSIZE) k1 L1 (ks w') L' [] →
     post (copyuvm_loop fuel d pgdir (i + PGSIZE) sz) w' v copy_post) →
  hw_ok (hw (ks w)) v → copied i k1 L1 (ks w) L [p] → unused (mem (ks w)) d p → valid_page p →
  p ∉ L → p ∈ L1 → upage i → i < sz → 0 ≤ copy_perm m0 pgdir i < PGSIZE →
  (∀ x, 0 ≤ x < PGSIZE → mem (ks w) (p + x) = copy_content m0 pgdir i x) →
  post (r ← mappages d i PGSIZE (V2P p) (copy_perm m0 pgdir i);
        if r <? 0 then _ ← kfree p; mret false
        else copyuvm_loop fuel d pgdir (u32 (i + PGSIZE)) sz) w v copy_post.
Proof.
  intros IH Hv Hg Hun Hpv HpL HpL1 Hi Hlt Hperm Hc. pose proof (copied_ready _ _ _ _ Hg) as Hr.
  destruct (V2P_page p Hpv) as (Hu & Hal & _). pose proof (valid_page_pos _ Hpv).
  assert (own p) as Ho. { rewrite Hown, (kh_all _ _ _ _ _ _ Hd). auto. }
  eapply post_bind.
  { apply (mappages_page own w v d i (V2P p) (copy_perm m0 pgdir i) L); try done.
    - apply Hg.
    - apply (gi_as _ _ _ _ _ _ _ _ _ _ _ Hg).
    - kl.
    - rewrite V2P_spec; kl.
    - rewrite (gi_old _ _ _ _ _ _ _ _ _ _ _ Hg) by (auto with kern; lia). by apply (kh_user _ _ _ _ _ _ Hd). }
  intros r w2 Hv2 _ (used & L' & j & Hgr & Hj & Hcase & Hl). destruct Hcase as [[-> ->]|(-> & Hj1 & _)];
    simpl Z.ltb; cbv iota.
  - destruct (id Hi) as [_ Hib]. rewrite u32_id by kl. apply (IH w2 L'); [done|].
    apply (growing_mapped _ _ own d 0 i k1 L1 (ks w) L p (ks w2) used L' Hg); try done. lia.
  - assert (j = 0) as -> by lia.
    destruct (growing_grown _ _ own d 0 i k1 L1 (ks w) L p (ks w2) used L' Hg) as (Hg2 & Hun2 & HpL2); try done.
    { intros va Hva. by rewrite Hl, mapped_0. }
    eapply post_bind_runs; [apply (kfree_spec _ v p); [done|by eapply copied_ready|done]|].
    intros h Hh. apply post_ret; [done|]. right. split; [done|]. exists (p :: L').
    destruct (copied_free_held _ _ _ _ Hg2 Hun2 HpL2 HpL1 Hpv) as [A B C]. split.
    + split; [by apply kmem_inv_hw|done..].
    + destruct (copied_frame _ _ _ _ Hg2) as [Hf _]. transitivity (ks w2); [done|].
      transitivity (kfree_result p (ks w2)); [|apply kframe_hw].
      eapply kframe_mono; [|apply kfree_kframe]. intros x ->. rewrite (kh_all _ _ _ _ _ _ Hd). auto.
Qed.

Lemma copyuvm_loop_spec n fuel w i L :
  hw_ok (hw (ks w)) v → copied i k1 L1 (ks w) L [] → pg_aligned i → 0 ≤ i →
  sz ≤ i + PGSIZE * Z.of_nat n < sz + PGSIZE → (n < fuel)%nat →
  post (copyuvm_loop fuel d pgdir i sz) w v copy_post.
Proof.
  revert fuel w i L. induction n as [|n IH]; intros [|fuel] w i L Hv Hg Hal Hi Hn Hf; try lia; cbn [copyuvm_loop].
  { rewrite (proj2 (Z.ltb_ge i sz)) by lia. apply post_ret; [done|]. left. split; [done|].
    exists i, L. split_and!; [lia..|done|done]. }
  assert (i < sz) as Hlt by kl. rewrite (proj2 (Z.ltb_lt i sz)) by done. simpl negb. cbv iota.
  assert (upage i) as Hui by (split; [done|lia]).
  destruct (copied_frame _ _ _ _ Hg) as [Hf1 Hsame].
  destruct (parent_entry i (ks w) Hsame Hui Hlt) as (t & e & Ht & Ht0 & He & Hle & Hp & Hc & Hperm & Hu & Htb).
  eapply post_eq; [eapply bind_ok, walk_present, Ht|]. cbv beta. pose proof (PTX_range i).
  rewrite (proj2 (Z.eqb_neq _ 0)) by kl. unfold ld32. ppure. rewrite He, Hp. simpl negb. cbv iota zeta.
  eapply post_bind_runs; [apply (kalloc_spec _ v L); [done|by eapply copied_ready|apply Hg]|]. intros h Hh.
  destruct L as [|p L]; simpl hd; cbv iota.
  { cbn [Z.eqb]. apply post_ret; [done|]. right. split; [done|]. exists []. split.
    - apply (growing_hw _ _ _ _ _ _ _ _ _ _ _ h) in Hg. by eapply copied_given_up.
    - transitivity (ks w); [done|apply kframe_hw]. }
  destruct (growing_take _ _ _ _ _ _ _ _ _ _ _ h (memmove (mem (ks w)) p (frame_of e) (Z.to_nat PGSIZE)) Hg)
    as (Hg1 & Hun & Hpv & HpL & Hop); [by apply memmove_frame|].
  rewrite (proj2 (Z.eqb_neq p 0)) by (pose proof (valid_page_pos _ Hpv); kl).
  unfold kmemmove. ppure. rewrite <- Hperm. fold (frame_of e).
  assert (∀ x, 0 ≤ x < PGSIZE →
            memmove (mem (ks w)) p (frame_of e) (Z.to_nat PGSIZE) (p + x) = copy_content m0 pgdir i x) as Hc'.
  { intros x Hx. rewrite <- Hc by done. rewrite memmove_in by (rewrite Z2Nat.id by done; lia). f_equal. lia. }
  revert Hg1 Hun Hc'. generalize (Z.to_nat PGSIZE) as N. intros N Hg1 Hun Hc'.
  match goal with |- post _ ?W _ _ => set (w1 := W) end.
  assert (hw_ok (hw (ks w1)) v ∧ copied i k1 L1 (ks w1) L [p] ∧
    mem (ks w1) = memmove (mem (ks w)) p (frame_of e) N) as (Hv1 & Hgw & Em) by done.
  rewrite <- Em in Hun, Hc'. clearbody w1.
  apply (copy_map_page w1 i L p fuel); try done.
  - intros w' L' Hv' Hg'. apply (IH fuel w' (i + PGSIZE) L'); try done; [unfold pg_aligned in *; zl|kl..].
  - destruct (gi_sub _ _ _ _ _ _ _ _ _ _ _ Hg) as [u ->]. set_solver.
  - rewrite Hperm, PTE_FLAGS_spec by done. apply Z.mod_pos_bound. done.
Qed.

(** What the finished copy is, seen from the parent. *)
Lemma copied_result i k L va :
  copied i k1 L1 k L [] → sz ≤ i < sz + PGSIZE → pg_aligned i → upage va →
  (va < sz → ∃ e f, leaf m0 pgdir va = Some e ∧ leaf (mem k) d va = Some (entry (V2P f) (PTE_FLAGS e)) ∧
     f ∈ L1 ∧ ∀ x, 0 ≤ x < PGSIZE → mem k (f + x) = m0 (frame_of e + x)) ∧
  (sz ≤ va → leaf (mem k) d va = None).
Proof.
  intros Hg Hi Hal Hva. split.
  - intros Hlt. destruct (Hall va Hva Hlt) as [e He].
    destruct (gi_new _ _ _ _ _ _ _ _ _ _ _ Hg va Hva) as (f & Hf & _ & _ & HfL & Hfc); [destruct Hva; lia|].
    unfold copy_perm, copy_content in *. rewrite He in Hf, Hfc. simpl in Hf, Hfc. exists e, f. auto.
  - intros Hge. rewrite (gi_old _ _ _ _ _ _ _ _ _ _ _ Hg).
    + by apply (kh_user _ _ _ _ _ _ Hd).
    + auto with kern.
    + destruct Hva. unfold pg_aligned in *. zl.
Qed.

End Child.

Lemma copyuvm_spec (own : Z → Prop) (w : world) (v : hwview) (pgdir sz : Z) (L : list Z) :
  hw_ok (hw (ks w)) v → kmem_ready (ks w) v → kmem_inv (ks w) L → as_inv own (mem (ks w)) pgdir L →
  0 ≤ sz ≤ KERNBASE → (∀ va, upage va → va < sz → ∃ e, leaf (mem (ks w)) pgdir va = Some e) →
  post (copyuvm pgdir sz) w v (λ d k', kframe (λ x, x ∈ L) (ks w) k' ∧ same_space (mem (ks w)) (mem k') pgdir ∧
    ((d = 0 ∧ ∃ L', kmem_inv k' L' ∧ L' ≡ₚ L) ∨
     (d ≠ 0 ∧ ∃ L', kmem_inv k' L' ∧ as_inv (λ x, x ∈ L) (mem k') d L' ∧ ∀ va, upage va →
        (va < sz → ∃ e f, leaf (mem (ks w)) pgdir va = Some e ∧
           leaf (mem k') d va = Some (entry (V2P f) (PTE_FLAGS e)) ∧ f ∈ L ∧
           ∀ x, 0 ≤ x < PGSIZE → mem k' (f + x) = mem (ks w) (frame_of e + x)) ∧
        (sz ≤ va → leaf (mem k') d va = None)))).
Proof.
  intros Hv Hr Hk Has Hsz Hall. destruct (id Hk) as [_ HndL HvL]. unfold copyuvm.
  assert (∀ k', kframe (λ x, x ∈ L) (ks w) k' → same_space (mem (ks w)) (mem k') pgdir) as Hss.
  { intros k' Hf. eapply same_space_frame; [exact Has|done|apply Hf]. }
  eapply post_bind; [by apply (setupkvm_spec w v L)|].
  intros d w1 Hv1 _ [Hf1 [(-> & L' & A & B)|(Hd0 & HdL & L1 & Hk1 & Hd)]].
  { apply post_ret; [done|]. split_and!; [done|auto|]. left. eauto. }
  rewrite (proj2 (Z.eqb_neq d 0)) by done.
  eapply post_bind.
  - apply (copyuvm_loop_spec (λ x, x ∈ L) (mem (ks w)) pgdir d (ks w1) L L1 v sz) with
      (n := Z.to_nat ((sz + PGSIZE - 1) / PGSIZE)) (L := L1); try done.
    + by eapply kframe_ready.
    + by exists own.
    + apply Hf1.
    + apply growing_start; [done|by eapply kernel_half_as].
    + zl.
    + zl.
  - intros ok w2 Hv2 _ [(-> & i & L' & Hi & Hal & Hg)|(-> & L' & [A B C] & D)].
    + assert (kframe (λ x, x ∈ L) (ks w) (ks w2)) as Hf2.
      { transitivity (ks w1); [done|]. eapply copied_frame; [done|..|exact Hg]; try done.
        - by exists own. - apply Hf1. }
      apply post_ret; [done|]. split_and!; [done|auto|]. right. split; [done|]. exists L'.
      split_and!; [apply Hg..|]. intros va Hva.
      destruct (copied_result (λ x, x ∈ L) (mem (ks w)) pgdir d (ks w1) L L1 sz Hd Hall i (ks w2) L' va) as [P1 P2]; try done.
      split; [|done]. intros Hlt. destruct (P1 Hlt) as (e & f & ? & ? & Hf & ?). exists e, f.
      split_and!; try done. rewrite (kh_all _ _ _ _ _ _ Hd). auto.
    + eapply post_bind; [apply (freevm_returns (λ x, x ∈ L) w2 v d L' L)|]; try done.
      { eapply kframe_ready; [exact D|by eapply kframe_ready]. }
      intros [] w3 Hv3 _ (L2 & A2 & B2 & C2).
      assert (kframe (λ x, x ∈ L) (ks w) (ks w3)) as Hf3.
      { transitivity (ks w1); [done|]. by transitivity (ks w2). }
      apply post_ret; [done|]. split_and!; [done|auto|]. left. eauto.
Qed.


(** ** copyout *)

Lemma leaf_mod m pd va : is_u32 va → leaf m pd (va - va mod PGSIZE) = leaf m pd va.
Proof.
  intros Hva. unfold leaf.
  assert (PDX (va - va mod PGSIZE) = PDX va) as -> by (rewrite !PDX_spec by zl; zl).
  assert (PTX (va - va mod PGSIZE) = PTX va) as -> by (rewrite !PTX_spec by zl; zl).
  done.
Qed.

Lemma xlate_leaf m pd va : xlate m pd va = (λ e, frame_of e + va mod PGSIZE) <$> leaf m pd va.
Proof.
  unfold xlate, leaf, tbl, pde_at, present. destruct (truthy (Z.land (load32 m (pd + 4 * PDX va)) PTE_P)); [|done].
  simpl. unfold frame_of at 2. by destruct (truthy _).
Qed.

(** [uva2ka] on a page whose page of entries exists. *)
Lemma uva2ka_spec own w pd va L t :
  pt_inv own (mem (ks w)) pd L → tbl (mem (ks w)) pd (PDX va) = Some t →
  uva2ka pd va w = Ok (match leaf (mem (ks w)) pd va with
                       | Some e => if Z.land e PTE_U =? 0 then 0 else frame_of e
                       | None => 0
                       end) w.
Proof.
  intros Hp Ht. destruct (pt_tbl _ _ _ _ Hp _ _ (PDX_idx va) Ht) as (Htv & _).
  pose proof (valid_page_pos _ Htv). pose proof (PTX_range va).
  unfold uva2ka. mstep (walk_present w pd va false t Ht).
  rewrite (proj2 (Z.eqb_neq _ 0)) by kl. unfold ld32. rewrite bind_getk. unfold leaf. rewrite Ht. unfold present, truthy.
  destruct (Z.eqb_spec (Z.land (load32 (mem (ks w)) (t + 4 * PTX va)) PTE_P) 0); simpl; [done|].
  by destruct (_ =? 0).
Qed.

(** [m'] is [m] with [buf] written at the [va]s of page table [pd]. *)
Definition wrote (m : memory) (pd va : Z) (buf : list Z) (m' : memory) : Prop :=
  (∀ i a, 0 ≤ i < Z.of_nat (length buf) → xlate m pd (va + i) = Some a → m' a = nth (Z.to_nat i) buf 0) ∧
  (∀ a, (∀ i, 0 ≤ i < Z.of_nat (length buf) → xlate m pd (va + i) ≠ Some a) → m' a = m a).

(** The user bytes from [va] on are mapped and accessible. *)
Definition user_range (m : memory) (pd va n : Z) : Prop :=
  0 ≤ va ∧ va + n ≤ KERNBASE ∧
  ∀ i, 0 ≤ i < n → ∃ e, leaf m pd (va + i) = Some e ∧ Z.land e PTE_U ≠ 0.

Lemma leaf_same_page m pd va i :
  is_u32 va → 0 ≤ i < PGSIZE - va mod PGSIZE → leaf m pd (va + i) = leaf m pd va.
Proof.
  intros Hu Hi. rewrite <- (leaf_mod m pd va), <- (leaf_mod m pd (va + i)) by (done || zl). f_equal. zl.
Qed.

(** Writing the part of the buffer that falls in the page of [va]. *)
Lemma wrote_page own m pd L va buf n e :
  as_inv own m pd L → 0 ≤ va < KERNBASE → leaf m pd va = Some e →
  0 ≤ n ≤ Z.of_nat (length buf) → n ≤ PGSIZE - va mod PGSIZE →
  let m' := fill m (frame_of e + va mod PGSIZE) n (λ i, nth (Z.to_nat i) buf 0) in
  wrote m pd va (take (Z.to_nat n) buf) m' ∧ as_inv own m' pd L ∧ (∀ va, leaf m' pd va = leaf m pd va).
Proof.
  intros Has Hva He Hn Hnp m'.
  assert (∀ i, 0 ≤ i < n → xlate m pd (va + i) = Some (frame_of e + va mod PGSIZE + i)) as Hx.
  { intros i Hi. rewrite xlate_leaf, leaf_same_page, He by zl. simpl. f_equal. zl. }
  assert (upage (va - va mod PGSIZE)) as Hup by (split; [unfold pg_aligned|]; zl).
  assert (leaf m pd (va - va mod PGSIZE) = Some e) as He' by (by rewrite leaf_mod by kl).
  destruct (fr_page _ _ _ _ (proj2 Has) _ e Hup He') as ((Hal & _) & _ & Hnp' & _).
  assert (Z.of_nat (length (take (Z.to_nat n) buf)) = n) as Hlen by (rewrite length_take; lia).
  destruct (as_inv_frame own m m' pd L (λ x, x = frame_of e)) as (Has' & _ & Hl'); try done.
  { by intros y ->. }
  { by intros x Hpx ->. }
  { intros a Ha. apply fill_out. specialize (Ha _ eq_refl). unfold in_page in Ha. zl. }
  split_and!; [|done..]. split; rewrite Hlen.
  - intros i a Hi. rewrite Hx by done. intros [= <-]. unfold m'. rewrite fill_in by lia.
    replace (frame_of e + va mod PGSIZE + i - (frame_of e + va mod PGSIZE)) with i by lia.
    rewrite !nth_lookup. by rewrite lookup_take_lt by lia.
  - intros a Ha. apply fill_out. set (b := frame_of e + va mod PGSIZE) in *.
    destruct (decide (b ≤ a < b + n)); [|lia].
    destruct (Ha (a - b) ltac:(lia)). rewrite Hx by lia. f_equal. lia.
Qed.

Lemma wrote_app m pd va b1 b2 m1 m2 :
  wrote m pd va b1 m1 → wrote m1 pd (va + Z.of_nat (length b1)) b2 m2 →
  (∀ u, xlate m1 pd u = xlate m pd u) →
  (∀ i j a, 0 ≤ i < Z.of_nat (length b1) → Z.of_nat (length b1) ≤ j < Z.of_nat (length (b1 ++ b2)) →
     xlate m pd (va + i) = Some a → xlate m pd (va + j) ≠ Some a) →
  wrote m pd va (b1 ++ b2) m2.
Proof.
  intros [A1 B1] [A2 B2] Hx Hinj. unfold wrote. rewrite length_app in *. split.
  - intros i a Hi Ha. destruct (decide (i < Z.of_nat (length b1))) as [Hlt|Hge].
    + rewrite app_nth1 by lia. rewrite B2; [apply A1; [lia|done]|]. intros j Hj Hj2. rewrite Hx in Hj2.
      apply (Hinj i (Z.of_nat (length b1) + j) a); [lia|lia|done|]. rewrite <- Hj2. f_equal. lia.
    + rewrite app_nth2 by lia. rewrite (A2 (i - Z.of_nat (length b1)) a); [f_equal; lia|lia|].
      rewrite Hx, <- Ha. f_equal. lia.
  - intros a Ha. rewrite B2, B1; [done| |].
    + intros i Hi. apply Ha. lia.
    + intros i Hi. rewrite Hx. replace (va + Z.of_nat (length b1) + i) with (va + (Z.of_nat (length b1) + i)) by lia.
      apply Ha. lia.
Qed.

(** Different user addresses are different bytes of memory. *)
Lemma xlate_inj own m pd L va va' a :
  as_inv own m pd L → 0 ≤ va < KERNBASE → 0 ≤ va' < KERNBASE →
  xlate m pd va = Some a → xlate m pd va' = Some a → va = va'.
Proof.
  intros Has Hva Hva'. rewrite !xlate_leaf. destruct (leaf m pd va) as [e|] eqn:He; [|done].
  destruct (leaf m pd va') as [e'|] eqn:He'; [|done]. simpl. intros [= Ha] [= Ha'].
  rewrite <- leaf_mod in He, He' by kl.
  assert (upage (va - va mod PGSIZE) ∧ upage (va' - va' mod PGSIZE)) as [Hu Hu']
    by (split; split; unfold pg_aligned; zl).
  destruct (fr_page _ _ _ _ (proj2 Has) _ e Hu He) as ((Hal & _) & _).
  destruct (fr_page _ _ _ _ (proj2 Has) _ e' Hu' He') as ((Hal' & _) & _).
  assert (frame_of e = frame_of e') as Hf.
  { apply (pages_disjoint _ _ a); [done..| |]; unfold in_page; zl. }
  pose proof (fr_inj _ _ _ _ (proj2 Has) _ _ e e' Hu Hu' He He' Hf). zl.
Qed.

Lemma user_range_ext m m' pd va n : (∀ va, leaf m' pd va = leaf m pd va) → user_range m pd va n → user_range m' pd va n.
Proof. intros Hl (A & B & C). split_and!; [done..|]. setoid_rewrite Hl. done. Qed.

Lemma copyout_loop_spec own fuel w pd va buf L :
  as_inv own (mem (ks w)) pd L → user_range (mem (ks w)) pd va (Z.of_nat (length buf)) → (length buf < fuel)%nat →
  ∃ m', copyout_loop fuel pd va buf w = Ok 0 (w <| ks ::= λ k, k <| mem := m' |> |>) ∧
        wrote (mem (ks w)) pd va buf m' ∧ as_inv own m' pd L ∧ (∀ u, leaf m' pd u = leaf (mem (ks w)) pd u).
Proof.
  revert w va buf. induction fuel as [|fuel IH]; intros w va buf Has Hur Hf; [lia|]. cbn [copyout_loop].
  destruct buf as [|b buf]; [|set (bs := b :: buf) in *].
  { exists (mem (ks w)). split_and!; [by destruct w as [[] ]| |done|done]. split; [simpl; lia|done]. }
  destruct (id Hur) as (H0 & Hk & Hmap). assert (0 < Z.of_nat (length bs)) as Hpos by (simpl; lia).
  destruct (Hmap 0 ltac:(lia)) as (e & He & Hue). rewrite Z.add_0_r in He.
  rewrite PGROUNDDOWN_spec by kl. replace (va - (va - va mod PGSIZE)) with (va mod PGSIZE) by lia.
  set (va0 := va - va mod PGSIZE). set (n := if _ <? _ then _ else _).
  assert (0 < n ≤ Z.of_nat (length bs) ∧ n ≤ PGSIZE - va mod PGSIZE ∧
    (n = Z.of_nat (length bs) ∨ n = PGSIZE - va mod PGSIZE)) as (Hn1 & Hn2 & Hn3).
  { unfold n. destruct (Z.ltb_spec (Z.of_nat (length bs)) (PGSIZE - va mod PGSIZE)); zl. }
  clearbody n. assert (leaf (mem (ks w)) pd va0 = Some e) as He0 by (unfold va0; by rewrite leaf_mod by kl).
  assert (∃ t, tbl (mem (ks w)) pd (PDX va0) = Some t) as [t Ht].
  { unfold leaf in He0. destruct (tbl _ _ _) as [t|]; [by exists t|done]. }
  pose proof (uva2ka_spec own w pd va0 L t (proj1 Has) Ht) as Hu. rewrite He0 in Hu.
  rewrite (proj2 (Z.eqb_neq _ 0) Hue) in Hu.
  destruct (fr_page _ _ _ _ (proj2 Has) va0 e) as (Hfv & _); [split; unfold va0, pg_aligned; zl|done|].
  pose proof (valid_page_pos _ Hfv) as Hfp.
  destruct (wrote_page own (mem (ks w)) pd L va bs n e Has ltac:(lia) He ltac:(lia) Hn2) as (W1 & Has1 & Hl1).
  set (m1 := fill _ _ _ _) in *. set (w1 := w <| ks ::= λ k, k <| mem := m1 |> |>).
  assert (Z.of_nat (length (take (Z.to_nat n) bs)) = n) as Hlt by (rewrite length_take; lia).
  assert (Z.of_nat (length (drop (Z.to_nat n) bs)) = Z.of_nat (length bs) - n) as Hld by (rewrite length_drop; lia).
  assert (∀ u, xlate m1 pd u = xlate (mem (ks w)) pd u) as Hx1 by (intros u; by rewrite !xlate_leaf, Hl1).
  assert (∃ m', copyout_loop fuel pd (u32 (va0 + PGSIZE)) (drop (Z.to_nat n) bs) w1 =
            Ok 0 (w1 <| ks ::= λ k, k <| mem := m' |> |>) ∧
          wrote m1 pd (va + n) (drop (Z.to_nat n) bs) m' ∧ as_inv own m' pd L ∧
          (∀ u, leaf m' pd u = leaf m1 pd u)) as (m' & Hrun & W2 & Has2 & Hl2).
  { destruct Hn3 as [Hn3|Hn3].
    - destruct (drop (Z.to_nat n) bs); [|rewrite length_cons in Hld; lia].
      destruct fuel as [|fuel]; [lia|].
      exists m1. split_and!; [by destruct w as [[] ]| |done|done]. split; [simpl; lia|done].
    - replace (u32 (va0 + PGSIZE)) with (va + n) by (rewrite u32_id; unfold va0; zl).
      apply (IH w1 (va + n)); [done| |lia]. apply (user_range_ext (mem (ks w))); [done|].
      split_and!; [lia..|]. intros i Hi. rewrite <- Z.add_assoc. apply Hmap. lia. }
  exists m'. split_and!; [| |done|by intros u; rewrite Hl2, Hl1].
  - mstep Hu. rewrite (proj2 (Z.eqb_neq _ 0)) by kl. rewrite bind_modk.
    etransitivity; [exact Hrun|]. by destruct w as [[] ].
  - rewrite <- (take_drop (Z.to_nat n) bs). eapply wrote_app; [done| |done|].
    + by rewrite Hlt.
    + rewrite take_drop, Hlt. intros i j a Hi Hj Ha Ha'.
      pose proof (xlate_inj own _ _ L (va + i) (va + j) a Has ltac:(kl) ltac:(kl) Ha Ha'). lia.
Qed.

(** [copyout] over mapped user pages. *)
Lemma copyout_spec (own : Z → Prop) (w : world) (pd va : Z) (buf : list Z) (L : list Z) :
  as_inv own (mem (ks w)) pd L → user_range (mem (ks w)) pd va (Z.of_nat (length buf)) →
  ∃ m', copyout pd va buf w = Ok 0 (w <| ks ::= λ k, k <| mem := m' |> |>) ∧
    as_inv own m' pd L ∧ (∀ u, leaf m' pd u = leaf (mem (ks w)) pd u) ∧
    (∀ i, 0 ≤ i < Z.of_nat (length buf) → uload8 m' pd (va + i) = Some (nth (Z.to_nat i) buf 0)) ∧
    (∀ a, (∀ i, 0 ≤ i < Z.of_nat (length buf) → xlate (mem (ks w)) pd (va + i) ≠ Some a) → m' a = mem (ks w) a).
Proof.
  intros Has Hur.
  destruct (copyout_loop_spec own (S (length buf)) w pd va buf L Has Hur ltac:(lia)) as (m' & Hrun & [W1 W2] & Has' & Hl).
  exists m'. split_and!; try done. intros i Hi. unfold uload8.
  assert (xlate m' pd (va + i) = xlate (mem (ks w)) pd (va + i)) as -> by (by rewrite !xlate_leaf, Hl).
  destruct Hur as (_ & _ & Hm). destruct (Hm i Hi) as (e & He & _). specialize (W1 i).
  rewrite xlate_leaf, He in *. simpl in *. f_equal. by apply W1.
Qed.

End Copy.
