(* ===== verification/VmProps.v ===== *)
(** * Properties of the address-space operations of vm.c

    The theorems about [mappages], [deallocuvm], [allocuvm], [setupkvm] and
    [freevm], with a concrete address space that satisfies their hypotheses. *)

From S2P Require Import Prelude Layout State Str Spinlock Kalloc Vm VmInv VmOps VmAlloc VmSpace VmCopy.

Section Props.
Context `{KernelSyms}.

(** C16: [mappages(pgdir, va, size, pa, perm)] over an unmapped range returns 0 with
    exactly the pages that [va .. va+size-1] touches mapped, in order, to the
    frames from [pa] on with [perm]; it returns -1 only when the allocator has
    no page left, with a prefix of them mapped.  Pages for entries come from the
    free list and nothing outside the page table changes. *)
Theorem mappages_maps (own : Z → Prop) (w : world) (v : hwview) (pd va size pa perm : Z) (L : list Z) :
  hw_ok (hw (ks w)) v → kmem_ready (ks w) v → kmem_inv (ks w) L → pt_inv own (mem (ks w)) pd L →
  is_u32 va → 0 < size → va + size ≤ two32 → pg_aligned pa → 0 ≤ pa → 0 ≤ perm < PGSIZE →
  pa + PGSIZE * npages va size ≤ two32 →
  (∀ va', vpage va' → PGROUNDDOWN va ≤ va' < va + size → leaf (mem (ks w)) pd va' = None) →
  post (mappages pd va size pa perm) w v (λ r k', ∃ used L' j,
    L = used ++ L' ∧ kmem_inv k' L' ∧ pt_inv own (mem k') pd L' ∧
    kframe (pt_pages (mem k') pd) (ks w) k' ∧
    ((r = 0 ∧ j = npages va size) ∨ (r = -1 ∧ 0 ≤ j < npages va size ∧ L' = [])) ∧
    (∀ va', vpage va' →
       leaf (mem k') pd va' = mapped (PGROUNDDOWN va) j pa perm (leaf (mem (ks w)) pd) va')).
Proof.
  intros. eapply post_mono; [by apply (mappages_spec own w v pd va size pa perm L)|].
  intros r k' (used & L' & j & [A B C D E F G] & Hj & Hcase & Hl). exists used, L', j.
  split_and!; try done. destruct Hcase as [?|(? & ? & ?)]; [by left|right; auto].
Qed.

(** C24: [deallocuvm(pgdir, oldsz, newsz)] returns [newsz] with every page from
    [newsz], rounded up, to [oldsz] unmapped and its frame on the free list; all
    other mappings stay.  It returns [oldsz] and does nothing if the space would
    not shrink.  It terminates without freeing a page twice. *)
Theorem deallocuvm_shrinks (own : Z → Prop) (w : world) (v : hwview) (pd oldsz newsz : Z) (L : list Z) :
  hw_ok (hw (ks w)) v → kmem_ready (ks w) v → kmem_inv (ks w) L → as_inv own (mem (ks w)) pd L →
  0 ≤ newsz → oldsz ≤ KERNBASE →
  (oldsz ≤ newsz → deallocuvm pd oldsz newsz w = Ok oldsz w) ∧
  (newsz < oldsz → post (deallocuvm pd oldsz newsz) w v (λ r k', ∃ Fs, r = newsz ∧
     kmem_inv k' (rev Fs ++ L) ∧ as_inv own (mem k') pd (rev Fs ++ L) ∧
     (∀ x, x ∈ Fs ↔ ∃ va e, upage va ∧ newsz ≤ va < oldsz ∧ leaf (mem (ks w)) pd va = Some e ∧ frame_of e = x) ∧
     (∀ va, vpage va → leaf (mem k') pd va =
        if (newsz <=? va) && (va <? oldsz) then None else leaf (mem (ks w)) pd va) ∧
     kframe (λ x, pt_pages (mem (ks w)) pd x ∨ x ∈ Fs) (ks w) k')).
Proof.
  intros Hv Hr Hk Has Hn Ho. split.
  { intros Hle. unfold deallocuvm. by rewrite (proj2 (Z.leb_le oldsz newsz)). }
  intros Hlt. eapply post_mono; [by apply (deallocuvm_spec own w v pd oldsz newsz L)|].
  destruct (ncovered_bounds newsz oldsz Hn Ho) as [Hn1 Hn2]. set (n := ncovered newsz oldsz) in *. clearbody n.
  pose proof (PGROUNDUP_bounds newsz ltac:(kl) ltac:(kl)) as Hb. pose proof (PGROUNDUP_aligned newsz) as Hal.
  intros r k' (-> & [A B C D E]). eexists. split_and!; [done|exact A|exact B| | |exact E].
  - intros x. rewrite elem_of_frames_from. split.
    + intros (i & e & Hi & He & Hx). exists (PGROUNDUP newsz + PGSIZE * Z.of_nat i), e.
      destruct Hn2 as [->|Hn2]; [lia|]. split_and!; try done; [split; [unfold pg_aligned in *; zl|kl]|kl..].
    + intros (va & e & [Hva Hvb] & Hr' & He & Hx). exists (Z.to_nat ((va - PGROUNDUP newsz) / PGSIZE)), e.
      assert (PGROUNDUP newsz + PGSIZE * Z.of_nat (Z.to_nat ((va - PGROUNDUP newsz) / PGSIZE)) = va) as Ev
        by (unfold pg_aligned in *; zl).
      split_and!; [kl|by rewrite Ev|done].
  - intros va Hva. rewrite D by done.
    assert ((PGROUNDUP newsz <=? va) = (newsz <=? va)) as ->; [|done].
    destruct Hva as [Hva _]. destruct (Z.leb_spec (PGROUNDUP newsz) va), (Z.leb_spec newsz va); try done; try lia.
    unfold pg_aligned in *. zl.
Qed.

(** C17: [allocuvm(pgdir, oldsz, newsz)] on every input: 0 for a size in the kernel
    half, [oldsz] when not growing; otherwise either [newsz], with a zeroed,
    user-writable frame of its own mapped at every page from [oldsz] rounded up
    to [newsz], or 0, with the mappings exactly as they were and every page it
    took either free again or a page of entries of [pgdir]. *)
Theorem allocuvm_grows (own : Z → Prop) (w : world) (v : hwview) (pd oldsz newsz : Z) (L : list Z) :
  hw_ok (hw (ks w)) v → kmem_ready (ks w) v → kmem_inv (ks w) L → as_inv own (mem (ks w)) pd L →
  0 ≤ oldsz →
  (∀ va, vpage va → PGROUNDUP oldsz ≤ va < newsz → leaf (mem (ks w)) pd va = None) →
  (KERNBASE ≤ newsz → allocuvm pd oldsz newsz w = Ok 0 w) ∧
  (newsz < KERNBASE → newsz < oldsz → allocuvm pd oldsz newsz w = Ok oldsz w) ∧
  (oldsz ≤ newsz < KERNBASE → post (allocuvm pd oldsz newsz) w v (λ r k', ∃ L',
     kmem_inv k' L' ∧ as_inv own (mem k') pd L' ∧
     kframe (λ x, pt_pages (mem k') pd x ∨ x ∈ L) (ks w) k' ∧
     ((r = newsz ∧
       (∀ va, upage va → PGROUNDUP oldsz ≤ va < newsz → ∃ f, f ∈ L ∧
          leaf (mem k') pd va = Some (entry (V2P f) (Z.lor PTE_W PTE_U)) ∧
          ∀ x, 0 ≤ x < PGSIZE → mem k' (f + x) = 0) ∧
       (∀ va, vpage va → va < PGROUNDUP oldsz ∨ newsz ≤ va →
          leaf (mem k') pd va = leaf (mem (ks w)) pd va)) ∨
      (r = 0 ∧ (∀ va, vpage va → leaf (mem k') pd va = leaf (mem (ks w)) pd va) ∧
       (∀ x, x ∈ L → x ∈ L' ∨ pt_pages (mem k') pd x))))).
Proof.
  intros Hv Hr Hk Has Ho Hfree. split_and!.
  { intros Hn. unfold allocuvm. by rewrite (proj2 (Z.leb_le KERNBASE newsz)). }
  { intros Hn Hlt. unfold allocuvm. rewrite (proj2 (Z.leb_gt KERNBASE newsz)) by done. by rewrite (proj2 (Z.ltb_lt newsz oldsz)). }
  intros Hle. by apply allocuvm_spec.
Qed.


(** C26: [freevm] gives back every page of an address space and nothing else: the
    directory, all pages of entries and all user frames are free afterwards, each
    once, in addition to the pages that were free before. *)
Theorem freevm_frees_all (own : Z → Prop) (w : world) (v : hwview) (pd : Z) (L : list Z) :
  hw_ok (hw (ks w)) v → kmem_ready (ks w) v → kmem_inv (ks w) L → as_inv own (mem (ks w)) pd L →
  post (freevm pd) w v (λ _ k', ∃ L', kmem_inv k' L' ∧ NoDup L' ∧
    (∀ x, x ∈ L' ↔ x ∈ L ∨ pt_pages (mem (ks w)) pd x ∨
       ∃ va e, upage va ∧ leaf (mem (ks w)) pd va = Some e ∧ frame_of e = x) ∧
    kframe (λ x, x ∈ L') (ks w) k').
Proof.
  intros Hv Hr Hk Has. eapply post_mono; [by apply (freevm_spec own w v pd L)|].
  intros [] k' [A B].
  assert (∀ x, x ∈ pd :: rev (tables (mem (ks w)) pd) ++ rev (user_frames (mem (ks w)) pd) ++ L ↔
     x ∈ L ∨ pt_pages (mem (ks w)) pd x ∨ x ∈ user_frames (mem (ks w)) pd) as HL.
  { intros x. rewrite elem_of_cons, !elem_of_app, !elem_of_rev, elem_of_tables. unfold pt_pages. tauto. }
  eexists. split_and!; [exact A|by destruct A| |].
  - intros x. rewrite HL. by rewrite elem_of_user_frames.
  - eapply kframe_mono; [|exact B]. intros x. rewrite HL. tauto.
Qed.

(** C31: [copyout] over mapped user pages returns 0 with the bytes of the buffer at
    the virtual addresses from [va] on, page crossings included, and changes no
    other byte of memory and no mapping. *)
Theorem copyout_writes (own : Z → Prop) (w : world) (pd va : Z) (buf : list Z) (L : list Z) :
  as_inv own (mem (ks w)) pd L → user_range (mem (ks w)) pd va (Z.of_nat (length buf)) →
  ∃ m', copyout pd va buf w = Ok 0 (w <| ks ::= λ k, k <| mem := m' |> |>) ∧
    as_inv own m' pd L ∧ (∀ u, leaf m' pd u = leaf (mem (ks w)) pd u) ∧
    (∀ i, 0 ≤ i < Z.of_nat (length buf) → uload8 m' pd (va + i) = Some (nth (Z.to_nat i) buf 0)) ∧
    (∀ a, (∀ i, 0 ≤ i < Z.of_nat (length buf) → xlate (mem (ks w)) pd (va + i) ≠ Some a) → m' a = mem (ks w) a).
Proof. intros Has Hur. by apply copyout_spec. Qed.

(** [uva2ka] on an address whose 4MB region has no page of entries does not
    return 0: it reads the word at virtual address 0 of the page table in use as
    if it were the entry. *)
Lemma uva2ka_null_entry (w : world) (pd va e : Z) :
  tbl (mem (ks w)) pd (PDX va) = None → uload32 (mem (ks w)) (P2V (cr3 (hw (ks w)))) 0 = Some e →
  Z.land e PTE_P ≠ 0 → Z.land e PTE_U ≠ 0 →
  uva2ka pd va w = Ok (frame_of e) w.
Proof.
  intros Ht He Hp Hu. unfold uva2ka. mstep (walk_absent w pd va Ht). rewrite Z.eqb_refl.
  unfold vld32. rewrite !bind_assoc, bind_getk, bind_assoc, bind_getk, He. unfold deref. rewrite bind_ret.
  by rewrite (proj2 (Z.eqb_neq _ 0) Hp), (proj2 (Z.eqb_neq _ 0) Hu).
Qed.

End Props.

(** ** Witnesses

    A kernel with two free pages and the address space at 0x80300000 whose only
    user page is address 0, in the frame at 0x80302000. *)

Definition demo_mem : memory :=
  store32 (store32 (memset (λ _, 0) 0x80301000 0 PGSIZE) 0x80300000
    (Z.lor (Z.lor (Z.lor (V2P 0x80301000) PTE_P) PTE_W) PTE_U))
    0x80301000 (entry (V2P 0x80302000) PTE_WU).

Definition demo_own (x : Z) : Prop := x = 0x80300000 ∨ x = 0x80301000 ∨ x = 0x80302000 ∨ x = 0x80200000.

Definition demo_world : world :=
  mkWorld (boot_kern <| freelist := 0x80200000 |> <| mem := demo_mem |>) [].

#[local] Existing Instance image_syms.

Lemma demo_kmem : kmem_inv (ks demo_world) [0x80200000].
Proof.
  split; [by vm_compute|apply NoDup_singleton|apply Forall_singleton]. split_and!; by vm_compute.
Qed.

Lemma demo_ready : kmem_ready (ks demo_world) boot_view.
Proof. done. Qed.

Lemma demo_page x : x = 0x80300000 ∨ x = 0x80301000 ∨ x = 0x80302000 ∨ x = 0x80200000 → valid_page x.
Proof. intros [->|[->|[->| ->]]]; split_and!; by vm_compute. Qed.

(** The directory with its page of entries, before the user page is mapped. *)
Definition demo_mem1 : memory :=
  store32 (memset (λ _, 0) 0x80301000 0 PGSIZE) (0x80300000 + 4 * 0)
    (Z.lor (Z.lor (Z.lor (V2P 0x80301000) PTE_P) PTE_W) PTE_U).

Lemma demo_install :
  pt_inv demo_own demo_mem1 0x80300000 [0x80200000] ∧ tbl demo_mem1 0x80300000 0 = Some 0x80301000 ∧
  (∀ i, idx i → i ≠ 0 → tbl demo_mem1 0x80300000 i = None) ∧ (∀ va, leaf demo_mem1 0x80300000 va = None).
Proof.
  destruct (empty_as_inv demo_own (λ _, 0) 0x80300000 [0x80301000; 0x80200000]) as ([Hp _] & Ht & Hl).
  { done. }
  { apply demo_page; auto. }
  { set_solver by lia. }
  { by left. }
  { intros x Hx. unfold demo_own. set_solver. }
  assert (valid_page 0x80301000) as Hv by (apply demo_page; auto).
  assert (0x80301000 ∉ [0x80200000]) as Hn by set_solver by lia.
  assert (idx 0) as Hi0 by done.
  split_and!.
  - by apply install_pt_inv; [|done|apply Ht| |].
  - by apply install_tbl_same.
  - intros i Hi Hne. unfold demo_mem1. rewrite (install_tbl_other demo_own _ _ [0x80200000]); auto.
  - intros va. unfold demo_mem1. rewrite (install_leaf demo_own _ _ [0x80200000]); auto.
Qed.

Lemma demo_leaf va : vpage va →
  leaf demo_mem 0x80300000 va = if va =? 0 then Some (entry (V2P 0x80302000) PTE_WU) else None.
Proof.
  intros Hva. destruct demo_install as (Hp & Ht & _ & Hl). unfold demo_mem.
  replace 0x80301000 with (0x80301000 + 4 * 0) at 3 by done.
  rewrite (store_leaf_vpage demo_own demo_mem1 0x80300000 [0x80200000] 0 0x80301000 0 _ Hp
    ltac:(done) ltac:(done) Ht va 0); try done. by rewrite Hl.
Qed.

Lemma demo_tbl i : idx i → tbl demo_mem 0x80300000 i = if i =? 0 then Some 0x80301000 else None.
Proof.
  intros Hi. destruct demo_install as (Hp & Ht & Hto & Hl). unfold demo_mem.
  replace 0x80301000 with (0x80301000 + 4 * 0) at 3 by done.
  rewrite (store_tbl demo_own demo_mem1 0x80300000 [0x80200000] 0 0x80301000 0); try done.
  destruct (Z.eqb_spec i 0) as [->|]; auto.
Qed.

Lemma demo_as : as_inv demo_own demo_mem 0x80300000 [0x80200000].
Proof.
  destruct demo_install as (Hp & Ht & Hto & Hl). split.
  - apply (store_pt_inv demo_own demo_mem1 0x80300000 [0x80200000] 0 0x80301000 0); done.
  - split.
    + intros va e Hva. rewrite demo_leaf by auto with kern. destruct (va =? 0); [|done]. intros [= <-].
      assert (frame_of (entry (V2P 0x80302000) PTE_WU) = 0x80302000) as -> by by vm_compute.
      split_and!; [apply demo_page; auto|set_solver by lia| |unfold demo_own; auto].
      intros [?|(i & Hi & Hx)]; [done|]. rewrite demo_tbl in Hx by done. by destruct (i =? 0).
    + intros va va' e e' Hva Hva'. rewrite !demo_leaf by auto with kern.
      destruct (Z.eqb_spec va 0), (Z.eqb_spec va' 0); try done. congruence.
Qed.

Lemma demo_free va : vpage va → va ≠ 0 → leaf demo_mem 0x80300000 va = None.
Proof. intros Hva Hne. rewrite demo_leaf by done. by rewrite (proj2 (Z.eqb_neq va 0)). Qed.

Lemma vpage_0 : vpage 0.
Proof. done. Qed.
Lemma upage_0 : upage 0.
Proof. done. Qed.
Lemma demo_leaf_0 : leaf demo_mem 0x80300000 0 = Some (entry (V2P 0x80302000) PTE_WU).
Proof. by apply demo_leaf. Qed.
Lemma demo_frame_0 : frame_of (entry (V2P 0x80302000) PTE_WU) = 0x80302000.
Proof. by vm_compute. Qed.

Lemma mappages_maps_witness : ∃ r w',
  mappages 0x80300000 0x1000 0x2000 0x400000 PTE_U demo_world = Ok r w' ∧ (r = 0 ∨ r = -1).
Proof.
  destruct (mappages_maps demo_own demo_world boot_view 0x80300000 0x1000 0x2000 0x400000 PTE_U [0x80200000])
    as (r & w' & Hrun & _ & _ & (used & L' & j & _ & _ & _ & _ & Hcase & _)).
  - apply boot_hw_ok.
  - apply demo_ready.
  - apply demo_kmem.
  - apply demo_as.
  - done.
  - done.
  - done.
  - done.
  - done.
  - done.
  - done.
  - intros va Hva Hb. apply demo_free; [done|]. change (PGROUNDDOWN 0x1000) with 0x1000 in Hb. lia.
  - exists r, w'. split; [exact Hrun|]. destruct Hcase as [[? _]|[? _]]; auto.
Defined.

Lemma deallocuvm_shrinks_witness : ∃ w',
  deallocuvm 0x80300000 0x1000 0 demo_world = Ok 0 w' ∧ leaf (mem (ks w')) 0x80300000 0 = None.
Proof.
  destruct (deallocuvm_shrinks demo_own demo_world boot_view 0x80300000 0x1000 0 [0x80200000]) as [_ Hs].
  - apply boot_hw_ok.
  - apply demo_ready.
  - apply demo_kmem.
  - apply demo_as.
  - done.
  - done.
  - destruct (Hs eq_refl) as (r & w' & Hrun & _ & _ & (Fs & -> & _ & _ & _ & Hl & _)).
    exists w'. split; [exact Hrun|]. exact (Hl 0 vpage_0).
Defined.

Lemma allocuvm_grows_witness : ∃ r w',
  allocuvm 0x80300000 0x1000 0x3000 demo_world = Ok r w' ∧ (r = 0x3000 ∨ r = 0).
Proof.
  destruct (allocuvm_grows demo_own demo_world boot_view 0x80300000 0x1000 0x3000 [0x80200000]) as (_ & _ & Hs).
  - apply boot_hw_ok.
  - apply demo_ready.
  - apply demo_kmem.
  - apply demo_as.
  - done.
  - intros va Hva Hb. apply demo_free; [done|]. change (PGROUNDUP 0x1000) with 0x1000 in Hb. lia.
  - destruct Hs as (r & w' & Hrun & _ & _ & (L' & _ & _ & _ & Hcase)); [done|].
    exists r, w'. split; [exact Hrun|]. destruct Hcase as [[? _]|[? _]]; auto.
Defined.


Lemma freevm_frees_all_witness : ∃ w' L', freevm 0x80300000 demo_world = Ok tt w' ∧
  kmem_inv (ks w') L' ∧ 0x80302000 ∈ L'.
Proof.
  destruct (freevm_frees_all demo_own demo_world boot_view 0x80300000 [0x80200000])
    as ([] & w' & Hrun & _ & _ & (L' & Hk & _ & HL & _)).
  - apply boot_hw_ok.
  - apply demo_ready.
  - apply demo_kmem.
  - apply demo_as.
  - exists w', L'. split_and!; [exact Hrun|exact Hk|]. apply HL. do 2 right. exists 0, (entry (V2P 0x80302000) PTE_WU).
    split_and!; [exact upage_0|exact demo_leaf_0|exact demo_frame_0].
Defined.


Lemma copyout_writes_witness : ∃ m',
  copyout 0x80300000 0xffe [65; 66] demo_world = Ok 0 (demo_world <| ks ::= λ k, k <| mem := m' |> |>) ∧
  uload8 m' 0x80300000 0xfff = Some 66.
Proof.
  destruct (copyout_writes demo_own demo_world 0x80300000 0xffe [65; 66] [0x80200000])
    as (m' & Hrun & _ & _ & Hb & _).
  - apply demo_as.
  - split_and!; [done..|]. intros i Hi. exists (entry (V2P 0x80302000) PTE_WU). simpl in Hi.
    change (mem (ks demo_world)) with demo_mem. rewrite <- leaf_mod by kl.
    replace (0xffe + i - (0xffe + i) mod PGSIZE) with 0 by zl. split; [by apply demo_leaf|by vm_compute].
  - exists m'. split; [exact Hrun|]. apply (Hb 1). split; [lia|reflexivity].
Defined.

