(* ===== verification/Sched.v ===== *)
(** * proc.c: sleeping, waking up and switching

    A kernel thread runs alone between two switches.  [swtch] gives the CPU to
    other threads; when the thread is resumed the kernel has been changed by
    them, which the model takes from the list [resumes] of the world.  An
    execution that has used up the list is suspended ([Switched]). *)

From S2P Require Import Prelude Layout State Str Spinlock Kalloc Vm.

Section Sched.
Context `{KernelSyms}.

(** ** The process table *)

Definition NPROCn : nat := 64.
Definition rd_proc (i : nat) : K proc := o ← getk (λ k, procs k !! i); deref o.
Definition mod_proc (i : nat) (f : proc → proc) : K unit :=
  modk (λ k, k <| procs ::= alter f i |>).

(** [curproc = myproc()] where the code goes on to dereference it. *)
Definition curproc : K nat := p ← myproc; deref p.

(** [*p->sharePtr]. *)
Definition rd_shared (i : nat) : K sharedData :=
  p ← rd_proc i;
  o ← getk (λ k, shared k !! sharePtr p);
  deref o.
Definition mod_shared (i : nat) (f : sharedData → sharedData) : K unit :=
  p ← rd_proc i;
  o ← getk (λ k, shared k !! sharePtr p);
  _ ← deref o;
  modk (λ k, k <| shared ::= alter f (sharePtr p) |>).

(** ** Switching *)

Definition swtch : K unit := λ w,
  match resumes w with
  | [] => Switched w
  | f :: rs => Ok tt (mkWorld (f (ks w)) rs)
  end.

Definition sched : K unit :=
  p ← myproc;
  h ← holding L_ptable;
  if negb h then panic "sched ptable.lock" else
  i ← mycpu;
  c ← cpu_of i;
  if negb (ncli c =? 1) then panic "sched locks" else
  pi ← deref p;
  pr ← rd_proc pi;
  if decide (state pr = RUNNING) then panic "sched running" else
  e ← readeflags;
  if truthy (Z.land e FL_IF) then panic "sched interruptible" else
  i ← mycpu;
  c ← cpu_of i;
  let intena0 := intena c in
  _ ← swtch;
  i ← mycpu;
  mod_cpu i (λ c, c <| intena := intena0 |>).

Definition yield : K unit :=
  _ ← acquire L_ptable;
  p ← curproc;
  _ ← mod_proc p (λ p, p <| state := RUNNABLE |>);
  _ ← sched;
  release L_ptable.

(** [lk] is [None] for a null pointer. *)
Definition sleep (ch : chan) (lk : option lockid) : K unit :=
  p ← myproc;
  match p with
  | None => panic "sleep"
  | Some pi =>
      match lk with
      | None => panic "sleep without lk"
      | Some l =>
          _ ← when (negb (bool_decide (l = L_ptable)))
                (_ ← acquire L_ptable; release l);
          (* Go to sleep. *)
          _ ← mod_proc pi (λ p, p <| pchan := ch |>);
          _ ← mod_proc pi (λ p, p <| state := SLEEPING |>);
          _ ← sched;
          (* Tidy up. *)
          _ ← mod_proc pi (λ p, p <| pchan := ch_addr 0 |>);
          (* Reacquire original lock. *)
          when (negb (bool_decide (l = L_ptable)))
            (_ ← release L_ptable; acquire l)
      end
  end.

Definition wakeup1 (ch : chan) : K unit :=
  for_each (seq 0 NPROCn) (λ i,
    p ← rd_proc i;
    if bool_decide (state p = SLEEPING) && bool_decide (pchan p = ch)
    then mod_proc i (λ p, p <| state := RUNNABLE |>)
    else mret tt).

Definition wakeup (ch : chan) : K unit :=
  _ ← acquire L_ptable;
  _ ← wakeup1 ch;
  release L_ptable.

(** [while(cond) sleep(ch, lk)]: every turn of the loop is a switch, so the length
    of [resumes] bounds the turns. *)
Fixpoint sleep_while_loop (fuel : nat) (cond : K bool) (ch : chan) (l : lockid) : K unit :=
  match fuel with
  | O => out_of_fuel
  | S fuel' =>
      b ← cond;
      if (b : bool) then _ ← sleep ch (Some l); sleep_while_loop fuel' cond ch l
      else mret tt
  end.
Definition sleep_while (cond : K bool) (ch : chan) (l : lockid) : K unit :=
  n ← gets (λ w, length (resumes w));
  sleep_while_loop (S n) cond ch l.

(** One turn of the scheduler's loop on CPU [c]. *)
Definition scheduler_round (c : nat) : K unit :=
  (* Enable interrupts on this processor. *)
  _ ← sti;
  _ ← acquire L_ptable;
  _ ← for_each (seq 0 NPROCn) (λ i,
        p ← rd_proc i;
        if negb (bool_decide (state p = RUNNABLE)) then mret tt else
        _ ← mod_cpu c (λ c, c <| cproc := Some i |>);
        _ ← switchuvm (Some i);
        _ ← mod_proc i (λ p, p <| state := RUNNING |>);
        _ ← swtch;
        _ ← switchkvm;
        mod_cpu c (λ c, c <| cproc := None |>));
  release L_ptable.

(** [scheduler] never returns; [n] turns of its loop. *)
Definition scheduler (n : nat) : K unit :=
  c ← mycpu;
  _ ← mod_cpu c (λ c, c <| cproc := None |>);
  _ ← for_each (seq 0 n) (λ _, scheduler_round c);
  out_of_fuel.

End Sched.
