(* ===== verification/Uaccess.v ===== *)
(** * Kernel accesses to user addresses

    The kernel dereferences user pointers directly: loads and stores of low virtual
    addresses go through the page table in use.  An access to an unmapped page, a
    store to a read-only page (CR0.WP is set) and an access to a kernel address
    through a user pointer end in a fault. *)

From S2P Require Import Prelude Layout State Str Spinlock Kalloc Vm Sched.

Section Uaccess.
Context `{KernelSyms}.

Definition xlate_w (m : memory) (pgdir va : Z) : option Z :=
  let pde := load32 m (pgdir + 4 * PDX va) in
  if negb (truthy (Z.land pde PTE_P)) || negb (truthy (Z.land pde PTE_W)) then None else
  let pte := load32 m (P2V (PTE_ADDR pde) + 4 * PTX va) in
  if negb (truthy (Z.land pte PTE_P)) || negb (truthy (Z.land pte PTE_W)) then None else
  Some (P2V (PTE_ADDR pte) + va mod PGSIZE).

Definition vld8 (va : Z) : K Z :=
  c ← getk (λ k, cr3 (hw k));
  if KERNBASE <=? va then fault else
  o ← getk (λ k, uload8 (mem k) (P2V c) va);
  deref o.
Definition vst8 (va v : Z) : K unit :=
  c ← getk (λ k, cr3 (hw k));
  if KERNBASE <=? va then fault else
  o ← getk (λ k, xlate_w (mem k) (P2V c) va);
  a ← deref o;
  modk (λ k, k <| mem ::= λ m, store8 m a (u8 v) |>).

(** The bytes [l] stored from [va], and [n] bytes read from [va]. *)
Fixpoint vwrite (va : Z) (l : list Z) : K unit :=
  match l with
  | [] => mret tt
  | b :: l' => _ ← vst8 va b; vwrite (u32 (va + 1)) l'
  end.
Fixpoint vread (va : Z) (n : nat) : K (list Z) :=
  match n with
  | O => mret []
  | S n' => b ← vld8 va; l ← vread (u32 (va + 1)) n'; mret (u8 b :: l)
  end.
Definition vst32 (va v : Z) : K unit :=
  vwrite va [byte_of v 0; byte_of v 1; byte_of v 2; byte_of v 3].

(** ** Fields read and written through a [struct proc *] that can be null

    The null pointer is the user's address 0. *)

Definition off_kstack : Z := 0.
Definition off_state : Z := 4.
Definition off_pid : Z := 8.
Definition off_parent : Z := 12.
Definition off_killed : Z := 28.
Definition off_name : Z := 32.
Definition off_sharePtr : Z := 48.
Definition off_imMaster : Z := 60.

Definition pread (p : option nat) (f : proc → Z) (off : Z) : K Z :=
  match p with
  | Some i => pr ← rd_proc i; mret (f pr)
  | None => vld32 off
  end.
Definition pwrite (p : option nat) (f : proc → proc) (off v : Z) : K unit :=
  match p with
  | Some i => mod_proc i f
  | None => vst32 off v
  end.

End Uaccess.
