(* ===== verification/Sleeplock.v ===== *)
(** * sleeplock.c: locks held across switches

    A sleep lock is a flag protected by a spin lock; waiting for it is a sleep on
    the lock's address. *)

From S2P Require Import Prelude Layout State Str Spinlock Kalloc Vm Sched.

Section Sleeplock.
Context `{KernelSyms}.

(** The lock [lk], inside a buffer or an inode. *)
Definition rd_slock (l : slid) : K sleeplock :=
  match l with
  | SL_buf i => o ← getk (λ k, bcache k !! i); b ← deref o; mret (b_lock b)
  | SL_inode i => o ← getk (λ k, icache k !! i); ip ← deref o; mret (ip_lock ip)
  end.
Definition mod_slock (l : slid) (f : sleeplock → sleeplock) : K unit :=
  match l with
  | SL_buf i => modk (λ k, k <| bcache ::= alter (λ b, b <| b_lock ::= f |>) i |>)
  | SL_inode i => modk (λ k, k <| icache ::= alter (λ ip, ip <| ip_lock ::= f |>) i |>)
  end.

Definition initsleeplock (lk : slid) (name : string) : K unit :=
  _ ← initlock (L_sleep lk) "sleep lock";
  mod_slock lk (λ _, mkSleeplock 0 name 0).

Definition acquiresleep (lk : slid) : K unit :=
  _ ← acquire (L_sleep lk);
  _ ← sleep_while (s ← rd_slock lk; mret (truthy (sl_locked s))) (ch_sleep lk) (L_sleep lk);
  _ ← mod_slock lk (λ s, s <| sl_locked := 1 |>);
  p ← curproc;
  pr ← rd_proc p;
  _ ← mod_slock lk (λ s, s <| sl_pid := pid pr |>);
  release (L_sleep lk).

Definition releasesleep (lk : slid) : K unit :=
  _ ← acquire (L_sleep lk);
  _ ← mod_slock lk (λ s, s <| sl_locked := 0 |>);
  _ ← mod_slock lk (λ s, s <| sl_pid := 0 |>);
  _ ← wakeup (ch_sleep lk);
  release (L_sleep lk).

Definition holdingsleep (lk : slid) : K bool :=
  _ ← acquire (L_sleep lk);
  s ← rd_slock lk;
  r ← (if truthy (sl_locked s)
       then p ← curproc; pr ← rd_proc p; mret (sl_pid s =? pid pr)
       else mret false);
  _ ← release (L_sleep lk);
  mret r.

End Sleeplock.
