(* ===== verification/Ports.v ===== *)
(** * x86.h: port input and output, and the buffers of the disk drivers

    Reads take the next value of the port's input stream; a port whose stream is
    exhausted never answers.  Writes are appended to a trace. *)

From S2P Require Import Prelude Layout State Str Spinlock Kalloc Vm Sched Sleeplock.

Definition mod_dev (f : devstate → devstate) : K unit := modk (λ k, k <| devs ::= f |>).
Definition get_dev {A} (f : devstate → A) : K A := getk (λ k, f (devs k)).

Definition inw (port : Z) : K Z :=
  l ← get_dev (λ d, port_in d port);
  match l with
  | [] => spin
  | v :: l' =>
      _ ← mod_dev (λ d, d <| port_in ::= λ f x, if x =? port then l' else f x |>);
      mret v
  end.
Definition inb (port : Z) : K Z := v ← inw port; mret (u8 v).
Definition outw (port v : Z) : K unit := mod_dev (λ d, d <| port_out ::= cons (port, v) |>).
Definition outb (port v : Z) : K unit := outw port (u8 v).

(** The bytes of a string literal, and a character. *)
Fixpoint bytes_of (s : string) : list Z :=
  match s with
  | EmptyString => []
  | String.String a s' => Z.of_N (Ascii.N_of_ascii a) :: bytes_of s'
  end.
Definition chr (s : string) : Z := hd 0 (bytes_of s).

(** The little-endian bytes of a word, and the words of a byte list. *)
Definition bytes32 (v : Z) : list Z := [byte_of v 0; byte_of v 1; byte_of v 2; byte_of v 3].
Fixpoint words32 (l : list Z) : list Z :=
  match l with
  | a :: b :: c :: d :: l' =>
      (u8 a + 256 * u8 b + 65536 * u8 c + 16777216 * u8 d) :: words32 l'
  | _ => []
  end.

(** [cnt] words read from [port], as bytes. *)
Fixpoint insl (port : Z) (cnt : nat) : K (list Z) :=
  match cnt with
  | O => mret []
  | S cnt' => v ← inw port; l ← insl port cnt'; mret (bytes32 v ++ l)
  end.
(** The words of [data] written to [port]. *)
Definition outsl (port : Z) (data : list Z) : K unit := for_each (words32 data) (outw port).

(** ** Buffers *)

Definition NBUFn : nat := 30.
(** The index of [bcache.head]. *)
Definition BHEAD : nat := NBUFn.
Definition rd_buf (i : nat) : K buf := o ← getk (λ k, bcache k !! i); deref o.
Definition mod_buf (i : nat) (f : buf → buf) : K unit := modk (λ k, k <| bcache ::= alter f i |>).

(** ** Data kept in byte buffers *)

Definition byte_at (d : list Z) (i : Z) : Z := u8 (nth (Z.to_nat i) d 0).
Definition get16 (d : list Z) (o : Z) : Z := byte_at d o + 256 * byte_at d (o + 1).
Definition get32 (d : list Z) (o : Z) : Z :=
  byte_at d o + 256 * byte_at d (o + 1) + 65536 * byte_at d (o + 2) + 16777216 * byte_at d (o + 3).
(** [n] bytes from offset [o]. *)
Definition slice (d : list Z) (o n : Z) : list Z := take (Z.to_nat n) (drop (Z.to_nat o) d).
(** The bytes [l] stored from offset [o]. *)
Definition splice (d : list Z) (o : Z) (l : list Z) : list Z :=
  take (Z.to_nat o) d ++ l ++ drop (Z.to_nat o + length l) d.
Definition bytes16 (v : Z) : list Z := [byte_of v 0; byte_of v 1].
Definition put16 (d : list Z) (o v : Z) : list Z := splice d o (bytes16 v).
Definition put32 (d : list Z) (o v : Z) : list Z := splice d o (bytes32 v).

(** [for(i = i0; i < bound; i++)] where the bound is read in every turn. *)
Fixpoint for_upto (fuel : nat) (i : Z) (bound : K Z) (body : Z → K unit) : K unit :=
  match fuel with
  | O => out_of_fuel
  | S fuel' =>
      n ← bound;
      if i <? n then _ ← body i; for_upto fuel' (i + 1) bound body else mret tt
  end.

(** What the buffer cache needs of a disk driver. *)
Class DiskDriver := disk_rw : nat → K unit.
