(* ===== verification/Apic.v ===== *)
(** * ioapic.c, lapic.c, picirq.c: the interrupt controllers

    Registers in memory are treated like ports: a write is recorded at the
    register's address and a read takes the next value of its stream. *)

From S2P Require Import Prelude Layout State Str Spinlock Kalloc Vm Sched Sleeplock Ports.

(** traps.h *)
Definition T_PGFLT : Z := 14.
Definition T_SYSCALL : Z := 64.
Definition T_IRQ0 : Z := 32.
Definition IRQ_TIMER : Z := 0.
Definition IRQ_KBD : Z := 1.
Definition IRQ_COM1 : Z := 4.
Definition IRQ_IDE : Z := 14.
Definition IRQ_ERROR : Z := 19.
Definition IRQ_SPURIOUS : Z := 31.

(** ** picirq.c *)
Definition IO_PIC1 : Z := 0x20.
Definition IO_PIC2 : Z := 0xA0.
Definition picinit : K unit :=
  (* mask all interrupts *)
  _ ← outb (IO_PIC1 + 1) 0xFF;
  outb (IO_PIC2 + 1) 0xFF.

(** ** ioapic.c *)
Definition IOAPIC : Z := 0xFEC00000.
Definition REG_ID : Z := 0x00.
Definition REG_VER : Z := 0x01.
Definition REG_TABLE : Z := 0x10.
Definition INT_DISABLED : Z := 0x00010000.

Definition ioapicread (reg : Z) : K Z :=
  _ ← outw IOAPIC reg;
  inw (IOAPIC + 16).
Definition ioapicwrite (reg data : Z) : K unit :=
  _ ← outw IOAPIC reg;
  outw (IOAPIC + 16) data.
Definition ioapicenable (irq cpunum : Z) : K unit :=
  _ ← ioapicwrite (REG_TABLE + 2 * irq) (T_IRQ0 + irq);
  ioapicwrite (REG_TABLE + 2 * irq + 1) (u32 (Z.shiftl cpunum 24)).

(** ** lapic.c *)
Definition LAPIC_ID : Z := 0x0020 / 4.
Definition LAPIC_VER : Z := 0x0030 / 4.
Definition LAPIC_TPR : Z := 0x0080 / 4.
Definition LAPIC_EOI : Z := 0x00B0 / 4.
Definition LAPIC_SVR : Z := 0x00F0 / 4.
Definition LAPIC_ENABLE : Z := 0x00000100.
Definition LAPIC_ESR : Z := 0x0280 / 4.
Definition LAPIC_ICRLO : Z := 0x0300 / 4.
Definition LAPIC_INIT : Z := 0x00000500.
Definition LAPIC_STARTUP : Z := 0x00000600.
Definition LAPIC_DELIVS : Z := 0x00001000.
Definition LAPIC_ASSERT : Z := 0x00004000.
Definition LAPIC_LEVEL : Z := 0x00008000.
Definition LAPIC_BCAST : Z := 0x00080000.
Definition LAPIC_ICRHI : Z := 0x0310 / 4.
Definition LAPIC_TIMER : Z := 0x0320 / 4.
Definition LAPIC_X1 : Z := 0x0000000B.
Definition LAPIC_PERIODIC : Z := 0x00020000.
Definition LAPIC_PCINT : Z := 0x0340 / 4.
Definition LAPIC_LINT0 : Z := 0x0350 / 4.
Definition LAPIC_LINT1 : Z := 0x0360 / 4.
Definition LAPIC_ERROR : Z := 0x0370 / 4.
Definition LAPIC_MASKED : Z := 0x00010000.
Definition LAPIC_TICR : Z := 0x0380 / 4.
Definition LAPIC_TDCR : Z := 0x03E0 / 4.

(** The read of the ID register that waits for the write has no other effect. *)
Definition lapicw (index value : Z) : K unit :=
  l ← get_dev lapic;
  outw (l + 4 * index) value.
Definition lapicr (index : Z) : K Z :=
  l ← get_dev lapic;
  inw (l + 4 * index).

(** [while(lapic[ICRLO] & DELIVS);] *)
Fixpoint lapic_delivered (fuel : nat) : K unit :=
  match fuel with
  | O => spin
  | S fuel' =>
      v ← lapicr LAPIC_ICRLO;
      if truthy (Z.land v LAPIC_DELIVS) then lapic_delivered fuel' else mret tt
  end.

Definition lapicinit : K unit :=
  l ← get_dev lapic;
  if l =? 0 then mret tt else
  _ ← lapicw LAPIC_SVR (Z.lor LAPIC_ENABLE (T_IRQ0 + IRQ_SPURIOUS));
  _ ← lapicw LAPIC_TDCR LAPIC_X1;
  _ ← lapicw LAPIC_TIMER (Z.lor LAPIC_PERIODIC (T_IRQ0 + IRQ_TIMER));
  _ ← lapicw LAPIC_TICR 10000000;
  (* Disable logical interrupt lines. *)
  _ ← lapicw LAPIC_LINT0 LAPIC_MASKED;
  _ ← lapicw LAPIC_LINT1 LAPIC_MASKED;
  v ← lapicr LAPIC_VER;
  _ ← when (4 <=? Z.land (Z.shiftr v 16) 0xFF) (lapicw LAPIC_PCINT LAPIC_MASKED);
  (* Map error interrupt to IRQ_ERROR. *)
  _ ← lapicw LAPIC_ERROR (T_IRQ0 + IRQ_ERROR);
  _ ← lapicw LAPIC_ESR 0;
  _ ← lapicw LAPIC_ESR 0;
  (* Ack any outstanding interrupts. *)
  _ ← lapicw LAPIC_EOI 0;
  _ ← lapicw LAPIC_ICRHI 0;
  _ ← lapicw LAPIC_ICRLO (Z.lor (Z.lor LAPIC_BCAST LAPIC_INIT) LAPIC_LEVEL);
  n ← get_dev (λ d, length (port_in d (lapic d + 4 * LAPIC_ICRLO)));
  _ ← lapic_delivered (S n);
  (* Enable interrupts on the APIC (but not on the processor). *)
  lapicw LAPIC_TPR 0.

(** Acknowledge interrupt. *)
Definition lapiceoi : K unit :=
  l ← get_dev lapic;
  when (truthy l) (lapicw LAPIC_EOI 0).

Definition microdelay (us : Z) : K unit := mret tt.

Definition CMOS_PORT : Z := 0x70.
Definition CMOS_RETURN : Z := 0x71.
Definition st16 (a v : Z) : K unit := modk (λ k, k <| mem ::= λ m, fill m a 2 (byte_of v) |>).

Definition lapicstartap (apicid addr : Z) : K unit :=
  _ ← outb CMOS_PORT 0xF;
  _ ← outb (CMOS_PORT + 1) 0x0A;
  let wrv := P2V (Z.lor (Z.shiftl 0x40 4) 0x67) in       (* Warm reset vector *)
  _ ← st16 wrv 0;
  _ ← st16 (wrv + 2) (Z.shiftr addr 4);
  (* Send INIT (level-triggered) interrupt to reset other CPU. *)
  _ ← lapicw LAPIC_ICRHI (s32 (Z.shiftl apicid 24));
  _ ← lapicw LAPIC_ICRLO (Z.lor (Z.lor LAPIC_INIT LAPIC_LEVEL) LAPIC_ASSERT);
  _ ← microdelay 200;
  _ ← lapicw LAPIC_ICRLO (Z.lor LAPIC_INIT LAPIC_LEVEL);
  _ ← microdelay 100;
  (* Send startup IPI (twice!) to enter code. *)
  for_each (seq 0 2) (λ _,
    _ ← lapicw LAPIC_ICRHI (s32 (Z.shiftl apicid 24));
    _ ← lapicw LAPIC_ICRLO (Z.lor LAPIC_STARTUP (Z.shiftr addr 12));
    microdelay 200).

(** *** The real-time clock *)
Record rtcdate := mkRtc { second : Z; minute : Z; hour : Z; day : Z; month : Z; year : Z }.
#[export] Instance rtcdate_eq_dec : EqDecision rtcdate.
Proof. solve_decision. Defined.
#[export] Instance eta_rtcdate : Settable rtcdate := λ r,
  mkRtc (second r) (minute r) (hour r) (day r) (month r) (year r).

Definition CMOS_STATA : Z := 0x0a.
Definition CMOS_STATB : Z := 0x0b.
Definition CMOS_UIP : Z := Z.shiftl 1 7.

Definition cmos_read (reg : Z) : K Z :=
  _ ← outb CMOS_PORT reg;
  _ ← microdelay 200;
  inb CMOS_RETURN.
Definition fill_rtcdate : K rtcdate :=
  s ← cmos_read 0x00; mi ← cmos_read 0x02; h ← cmos_read 0x04;
  d ← cmos_read 0x07; mo ← cmos_read 0x08; y ← cmos_read 0x09;
  mret (mkRtc s mi h d mo y).

(** make sure CMOS doesn't modify time while we read it *)
Fixpoint cmos_stable (fuel : nat) : K rtcdate :=
  match fuel with
  | O => spin
  | S fuel' =>
      t1 ← fill_rtcdate;
      v ← cmos_read CMOS_STATA;
      if truthy (Z.land v CMOS_UIP) then cmos_stable fuel' else
      t2 ← fill_rtcdate;
      if decide (t1 = t2) then mret t1 else cmos_stable fuel'
  end.
Definition bcd_conv (x : Z) : Z := Z.shiftr x 4 * 10 + Z.land x 0xf.
Definition cmostime : K rtcdate :=
  sb ← cmos_read CMOS_STATB;
  let bcd := Z.land sb (Z.shiftl 1 2) =? 0 in
  n ← get_dev (λ d, length (port_in d CMOS_RETURN));
  t1 ← cmos_stable (S n);
  let t := if bcd
           then mkRtc (bcd_conv (second t1)) (bcd_conv (minute t1)) (bcd_conv (hour t1))
                  (bcd_conv (day t1)) (bcd_conv (month t1)) (bcd_conv (year t1))
           else t1 in
  mret (t <| year ::= λ y, y + 2000 |>).
