(* ===== verification/Ide.v ===== *)
(** * ide.c: the IDE disk driver

    Requests wait in a queue linked through [qnext]; the head of the queue is the
    request the disk is working on.  The process sleeps on its buffer until the
    interrupt handler has transferred the data. *)

From S2P Require Import Prelude Layout State Str Spinlock Kalloc Vm Sched Sleeplock Ports Apic.

Section Ide.
Context `{KernelSyms}.

Definition SECTOR_SIZE : Z := 512.
Definition IDE_BSY : Z := 0x80.
Definition IDE_DRDY : Z := 0x40.
Definition IDE_DF : Z := 0x20.
Definition IDE_ERR : Z := 0x01.
Definition IDE_CMD_READ : Z := 0x20.
Definition IDE_CMD_WRITE : Z := 0x30.
Definition IDE_CMD_RDMUL : Z := 0xc4.
Definition IDE_CMD_WRMUL : Z := 0xc5.

(** The status port is read until the disk is ready. *)
Fixpoint idewait_loop (fuel : nat) : K Z :=
  match fuel with
  | O => spin
  | S fuel' =>
      r ← inb 0x1f7;
      if negb (Z.land r (Z.lor IDE_BSY IDE_DRDY) =? IDE_DRDY) then idewait_loop fuel' else mret r
  end.
Definition idewait (checkerr : Z) : K Z :=
  n ← get_dev (λ d, length (port_in d 0x1f7));
  r ← idewait_loop (S n);
  if truthy checkerr && negb (Z.land r (Z.lor IDE_DF IDE_ERR) =? 0) then mret (-1) else mret 0.

Definition ideinit : K unit :=
  _ ← initlock L_idelock "ide";
  ncpu ← getk (λ k, Z.of_nat (length (cpus (hw k))));
  _ ← ioapicenable IRQ_IDE (ncpu - 1);
  _ ← idewait 0;
  (* Check if disk 1 is present *)
  _ ← outb 0x1f6 (Z.lor 0xe0 (Z.shiftl 1 4));
  _ ← for_find (seq 0 1000) (λ _,
        r ← inb 0x1f7;
        if negb (r =? 0) then _ ← mod_dev (λ d, d <| havedisk1 := 1 |>); mret (Some tt) else mret None);
  (* Switch back to disk 0. *)
  outb 0x1f6 (Z.lor 0xe0 (Z.shiftl 0 4)).

Definition idestart (bo : option nat) : K unit :=
  match bo with
  | None => panic "idestart"
  | Some i =>
      b ← rd_buf i;
      if FSSIZE <=? b_blockno b then panic "incorrect blockno" else
      let sector_per_block := BSIZE / SECTOR_SIZE in
      let sector := s32 (b_blockno b * sector_per_block) in
      let read_cmd := if sector_per_block =? 1 then IDE_CMD_READ else IDE_CMD_RDMUL in
      let write_cmd := if sector_per_block =? 1 then IDE_CMD_WRITE else IDE_CMD_WRMUL in
      if 7 <? sector_per_block then panic "idestart" else
      _ ← idewait 0;
      _ ← outb 0x3f6 0;
      _ ← outb 0x1f2 sector_per_block;
      _ ← outb 0x1f3 (Z.land sector 0xff);
      _ ← outb 0x1f4 (Z.land (Z.shiftr sector 8) 0xff);
      _ ← outb 0x1f5 (Z.land (Z.shiftr sector 16) 0xff);
      _ ← outb 0x1f6 (Z.lor (Z.lor 0xe0 (Z.shiftl (Z.land (b_dev b) 1) 4))
                        (Z.land (Z.shiftr sector 24) 0x0f));
      if truthy (Z.land (b_flags b) B_DIRTY) then
        _ ← outb 0x1f7 write_cmd;
        outsl 0x1f0 (b_data b)
      else
        outb 0x1f7 read_cmd
  end.

Definition ideintr : K unit :=
  _ ← acquire L_idelock;
  q ← get_dev idequeue;
  match q with
  | None => release L_idelock
  | Some i =>
      b ← rd_buf i;
      _ ← mod_dev (λ d, d <| idequeue := b_qnext b |>);
      (* Read data if needed. *)
      _ ← (if negb (truthy (Z.land (b_flags b) B_DIRTY)) then
             r ← idewait 1;
             if 0 <=? r then
               data ← insl 0x1f0 (Z.to_nat (BSIZE / 4));
               mod_buf i (λ b, b <| b_data := data |>)
             else mret tt
           else mret tt);
      (* Wake process waiting for this buf. *)
      _ ← mod_buf i (λ b, b <| b_flags ::= λ f, Z.lor f B_VALID |>);
      _ ← mod_buf i (λ b, b <| b_flags ::= λ f, Z.land f (Z.lnot B_DIRTY) |>);
      _ ← wakeup (ch_buf i);
      (* Start disk on next buf in queue. *)
      q ← get_dev idequeue;
      _ ← match q with None => mret tt | Some _ => idestart q end;
      release L_idelock
  end.

(** [for(pp=&idequeue; *pp; pp=&( *pp)->qnext);]: the last buffer of the queue, or
    [None] when [pp] is [&idequeue] itself. *)
Fixpoint queue_end (fuel : nat) (last cur : option nat) : K (option nat) :=
  match fuel with
  | O => out_of_fuel
  | S fuel' =>
      match cur with
      | None => mret last
      | Some i => b ← rd_buf i; queue_end fuel' (Some i) (b_qnext b)
      end
  end.

Definition iderw (i : nat) : K unit :=
  h ← holdingsleep (SL_buf i);
  if negb h then panic "iderw: buf not locked" else
  b ← rd_buf i;
  if Z.land (b_flags b) (Z.lor B_VALID B_DIRTY) =? B_VALID then panic "iderw: nothing to do" else
  hd ← get_dev havedisk1;
  if negb (b_dev b =? 0) && negb (truthy hd) then panic "iderw: ide disk 1 not present" else
  _ ← acquire L_idelock;
  (* Append b to idequeue. *)
  _ ← mod_buf i (λ b, b <| b_qnext := None |>);
  q ← get_dev idequeue;
  last ← queue_end (S (S NBUFn)) None q;
  _ ← match last with
      | None => mod_dev (λ d, d <| idequeue := Some i |>)
      | Some j => mod_buf j (λ b, b <| b_qnext := Some i |>)
      end;
  (* Start disk if necessary. *)
  q ← get_dev idequeue;
  _ ← when (bool_decide (q = Some i)) (idestart (Some i));
  (* Wait for request to finish. *)
  _ ← sleep_while (b ← rd_buf i;
                   mret (negb (Z.land (b_flags b) (Z.lor B_VALID B_DIRTY) =? B_VALID)))
        (ch_buf i) L_idelock;
  release L_idelock.

#[export] Instance ide_driver : DiskDriver := iderw.

End Ide.
