(* ===== verification/Memide.v ===== *)
(** * memide.c: the disk kept in memory

    The driver linked into the kernel that carries its file system image; [disk]
    is the array [memdisk] cut into blocks. *)

From S2P Require Import Prelude Layout State Str Spinlock Kalloc Vm Sched Sleeplock Ports.

Section Memide.
Context `{KernelSyms}.

(** [fs_img_size] is the size of the image that the linker put in the kernel. *)
Definition ideinit (fs_img_size : Z) : K unit :=
  mod_dev (λ d, d <| disksize := u32 fs_img_size / BSIZE |>).

Definition ideintr : K unit := mret tt.

Definition iderw (i : nat) : K unit :=
  h ← holdingsleep (SL_buf i);
  if negb h then panic "iderw: buf not locked" else
  b ← rd_buf i;
  if Z.land (b_flags b) (Z.lor B_VALID B_DIRTY) =? B_VALID then panic "iderw: nothing to do" else
  if negb (b_dev b =? 1) then panic "iderw: request not for disk 1" else
  ds ← get_dev disksize;
  if ds <=? b_blockno b then panic "iderw: block out of range" else
  _ ← (if truthy (Z.land (b_flags b) B_DIRTY) then
         _ ← mod_buf i (λ b, b <| b_flags ::= λ f, Z.land f (Z.lnot B_DIRTY) |>);
         modk (λ k, k <| disk ::= λ d x, if x =? b_blockno b then b_data b else d x |>)
       else
         d ← getk disk;
         mod_buf i (λ c, c <| b_data := d (b_blockno b) |>));
  mod_buf i (λ b, b <| b_flags ::= λ f, Z.lor f B_VALID |>).

#[export] Instance memide_driver : DiskDriver := iderw.

End Memide.
