(* ===== verification/Mp.v ===== *)
(** * mp.c: the processors found in the BIOS tables *)

From S2P Require Import Prelude Layout State Str Spinlock Kalloc Vm Sched Sleeplock Ports Apic.

(** ** mp.h: offsets and sizes *)
Definition sizeof_mp : Z := 16.
Definition sizeof_mpconf : Z := 44.
Definition sizeof_mpproc : Z := 20.
Definition sizeof_mpioapic : Z := 8.
Definition MPPROC : Z := 0x00.
Definition MPBUS : Z := 0x01.
Definition MPIOAPIC : Z := 0x02.
Definition MPIOINTR : Z := 0x03.
Definition MPLINTR : Z := 0x04.

Definition ld8 (m : memory) (a : Z) : Z := u8 (m a).
Definition ld16 (m : memory) (a : Z) : Z := ld8 m a + 256 * ld8 m (a + 1).

(** The sum of [len] bytes, as a [uchar]. *)
Fixpoint sum_loop (m : memory) (addr : Z) (n : nat) : Z :=
  match n with O => 0 | S n' => ld8 m addr + sum_loop m (addr + 1) n' end.
Definition sum (m : memory) (addr len : Z) : Z := u8 (sum_loop m addr (Z.to_nat len)).

(** [memcmp(p, s, 4) == 0] *)
Definition signature (m : memory) (p : Z) (s : string) : bool :=
  bool_decide ((λ i, ld8 m (p + Z.of_nat i)) <$> seq 0 4 = bytes_of s).

Fixpoint mpsearch1_loop (n : nat) (m : memory) (p : Z) : Z :=
  match n with
  | O => 0
  | S n' =>
      if signature m p "_MP_" && (sum m p sizeof_mp =? 0) then p
      else mpsearch1_loop n' m (p + sizeof_mp)
  end.
(** Look for an MP structure in the len bytes at addr. *)
Definition mpsearch1 (m : memory) (a len : Z) : Z :=
  mpsearch1_loop (Z.to_nat ((len + sizeof_mp - 1) / sizeof_mp)) m (P2V a).

Definition mpsearch (m : memory) : Z :=
  let bda := P2V 0x400 in
  let p := Z.shiftl (Z.lor (Z.shiftl (ld8 m (bda + 0x0F)) 8) (ld8 m (bda + 0x0E))) 4 in
  let mp := if truthy p then mpsearch1 m p 1024
            else
              let p := Z.lor (Z.shiftl (ld8 m (bda + 0x14)) 8) (ld8 m (bda + 0x13)) * 1024 in
              mpsearch1 m (u32 (p - 1024)) 1024 in
  if truthy mp then mp else mpsearch1 m 0xF0000 0x10000.

(** The configuration table and the floating pointer. *)
Definition mpconfig (m : memory) : option (Z * Z) :=
  let mp := mpsearch m in
  if (mp =? 0) || (load32 m (mp + 4) =? 0) then None else
  let conf := P2V (load32 m (mp + 4)) in
  if negb (signature m conf "PCMP") then None else
  if negb (ld8 m (conf + 6) =? 1) && negb (ld8 m (conf + 6) =? 4) then None else
  if negb (sum m conf (ld16 m (conf + 4)) =? 0) then None else
  Some (conf, mp).

Section Mp.
Context `{KernelSyms}.

(** An entry for a processor: [cpus[ncpu++].apicid = id]. *)
Definition add_cpu (id : Z) : K unit :=
  modk (λ k, k <| hw ::= λ h, h <| cpus ::= λ l,
    if Z.of_nat (length l) <? NCPU then l ++ [boot_cpu <| apicid := id |>] else l |> |>).

(** The loop over the entries.  An entry of unknown type leaves the [switch] with
    [p] unchanged, so the loop goes on at the same entry for ever. *)
Fixpoint mpinit_loop (fuel : nat) (p e : Z) : K unit :=
  match fuel with
  | O => out_of_fuel
  | S fuel' =>
      if negb (p <? e) then mret tt else
      m ← getk mem;
      let t := ld8 m p in
      if t =? MPPROC then _ ← add_cpu (ld8 m (p + 1)); mpinit_loop fuel' (p + sizeof_mpproc) e
      else if t =? MPIOAPIC then
        _ ← mod_dev (λ d, d <| ioapicid := ld8 m (p + 1) |>);
        mpinit_loop fuel' (p + sizeof_mpioapic) e
      else if (t =? MPBUS) || (t =? MPIOINTR) || (t =? MPLINTR) then mpinit_loop fuel' (p + 8) e
      else spin
  end.

Definition mpinit : K unit :=
  m ← getk mem;
  match mpconfig m with
  | None => panic "Expect to run on an SMP"
  | Some (conf, mp) =>
      _ ← mod_dev (λ d, d <| lapic := load32 m (conf + 36) |>);
      let len := ld16 m (conf + 4) in
      _ ← mpinit_loop (S (Z.to_nat len)) (conf + sizeof_mpconf) (conf + len);
      when (truthy (ld8 m (mp + 12)))
        (_ ← outb 0x22 0x70;                   (* Select IMCR *)
         v ← inb 0x23;
         outb 0x23 (Z.lor v 1))                (* Mask external interrupts. *)
  end.

End Mp.
