(* ===== verification/Console.v ===== *)
(** * console.c, uart.c, kbd.c: console input and output *)

From S2P Require Import Prelude Layout State Str Spinlock Kalloc Vm Sched Sleeplock Ports Apic.

Section Console.
Context `{KernelSyms}.

(** ** uart.c *)

Definition COM1 : Z := 0x3f8.

Definition uartputc (c : Z) : K unit :=
  u ← get_dev uart;
  if u =? 0 then mret tt else
  _ ← for_find (seq 0 128) (λ _,
        v ← inb (COM1 + 5);
        if truthy (Z.land v 0x20) then mret (Some tt) else _ ← microdelay 10; mret None);
  outb (COM1 + 0) c.

Definition uartgetc : K Z :=
  u ← get_dev uart;
  if u =? 0 then mret (-1) else
  v ← inb (COM1 + 5);
  if negb (truthy (Z.land v 0x01)) then mret (-1) else
  inb (COM1 + 0).

Definition uartinit : K unit :=
  (* Turn off the FIFO *)
  _ ← outb (COM1 + 2) 0;
  (* 9600 baud, 8 data bits, 1 stop bit, parity off. *)
  _ ← outb (COM1 + 3) 0x80;
  _ ← outb (COM1 + 0) (115200 / 9600);
  _ ← outb (COM1 + 1) 0;
  _ ← outb (COM1 + 3) 0x03;
  _ ← outb (COM1 + 4) 0;
  _ ← outb (COM1 + 1) 0x01;
  (* If status is 0xFF, no serial port. *)
  v ← inb (COM1 + 5);
  if v =? 0xFF then mret tt else
  _ ← mod_dev (λ d, d <| uart := 1 |>);
  _ ← inb (COM1 + 2);
  _ ← inb (COM1 + 0);
  _ ← ioapicenable IRQ_COM1 0;
  (* Announce that we're here. *)
  for_each (bytes_of "xv6..." ++ [10]) uartputc.

(** ** The screen *)

Definition BACKSPACE : Z := 0x100.
Definition CRTPORT : Z := 0x3d4.
Definition crt : Z := P2V 0xb8000.        (* CGA memory, an array of ushort *)

Definition cgaputc (c : Z) : K unit :=
  (* Cursor position: col + 80*row. *)
  _ ← outb CRTPORT 14;
  hi ← inb (CRTPORT + 1);
  _ ← outb CRTPORT 15;
  lo ← inb (CRTPORT + 1);
  let pos := Z.lor (Z.shiftl hi 8) lo in
  pos ← (if c =? 10 then mret (pos + (80 - Z.rem pos 80))
         else if c =? BACKSPACE then mret (if 0 <? pos then pos - 1 else pos)
         else _ ← st16 (crt + 2 * pos) (Z.lor (Z.land c 0xff) 0x0700);   (* black on white *)
              mret (pos + 1));
  if (pos <? 0) || (25 * 80 <? pos) then panic "pos under/overflow" else
  pos ← (if 24 <=? pos / 80 then                                         (* Scroll up. *)
           _ ← kmemmove crt (crt + 2 * 80) (Z.to_nat (2 * 23 * 80));
           let pos := pos - 80 in
           _ ← kmemset (crt + 2 * pos) 0 (2 * (24 * 80 - pos));
           mret pos
         else mret pos);
  _ ← outb CRTPORT 14;
  _ ← outb (CRTPORT + 1) (Z.shiftr pos 8);
  _ ← outb CRTPORT 15;
  _ ← outb (CRTPORT + 1) pos;
  st16 (crt + 2 * pos) (Z.lor 32 0x0700).

Definition consputc (c : Z) : K unit :=
  p ← get_dev panicked;
  if truthy p then _ ← cli; spin else
  _ ← (if c =? BACKSPACE then _ ← uartputc 8; _ ← uartputc 32; uartputc 8 else uartputc c);
  cgaputc c.

(** ** cprintf *)

Definition digits : list Z := bytes_of "0123456789abcdef".

(** The digits of [x], last one first. *)
Fixpoint digit_loop (fuel : nat) (x base : Z) : list Z :=
  match fuel with
  | O => []
  | S fuel' =>
      nth (Z.to_nat (x mod base)) digits 0 ::
        (if x / base =? 0 then [] else digit_loop fuel' (x / base) base)
  end.
(** The characters that [printint] puts on the console; 32 digits are enough for
    any [base] of at least 2. *)
Definition printint_chars (xx base sign : Z) : list Z :=
  let neg := truthy sign && (s32 xx <? 0) in
  let x := if neg then u32 (- xx) else u32 xx in
  rev (digit_loop 32 x base ++ (if neg then [chr "-"] else [])).
Definition printint (xx base sign : Z) : K unit := for_each (printint_chars xx base sign) consputc.

(** An argument of [cprintf]: an integer, a string, or a null string pointer. *)
Inductive carg := AInt (z : Z) | AStr (s : list Z) | ANull.

Fixpoint cprintf_loop (fmt : list Z) (args : list carg) : K unit :=
  match fmt with
  | [] => mret tt
  | c :: fmt' =>
      if negb (c =? chr "%") then _ ← consputc c; cprintf_loop fmt' args else
      match fmt' with
      | [] => mret tt
      | c :: fmt'' =>
          if c =? chr "d" then
            match args with
            | AInt z :: args' => _ ← printint z 10 1; cprintf_loop fmt'' args'
            | _ => fault
            end
          else if (c =? chr "x") || (c =? chr "p") then
            match args with
            | AInt z :: args' => _ ← printint z 16 0; cprintf_loop fmt'' args'
            | _ => fault
            end
          else if c =? chr "s" then
            match args with
            | AStr s :: args' => _ ← for_each s consputc; cprintf_loop fmt'' args'
            | ANull :: args' => _ ← for_each (bytes_of "(null)") consputc; cprintf_loop fmt'' args'
            | _ => fault
            end
          else if c =? chr "%" then _ ← consputc (chr "%"); cprintf_loop fmt'' args
          else _ ← consputc (chr "%"); _ ← consputc c; cprintf_loop fmt'' args
      end
  end.

Definition cprintf (fmt : list Z) (args : list carg) : K unit :=
  locking ← get_dev cons_locking;
  _ ← when (truthy locking) (acquire L_cons);
  _ ← cprintf_loop fmt args;
  when (truthy locking) (release L_cons).

(** spinlock.c: the return addresses found along the chain of saved [%ebp]. *)
Fixpoint getcallerpcs_loop (n : nat) (m : memory) (ebp : Z) : list Z :=
  match n with
  | O => []
  | S n' =>
      if (ebp =? 0) || (ebp <? KERNBASE) || (ebp =? 0xffffffff) then replicate n 0
      else load32 m (ebp + 4) :: getcallerpcs_loop n' m (load32 m ebp)
  end.
Definition getcallerpcs (m : memory) (v : Z) : list Z := getcallerpcs_loop 10 m (u32 (v - 8)).

(** [panic]; [v] is the address of its argument.  In the rest of the model its
    callers end with the outcome [Panic]. *)
Definition panic_print (s : string) (v : Z) : K unit :=
  _ ← cli;
  _ ← mod_dev (λ d, d <| cons_locking := 0 |>);
  id ← getk (λ k, lapicid (hw k));
  _ ← cprintf (bytes_of "lapicid %d: panic: ") [AInt id];
  _ ← cprintf (bytes_of s) [];
  _ ← cprintf [10] [];
  m ← getk mem;
  _ ← for_each (getcallerpcs m v) (λ pc, cprintf (bytes_of " %p") [AInt pc]);
  _ ← mod_dev (λ d, d <| panicked := 1 |>);      (* freeze other CPU *)
  spin.

(** ** proc.c: procdump *)

Definition state_name (st : procstate) : list Z :=
  bytes_of match st with
           | UNUSED => "unused" | EMBRYO => "embryo" | SLEEPING => "sleep " | RUNNABLE => "runble"
           | RUNNING => "run   " | ZOMBIE => "zombie"
           end.

(** The bytes of an array up to its terminating zero. *)
Fixpoint until_nul (l : list Z) : list Z :=
  match l with [] => [] | c :: l' => if c =? 0 then [] else c :: until_nul l' end.

(** The return addresses up to the first zero. *)
Definition print_pcs (pcs : list Z) : K unit :=
  for_each (until_nul pcs) (λ pc, cprintf (bytes_of " %p") [AInt pc]).

Definition procdump : K unit :=
  for_each (seq 0 NPROCn) (λ i,
    p ← rd_proc i;
    if bool_decide (state p = UNUSED) then mret tt else
    _ ← cprintf (bytes_of "%d %s %s") [AInt (pid p); AStr (state_name (state p)); AStr (until_nul (pname p))];
    _ ← (if bool_decide (state p = SLEEPING) then
           o ← getk (λ k, ctxs k !! pcontext p);
           c ← deref o;
           m ← getk mem;
           print_pcs (getcallerpcs m (u32 (c_ebp c + 8)))
         else mret tt);
    cprintf [10] []).

(** ** Console input *)

Definition INPUT_BUF : Z := 128.
Definition ctl (s : string) : Z := chr s - chr "@".      (* C(x), Control-x *)

Definition in_at (d : devstate) (i : Z) : Z := s8 (nth (Z.to_nat (i mod INPUT_BUF)) (in_buf d) 0).

(** Control-U: the line that is being edited is dropped. *)
Fixpoint kill_line (fuel : nat) : K unit :=
  match fuel with
  | O => out_of_fuel
  | S fuel' =>
      d ← getk devs;
      if negb (in_e d =? in_w d) && negb (in_at d (u32 (in_e d - 1)) =? 10) then
        _ ← mod_dev (λ d, d <| in_e ::= λ e, u32 (e - 1) |>);
        _ ← consputc BACKSPACE;
        kill_line fuel'
      else mret tt
  end.

(** One character of input; the result tells whether a process listing is asked. *)
Definition console_char (c : Z) : K bool :=
  d ← getk devs;
  if c =? ctl "P" then mret true
  else if c =? ctl "U" then
    _ ← kill_line (S (Z.to_nat (u32 (in_e d - in_w d)))); mret false
  else if (c =? ctl "H") || (c =? 0x7f) then
    _ ← when (negb (in_e d =? in_w d))
          (_ ← mod_dev (λ d, d <| in_e ::= λ e, u32 (e - 1) |>); consputc BACKSPACE);
    mret false
  else if negb (c =? 0) && (u32 (in_e d - in_r d) <? INPUT_BUF) then
    let c := if c =? 13 then 10 else c in
    _ ← mod_dev (λ d, d <| in_buf ::= insert (Z.to_nat (in_e d mod INPUT_BUF)) (u8 c) |>);
    _ ← mod_dev (λ d, d <| in_e ::= λ e, u32 (e + 1) |>);
    _ ← consputc c;
    d ← getk devs;
    _ ← when ((c =? 10) || (c =? ctl "D") || (in_e d =? u32 (in_r d + INPUT_BUF)))
          (_ ← mod_dev (λ d, d <| in_w := in_e d |>); wakeup ch_input);
    mret false
  else mret false.

Fixpoint consoleintr_loop (fuel : nat) (getc : K Z) (doprocdump : bool) : K bool :=
  match fuel with
  | O => out_of_fuel
  | S fuel' =>
      c ← getc;
      if c <? 0 then mret doprocdump else
      b ← console_char c;
      consoleintr_loop fuel' getc (doprocdump || b)
  end.

(** Ports of the keyboard controller. *)
Definition KBSTATP : Z := 0x64.
Definition KBS_DIB : Z := 0x01.
Definition KBDATAP : Z := 0x60.

(** [getc] takes a value of a status port in every turn. *)
Definition consoleintr (getc : K Z) : K unit :=
  _ ← acquire L_cons;
  n ← get_dev (λ d, length (port_in d KBSTATP) + length (port_in d (COM1 + 5)))%nat;
  doprocdump ← consoleintr_loop (S n) getc false;
  _ ← release L_cons;
  when doprocdump procdump.    (* now call procdump() wo. cons.lock held *)

Definition uartintr : K unit := consoleintr uartgetc.

Definition CONSOLE : nat := 1.
Definition consoleinit : K unit :=
  _ ← initlock L_cons "console";
  _ ← mod_dev (λ d, d <| devsw ::= insert CONSOLE DEV_console |>);
  _ ← mod_dev (λ d, d <| cons_locking := 1 |>);
  ioapicenable IRQ_KBD 0.

(** ** ioapic.c: ioapicinit *)

Definition ioapicinit : K unit :=
  v ← ioapicread REG_VER;
  let maxintr := Z.land (Z.shiftr v 16) 0xFF in
  r ← ioapicread REG_ID;
  let id := Z.shiftr r 24 in
  iid ← get_dev ioapicid;
  _ ← when (negb (id =? iid))
        (cprintf (bytes_of "ioapicinit: id isn't equal to ioapicid; not a MP" ++ [10]) []);
  (* Mark all interrupts edge-triggered, active high, disabled,
     and not routed to any CPUs. *)
  for_each (seq 0 (S (Z.to_nat maxintr))) (λ i,
    let i := Z.of_nat i in
    _ ← ioapicwrite (REG_TABLE + 2 * i) (Z.lor INT_DISABLED (T_IRQ0 + i));
    ioapicwrite (REG_TABLE + 2 * i + 1) 0).

End Console.
