(* ===== verification/Kbd.v ===== *)
(** * kbd.h, kbd.c: the keyboard driver *)

From S2P Require Import Prelude Layout State Str Spinlock Kalloc Vm Sched Sleeplock Ports Apic Console.

Definition NO : Z := 0.
Definition SHIFT : Z := Z.shiftl 1 0.
Definition CTL : Z := Z.shiftl 1 1.
Definition ALT : Z := Z.shiftl 1 2.
Definition CAPSLOCK : Z := Z.shiftl 1 3.
Definition NUMLOCK : Z := Z.shiftl 1 4.
Definition SCROLLLOCK : Z := Z.shiftl 1 5.
Definition E0ESC : Z := Z.shiftl 1 6.
Definition KEY_HOME : Z := 0xE0.
Definition KEY_END : Z := 0xE1.
Definition KEY_UP : Z := 0xE2.
Definition KEY_DN : Z := 0xE3.
Definition KEY_LF : Z := 0xE4.
Definition KEY_RT : Z := 0xE5.
Definition KEY_PGUP : Z := 0xE6.
Definition KEY_PGDN : Z := 0xE7.
Definition KEY_INS : Z := 0xE8.
Definition KEY_DEL : Z := 0xE9.

Definition shiftcode (d : Z) : Z :=
  if d =? 0x1D then CTL else if d =? 0x2A then SHIFT else if d =? 0x36 then SHIFT
  else if d =? 0x38 then ALT else if d =? 0x9D then CTL else if d =? 0xB8 then ALT else 0.
Definition togglecode (d : Z) : Z :=
  if d =? 0x3A then CAPSLOCK else if d =? 0x45 then NUMLOCK else if d =? 0x46 then SCROLLLOCK else 0.

(** The designated entries above 0x58, the same in the three maps but for the
    keypad's Enter and Div. *)
Definition keypad (enter div d : Z) : Z :=
  if d =? 0x9C then enter else if d =? 0xB5 then div
  else if d =? 0xC8 then KEY_UP else if d =? 0xD0 then KEY_DN
  else if d =? 0xC9 then KEY_PGUP else if d =? 0xD1 then KEY_PGDN
  else if d =? 0xCB then KEY_LF else if d =? 0xCD then KEY_RT
  else if d =? 0x97 then KEY_HOME else if d =? 0xCF then KEY_END
  else if d =? 0xD2 then KEY_INS else if d =? 0xD3 then KEY_DEL else 0.
Definition keymap (low : list Z) (enter div d : Z) : Z :=
  if d <? Z.of_nat (length low) then nth (Z.to_nat d) low 0 else keypad enter div d.

Definition numpad : list Z := bytes_of "789-456+1230." ++ [NO; NO; NO; NO].

Definition normalmap : Z → Z := keymap
  ([NO; 0x1B] ++ bytes_of "1234567890-=" ++ [8; 9] ++
   bytes_of "qwertyuiop[]" ++ [10; NO] ++ bytes_of "asdfghjkl;'`" ++ [NO] ++
   bytes_of "\zxcvbnm,./" ++ [NO; chr "*"; NO; chr " "] ++ replicate 13 NO ++ numpad)
  10 (chr "/").
Definition shiftmap : Z → Z := keymap
  ([NO; 0x1B] ++ bytes_of "!@#$%^&*()_+" ++ [8; 9] ++
   bytes_of "QWERTYUIOP{}" ++ [10; NO] ++ bytes_of "ASDFGHJKL:" ++ [34] ++ bytes_of "~" ++ [NO] ++
   bytes_of "|ZXCVBNM<>?" ++ [NO; chr "*"; NO; chr " "] ++ replicate 13 NO ++ numpad)
  10 (chr "/").
Definition ctls (s : string) : list Z := (λ c, c - chr "@") <$> bytes_of s.
(** C('/') is negative; the entry of the [uchar] array is taken modulo 256. *)
Definition ctlmap : Z → Z := keymap
  (replicate 16 NO ++ ctls "QWERTYUIOP" ++ [NO; NO; 13; NO] ++ ctls "ASDFGHJKL" ++
   [NO; NO; NO; NO] ++ ctls "\ZXCVBNM" ++ [NO; NO; u8 (ctl "/"); NO; NO])
  13 (u8 (ctl "/")).
Definition charcode (i : Z) : Z → Z :=
  if i =? 0 then normalmap else if i =? 1 then shiftmap else ctlmap.

Section Kbd.
Context `{KernelSyms}.

Definition set_shift (s : Z) : K unit := mod_dev (λ d, d <| kbd_shift := s |>).

Definition kbdgetc : K Z :=
  st ← inb KBSTATP;
  if Z.land st KBS_DIB =? 0 then mret (-1) else
  data ← inb KBDATAP;
  shift ← get_dev kbd_shift;
  if data =? 0xE0 then _ ← set_shift (Z.lor shift E0ESC); mret 0
  else if truthy (Z.land data 0x80) then
    (* Key released *)
    let data := if truthy (Z.land shift E0ESC) then data else Z.land data 0x7F in
    _ ← set_shift (Z.land shift (Z.lnot (Z.lor (shiftcode data) E0ESC)));
    mret 0
  else
    (* Last character was an E0 escape; or with 0x80 *)
    let '(data, shift) :=
      if truthy (Z.land shift E0ESC)
      then (Z.lor data 0x80, Z.land shift (Z.lnot E0ESC)) else (data, shift) in
    let shift := Z.lor shift (shiftcode data) in
    let shift := Z.lxor shift (togglecode data) in
    _ ← set_shift shift;
    let c := charcode (Z.land shift (Z.lor CTL SHIFT)) data in
    if truthy (Z.land shift CAPSLOCK) then
      if (chr "a" <=? c) && (c <=? chr "z") then mret (c + (chr "A" - chr "a"))
      else if (chr "A" <=? c) && (c <=? chr "Z") then mret (c + (chr "a" - chr "A"))
      else mret c
    else mret c.

Definition kbdintr : K unit := consoleintr kbdgetc.

End Kbd.
