(* ===== verification/Bio.v ===== *)
(** * bio.c: the buffer cache

    The buffers form a doubly linked list through [prev] and [next] whose head is
    the element [BHEAD] of [bcache]; it is kept in order of use. *)

From S2P Require Import Prelude Layout State Str Spinlock Kalloc Vm Sched Sleeplock Ports.

Section Bio.
Context `{KernelSyms} `{DiskDriver}.

Definition binit : K unit :=
  _ ← initlock L_bcache "bcache";
  (* Create linked list of buffers *)
  _ ← mod_buf BHEAD (λ h, h <| b_prev := BHEAD |>);
  _ ← mod_buf BHEAD (λ h, h <| b_next := BHEAD |>);
  for_each (seq 0 NBUFn) (λ b,
    h ← rd_buf BHEAD;
    _ ← mod_buf b (λ x, x <| b_next := b_next h |>);
    _ ← mod_buf b (λ x, x <| b_prev := BHEAD |>);
    _ ← initsleeplock (SL_buf b) "buffer";
    h ← rd_buf BHEAD;
    _ ← mod_buf (b_next h) (λ x, x <| b_prev := b |>);
    mod_buf BHEAD (λ h, h <| b_next := b |>)).

(** The first buffer from [b] along [step] that satisfies [P]. *)
Fixpoint bscan (fuel : nat) (step : buf → nat) (P : buf → bool) (b : nat) : K (option nat) :=
  match fuel with
  | O => out_of_fuel
  | S fuel' =>
      if (b =? BHEAD)%nat then mret None else
      x ← rd_buf b;
      if P x then mret (Some b) else bscan fuel' step P (step x)
  end.

Definition bget (dev blockno : Z) : K nat :=
  _ ← acquire L_bcache;
  (* Is the block already cached? *)
  h ← rd_buf BHEAD;
  o ← bscan (S NBUFn) b_next (λ b, (b_dev b =? dev) && (b_blockno b =? blockno)) (b_next h);
  match o with
  | Some b =>
      _ ← mod_buf b (λ b, b <| b_refcnt ::= λ n, u32 (n + 1) |>);
      _ ← release L_bcache;
      _ ← acquiresleep (SL_buf b);
      mret b
  | None =>
      (* Not cached; recycle an unused buffer. *)
      o ← bscan (S NBUFn) b_prev (λ b, (b_refcnt b =? 0) && (Z.land (b_flags b) B_DIRTY =? 0)) (b_prev h);
      match o with
      | Some b =>
          _ ← mod_buf b (λ b, b <| b_dev := dev |>);
          _ ← mod_buf b (λ b, b <| b_blockno := blockno |>);
          _ ← mod_buf b (λ b, b <| b_flags := 0 |>);
          _ ← mod_buf b (λ b, b <| b_refcnt := 1 |>);
          _ ← release L_bcache;
          _ ← acquiresleep (SL_buf b);
          mret b
      | None => panic "bget: no buffers"
      end
  end.

Definition bread (dev blockno : Z) : K nat :=
  b ← bget dev blockno;
  x ← rd_buf b;
  _ ← when (Z.land (b_flags x) B_VALID =? 0) (disk_rw b);
  mret b.

Definition bwrite (b : nat) : K unit :=
  h ← holdingsleep (SL_buf b);
  if negb h then panic "bwrite" else
  _ ← mod_buf b (λ b, b <| b_flags ::= λ f, Z.lor f B_DIRTY |>);
  disk_rw b.

(** [b] unlinked and put at the front of the list. *)
Definition move_to_front (b : nat) : K unit :=
  x ← rd_buf b;
  _ ← mod_buf (b_next x) (λ y, y <| b_prev := b_prev x |>);
  x ← rd_buf b;
  _ ← mod_buf (b_prev x) (λ y, y <| b_next := b_next x |>);
  h ← rd_buf BHEAD;
  _ ← mod_buf b (λ y, y <| b_next := b_next h |>);
  _ ← mod_buf b (λ y, y <| b_prev := BHEAD |>);
  h ← rd_buf BHEAD;
  _ ← mod_buf (b_next h) (λ y, y <| b_prev := b |>);
  mod_buf BHEAD (λ y, y <| b_next := b |>).

Definition brelse (b : nat) : K unit :=
  h ← holdingsleep (SL_buf b);
  if negb h then panic "brelse" else
  _ ← releasesleep (SL_buf b);
  _ ← acquire L_bcache;
  _ ← mod_buf b (λ b, b <| b_refcnt ::= λ n, u32 (n - 1) |>);
  x ← rd_buf b;
  _ ← when (b_refcnt x =? 0) (move_to_front b);
  release L_bcache.

(** A read or a change of a buffer's data while it is locked. *)
Definition rd_data (b : nat) : K (list Z) := x ← rd_buf b; mret (b_data x).
Definition mod_data (b : nat) (f : list Z → list Z) : K unit :=
  mod_buf b (λ x, x <| b_data ::= f |>).

End Bio.
