(* ===== verification/Log.v ===== *)
(** * log.c: the write-ahead log

    A transaction's blocks stay dirty in the cache until [commit] copies them to
    the log, writes the log header, copies them home and erases the header. *)

From S2P Require Import Prelude Layout State Str Spinlock Kalloc Vm Sched Sleeplock Ports Bio.

Section Log.
Context `{KernelSyms} `{DiskDriver}.

(** fs.c: Read the super block. *)
Definition readsb (dev : Z) : K superblock :=
  bp ← bread (u32 dev) 1;
  d ← rd_data bp;
  let sb := mkSb (get32 d 0) (get32 d 4) (get32 d 8) (get32 d 12) (get32 d 16) (get32 d 20) (get32 d 24) in
  _ ← brelse bp;
  mret sb.

Definition mod_log (f : log → log) : K unit := modk (λ k, k <| klog ::= f |>).
Definition LOGSIZEn : nat := 30.
Definition sizeof_logheader : Z := 4 + 4 * LOGSIZE.

(** [log.lh.block[i]]. *)
Definition rd_lh (i : Z) : K Z :=
  l ← getk klog;
  if (i <? 0) then fault else deref (lh_block l !! Z.to_nat i).
Definition wr_lh (i v : Z) : K unit :=
  _ ← rd_lh i;
  mod_log (λ l, l <| lh_block ::= insert (Z.to_nat i) v |>).
(** [for(i = 0; i < log.lh.n; i++)]; a turn past the end of [lh.block] is an
    access outside the array, so the fuel is never used up. *)
Definition for_lh (body : Z → K unit) : K unit :=
  for_upto (S (S LOGSIZEn)) 0 (getk (λ k, lh_n (klog k))) body.

Definition install_trans : K unit :=
  for_lh (λ tail,
    l ← getk klog;
    lbuf ← bread (u32 (log_dev l)) (u32 (log_start l + tail + 1));   (* read log block *)
    l ← getk klog;
    blk ← rd_lh tail;
    dbuf ← bread (u32 (log_dev l)) (u32 blk);                       (* read dst *)
    src ← rd_data lbuf;
    _ ← mod_data dbuf (λ _, src);                                   (* copy block to dst *)
    _ ← bwrite dbuf;                                                (* write dst to disk *)
    _ ← brelse lbuf;
    brelse dbuf).

Definition read_head : K unit :=
  l ← getk klog;
  b ← bread (u32 (log_dev l)) (u32 (log_start l));
  d ← rd_data b;
  _ ← mod_log (λ l, l <| lh_n := s32 (get32 d 0) |>);
  _ ← for_lh (λ i, wr_lh i (s32 (get32 d (4 + 4 * i))));
  brelse b.

Definition write_head : K unit :=
  l ← getk klog;
  b ← bread (u32 (log_dev l)) (u32 (log_start l));
  n ← getk (λ k, lh_n (klog k));
  _ ← mod_data b (λ d, put32 d 0 n);
  _ ← for_lh (λ i, v ← rd_lh i; mod_data b (λ d, put32 d (4 + 4 * i) v));
  _ ← bwrite b;
  brelse b.

Definition recover_from_log : K unit :=
  _ ← read_head;
  _ ← install_trans;        (* if committed, copy from log to disk *)
  _ ← mod_log (λ l, l <| lh_n := 0 |>);
  write_head.               (* clear the log *)

Definition initlog (dev : Z) : K unit :=
  if BSIZE <=? sizeof_logheader then panic "initlog: too big logheader" else
  _ ← initlock L_log "log";
  sb ← readsb dev;
  _ ← mod_log (λ l, l <| log_start := s32 (sb_logstart sb) |>);
  _ ← mod_log (λ l, l <| log_size := s32 (sb_nlog sb) |>);
  _ ← mod_log (λ l, l <| log_dev := dev |>);
  recover_from_log.

Fixpoint begin_op_loop (fuel : nat) : K unit :=
  match fuel with
  | O => out_of_fuel
  | S fuel' =>
      l ← getk klog;
      if truthy (log_committing l) then
        _ ← sleep ch_log (Some L_log); begin_op_loop fuel'
      else if LOGSIZE <? lh_n l + (log_outstanding l + 1) * MAXOPBLOCKS then
        (* this op might exhaust log space; wait for commit. *)
        _ ← sleep ch_log (Some L_log); begin_op_loop fuel'
      else
        _ ← mod_log (λ l, l <| log_outstanding ::= λ n, n + 1 |>);
        release L_log
  end.
Definition begin_op : K unit :=
  _ ← acquire L_log;
  n ← gets (λ w, length (resumes w));
  begin_op_loop (S n).

Definition write_log : K unit :=
  for_lh (λ tail,
    l ← getk klog;
    to ← bread (u32 (log_dev l)) (u32 (log_start l + tail + 1));    (* log block *)
    l ← getk klog;
    blk ← rd_lh tail;
    from ← bread (u32 (log_dev l)) (u32 blk);                       (* cache block *)
    src ← rd_data from;
    _ ← mod_data to (λ _, src);
    _ ← bwrite to;                                                  (* write the log *)
    _ ← brelse from;
    brelse to).

Definition commit : K unit :=
  n ← getk (λ k, lh_n (klog k));
  when (0 <? n)
    (_ ← write_log;         (* Write modified blocks from cache to log *)
     _ ← write_head;        (* Write header to disk -- the real commit *)
     _ ← install_trans;     (* Now install writes to home locations *)
     _ ← mod_log (λ l, l <| lh_n := 0 |>);
     write_head).           (* Erase the transaction from the log *)

Definition end_op : K unit :=
  _ ← acquire L_log;
  _ ← mod_log (λ l, l <| log_outstanding ::= λ n, n - 1 |>);
  l ← getk klog;
  if truthy (log_committing l) then panic "log.committing" else
  do_commit ← (if log_outstanding l =? 0
               then _ ← mod_log (λ l, l <| log_committing := 1 |>); mret true
               else _ ← wakeup ch_log; mret false);
  _ ← release L_log;
  when do_commit
    (* call commit w/o holding locks, since not allowed to sleep with locks. *)
    (_ ← commit;
     _ ← acquire L_log;
     _ ← mod_log (λ l, l <| log_committing := 0 |>);
     _ ← wakeup ch_log;
     release L_log).

(** The first [i < log.lh.n] with [log.lh.block[i] == blockno], or [log.lh.n]. *)
Fixpoint find_slot (fuel : nat) (i : Z) (blockno : Z) : K Z :=
  match fuel with
  | O => out_of_fuel
  | S fuel' =>
      n ← getk (λ k, lh_n (klog k));
      if i <? n then
        v ← rd_lh i;
        if u32 v =? blockno then mret i else find_slot fuel' (i + 1) blockno
      else mret i
  end.

Definition log_write (b : nat) : K unit :=
  l ← getk klog;
  if (LOGSIZE <=? lh_n l) || (log_size l - 1 <=? lh_n l) then panic "too big a transaction" else
  if log_outstanding l <? 1 then panic "log_write outside of trans" else
  _ ← acquire L_log;
  x ← rd_buf b;
  i ← find_slot (S (S LOGSIZEn)) 0 (b_blockno x);
  _ ← wr_lh i (s32 (b_blockno x));
  n ← getk (λ k, lh_n (klog k));
  _ ← when (i =? n) (mod_log (λ l, l <| lh_n ::= λ n, n + 1 |>));
  _ ← mod_buf b (λ b, b <| b_flags ::= λ f, Z.lor f B_DIRTY |>);   (* prevent eviction *)
  release L_log.

End Log.
