(* ===== verification/Inode.v ===== *)
(** * fs.c: blocks and inodes

    The allocation bitmap, the inode cache, and the map from a file's blocks to
    the disk's. *)

From S2P Require Import Prelude Layout State Str Spinlock Kalloc Vm Sched Sleeplock Ports Apic Console Bio Log.

Section Inode.
Context `{KernelSyms} `{DiskDriver}.

(** ** fs.h *)
Definition sizeof_dinode : Z := 64.
Definition IPB : Z := BSIZE / sizeof_dinode.
Definition BPB : Z := BSIZE * 8.
Definition IBLOCK (i : Z) (sb : superblock) : Z := u32 (i / IPB + sb_inodestart sb).
Definition BBLOCK (b : Z) (sb : superblock) : Z := u32 (b / BPB + sb_bmapstart sb).
Definition T_DIR : Z := 1.
Definition T_FILE : Z := 2.
Definition T_DEV : Z := 3.

(** ** Blocks *)

Definition bzero (dev bno : Z) : K unit :=
  bp ← bread (u32 dev) (u32 bno);
  _ ← mod_data bp (λ d, replicate (Z.to_nat BSIZE) 0);
  _ ← log_write bp;
  brelse bp.

(** Bit [bi] of a block of the free map. *)
Definition bit_free (d : list Z) (bi : Z) : bool :=
  Z.land (byte_at d (bi / 8)) (Z.shiftl 1 (bi mod 8)) =? 0.
Definition set_bit (d : list Z) (bi : Z) : list Z :=
  <[Z.to_nat (bi / 8) := Z.lor (byte_at d (bi / 8)) (Z.shiftl 1 (bi mod 8))]> d.
Definition clear_bit (d : list Z) (bi : Z) : list Z :=
  <[Z.to_nat (bi / 8) := Z.land (byte_at d (bi / 8)) (Z.lnot (Z.shiftl 1 (bi mod 8)))]> d.

(** The first free bit from [bi] on, at most [n] further. *)
Fixpoint scan_bits (n : nat) (d : list Z) (b bi size : Z) : option Z :=
  match n with
  | O => None
  | S n' =>
      if b + bi <? size then
        if bit_free d bi then Some bi else scan_bits n' d b (bi + 1) size
      else None
  end.

Fixpoint balloc_loop (fuel : nat) (dev b : Z) : K Z :=
  match fuel with
  | O => out_of_fuel
  | S fuel' =>
      s ← getk sb;
      if negb (b <? sb_size s) then panic "balloc: out of blocks" else
      bp ← bread dev (BBLOCK b s);
      d ← rd_data bp;
      s ← getk sb;
      match scan_bits (Z.to_nat BPB) d b 0 (sb_size s) with
      | Some bi =>
          _ ← mod_data bp (λ d, set_bit d bi);    (* Mark block in use. *)
          _ ← log_write bp;
          _ ← brelse bp;
          _ ← bzero dev (b + bi);
          mret (b + bi)
      | None =>
          _ ← brelse bp;
          balloc_loop fuel' dev (b + BPB)
      end
  end.
(** Allocate a zeroed disk block. *)
Definition balloc (dev : Z) : K Z :=
  s ← getk sb;
  balloc_loop (S (S (Z.to_nat (sb_size s / BPB)))) dev 0.

(** Free a disk block. *)
Definition bfree (dev b : Z) : K unit :=
  s ← getk sb;
  bp ← bread (u32 dev) (BBLOCK b s);
  let bi := b mod BPB in
  d ← rd_data bp;
  if bit_free d bi then panic "freeing free block" else
  _ ← mod_data bp (λ d, clear_bit d bi);
  _ ← log_write bp;
  brelse bp.

(** ** The inode cache *)

Definition NINODEn : nat := 50.
Definition rd_inode (ip : nat) : K inode := o ← getk (λ k, icache k !! ip); deref o.
Definition mod_inode (ip : nat) (f : inode → inode) : K unit :=
  modk (λ k, k <| icache ::= alter f ip |>).

Definition iinit (dev : Z) : K unit :=
  _ ← initlock L_icache "icache";
  _ ← for_each (seq 0 NINODEn) (λ i, initsleeplock (SL_inode i) "inode");
  s ← readsb dev;
  _ ← modk (λ k, k <| sb := s |>);
  cprintf (bytes_of "sb: size %d nblocks %d ninodes %d nlog %d logstart %d inodestart %d bmap start %d" ++ [10])
    [AInt (sb_size s); AInt (sb_nblocks s); AInt (sb_ninodes s); AInt (sb_nlog s);
     AInt (sb_logstart s); AInt (sb_inodestart s); AInt (sb_bmapstart s)].

(** The entry of the cache that holds the inode, or else the first empty one. *)
Fixpoint iget_scan (l : list inode) (i : nat) (empty : option nat) (dev inum : Z) : nat + option nat :=
  match l with
  | [] => inr empty
  | ip :: l' =>
      if (0 <? ip_ref ip) && (ip_dev ip =? dev) && (ip_inum ip =? inum) then inl i else
      let empty := match empty with
                   | None => if ip_ref ip =? 0 then Some i else None
                   | Some _ => empty
                   end in
      iget_scan l' (S i) empty dev inum
  end.

Definition iget (dev inum : Z) : K nat :=
  _ ← acquire L_icache;
  l ← getk icache;
  match iget_scan l 0 None dev inum with
  | inl ip =>
      _ ← mod_inode ip (λ ip, ip <| ip_ref ::= λ r, s32 (r + 1) |>);
      _ ← release L_icache;
      mret ip
  | inr None => panic "iget: no inodes"
  | inr (Some ip) =>
      (* Recycle an inode cache entry. *)
      _ ← mod_inode ip (λ ip, ip <| ip_dev := dev |>);
      _ ← mod_inode ip (λ ip, ip <| ip_inum := inum |>);
      _ ← mod_inode ip (λ ip, ip <| ip_ref := 1 |>);
      _ ← mod_inode ip (λ ip, ip <| ip_valid := 0 |>);
      _ ← release L_icache;
      mret ip
  end.

(** Offset of inode [inum] in its block, and the fields of [struct dinode]. *)
Definition dip_off (inum : Z) : Z := (inum mod IPB) * sizeof_dinode.
Definition dinode_addrs (d : list Z) (o : Z) : list Z :=
  (λ i, get32 d (o + 12 + 4 * Z.of_nat i)) <$> seq 0 (Z.to_nat (NDIRECT + 1)).

Fixpoint ialloc_loop (fuel : nat) (dev type inum : Z) : K nat :=
  match fuel with
  | O => out_of_fuel
  | S fuel' =>
      s ← getk sb;
      if negb (inum <? sb_ninodes s) then panic "ialloc: no inodes" else
      bp ← bread dev (IBLOCK inum s);
      d ← rd_data bp;
      let o := dip_off inum in
      if s16 (get16 d o) =? 0 then                       (* a free inode *)
        _ ← mod_data bp (λ d, splice d o (replicate (Z.to_nat sizeof_dinode) 0));
        _ ← mod_data bp (λ d, put16 d o type);
        _ ← log_write bp;                                (* mark it allocated on the disk *)
        _ ← brelse bp;
        iget dev inum
      else
        _ ← brelse bp;
        ialloc_loop fuel' dev type (inum + 1)
  end.
Definition ialloc (dev type : Z) : K nat :=
  s ← getk sb;
  ialloc_loop (S (Z.to_nat (sb_ninodes s))) dev type 1.

(** The inode's fields written at offset [o] of its block. *)
Definition put_dinode (d : list Z) (o : Z) (ip : inode) : list Z :=
  let d := put16 d o (ip_type ip) in
  let d := put16 d (o + 2) (ip_major ip) in
  let d := put16 d (o + 4) (ip_minor ip) in
  let d := put16 d (o + 6) (ip_nlink ip) in
  let d := put32 d (o + 8) (ip_size ip) in
  splice d (o + 12) (concat (bytes32 <$> ip_addrs ip)).

(** Copy a modified in-memory inode to disk. *)
Definition iupdate (ip : nat) : K unit :=
  x ← rd_inode ip;
  s ← getk sb;
  bp ← bread (ip_dev x) (IBLOCK (ip_inum x) s);
  x ← rd_inode ip;
  _ ← mod_data bp (λ d, put_dinode d (dip_off (ip_inum x)) x);
  _ ← log_write bp;
  brelse bp.

Definition idup (ip : nat) : K nat :=
  _ ← acquire L_icache;
  _ ← rd_inode ip;
  _ ← mod_inode ip (λ ip, ip <| ip_ref ::= λ r, s32 (r + 1) |>);
  _ ← release L_icache;
  mret ip.

(** The fields of [struct dinode] read into the cached inode. *)
Definition get_dinode (d : list Z) (o : Z) (ip : inode) : inode :=
  ip <| ip_type := s16 (get16 d o) |> <| ip_major := s16 (get16 d (o + 2)) |>
     <| ip_minor := s16 (get16 d (o + 4)) |> <| ip_nlink := s16 (get16 d (o + 6)) |>
     <| ip_size := get32 d (o + 8) |> <| ip_addrs := dinode_addrs d o |>.

Definition ilock (ipo : option nat) : K unit :=
  match ipo with
  | None => panic "ilock"
  | Some ip =>
      x ← rd_inode ip;
      if ip_ref x <? 1 then panic "ilock" else
      _ ← acquiresleep (SL_inode ip);
      x ← rd_inode ip;
      if negb (ip_valid x =? 0) then mret tt else
      s ← getk sb;
      bp ← bread (ip_dev x) (IBLOCK (ip_inum x) s);
      d ← rd_data bp;
      _ ← mod_inode ip (λ x, get_dinode d (dip_off (ip_inum x)) x);
      _ ← brelse bp;
      _ ← mod_inode ip (λ x, x <| ip_valid := 1 |>);
      x ← rd_inode ip;
      when (ip_type x =? 0) (panic "ilock: no type")
  end.

Definition iunlock (ipo : option nat) : K unit :=
  match ipo with
  | None => panic "iunlock"
  | Some ip =>
      h ← holdingsleep (SL_inode ip);
      if negb h then panic "iunlock" else
      x ← rd_inode ip;
      if ip_ref x <? 1 then panic "iunlock" else
      releasesleep (SL_inode ip)
  end.

(** Truncate inode (discard contents). *)
Definition itrunc (ip : nat) : K unit :=
  _ ← for_each (seq 0 (Z.to_nat NDIRECT)) (λ i,
        x ← rd_inode ip;
        a ← deref (ip_addrs x !! i);
        when (truthy a)
          (_ ← bfree (ip_dev x) a;
           mod_inode ip (λ x, x <| ip_addrs ::= insert i 0 |>)));
  x ← rd_inode ip;
  ind ← deref (ip_addrs x !! Z.to_nat NDIRECT);
  _ ← when (truthy ind)
        (bp ← bread (ip_dev x) ind;
         _ ← for_each (seq 0 (Z.to_nat NINDIRECT)) (λ j,
               d ← rd_data bp;
               x ← rd_inode ip;
               let a := get32 d (4 * Z.of_nat j) in
               when (truthy a) (bfree (ip_dev x) a));
         _ ← brelse bp;
         x ← rd_inode ip;
         ind ← deref (ip_addrs x !! Z.to_nat NDIRECT);
         _ ← bfree (ip_dev x) ind;
         mod_inode ip (λ x, x <| ip_addrs ::= insert (Z.to_nat NDIRECT) 0 |>));
  _ ← mod_inode ip (λ x, x <| ip_size := 0 |>);
  iupdate ip.

Definition iput (ip : nat) : K unit :=
  _ ← acquiresleep (SL_inode ip);
  x ← rd_inode ip;
  _ ← when (truthy (ip_valid x) && (ip_nlink x =? 0))
        (_ ← acquire L_icache;
         x ← rd_inode ip;
         let r := ip_ref x in
         _ ← release L_icache;
         when (r =? 1)
           (* inode has no links and no other references: truncate and free. *)
           (_ ← itrunc ip;
            _ ← mod_inode ip (λ x, x <| ip_type := 0 |>);
            _ ← iupdate ip;
            mod_inode ip (λ x, x <| ip_valid := 0 |>)));
  _ ← releasesleep (SL_inode ip);
  _ ← acquire L_icache;
  _ ← mod_inode ip (λ ip, ip <| ip_ref ::= λ r, s32 (r - 1) |>);
  release L_icache.

Definition iunlockput (ipo : option nat) : K unit :=
  _ ← iunlock ipo;
  ip ← deref ipo;
  iput ip.

(** ** Inode content *)

(** [addrs[i]], a block being allocated when it is zero. *)
Definition inode_block (ip : nat) (i : Z) : K Z :=
  x ← rd_inode ip;
  addr ← deref (ip_addrs x !! Z.to_nat i);
  if addr =? 0 then
    addr ← balloc (ip_dev x);
    _ ← mod_inode ip (λ x, x <| ip_addrs ::= insert (Z.to_nat i) addr |>);
    mret addr
  else mret addr.

Definition bmap (ip : nat) (bn : Z) : K Z :=
  if bn <? NDIRECT then inode_block ip bn else
  let bn := bn - NDIRECT in
  if bn <? NINDIRECT then
    (* Load indirect block, allocating if necessary. *)
    addr ← inode_block ip NDIRECT;
    x ← rd_inode ip;
    bp ← bread (ip_dev x) addr;
    d ← rd_data bp;
    let a := get32 d (4 * bn) in
    addr ← (if a =? 0 then
              x ← rd_inode ip;
              addr ← balloc (ip_dev x);
              _ ← mod_data bp (λ d, put32 d (4 * bn) addr);
              _ ← log_write bp;
              mret addr
            else mret a);
    _ ← brelse bp;
    mret addr
  else panic "bmap: out of range".

(** [struct stat], and the copy of stat information from an inode. *)
Record stat := mkStat { st_type : Z; st_dev : Z; st_ino : Z; st_nlink : Z; st_size : Z }.
Definition stati (ip : nat) : K stat :=
  x ← rd_inode ip;
  mret (mkStat (ip_type x) (s32 (ip_dev x)) (ip_inum x) (ip_nlink x) (ip_size x)).

End Inode.
