(* ===== verification/Fs.v ===== *)
(** * fs.c, console.c: reading and writing files, directories and paths

    A buffer given by the caller is a list of bytes: [writei] receives the bytes
    at the source address, [readi] returns those it stores at the destination. *)

From S2P Require Import Prelude Layout State Str Spinlock Kalloc Vm Sched Sleeplock Ports Apic Console Bio Log Inode.

Section Fs.
Context `{KernelSyms} `{DiskDriver}.

(** ** console.c: consoleread, consolewrite *)

(** [while(input.r == input.w)]: true when the process has been killed. *)
Fixpoint wait_input (fuel : nat) : K bool :=
  match fuel with
  | O => out_of_fuel
  | S fuel' =>
      d ← getk devs;
      if negb (in_r d =? in_w d) then mret false else
      p ← curproc;
      pr ← rd_proc p;
      if truthy (killed pr) then mret true else
      _ ← sleep ch_input (Some L_cons);
      wait_input fuel'
  end.

(** [n] bytes are still wanted and [acc] are the bytes stored; [None] stands for
    the return after a kill. *)
Fixpoint consoleread_loop (fuel : nat) (n target : Z) (acc : list Z) : K (option Z * list Z) :=
  match fuel with
  | O => out_of_fuel
  | S fuel' =>
      if negb (0 <? n) then mret (Some n, acc) else
      k ← gets (λ w, length (resumes w));
      dead ← wait_input (S k);
      if (dead : bool) then mret (None, acc) else
      d ← getk devs;
      let c := in_at d (in_r d) in
      _ ← mod_dev (λ d, d <| in_r ::= λ r, u32 (r + 1) |>);
      if c =? ctl "D" then                                 (* EOF *)
        _ ← when (u32 n <? target) (mod_dev (λ d, d <| in_r ::= λ r, u32 (r - 1) |>));
        mret (Some n, acc)
      else
        let acc := acc ++ [u8 c] in
        if c =? 10 then mret (Some (n - 1), acc) else consoleread_loop fuel' (n - 1) target acc
  end.

Definition consoleread (ip : nat) (n : Z) : K (Z * list Z) :=
  _ ← iunlock (Some ip);
  let target := u32 n in
  _ ← acquire L_cons;
  '(r, acc) ← consoleread_loop (S (Z.to_nat n)) n target [];
  _ ← release L_cons;
  _ ← ilock (Some ip);
  match r with
  | None => mret (-1, acc)
  | Some n => mret (s32 (target - n), acc)
  end.

Definition consolewrite (ip : nat) (buf : list Z) (n : Z) : K Z :=
  _ ← iunlock (Some ip);
  _ ← acquire L_cons;
  _ ← for_each (take (Z.to_nat n) buf) (λ c, consputc (Z.land c 0xff));
  _ ← release L_cons;
  _ ← ilock (Some ip);
  mret n.

(** [devsw[major]], null when it has no functions. *)
Definition dev_entry (major : Z) : K (option device) :=
  if (major <? 0) || (NDEV <=? major) then mret None else
  o ← get_dev (λ d, devsw d !! Z.to_nat major);
  match o with
  | Some DEV_console => mret (Some DEV_console)
  | _ => mret None
  end.

(** ** readi, writei *)

Fixpoint readi_loop (fuel : nat) (ip : nat) (tot off n : Z) (acc : list Z) : K (list Z) :=
  match fuel with
  | O => out_of_fuel
  | S fuel' =>
      if negb (tot <? n) then mret acc else
      x ← rd_inode ip;
      a ← bmap ip (off / BSIZE);
      bp ← bread (ip_dev x) a;
      let m := Z.min (n - tot) (BSIZE - off mod BSIZE) in
      d ← rd_data bp;
      _ ← brelse bp;
      readi_loop fuel' ip (tot + m) (u32 (off + m)) n (acc ++ slice d (off mod BSIZE) m)
  end.

Definition readi (ip : nat) (off n : Z) : K (Z * list Z) :=
  x ← rd_inode ip;
  if ip_type x =? T_DEV then
    o ← dev_entry (ip_major x);
    match o with None => mret (-1, []) | Some _ => consoleread ip (s32 n) end
  else
  if (ip_size x <? off) || (u32 (off + n) <? off) then mret (-1, []) else
  let n := if ip_size x <? off + n then ip_size x - off else n in
  l ← readi_loop (3 + Z.to_nat (n / BSIZE)) ip 0 off n [];
  mret (n, l).

Fixpoint writei_loop (fuel : nat) (ip : nat) (src : list Z) (tot off n : Z) : K Z :=
  match fuel with
  | O => out_of_fuel
  | S fuel' =>
      if negb (tot <? n) then mret off else
      x ← rd_inode ip;
      a ← bmap ip (off / BSIZE);
      bp ← bread (ip_dev x) a;
      let m := Z.min (n - tot) (BSIZE - off mod BSIZE) in
      _ ← mod_data bp (λ d, splice d (off mod BSIZE) (slice src tot m));
      _ ← log_write bp;
      _ ← brelse bp;
      writei_loop fuel' ip src (tot + m) (u32 (off + m)) n
  end.

Definition writei (ip : nat) (src : list Z) (off n : Z) : K Z :=
  x ← rd_inode ip;
  if ip_type x =? T_DEV then
    o ← dev_entry (ip_major x);
    match o with None => mret (-1) | Some _ => consolewrite ip src (s32 n) end
  else
  if (ip_size x <? off) || (u32 (off + n) <? off) then mret (-1) else
  if MAXFILE * BSIZE <? off + n then mret (-1) else
  off ← writei_loop (3 + Z.to_nat (n / BSIZE)) ip src 0 off n;
  x ← rd_inode ip;
  _ ← when ((0 <? n) && (ip_size x <? off))
        (_ ← mod_inode ip (λ x, x <| ip_size := off |>);
         iupdate ip);
  mret (s32 n).

(** ** Directories *)

Definition DIRSIZ : Z := 14.
Definition sizeof_dirent : Z := 16.

(** Two byte arrays laid out in a memory, the second from address 4096. *)
Definition two_bufs (s t : list Z) : memory :=
  λ a, if a <? 4096 then nth (Z.to_nat a) s 0 else nth (Z.to_nat (a - 4096)) t 0.
Definition read_bytes (m : memory) (a : Z) (n : nat) : list Z :=
  (λ i, m (a + Z.of_nat i)) <$> seq 0 n.

Definition namecmp (s t : list Z) : Z := strncmp (two_bufs s t) 0 4096 (Z.to_nat DIRSIZ).

(** [struct dirent] in 16 bytes. *)
Definition de_inum (de : list Z) : Z := get16 de 0.
Definition de_name (de : list Z) : list Z := slice de 2 DIRSIZ.

Fixpoint dirlookup_loop (fuel : nat) (dp : nat) (name : list Z) (off : Z) : K (option (nat * Z)) :=
  match fuel with
  | O => out_of_fuel
  | S fuel' =>
      x ← rd_inode dp;
      if negb (off <? ip_size x) then mret None else
      '(r, de) ← readi dp off sizeof_dirent;
      if negb (r =? sizeof_dirent) then panic "dirlookup read" else
      if de_inum de =? 0 then dirlookup_loop fuel' dp name (u32 (off + sizeof_dirent)) else
      if namecmp name (de_name de) =? 0 then
        (* entry matches path element *)
        x ← rd_inode dp;
        ip ← iget (ip_dev x) (de_inum de);
        mret (Some (ip, off))
      else dirlookup_loop fuel' dp name (u32 (off + sizeof_dirent))
  end.
(** The inode and the byte offset of its entry. *)
Definition dirlookup (dp : nat) (name : list Z) : K (option (nat * Z)) :=
  x ← rd_inode dp;
  if negb (ip_type x =? T_DIR) then panic "dirlookup not DIR" else
  dirlookup_loop (2 + Z.to_nat (ip_size x / sizeof_dirent)) dp name 0.

(** The offset of the first empty entry, or the end of the directory. *)
Fixpoint find_empty (fuel : nat) (dp : nat) (off : Z) : K Z :=
  match fuel with
  | O => out_of_fuel
  | S fuel' =>
      x ← rd_inode dp;
      if negb (off <? ip_size x) then mret off else
      '(r, de) ← readi dp off sizeof_dirent;
      if negb (r =? sizeof_dirent) then panic "dirlink read" else
      if de_inum de =? 0 then mret off else find_empty fuel' dp (off + sizeof_dirent)
  end.

Definition name_field (name : list Z) : list Z :=
  read_bytes (strncpy (two_bufs [] name) 0 4096 (Z.to_nat DIRSIZ)) 0 (Z.to_nat DIRSIZ).

Definition dirlink (dp : nat) (name : list Z) (inum : Z) : K Z :=
  (* Check that name is not present. *)
  o ← dirlookup dp name;
  match o with
  | Some (ip, _) => _ ← iput ip; mret (-1)
  | None =>
      (* Look for an empty dirent. *)
      x ← rd_inode dp;
      off ← find_empty (2 + Z.to_nat (ip_size x / sizeof_dirent)) dp 0;
      let de := bytes16 inum ++ name_field name in
      r ← writei dp de (u32 off) sizeof_dirent;
      if negb (r =? sizeof_dirent) then panic "dirlink" else mret 0
  end.

(** ** Paths *)

Definition SLASH : Z := 47.
Fixpoint skip_slashes (path : list Z) : list Z :=
  match path with
  | c :: p => if c =? SLASH then skip_slashes p else path
  | [] => []
  end.
(** The characters up to the next slash, and the rest. *)
Fixpoint span_elem (path : list Z) : list Z * list Z :=
  match path with
  | c :: p => if c =? SLASH then ([], path) else let '(s, q) := span_elem p in (c :: s, q)
  | [] => ([], [])
  end.
(** A path is the bytes before its terminating zero; [None] is the null pointer.
    [name] is the caller's array of [DIRSIZ] bytes. *)
Definition skipelem (path name : list Z) : option (list Z * list Z) :=
  let path := skip_slashes path in
  match path with
  | [] => None
  | _ =>
      let '(s, path) := span_elem path in
      let len := Z.of_nat (length s) in
      let name := if DIRSIZ <=? len then splice name 0 (slice s 0 DIRSIZ)
                  else splice (splice name 0 s) len [0] in
      Some (skip_slashes path, name)
  end.

Fixpoint namex_loop (fuel : nat) (ip : nat) (path : list Z) (nameiparent : bool) (name : list Z)
  : K (option nat * list Z) :=
  match fuel with
  | O => out_of_fuel
  | S fuel' =>
      match skipelem path name with
      | None =>
          if nameiparent then _ ← iput ip; mret (None, name) else mret (Some ip, name)
      | Some (path, name) =>
          _ ← ilock (Some ip);
          x ← rd_inode ip;
          if negb (ip_type x =? T_DIR) then _ ← iunlockput (Some ip); mret (None, name) else
          if nameiparent && bool_decide (path = []) then
            (* Stop one level early. *)
            _ ← iunlock (Some ip);
            mret (Some ip, name)
          else
          o ← dirlookup ip name;
          match o with
          | None => _ ← iunlockput (Some ip); mret (None, name)
          | Some (next, _) =>
              _ ← iunlockput (Some ip);
              namex_loop fuel' next path nameiparent name
          end
      end
  end.
Definition namex (path : list Z) (nameiparent : bool) (name : list Z) : K (option nat * list Z) :=
  ip ← (match path with
        | c :: _ => if c =? SLASH then iget ROOTDEV ROOTINO
                    else p ← curproc; s ← rd_shared p; c ← deref (cwd s); idup c
        | [] => p ← curproc; s ← rd_shared p; c ← deref (cwd s); idup c
        end);
  namex_loop (S (length path)) ip path nameiparent name.

(** The array [name] is not initialised; [skipelem] sets what is read of it. *)
Definition namei (path : list Z) : K (option nat) :=
  '(ip, _) ← namex path false (replicate (Z.to_nat DIRSIZ) 0);
  mret ip.
Definition nameiparent (path name : list Z) : K (option nat * list Z) := namex path true name.

End Fs.
