(* ===== verification/File.v ===== *)
(** * file.c, pipe.c: file descriptors and pipes

    Buffers are lists of bytes, as in Fs.v. *)

From S2P Require Import Prelude Layout State Str Spinlock Kalloc Vm Sched Sleeplock Ports Apic Console Bio Log Inode Fs.

Section File.
Context `{KernelSyms} `{DiskDriver}.

(** ** pipe.c *)

Definition rd_pipe (p : Z) : K pipe := o ← getk (λ k, pipes k !! p); deref o.
Definition mod_pipe (p : Z) (f : pipe → pipe) : K unit := modk (λ k, k <| pipes ::= alter f p |>).

Definition pipeclose (p : Z) (writable : Z) : K unit :=
  _ ← acquire (L_pipe p);
  _ ← rd_pipe p;
  _ ← (if truthy writable then
         _ ← mod_pipe p (λ p, p <| p_writeopen := 0 |>);
         wakeup (ch_pipe_nread p)
       else
         _ ← mod_pipe p (λ p, p <| p_readopen := 0 |>);
         wakeup (ch_pipe_nwrite p));
  x ← rd_pipe p;
  if (p_readopen x =? 0) && (p_writeopen x =? 0) then
    _ ← release (L_pipe p);
    kfree p
  else release (L_pipe p).

(** [while(p->nwrite == p->nread + PIPESIZE)]; false when the write is given up. *)
Fixpoint wait_room (fuel : nat) (p : Z) : K bool :=
  match fuel with
  | O => out_of_fuel
  | S fuel' =>
      x ← rd_pipe p;
      if negb (p_nwrite x =? u32 (p_nread x + PIPESIZE)) then mret true else
      dead ← (if p_readopen x =? 0 then mret true
              else q ← curproc; pr ← rd_proc q; mret (truthy (killed pr)));
      if (dead : bool) then mret false else
      _ ← wakeup (ch_pipe_nread p);
      _ ← sleep (ch_pipe_nwrite p) (Some (L_pipe p));
      wait_room fuel' p
  end.

(** [p->data[p->nwrite++ % PIPESIZE] = c] *)
Definition pipe_put (c : Z) (x : pipe) : pipe :=
  x <| p_data ::= insert (Z.to_nat (p_nwrite x mod PIPESIZE)) c |>
    <| p_nwrite ::= λ n, u32 (n + 1) |>.

Fixpoint pipewrite_loop (p : Z) (l : list Z) : K bool :=
  match l with
  | [] => mret true
  | c :: l' =>
      n ← gets (λ w, length (resumes w));
      ok ← wait_room (S n) p;
      if negb (ok : bool) then mret false else
      _ ← mod_pipe p (pipe_put c);
      pipewrite_loop p l'
  end.

Definition pipewrite (p : Z) (addr : list Z) (n : Z) : K Z :=
  _ ← acquire (L_pipe p);
  ok ← pipewrite_loop p (take (Z.to_nat n) addr);
  if negb (ok : bool) then _ ← release (L_pipe p); mret (-1) else
  _ ← wakeup (ch_pipe_nread p);
  _ ← release (L_pipe p);
  mret n.

(** [while(p->nread == p->nwrite && p->writeopen)]; false when killed. *)
Fixpoint wait_data (fuel : nat) (p : Z) : K bool :=
  match fuel with
  | O => out_of_fuel
  | S fuel' =>
      x ← rd_pipe p;
      if negb ((p_nread x =? p_nwrite x) && truthy (p_writeopen x)) then mret true else
      q ← curproc;
      pr ← rd_proc q;
      if truthy (killed pr) then mret false else
      _ ← sleep (ch_pipe_nread p) (Some (L_pipe p));
      wait_data fuel' p
  end.

(** At most [n] bytes taken from the pipe. *)
Fixpoint piperead_loop (n : nat) (p : Z) : K (list Z) :=
  match n with
  | O => mret []
  | S n' =>
      x ← rd_pipe p;
      if p_nread x =? p_nwrite x then mret [] else
      c ← deref (p_data x !! Z.to_nat (p_nread x mod PIPESIZE));
      _ ← mod_pipe p (λ x, x <| p_nread ::= λ n, u32 (n + 1) |>);
      l ← piperead_loop n' p;
      mret (c :: l)
  end.

Definition piperead (p : Z) (n : Z) : K (Z * list Z) :=
  _ ← acquire (L_pipe p);
  k ← gets (λ w, length (resumes w));
  ok ← wait_data (S k) p;
  if negb (ok : bool) then _ ← release (L_pipe p); mret (-1, []) else
  l ← piperead_loop (Z.to_nat n) p;
  _ ← wakeup (ch_pipe_nwrite p);
  _ ← release (L_pipe p);
  mret (Z.of_nat (length l), l).

(** ** file.c *)

Definition NFILEn : nat := 100.
Definition rd_file (f : nat) : K file := o ← getk (λ k, ftable k !! f); deref o.
Definition mod_file (f : nat) (g : file → file) : K unit := modk (λ k, k <| ftable ::= alter g f |>).

Definition fileinit : K unit := initlock L_ftable "ftable".

Definition filealloc : K (option nat) :=
  _ ← acquire L_ftable;
  o ← for_find (seq 0 NFILEn) (λ f, x ← rd_file f; mret (if f_ref x =? 0 then Some f else None));
  _ ← match o with Some f => mod_file f (λ x, x <| f_ref := 1 |>) | None => mret tt end;
  _ ← release L_ftable;
  mret o.

Definition filedup (f : nat) : K nat :=
  _ ← acquire L_ftable;
  x ← rd_file f;
  if f_ref x <? 1 then panic "filedup" else
  _ ← mod_file f (λ x, x <| f_ref ::= λ r, s32 (r + 1) |>);
  _ ← release L_ftable;
  mret f.

Definition fileclose (f : nat) : K unit :=
  _ ← acquire L_ftable;
  x ← rd_file f;
  if f_ref x <? 1 then panic "fileclose" else
  _ ← mod_file f (λ x, x <| f_ref ::= λ r, r - 1 |>);
  ff ← rd_file f;
  if 0 <? f_ref ff then release L_ftable else
  _ ← mod_file f (λ x, x <| f_ref := 0 |>);
  _ ← mod_file f (λ x, x <| f_type := FD_NONE |>);
  _ ← release L_ftable;
  match f_type ff with
  | FD_PIPE => pipeclose (f_pipe ff) (f_writable ff)
  | FD_INODE =>
      _ ← begin_op;
      ip ← deref (f_ip ff);
      _ ← iput ip;
      end_op
  | FD_NONE => mret tt
  end.

(** The new [struct stat], or [None] for the result -1. *)
Definition filestat (f : nat) : K (option stat) :=
  x ← rd_file f;
  if bool_decide (f_type x = FD_INODE) then
    _ ← ilock (f_ip x);
    ip ← deref (f_ip x);
    st ← stati ip;
    _ ← iunlock (f_ip x);
    mret (Some st)
  else mret None.

Definition fileread (f : nat) (n : Z) : K (Z * list Z) :=
  x ← rd_file f;
  if f_readable x =? 0 then mret (-1, []) else
  match f_type x with
  | FD_PIPE => piperead (f_pipe x) n
  | FD_INODE =>
      _ ← ilock (f_ip x);
      ip ← deref (f_ip x);
      x ← rd_file f;
      '(r, l) ← readi ip (f_off x) (u32 n);
      let r := s32 r in
      _ ← when (0 <? r) (mod_file f (λ x, x <| f_off ::= λ o, u32 (o + r) |>));
      _ ← iunlock (f_ip x);
      mret (r, l)
  | FD_NONE => panic "fileread"
  end.

Fixpoint filewrite_loop (fuel : nat) (f : nat) (addr : list Z) (i n : Z) : K Z :=
  match fuel with
  | O => out_of_fuel
  | S fuel' =>
      if negb (i <? n) then mret i else
      (* write a few blocks at a time to avoid exceeding the maximum log transaction size *)
      let max := ((MAXOPBLOCKS - 1 - 1 - 2) / 2) * 512 in
      let n1 := n - i in
      let n1 := if max <? n1 then max else n1 in
      _ ← begin_op;
      x ← rd_file f;
      _ ← ilock (f_ip x);
      ip ← deref (f_ip x);
      x ← rd_file f;
      r ← writei ip (drop (Z.to_nat i) addr) (f_off x) n1;
      _ ← when (0 <? r) (mod_file f (λ x, x <| f_off ::= λ o, u32 (o + r) |>));
      _ ← iunlock (f_ip x);
      _ ← end_op;
      if r <? 0 then mret i else
      if negb (r =? n1) then panic "short filewrite" else
      filewrite_loop fuel' f addr (i + r) n
  end.

Definition filewrite (f : nat) (addr : list Z) (n : Z) : K Z :=
  x ← rd_file f;
  if f_writable x =? 0 then mret (-1) else
  match f_type x with
  | FD_PIPE => pipewrite (f_pipe x) addr n
  | FD_INODE =>
      i ← filewrite_loop (S (Z.to_nat n)) f addr 0 n;
      mret (if i =? n then n else -1)
  | FD_NONE => panic "filewrite"
  end.

(** ** pipe.c: pipealloc *)

Definition new_pipe : pipe := mkPipe (replicate (Z.to_nat PIPESIZE) 0) 0 0 1 1.

(** The label [bad]. *)
Definition pipealloc_bad (p : Z) (f0 f1 : option nat) : K (option (nat * nat)) :=
  _ ← when (truthy p) (kfree p);
  _ ← match f0 with Some f => fileclose f | None => mret tt end;
  _ ← match f1 with Some f => fileclose f | None => mret tt end;
  mret None.

(** The two files, or [None] for the result -1.  What [data] holds is not defined
    until it is written. *)
Definition pipealloc : K (option (nat * nat)) :=
  f0 ← filealloc;
  match f0 with
  | None => pipealloc_bad 0 None None
  | Some f0 =>
      f1 ← filealloc;
      match f1 with
      | None => pipealloc_bad 0 (Some f0) None
      | Some f1 =>
          p ← kalloc;
          if p =? 0 then pipealloc_bad 0 (Some f0) (Some f1) else
          _ ← modk (λ k, k <| pipes ::= insert p new_pipe |>);
          _ ← initlock (L_pipe p) "pipe";
          _ ← mod_file f0 (λ f, f <| f_type := FD_PIPE |> <| f_readable := 1 |> <| f_writable := 0 |> <| f_pipe := p |>);
          _ ← mod_file f1 (λ f, f <| f_type := FD_PIPE |> <| f_readable := 0 |> <| f_writable := 1 |> <| f_pipe := p |>);
          mret (Some (f0, f1))
      end
  end.

End File.
