(* ===== verification/Proc.v ===== *)
(** * proc.c: processes

    Creation, growth, forking, exit, wait and kill of processes.  Scheduling is in
    Sched.v and the thread calls are in Thread.v. *)

From S2P Require Import Prelude Layout State Str Spinlock Kalloc Vm Sched Uaccess Sleeplock Ports Apic Console Bio Log Inode Fs File.

Section Proc.
Context `{KernelSyms} `{DiskDriver}.

Definition pinit : K unit := initlock L_ptable "ptable".

(** ** allocproc *)

Definition allocproc : K (option nat) :=
  _ ← acquire L_ptable;
  o ← for_find (seq 0 NPROCn) (λ i,
        p ← rd_proc i; mret (if bool_decide (state p = UNUSED) then Some i else None));
  match o with
  | None => _ ← release L_ptable; mret None
  | Some p =>
      _ ← mod_proc p (λ p, p <| state := EMBRYO |>);
      n ← getk nextpid;
      _ ← modk (λ k, k <| nextpid := s32 (n + 1) |>);
      _ ← mod_proc p (λ p, p <| pid := n |>);
      _ ← release L_ptable;
      (* Allocate kernel stack. *)
      st ← kalloc;
      _ ← mod_proc p (λ p, p <| kstack := st |>);
      if st =? 0 then
        _ ← mod_proc p (λ p, p <| state := UNUSED |>);
        mret None
      else
      let sp := st + KSTACKSIZE in
      (* Leave room for trap frame. *)
      let sp := sp - sizeof_trapframe in
      _ ← mod_proc p (λ p, p <| tf := sp |>);
      (* Set up new context to start executing at forkret, which returns to trapret. *)
      let sp := sp - 4 in
      _ ← st32 sp sym_trapret;
      let sp := sp - sizeof_context in
      _ ← mod_proc p (λ p, p <| pcontext := sp |>);
      _ ← modk (λ k, k <| ctxs ::= insert sp (zero_context <| c_eip := sym_forkret |>) |>);
      mret (Some p)
  end.

(** [*p->tf]. *)
Definition rd_tf (p : nat) : K trapframe :=
  pr ← rd_proc p;
  o ← getk (λ k, frames k !! tf pr);
  deref o.
Definition wr_tf (p : nat) (t : trapframe) : K unit :=
  pr ← rd_proc p;
  modk (λ k, k <| frames ::= insert (tf pr) t |>).
Definition mod_tf (p : nat) (f : trapframe → trapframe) : K unit := t ← rd_tf p; wr_tf p (f t).

(** A C string copied into the 16 bytes of [name]. *)
Definition copy_name (old src : list Z) : list Z :=
  read_bytes (safestrcpy (two_bufs old src) 0 4096 16) 0 16.

(** ** userinit *)

Definition userinit : K unit :=
  o ← allocproc;
  mem ← kalloc;
  if mem =? 0 then fault else
  _ ← modk (λ k, k <| shared ::= insert mem zero_shared |>);
  p ← deref o;
  _ ← mod_proc p (λ p, p <| sharePtr := mem |>);
  _ ← modk (λ k, k <| initproc := Some p |>);
  pd ← setupkvm;
  _ ← mod_shared p (λ s, s <| pgdir := pd |>);
  if pd =? 0 then panic "userinit: out of memory?" else
  _ ← inituvm pd sym_initcode initcode_size;
  _ ← mod_shared p (λ s, s <| sz := PGSIZE |>);
  let ucode := Z.lor (Z.shiftl SEG_UCODE 3) DPL_USER in
  let udata := Z.lor (Z.shiftl SEG_UDATA 3) DPL_USER in
  _ ← wr_tf p (zero_tf <| tf_cs := ucode |> <| tf_ds := udata |> <| tf_es := udata |>
        <| tf_ss := udata |> <| tf_eflags := FL_IF |> <| tf_esp := PGSIZE |> <| tf_eip := 0 |>);
  _ ← mod_proc p (λ p, p <| pname ::= λ n, copy_name n (bytes_of "initcode") |>);
  c ← namei (bytes_of "/");
  _ ← mod_shared p (λ s, s <| cwd := c |>);
  _ ← mod_shared p (λ s, s <| numOfThread := 1 |>);
  _ ← mod_shared p (λ s, s <| threads ::= insert 0%nat (Some p) |>);
  _ ← mod_shared p (λ s, s <| isThere ::= insert 0%nat 1 |>);
  _ ← mod_proc p (λ p, p <| orderOfThread := 0 |>);
  _ ← acquire L_ptable;
  _ ← mod_proc p (λ p, p <| state := RUNNABLE |>);
  release L_ptable.

(** ** growproc *)

Definition growproc (n : Z) : K Z :=
  p ← curproc;
  _ ← acquire L_ptable;
  s ← rd_shared p;
  let sz0 := sz s in
  r ← (if 0 <? n then
         r ← allocuvm (pgdir s) sz0 (u32 (sz0 + n));
         mret (if r =? 0 then None else Some r)
       else if n <? 0 then
         r ← deallocuvm (pgdir s) sz0 (u32 (sz0 + n));
         mret (if r =? 0 then None else Some r)
       else mret (Some sz0));
  match r with
  | None => mret (-1)
  | Some sz' =>
      _ ← mod_shared p (λ s, s <| sz := sz' |>);
      _ ← switchuvm (Some p);
      _ ← release L_ptable;
      mret 0
  end.

(** ** fork *)

(** The registers, files, directory and name of [curproc] given to [np]. *)
Definition fork_copy (curproc np : nat) : K unit :=
  s ← rd_shared curproc;
  _ ← mod_shared np (λ t, t <| sz := sz s |>);
  _ ← mod_proc np (λ p, p <| parent := Some curproc |>);
  t ← rd_tf curproc;
  (* Clear %eax so that fork returns 0 in the child. *)
  _ ← wr_tf np (t <| tf_eax := 0 |>);
  _ ← for_each (seq 0 (Z.to_nat NOFILE)) (λ i,
        s ← rd_shared curproc;
        f ← deref (ofile s !! i);
        match f with
        | Some f => f ← filedup f; mod_shared np (λ t, t <| ofile ::= insert i (Some f) |>)
        | None => mret tt
        end);
  s ← rd_shared curproc;
  c ← deref (cwd s);
  c ← idup c;
  _ ← mod_shared np (λ t, t <| cwd := Some c |>);
  pr ← rd_proc curproc;
  mod_proc np (λ p, p <| pname ::= λ n, copy_name n (pname pr) |>).

(** [np] made the only thread, and the master, of the new process. *)
Definition fork_publish (np : nat) : K unit :=
  _ ← acquire L_ptable;
  _ ← mod_shared np (λ t, t <| numOfThread := 1 |>);
  _ ← for_each (seq 1 5) (λ i, mod_shared np (λ t, t <| isThere ::= insert i 0 |>));
  _ ← mod_proc np (λ p, p <| orderOfThread := 0 |>);
  _ ← mod_shared np (λ t, t <| isThere ::= insert 0%nat 1 |>);
  _ ← mod_shared np (λ t, t <| threads ::= insert 0%nat (Some np) |>);
  _ ← mod_proc np (λ p, p <| imMaster := 1 |>);
  _ ← mod_proc np (λ p, p <| state := RUNNABLE |>);
  release L_ptable.

Definition fork : K Z :=
  curproc ← curproc;
  o ← allocproc;
  match o with
  | None => _ ← cprintf (bytes_of "allocproc Failed!" ++ [10]) []; mret (-1)
  | Some np =>
      mem ← kalloc;
      if mem =? 0 then
        _ ← cprintf (bytes_of "kalloc Failed!" ++ [10]) [];
        _ ← mod_proc np (λ p, p <| state := UNUSED |>);
        mret (-1)
      else
      _ ← modk (λ k, k <| shared ::= insert mem zero_shared |>);
      _ ← mod_proc np (λ p, p <| sharePtr := mem |>);
      s ← rd_shared curproc;
      pd ← copyuvm (pgdir s) (sz s);
      _ ← mod_shared np (λ t, t <| pgdir := pd |>);
      if pd =? 0 then
        _ ← cprintf (bytes_of "copyuvm Failed!" ++ [10]) [];
        pr ← rd_proc np;
        _ ← kfree (kstack pr);
        _ ← mod_proc np (λ p, p <| kstack := 0 |>);
        _ ← mod_proc np (λ p, p <| state := UNUSED |>);
        mret (-1)
      else
      _ ← fork_copy curproc np;
      pr ← rd_proc np;
      let pid := pid pr in
      _ ← fork_publish np;
      mret pid
  end.

(** ** exit *)

Definition close_files (curproc : nat) : K unit :=
  for_each (seq 0 (Z.to_nat NOFILE)) (λ fd,
    s ← rd_shared curproc;
    f ← deref (ofile s !! fd);
    match f with
    | Some f => _ ← fileclose f; mod_shared curproc (λ s, s <| ofile ::= insert fd None |>)
    | None => mret tt
    end).

Definition exit : K unit :=
  curproc ← curproc;
  ini ← getk initproc;
  if bool_decide (ini = Some curproc) then panic "init exiting" else
  _ ← close_files curproc;
  _ ← begin_op;
  s ← rd_shared curproc;
  c ← deref (cwd s);
  _ ← iput c;
  _ ← end_op;
  _ ← mod_shared curproc (λ s, s <| cwd := None |>);
  _ ← acquire L_ptable;
  (* Parent might be sleeping in wait(). *)
  pr ← rd_proc curproc;
  _ ← wakeup1 (chan_of_proc (parent pr));
  (* Pass abandoned children to init. *)
  _ ← for_each (seq 0 NPROCn) (λ i,
        p ← rd_proc i;
        when (bool_decide (parent p = Some curproc))
          (ini ← getk initproc;
           _ ← mod_proc i (λ p, p <| parent := ini |>);
           when (bool_decide (state p = ZOMBIE)) (wakeup1 (chan_of_proc ini))));
  (* Terminate all threads of the current process. *)
  _ ← for_each (seq 0 NPROCn) (λ i,
        p ← rd_proc i;
        c ← rd_proc curproc;
        when ((sharePtr p =? sharePtr c) && negb (i =? curproc)%nat)
          (mod_proc i (λ p, p <| state := ZOMBIE |>)));
  (* Jump into the scheduler, never to return. *)
  _ ← mod_proc curproc (λ p, p <| state := ZOMBIE |>);
  _ ← sched;
  panic "zombie exit".

(** ** wait *)

(** The body of the loop over [threads] for the exited child [p]. *)
Definition wait_reap (p i : nat) : K unit :=
  sh ← rd_shared p;
  t ← deref (threads sh !! i);
  st ← pread t (λ q, procstate_code (state q)) off_state;
  if negb (st =? procstate_code ZOMBIE) then mret tt else
  tpid ← pread t pid off_pid;
  if tpid =? 0 then mret tt else
  pr ← rd_proc p;
  _ ← when (truthy (kstack pr))
        (_ ← kfree (kstack pr);
         mod_proc p (λ p, p <| kstack := 0 |>));
  _ ← pwrite t (λ q, q <| kstack := 0 |>) off_kstack 0;
  tsh ← pread t sharePtr off_sharePtr;
  o ← getk (λ k, shared k !! tsh);
  ts ← deref o;
  _ ← when (numOfThread ts =? 1) (freevm (pgdir ts));
  _ ← pwrite t (λ q, q <| pid := 0 |>) off_pid 0;
  _ ← pwrite t (λ q, q <| parent := None |>) off_parent 0;
  _ ← match t with
      | Some ti => mod_proc ti (λ q, q <| pname ::= insert 0%nat 0 |>)
      | None => vst8 off_name 0
      end;
  _ ← pwrite t (λ q, q <| killed := 0 |>) off_killed 0;
  _ ← pwrite t (λ q, q <| state := UNUSED |>) off_state 0;
  mod_shared p (λ s, s <| numOfThread ::= λ n, s32 (n - 1) |>).

(** Scan through table looking for exited children: the pid of the child that was
    found, or whether there are children. *)
Fixpoint wait_scan (curproc : nat) (l : list nat) (havekids : bool) : K (bool + Z) :=
  match l with
  | [] => mret (inl havekids)
  | i :: l' =>
      p ← rd_proc i;
      if negb (bool_decide (parent p = Some curproc)) then wait_scan curproc l' havekids else
      if bool_decide (state p = ZOMBIE) && (imMaster p =? 1) then
        _ ← for_each (seq 0 NTHREAD) (wait_reap i);
        mret (inr (pid p))
      else wait_scan curproc l' true
  end.

Fixpoint wait_loop (fuel : nat) (curproc : nat) : K Z :=
  match fuel with
  | O => out_of_fuel
  | S fuel' =>
      r ← wait_scan curproc (seq 0 NPROCn) false;
      match r with
      | inr pid => _ ← release L_ptable; mret pid
      | inl havekids =>
          c ← rd_proc curproc;
          (* No point waiting if we don't have any children. *)
          if negb havekids || truthy (killed c) then _ ← release L_ptable; mret (-1) else
          _ ← sleep (ch_proc curproc) (Some L_ptable);
          wait_loop fuel' curproc
      end
  end.

Definition wait : K Z :=
  curproc ← curproc;
  _ ← acquire L_ptable;
  n ← gets (λ w, length (resumes w));
  wait_loop (S n) curproc.

(** ** forkret, kill *)

Definition forkret : K unit :=
  (* Still holding ptable.lock from scheduler. *)
  _ ← release L_ptable;
  f ← getk first;
  when (truthy f)
    (_ ← modk (λ k, k <| first := 0 |>);
     _ ← iinit ROOTDEV;
     initlog ROOTDEV).

Definition kill (pid0 : Z) : K Z :=
  _ ← acquire L_ptable;
  o ← for_find (seq 0 NPROCn) (λ i,
        p ← rd_proc i;
        if negb (pid p =? pid0) then mret None else
        _ ← for_each (seq 0 NTHREAD) (λ j,
              sh ← rd_shared i;
              t ← deref (threads sh !! j);
              tpid ← pread t pid off_pid;
              when (negb (tpid =? 0))
                (_ ← pwrite t (λ q, q <| killed := 1 |>) off_killed 1;
                 (* Wake process from sleep if necessary. *)
                 st ← pread t (λ q, procstate_code (state q)) off_state;
                 when (st =? procstate_code SLEEPING)
                   (pwrite t (λ q, q <| state := RUNNABLE |>) off_state (procstate_code RUNNABLE))));
        mret (Some 0));
  _ ← release L_ptable;
  mret (match o with Some r => r | None => -1 end).

End Proc.
