(* ===== verification/Thread.v ===== *)
(** * proc.c: threads of one process

    A thread is a slot of the process table whose [sharePtr] is that of the
    process; the table of threads is kept in the shared data. *)

From S2P Require Import Prelude Layout State Str Spinlock Kalloc Vm Sched Uaccess Sleeplock Ports Apic Console Bio Log Inode Fs File Proc.

Section Thread.
Context `{KernelSyms} `{DiskDriver}.

(** The first free entry of [isThere] given to [np]; nothing is registered when
    all of them are taken. *)
Definition register_thread (np : nat) : K unit :=
  _ ← for_find (seq 0 NTHREAD) (λ index,
        s ← rd_shared np;
        t ← deref (isThere s !! index);
        if t =? 0 then
          _ ← mod_shared np (λ s, s <| isThere ::= insert index 1 |>);
          _ ← mod_shared np (λ s, s <| threads ::= insert index (Some np) |>);
          _ ← mod_shared np (λ s, s <| numOfThread ::= λ n, s32 (n + 1) |>);
          _ ← mod_proc np (λ p, p <| orderOfThread := Z.of_nat index |>);
          mret (Some tt)
        else mret None);
  mret tt.

(** The user stack of [np], its registers and its entry in the table of threads,
    with [ptable.lock] held; [None], with the lock released, when -1 is returned. *)
Definition thread_start (np : nat) (start_routine arg : Z) : K (option nat) :=
  s ← rd_shared np;
  sz' ← allocuvm (pgdir s) (sz s) (u32 (sz s + 2 * PGSIZE));
  if sz' =? 0 then
    _ ← mod_proc np (λ p, p <| state := UNUSED |>);
    _ ← release L_ptable;
    mret None
  else
  _ ← clearpteu (pgdir s) (u32 (sz' - 2 * PGSIZE));
  _ ← mod_shared np (λ s, s <| sz := sz' |>);
  let sp := u32 (sz' - 8) in
  let ustack := bytes32 0xffffffff ++ bytes32 arg in
  s ← rd_shared np;
  r ← copyout (pgdir s) sp ustack;
  if r <? 0 then
    _ ← mod_proc np (λ p, p <| state := UNUSED |>);
    _ ← release L_ptable;
    mret None
  else
  _ ← mod_proc np (λ p, p <| stack := sp |>);
  _ ← mod_tf np (λ t, t <| tf_eip := start_routine |>);
  _ ← mod_tf np (λ t, t <| tf_esp := sp |>);
  _ ← mod_proc np (λ p, p <| imMaster := 0 |>);
  _ ← mod_proc np (λ p, p <| state := RUNNABLE |>);
  _ ← register_thread np;
  mret (Some np).

Definition thread_setup (curproc : nat) (start_routine arg : Z) : K (option nat) :=
  o ← allocproc;
  match o with
  | None => _ ← cprintf (bytes_of "allocproc Failed!" ++ [10]) []; mret None
  | Some np =>
      (* Share the same address space. *)
      _ ← acquire L_ptable;
      c ← rd_proc curproc;
      _ ← mod_proc np (λ p, p <| sharePtr := sharePtr c |>);
      c ← rd_proc curproc;
      _ ← mod_proc np (λ p, p <| parent := parent c |>);
      t ← rd_tf curproc;
      _ ← wr_tf np t;
      (* Clear %eax so that fork returns 0 in the child. *)
      _ ← mod_tf np (λ t, t <| tf_eax := 0 |>);
      thread_start np start_routine arg
  end.

Definition thread_create (thread start_routine arg : Z) : K Z :=
  curproc ← curproc;
  o ← thread_setup curproc start_routine arg;
  match o with
  | None => mret (-1)
  | Some np =>
      p ← rd_proc np;
      _ ← vst32 thread (orderOfThread p);
      _ ← release L_ptable;
      mret 0
  end.

(** The channel [threads[i]]; one past the end of the array is [isThere[0]]. *)
Definition thread_chan (s : sharedData) (i : nat) : K chan :=
  match threads s !! i with
  | Some t => mret (chan_of_proc t)
  | None => v ← deref (isThere s !! (i - NTHREAD)%nat); mret (ch_addr (u32 v))
  end.

Definition thread_exit (rv : Z) : K unit :=
  curproc ← curproc;
  _ ← acquire L_ptable;
  (* Look for the master thread in sharePtr. *)
  o ← for_find (seq 0 NTHREAD) (λ i,
        s ← rd_shared curproc;
        t ← deref (threads s !! i);
        m ← pread t imMaster off_imMaster;
        mret (if m =? 1 then Some i else None));
  s ← rd_shared curproc;
  ch ← thread_chan s (default NTHREAD o);
  _ ← wakeup1 ch;
  c ← rd_proc curproc;
  _ ← (if (orderOfThread c <? 0) || (Z.of_nat NTHREAD <=? orderOfThread c) then fault
       else mod_shared curproc (λ s, s <| isThere ::= insert (Z.to_nat (orderOfThread c)) 0 |>));
  _ ← mod_proc curproc (λ p, p <| state := ZOMBIE |>);
  _ ← mod_proc curproc (λ p, p <| retval := rv |>);
  _ ← sched;
  panic "zombie exit".

(** The slot of a joined thread is cleared. *)
Definition thread_free (i curproc : nat) : K unit :=
  _ ← mod_proc i (λ p, p <| retval := 0 |>);
  p ← rd_proc i;
  _ ← kfree (kstack p);
  _ ← mod_proc i (λ p, p <| kstack := 0 |> <| state := UNUSED |> <| pid := 0 |> <| parent := None |>
        <| killed := 0 |> <| pname ::= insert 0%nat 0 |> <| imMaster := 0 |> <| orderOfThread := 0 |>);
  _ ← mod_shared curproc (λ s, s <| numOfThread ::= λ n, s32 (n - 1) |>);
  mod_proc i (λ p, p <| sharePtr := 0 |> <| stack := 0 |>).

Definition joinable (thread : Z) (c p : proc) : bool :=
  (u32 (orderOfThread p) =? u32 thread) && bool_decide (state p = ZOMBIE) &&
  bool_decide (parent p = parent c) && negb (imMaster p =? 1).

Fixpoint thread_join_loop (fuel : nat) (curproc : nat) (thread rv : Z) : K Z :=
  match fuel with
  | O => out_of_fuel
  | S fuel' =>
      o ← for_find (seq 0 NPROCn) (λ i,
            p ← rd_proc i;
            c ← rd_proc curproc;
            mret (if joinable thread c p then Some i else None));
      match o with
      | Some i =>
          p ← rd_proc i;
          _ ← when (negb (rv =? 0)) (vst32 rv (retval p));
          _ ← thread_free i curproc;
          _ ← release L_ptable;
          mret 0
      | None =>
          _ ← sleep (ch_proc curproc) (Some L_ptable);
          c ← rd_proc curproc;
          if truthy (killed c) then _ ← release L_ptable; mret (-1) else
          thread_join_loop fuel' curproc thread rv
      end
  end.

Definition thread_join (thread rv : Z) : K Z :=
  curproc ← curproc;
  c ← rd_proc curproc;
  if negb (imMaster c =? 1) then mret (-1) else
  _ ← acquire L_ptable;
  n ← gets (λ w, length (resumes w));
  thread_join_loop (S n) curproc thread rv.

End Thread.
