(* ===== verification/Exec.v ===== *)
(** * exec.c, vm.c: loading a program

    The path and the arguments are the strings they point to, read when the system
    call starts; the ELF structures are decoded from the bytes of the file. *)

From S2P Require Import Prelude Layout State Str Spinlock Kalloc Vm Sched Uaccess Sleeplock Ports Apic Console Bio Log Inode Fs File Proc.

Section Exec.
Context `{KernelSyms} `{DiskDriver}.

(** ** vm.c: loaduvm *)

(** The loop of [loaduvm] at offset [i]; what was read is in the page even when it
    is too short. *)
Fixpoint loaduvm_loop (fuel : nat) (pgdir addr : Z) (ip : nat) (offset sz i : Z) : K Z :=
  match fuel with
  | O => out_of_fuel
  | S fuel' =>
      if negb (i <? sz) then mret 0 else
      pte ← walkpgdir pgdir (u32 (addr + i)) false;
      if pte =? 0 then panic "loaduvm: address should exist" else
      e ← ld32 pte;
      let pa := PTE_ADDR e in
      let n := if sz - i <? PGSIZE then sz - i else PGSIZE in
      '(r, l) ← readi ip (u32 (offset + i)) n;
      _ ← modk (λ k, k <| mem ::= λ m, fill m (P2V pa) (Z.of_nat (length l)) (λ j, nth (Z.to_nat j) l 0) |>);
      if negb (u32 r =? n) then mret (-1) else
      loaduvm_loop fuel' pgdir addr ip offset sz (i + PGSIZE)
  end.
Definition loaduvm (pgdir addr : Z) (ip : nat) (offset sz : Z) : K Z :=
  if negb (addr mod PGSIZE =? 0) then panic "loaduvm: addr must be page aligned" else
  loaduvm_loop (S (S (Z.to_nat (sz / PGSIZE)))) pgdir addr ip offset sz 0.

(** ** exec.c *)

(** A page directory read through a null [sharePtr] is the user's word 4. *)
Definition free_proc (p : nat) : K unit :=
  pr ← rd_proc p;
  _ ← when (truthy (kstack pr)) (kfree (kstack pr));
  _ ← mod_proc p (λ p, p <| kstack := 0 |>);
  _ ← when (sharePtr pr =? 0) (pd ← vld32 4; freevm pd);
  mod_proc p (λ p, p <| pid := 0 |> <| parent := None |> <| tf := 0 |> <| pcontext := 0 |>
    <| pchan := ch_addr 0 |> <| killed := 0 |> <| state := UNUSED |> <| pname := replicate 16 0 |>
    <| sharePtr := 0 |> <| orderOfThread := 0 |> <| retval := 0 |>).

Definition kill_other_threads (curproc : nat) : K unit :=
  _ ← acquire L_ptable;
  _ ← for_each (seq 0 NTHREAD) (λ i,
        s ← rd_shared curproc;
        there ← deref (isThere s !! i);
        t ← deref (threads s !! i);
        if truthy there && negb (bool_decide (t = Some curproc)) then
          p ← deref t;
          _ ← mod_proc p (λ p, p <| killed := 1 |>);
          pr ← rd_proc p;
          _ ← when (bool_decide (state pr = SLEEPING)) (mod_proc p (λ p, p <| state := RUNNABLE |>));
          free_proc p
        else mret tt);
  release L_ptable.

Definition ELF_MAGIC : Z := 0x464C457F.
Definition ELF_PROG_LOAD : Z := 1.
Definition sizeof_elfhdr : Z := 52.
Definition sizeof_proghdr : Z := 32.
Record elfhdr := mkElf { e_magic : Z; e_entry : Z; e_phoff : Z; e_phnum : Z }.
Definition get_elfhdr (l : list Z) : elfhdr := mkElf (get32 l 0) (get32 l 24) (get32 l 28) (get16 l 44).
Record proghdr := mkPh { ph_type : Z; ph_off : Z; ph_vaddr : Z; ph_filesz : Z; ph_memsz : Z }.
Definition get_proghdr (l : list Z) : proghdr :=
  mkPh (get32 l 0) (get32 l 4) (get32 l 8) (get32 l 16) (get32 l 20).

(** Load the [n] program headers from [off] on; [None] is the jump to [bad]. *)
Fixpoint exec_load (n : nat) (pgdir : Z) (ip : nat) (off sz : Z) : K (option Z) :=
  match n with
  | O => mret (Some sz)
  | S n' =>
      '(r, l) ← readi ip (u32 off) sizeof_proghdr;
      if negb (r =? sizeof_proghdr) then mret None else
      let ph := get_proghdr l in
      if negb (ph_type ph =? ELF_PROG_LOAD) then exec_load n' pgdir ip (off + sizeof_proghdr) sz else
      if ph_memsz ph <? ph_filesz ph then mret None else
      sz ← allocuvm pgdir sz (u32 (ph_vaddr ph + ph_memsz ph));
      if sz =? 0 then mret None else
      if negb (ph_vaddr ph mod PGSIZE =? 0) then mret None else
      r ← loaduvm pgdir (ph_vaddr ph) ip (ph_off ph) (ph_filesz ph);
      if r <? 0 then mret None else
      exec_load n' pgdir ip (off + sizeof_proghdr) sz
  end.

(** Push argument strings; the pointers to them are gathered in [ptrs]. *)
Fixpoint exec_args (pgdir sp argc : Z) (argv : list (list Z)) (ptrs : list Z) : K (option (Z * list Z)) :=
  match argv with
  | [] => mret (Some (sp, ptrs))
  | a :: argv' =>
      if MAXARG <=? argc then mret None else
      let sp := Z.land (u32 (sp - (Z.of_nat (length a) + 1))) (u32 (Z.lnot 3)) in
      r ← copyout pgdir sp (a ++ [0]);
      if r <? 0 then mret None else
      exec_args pgdir sp (argc + 1) argv' (ptrs ++ [sp])
  end.

(** The path after its last slash. *)
Fixpoint last_elem (last s : list Z) : list Z :=
  match s with
  | [] => last
  | c :: s' => if c =? SLASH then last_elem s' s' else last_elem last s'
  end.

Definition exec_bad (pgdir : Z) (ip : option nat) : K Z :=
  _ ← when (truthy pgdir) (freevm pgdir);
  _ ← match ip with
      | Some _ => _ ← iunlockput ip; end_op
      | None => mret tt
      end;
  mret (-1).

(** The stack of the new program and the commit to the user image. *)
Definition exec_commit (curproc : nat) (path : list Z) (argv : list (list Z)) (elf : elfhdr)
    (pd sz0 : Z) : K Z :=
  (* Allocate two pages at the next page boundary.
     Make the first inaccessible.  Use the second as the user stack. *)
  let sz1 := PGROUNDUP sz0 in
  sz' ← allocuvm pd sz1 (u32 (sz1 + 2 * PGSIZE));
  if sz' =? 0 then exec_bad pd None else
  _ ← clearpteu pd (u32 (sz' - 2 * PGSIZE));
  o ← exec_args pd sz' 0 argv [];
  match o with
  | None => exec_bad pd None
  | Some (sp, ptrs) =>
      let argc := Z.of_nat (length ptrs) in
      let ustack := [0xffffffff; argc; u32 (sp - (argc + 1) * 4)] ++ ptrs ++ [0] in
      let sp := u32 (sp - (3 + argc + 1) * 4) in
      r ← copyout pd sp (concat (bytes32 <$> ustack));
      if r <? 0 then exec_bad pd None else
      (* Save program name for debugging. *)
      _ ← mod_proc curproc (λ p, p <| pname ::= λ n, copy_name n (last_elem path path) |>);
      (* Commit to the user image. *)
      s ← rd_shared curproc;
      let oldpgdir := pgdir s in
      _ ← mod_shared curproc (λ s, s <| pgdir := pd |> <| sz := sz' |>);
      _ ← mod_tf curproc (λ t, t <| tf_eip := e_entry elf |> <| tf_esp := sp |>);
      _ ← mod_proc curproc (λ p, p <| imMaster := 1 |>);
      _ ← switchuvm (Some curproc);
      _ ← freevm oldpgdir;
      mret 0
  end.

Definition exec (path : list Z) (argv : list (list Z)) : K Z :=
  curproc ← curproc;
  _ ← kill_other_threads curproc;
  _ ← begin_op;
  o ← namei path;
  match o with
  | None => _ ← end_op; _ ← cprintf (bytes_of "exec: fail" ++ [10]) []; mret (-1)
  | Some ip =>
      _ ← ilock (Some ip);
      (* Check ELF header *)
      '(r, l) ← readi ip 0 sizeof_elfhdr;
      if negb (r =? sizeof_elfhdr) then exec_bad 0 (Some ip) else
      let elf := get_elfhdr l in
      if negb (e_magic elf =? ELF_MAGIC) then exec_bad 0 (Some ip) else
      pd ← setupkvm;
      if pd =? 0 then exec_bad 0 (Some ip) else
      (* Load program into memory. *)
      o ← exec_load (Z.to_nat (e_phnum elf)) pd ip (s32 (e_phoff elf)) 0;
      match o with
      | None => exec_bad pd (Some ip)
      | Some sz =>
          _ ← iunlockput (Some ip);
          _ ← end_op;
          exec_commit curproc path argv elf pd sz
      end
  end.

End Exec.
