(* ===== verification/Syscall.v ===== *)
(** * syscall.c, sysproc.c: system call arguments and process system calls *)

From S2P Require Import Prelude Layout State Str Spinlock Kalloc Vm Sched Uaccess Sleeplock Ports Apic Console Bio Log Inode Fs File Proc Thread.

Section Syscall.
Context `{KernelSyms} `{DiskDriver}.

(** ** syscall.c: arguments.  [None] is the result -1. *)

(** Fetch the int at addr from the current process. *)
Definition fetchint (addr : Z) : K (option Z) :=
  p ← curproc;
  s ← rd_shared p;
  if (sz s <=? addr) || (sz s <? u32 (addr + 4)) then mret None else
  v ← vld32 addr;
  mret (Some (s32 v)).

(** The string from [s] up to its terminating zero, below [ep]. *)
Fixpoint fetchstr_loop (n : nat) (s : Z) : K (option (list Z)) :=
  match n with
  | O => mret None
  | S n' =>
      c ← vld8 s;
      if u8 c =? 0 then mret (Some []) else
      o ← fetchstr_loop n' (s + 1);
      mret (match o with Some l => Some (u8 c :: l) | None => None end)
  end.
(** The string itself stands for the pointer to it. *)
Definition fetchstr (addr : Z) : K (option (list Z)) :=
  p ← curproc;
  s ← rd_shared p;
  if sz s <=? addr then mret None else
  fetchstr_loop (Z.to_nat (sz s - addr)) addr.

(** Fetch the nth 32-bit system call argument. *)
Definition argint (n : Z) : K (option Z) :=
  p ← curproc;
  t ← rd_tf p;
  fetchint (u32 (tf_esp t + 4 + 4 * n)).

(** Fetch the nth word-sized argument as a pointer to a block of [size] bytes. *)
Definition argptr (n size : Z) : K (option Z) :=
  p ← curproc;
  o ← argint n;
  match o with
  | None => mret None
  | Some i =>
      s ← rd_shared p;
      if (size <? 0) || (sz s <=? u32 i) || (sz s <? u32 (u32 i + size)) then mret None
      else mret (Some (u32 i))
  end.

Definition argstr (n : Z) : K (option (list Z)) :=
  o ← argint n;
  match o with
  | None => mret None
  | Some addr => fetchstr (u32 addr)
  end.

(** ** sysproc.c *)

Definition sys_fork : K Z := fork.
Definition sys_exit : K Z := _ ← exit; mret 0.
Definition sys_wait : K Z := wait.

Definition sys_kill : K Z :=
  _ ← acquire L_ptable;
  o ← argint 0;
  match o with
  | None => mret (-1)
  | Some pid0 =>
      found ← for_find (seq 0 NPROCn) (λ i,
                p ← rd_proc i; mret (if pid p =? pid0 then Some i else None));
      _ ← match found with
          | None => mret tt
          | Some p =>
              for_each (seq 0 NPROCn) (λ q,
                qr ← rd_proc q;
                pr ← rd_proc p;
                when (sharePtr qr =? sharePtr pr)
                  (_ ← mod_proc q (λ q, q <| killed := 1 |>);
                   when (bool_decide (state qr = SLEEPING))
                     (mod_proc q (λ q, q <| state := RUNNABLE |>))))
          end;
      _ ← release L_ptable;
      mret (match found with Some _ => 0 | None => -1 end)
  end.

Definition sys_getpid : K Z := p ← curproc; pr ← rd_proc p; mret (pid pr).

Definition sys_sbrk : K Z :=
  o ← argint 0;
  match o with
  | None => mret (-1)
  | Some n =>
      p ← curproc;
      s ← rd_shared p;
      let addr := s32 (sz s) in
      r ← growproc n;
      if r <? 0 then mret (-1) else mret addr
  end.

(** [while(ticks - ticks0 < n)]; false when killed. *)
Fixpoint sys_sleep_loop (fuel : nat) (ticks0 n : Z) : K bool :=
  match fuel with
  | O => out_of_fuel
  | S fuel' =>
      t ← getk ticks;
      if negb (u32 (t - ticks0) <? u32 n) then mret true else
      p ← curproc;
      pr ← rd_proc p;
      if truthy (killed pr) then mret false else
      _ ← sleep ch_ticks (Some L_tickslock);
      sys_sleep_loop fuel' ticks0 n
  end.
Definition sys_sleep : K Z :=
  o ← argint 0;
  match o with
  | None => mret (-1)
  | Some n =>
      _ ← acquire L_tickslock;
      ticks0 ← getk ticks;
      k ← gets (λ w, length (resumes w));
      ok ← sys_sleep_loop (S k) ticks0 n;
      _ ← release L_tickslock;
      mret (if (ok : bool) then 0 else -1)
  end.

Definition sys_uptime : K Z :=
  _ ← acquire L_tickslock;
  t ← getk ticks;
  _ ← release L_tickslock;
  mret (s32 t).

Definition sys_thread_create : K Z :=
  o ← argptr 0 4;
  match o with
  | None => mret (-1)
  | Some thread =>
      o ← argptr 1 4;
      match o with
      | None => mret (-1)
      | Some start_routine =>
          o ← argptr 2 4;
          match o with
          | None => mret (-1)
          | Some arg => thread_create thread start_routine arg
          end
      end
  end.

Definition sys_thread_exit : K Z :=
  o ← argptr 0 4;
  match o with
  | None => mret (-1)
  | Some rv => _ ← thread_exit rv; mret 0
  end.

Definition sys_thread_join : K Z :=
  o ← argint 0;
  match o with
  | None => mret (-1)
  | Some thread =>
      o ← argptr 1 4;
      match o with
      | None => mret (-1)
      | Some rv => thread_join thread rv
      end
  end.

End Syscall.
