(* ===== verification/Sysfile.v ===== *)
(** * sysfile.c: file system calls

    User buffers are read before, and written after, the call into file.c. *)

From S2P Require Import Prelude Layout State Str Spinlock Kalloc Vm Sched Uaccess Sleeplock Ports Apic Console Bio Log Inode Fs File Proc Thread Exec Syscall.

Section Sysfile.
Context `{KernelSyms} `{DiskDriver}.

Definition O_RDONLY : Z := 0x000.
Definition O_WRONLY : Z := 0x001.
Definition O_RDWR : Z := 0x002.
Definition O_CREATE : Z := 0x200.

(** The descriptor and its file, or [None] for -1. *)
Definition argfd (n : Z) : K (option (Z * nat)) :=
  o ← argint n;
  match o with
  | None => mret None
  | Some fd =>
      if (fd <? 0) || (NOFILE <=? fd) then mret None else
      p ← curproc;
      s ← rd_shared p;
      f ← deref (ofile s !! Z.to_nat fd);
      mret (match f with Some f => Some (fd, f) | None => None end)
  end.

Definition set_ofile (p : nat) (fd : nat) (f : option nat) : K unit :=
  mod_shared p (λ s, s <| ofile ::= insert fd f |>).

(** Allocate a file descriptor for the given file. *)
Definition fdalloc (f : nat) : K Z :=
  p ← curproc;
  o ← for_find (seq 0 (Z.to_nat NOFILE)) (λ fd,
        s ← rd_shared p;
        g ← deref (ofile s !! fd);
        match g with
        | None => _ ← set_ofile p fd (Some f); mret (Some (Z.of_nat fd))
        | Some _ => mret None
        end);
  mret (default (-1) o).

Definition sys_dup : K Z :=
  o ← argfd 0;
  match o with
  | None => mret (-1)
  | Some (_, f) =>
      fd ← fdalloc f;
      if fd <? 0 then mret (-1) else
      _ ← filedup f;
      mret fd
  end.

(** The file, the length and the buffer of [read] and [write]. *)
Definition arg_rw : K (option (nat * Z * Z)) :=
  o ← argfd 0;
  match o with
  | None => mret None
  | Some (_, f) =>
      o ← argint 2;
      match o with
      | None => mret None
      | Some n =>
          o ← argptr 1 n;
          mret (match o with None => None | Some p => Some (f, n, p) end)
      end
  end.

Definition sys_read : K Z :=
  o ← arg_rw;
  match o with
  | None => mret (-1)
  | Some (f, n, p) =>
      '(r, l) ← fileread f n;
      _ ← vwrite p l;
      mret r
  end.

Definition sys_write : K Z :=
  o ← arg_rw;
  match o with
  | None => mret (-1)
  | Some (f, n, p) =>
      l ← vread p (Z.to_nat n);
      filewrite f l n
  end.

Definition sys_close : K Z :=
  o ← argfd 0;
  match o with
  | None => mret (-1)
  | Some (fd, f) =>
      p ← curproc;
      _ ← set_ofile p (Z.to_nat fd) None;
      _ ← fileclose f;
      mret 0
  end.

Definition sizeof_stat : Z := 20.
Definition sys_fstat : K Z :=
  o ← argfd 0;
  match o with
  | None => mret (-1)
  | Some (_, f) =>
      o ← argptr 1 sizeof_stat;
      match o with
      | None => mret (-1)
      | Some a =>
          o ← filestat f;
          match o with
          | None => mret (-1)
          | Some st =>
              _ ← vwrite a (bytes16 (st_type st));
              _ ← vst32 (a + 4) (st_dev st);
              _ ← vst32 (a + 8) (st_ino st);
              _ ← vwrite (a + 12) (bytes16 (st_nlink st));
              _ ← vst32 (a + 16) (st_size st);
              mret 0
          end
      end
  end.

(** The label [bad] of [sys_link]. *)
Definition link_bad (ip : nat) : K Z :=
  _ ← ilock (Some ip);
  _ ← mod_inode ip (λ x, x <| ip_nlink ::= λ n, s16 (n - 1) |>);
  _ ← iupdate ip;
  _ ← iunlockput (Some ip);
  _ ← end_op;
  mret (-1).

Definition no_name : list Z := replicate (Z.to_nat DIRSIZ) 0.

Definition sys_link : K Z :=
  o ← argstr 0;
  match o with
  | None => mret (-1)
  | Some old =>
      o ← argstr 1;
      match o with
      | None => mret (-1)
      | Some new =>
          _ ← begin_op;
          o ← namei old;
          match o with
          | None => _ ← end_op; mret (-1)
          | Some ip =>
              _ ← ilock (Some ip);
              x ← rd_inode ip;
              if ip_type x =? T_DIR then _ ← iunlockput (Some ip); _ ← end_op; mret (-1) else
              _ ← mod_inode ip (λ x, x <| ip_nlink ::= λ n, s16 (n + 1) |>);
              _ ← iupdate ip;
              _ ← iunlock (Some ip);
              '(o, name) ← nameiparent new no_name;
              match o with
              | None => link_bad ip
              | Some dp =>
                  _ ← ilock (Some dp);
                  d ← rd_inode dp;
                  x ← rd_inode ip;
                  r ← (if negb (ip_dev d =? ip_dev x) then mret (-1)
                       else dirlink dp name (ip_inum x));
                  if r <? 0 then _ ← iunlockput (Some dp); link_bad ip else
                  _ ← iunlockput (Some dp);
                  _ ← iput ip;
                  _ ← end_op;
                  mret 0
              end
          end
      end
  end.

(** Is the directory empty from offset [off] on? *)
Fixpoint isdirempty_loop (fuel : nat) (dp : nat) (off : Z) : K bool :=
  match fuel with
  | O => out_of_fuel
  | S fuel' =>
      x ← rd_inode dp;
      if negb (off <? ip_size x) then mret true else
      '(r, de) ← readi dp off sizeof_dirent;
      if negb (r =? sizeof_dirent) then panic "isdirempty: readi" else
      if negb (de_inum de =? 0) then mret false else isdirempty_loop fuel' dp (off + sizeof_dirent)
  end.
Definition isdirempty (dp : nat) : K bool :=
  x ← rd_inode dp;
  isdirempty_loop (2 + Z.to_nat (ip_size x / sizeof_dirent)) dp (2 * sizeof_dirent).

Definition unlink_bad (dp : nat) : K Z :=
  _ ← iunlockput (Some dp);
  _ ← end_op;
  mret (-1).

(** The entry at [off] of [dp] erased and a link of [ip] dropped. *)
Definition unlink_entry (dp ip : nat) (off : Z) : K Z :=
  r ← writei dp (replicate (Z.to_nat sizeof_dirent) 0) off sizeof_dirent;
  if negb (r =? sizeof_dirent) then panic "unlink: writei" else
  x ← rd_inode ip;
  _ ← when (ip_type x =? T_DIR)
        (_ ← mod_inode dp (λ x, x <| ip_nlink ::= λ n, s16 (n - 1) |>);
         iupdate dp);
  _ ← iunlockput (Some dp);
  _ ← mod_inode ip (λ x, x <| ip_nlink ::= λ n, s16 (n - 1) |>);
  _ ← iupdate ip;
  _ ← iunlockput (Some ip);
  _ ← end_op;
  mret 0.

Definition sys_unlink : K Z :=
  o ← argstr 0;
  match o with
  | None => mret (-1)
  | Some path =>
      _ ← begin_op;
      '(o, name) ← nameiparent path no_name;
      match o with
      | None => _ ← end_op; mret (-1)
      | Some dp =>
          _ ← ilock (Some dp);
          if (namecmp name (bytes_of ".") =? 0) || (namecmp name (bytes_of "..") =? 0)
          then unlink_bad dp else
          o ← dirlookup dp name;
          match o with
          | None => unlink_bad dp
          | Some (ip, off) =>
              _ ← ilock (Some ip);
              x ← rd_inode ip;
              if ip_nlink x <? 1 then panic "unlink: nlink < 1" else
              full ← (if ip_type x =? T_DIR then e ← isdirempty ip; mret (negb e) else mret false);
              if (full : bool) then _ ← iunlockput (Some ip); unlink_bad dp else
              unlink_entry dp ip off
          end
      end
  end.

(** The new inode of [create] set up and linked in its directory. *)
Definition create_new (dp : nat) (name : list Z) (type major minor : Z) : K nat :=
  d ← rd_inode dp;
  ip ← ialloc (ip_dev d) type;
  _ ← ilock (Some ip);
  _ ← mod_inode ip (λ x, x <| ip_major := major |> <| ip_minor := minor |> <| ip_nlink := 1 |>);
  _ ← iupdate ip;
  x ← rd_inode ip;
  _ ← when (type =? T_DIR)                                  (* Create . and .. entries. *)
        (_ ← mod_inode dp (λ d, d <| ip_nlink ::= λ n, s16 (n + 1) |>);
         _ ← iupdate dp;
         r ← dirlink ip (bytes_of ".") (ip_inum x);
         if r <? 0 then panic "create dots" else
         d ← rd_inode dp;
         r ← dirlink ip (bytes_of "..") (ip_inum d);
         when (r <? 0) (panic "create dots"));
  r ← dirlink dp name (ip_inum x);
  if r <? 0 then panic "create: dirlink" else
  _ ← iunlockput (Some dp);
  mret ip.

Definition create (path : list Z) (type major minor : Z) : K (option nat) :=
  '(o, name) ← nameiparent path no_name;
  match o with
  | None => mret None
  | Some dp =>
      _ ← ilock (Some dp);
      o ← dirlookup dp name;
      match o with
      | Some (ip, _) =>
          _ ← iunlockput (Some dp);
          _ ← ilock (Some ip);
          x ← rd_inode ip;
          if (type =? T_FILE) && (ip_type x =? T_FILE) then mret (Some ip) else
          _ ← iunlockput (Some ip);
          mret None
      | None => ip ← create_new dp name type major minor; mret (Some ip)
      end
  end.

(** The inode that [open] works on, locked; [None] after the error returns. *)
Definition open_inode (path : list Z) (omode : Z) : K (option nat) :=
  if truthy (Z.land omode O_CREATE) then
    o ← create path T_FILE 0 0;
    match o with
    | None => _ ← end_op; mret None
    | Some ip => mret (Some ip)
    end
  else
    o ← namei path;
    match o with
    | None => _ ← end_op; mret None
    | Some ip =>
        _ ← ilock (Some ip);
        x ← rd_inode ip;
        if (ip_type x =? T_DIR) && negb (omode =? O_RDONLY) then
          _ ← iunlockput (Some ip); _ ← end_op; mret None
        else mret (Some ip)
    end.

Definition sys_open : K Z :=
  o ← argstr 0;
  match o with
  | None => mret (-1)
  | Some path =>
      o ← argint 1;
      match o with
      | None => mret (-1)
      | Some omode =>
          _ ← begin_op;
          o ← open_inode path omode;
          match o with
          | None => mret (-1)
          | Some ip =>
              f ← filealloc;
              match f with
              | None => _ ← iunlockput (Some ip); _ ← end_op; mret (-1)
              | Some f =>
                  fd ← fdalloc f;
                  if fd <? 0 then
                    _ ← fileclose f; _ ← iunlockput (Some ip); _ ← end_op; mret (-1)
                  else
                  _ ← iunlock (Some ip);
                  _ ← end_op;
                  _ ← mod_file f (λ x, x <| f_type := FD_INODE |> <| f_ip := Some ip |> <| f_off := 0 |>
                        <| f_readable := b2z (negb (truthy (Z.land omode O_WRONLY))) |>
                        <| f_writable := b2z (truthy (Z.land omode O_WRONLY) || truthy (Z.land omode O_RDWR)) |>);
                  mret fd
              end
          end
      end
  end.

Definition sys_mkdir : K Z :=
  _ ← begin_op;
  o ← argstr 0;
  match o with
  | None => _ ← end_op; mret (-1)
  | Some path =>
      o ← create path T_DIR 0 0;
      match o with
      | None => _ ← end_op; mret (-1)
      | Some ip => _ ← iunlockput (Some ip); _ ← end_op; mret 0
      end
  end.

Definition sys_mknod : K Z :=
  _ ← begin_op;
  o ← argstr 0;
  match o with
  | None => _ ← end_op; mret (-1)
  | Some path =>
      o1 ← argint 1;
      match o1 with
      | None => _ ← end_op; mret (-1)
      | Some major =>
          o2 ← argint 2;
          match o2 with
          | None => _ ← end_op; mret (-1)
          | Some minor =>
              o ← create path T_DEV (s16 major) (s16 minor);
              match o with
              | None => _ ← end_op; mret (-1)
              | Some ip => _ ← iunlockput (Some ip); _ ← end_op; mret 0
              end
          end
      end
  end.

Definition sys_chdir : K Z :=
  p ← curproc;
  _ ← begin_op;
  o ← argstr 0;
  match o with
  | None => _ ← end_op; mret (-1)
  | Some path =>
      o ← namei path;
      match o with
      | None => _ ← end_op; mret (-1)
      | Some ip =>
          _ ← ilock (Some ip);
          x ← rd_inode ip;
          if negb (ip_type x =? T_DIR) then _ ← iunlockput (Some ip); _ ← end_op; mret (-1) else
          _ ← iunlock (Some ip);
          s ← rd_shared p;
          c ← deref (cwd s);
          _ ← iput c;
          _ ← end_op;
          _ ← mod_shared p (λ s, s <| cwd := Some ip |>);
          mret 0
      end
  end.

(** The argument strings from [argv[i]] on, [n] of them at most. *)
Fixpoint exec_argv (n : nat) (uargv i : Z) (acc : list (list Z)) : K (option (list (list Z))) :=
  match n with
  | O => mret None
  | S n' =>
      o ← fetchint (u32 (uargv + 4 * i));
      match o with
      | None => mret None
      | Some uarg =>
          if uarg =? 0 then mret (Some acc) else
          o ← fetchstr (u32 uarg);
          match o with
          | None => mret None
          | Some a => exec_argv n' uargv (i + 1) (acc ++ [a])
          end
      end
  end.

Definition sys_exec : K Z :=
  o ← argstr 0;
  match o with
  | None => mret (-1)
  | Some path =>
      o ← argint 1;
      match o with
      | None => mret (-1)
      | Some uargv =>
          o ← exec_argv (Z.to_nat MAXARG) (u32 uargv) 0 [];
          match o with
          | None => mret (-1)
          | Some argv => exec path argv
          end
      end
  end.

Definition sys_pipe : K Z :=
  o ← argptr 0 8;
  match o with
  | None => mret (-1)
  | Some fd =>
      o ← pipealloc;
      match o with
      | None => mret (-1)
      | Some (rf, wf) =>
          fd0 ← fdalloc rf;
          fd1 ← (if fd0 <? 0 then mret (-1) else fdalloc wf);
          if fd1 <? 0 then
            _ ← (if 0 <=? fd0 then p ← curproc; set_ofile p (Z.to_nat fd0) None else mret tt);
            _ ← fileclose rf;
            _ ← fileclose wf;
            mret (-1)
          else
          _ ← vst32 fd fd0;
          _ ← vst32 (fd + 4) fd1;
          mret 0
      end
  end.

(** ** syscall.c: the table and the dispatcher *)

Definition syscalls (num : Z) : option (K Z) :=
  if num =? 1 then Some sys_fork else if num =? 2 then Some sys_exit
  else if num =? 3 then Some sys_wait else if num =? 4 then Some sys_pipe
  else if num =? 5 then Some sys_read else if num =? 6 then Some sys_kill
  else if num =? 7 then Some sys_exec else if num =? 8 then Some sys_fstat
  else if num =? 9 then Some sys_chdir else if num =? 10 then Some sys_dup
  else if num =? 11 then Some sys_getpid else if num =? 12 then Some sys_sbrk
  else if num =? 13 then Some sys_sleep else if num =? 14 then Some sys_uptime
  else if num =? 15 then Some sys_open else if num =? 16 then Some sys_write
  else if num =? 17 then Some sys_mknod else if num =? 18 then Some sys_unlink
  else if num =? 19 then Some sys_link else if num =? 20 then Some sys_mkdir
  else if num =? 21 then Some sys_close else if num =? 22 then Some sys_thread_create
  else if num =? 23 then Some sys_thread_exit else if num =? 24 then Some sys_thread_join
  else None.

Definition syscall : K unit :=
  p ← curproc;
  t ← rd_tf p;
  let num := s32 (tf_eax t) in
  match syscalls num with
  | Some f => r ← f; mod_tf p (λ t, t <| tf_eax := u32 r |>)
  | None =>
      pr ← rd_proc p;
      _ ← cprintf (bytes_of "%d %s: unknown sys call %d" ++ [10])
            [AInt (pid pr); AStr (until_nul (pname pr)); AInt num];
      mod_tf p (λ t, t <| tf_eax := u32 (-1) |>)
  end.

End Sysfile.
