(* ===== verification/Trap.v ===== *)
(** * trap.c, main.c: traps and start-up *)

From S2P Require Import Prelude Layout State Str Spinlock Kalloc Vm Sched Uaccess Sleeplock Ports Apic Console Kbd Mp Ide Bio Log Inode Fs File Proc Thread Exec Syscall Sysfile.

Section Trap.
Context `{KernelSyms}.

(** ** trap.c *)

Definition STS_IG32 : Z := 0xE.
Definition STS_TG32 : Z := 0xF.
Definition SETGATE (istrap sel off d : Z) : gatedesc :=
  mkGate (Z.land (u32 off) 0xffff) sel 0 0 (if truthy istrap then STS_TG32 else STS_IG32) 0 d 1
    (Z.shiftr (u32 off) 16).

(** [vectors] is the table of entry points, generated by vectors.pl. *)
Definition tvinit (vectors : Z → Z) : K unit :=
  _ ← mod_dev (λ d, d <| idt :=
        (λ i, SETGATE 0 (Z.shiftl SEG_KCODE 3) (vectors i) 0) <$> seqZ 0 256 |>);
  _ ← mod_dev (λ d, d <| idt ::=
        insert (Z.to_nat T_SYSCALL) (SETGATE 1 (Z.shiftl SEG_KCODE 3) (vectors T_SYSCALL) DPL_USER) |>);
  initlock L_tickslock "time".

Definition idtinit : K unit :=
  mod_dev (λ d, d <| idtr := Some (8 * Z.of_nat (length (idt d)) - 1) |>).

(** The process running on the CPU has been killed and traps from user space. *)
Definition exit_if_killed (t : trapframe) : K unit :=
  p ← myproc;
  match p with
  | None => mret tt
  | Some p =>
      pr ← rd_proc p;
      when (truthy (killed pr) && (Z.land (tf_cs t) 3 =? DPL_USER)) exit
  end.

Definition clock_tick : K unit :=
  c ← cpuid;
  when (c =? 0)
    (_ ← acquire L_tickslock;
     _ ← modk (λ k, k <| ticks ::= λ t, u32 (t + 1) |>);
     _ ← wakeup ch_ticks;
     release L_tickslock).

(** The frame is at address [a]; [cr2] is the faulting address. *)
Definition trap (a cr2 : Z) : K unit :=
  o ← getk (λ k, frames k !! a);
  t ← deref o;
  if tf_trapno t =? T_SYSCALL then
    p ← curproc;
    pr ← rd_proc p;
    _ ← when (truthy (killed pr)) exit;
    p ← curproc;
    _ ← mod_proc p (λ p, p <| tf := a |>);
    _ ← syscall;
    p ← curproc;
    pr ← rd_proc p;
    when (truthy (killed pr)) exit
  else
  _ ← (if tf_trapno t =? T_IRQ0 + IRQ_TIMER then _ ← clock_tick; lapiceoi
       else if tf_trapno t =? T_IRQ0 + IRQ_IDE then _ ← Ide.ideintr; lapiceoi
       else if tf_trapno t =? T_IRQ0 + IRQ_IDE + 1 then mret tt
       else if tf_trapno t =? T_IRQ0 + IRQ_KBD then _ ← kbdintr; lapiceoi
       else if tf_trapno t =? T_IRQ0 + IRQ_COM1 then _ ← uartintr; lapiceoi
       else if (tf_trapno t =? T_IRQ0 + 7) || (tf_trapno t =? T_IRQ0 + IRQ_SPURIOUS) then
         c ← cpuid;
         _ ← cprintf (bytes_of "cpu%d: spurious interrupt at %x:%x" ++ [10])
               [AInt c; AInt (tf_cs t); AInt (tf_eip t)];
         lapiceoi
       else
         p ← myproc;
         match (if Z.land (tf_cs t) 3 =? 0 then None else p) with
         | None =>
             (* In kernel, it must be our mistake. *)
             c ← cpuid;
             _ ← cprintf (bytes_of "unexpected trap %d from cpu %d eip %x (cr2=0x%x)" ++ [10])
                   [AInt (tf_trapno t); AInt c; AInt (tf_eip t); AInt cr2];
             panic "trap"
         | Some p =>
             (* In user space, assume process misbehaved. *)
             pr ← rd_proc p;
             c ← cpuid;
             _ ← cprintf (bytes_of "pid %d %s: trap %d err %d on cpu %d eip 0x%x addr 0x%x--kill proc" ++ [10])
                   [AInt (pid pr); AStr (until_nul (pname pr)); AInt (tf_trapno t); AInt (tf_err t);
                    AInt c; AInt (tf_eip t); AInt cr2];
             mod_proc p (λ p, p <| killed := 1 |>)
         end);
  (* Force process exit if it has been killed and is in user space. *)
  _ ← exit_if_killed t;
  (* Force process to give up CPU on clock tick. *)
  p ← myproc;
  _ ← match p with
      | None => mret tt
      | Some p =>
          pr ← rd_proc p;
          when (bool_decide (state pr = RUNNING) && (tf_trapno t =? T_IRQ0 + IRQ_TIMER)) yield
      end;
  (* Check if the process has been killed since we yielded *)
  exit_if_killed t.

(** ** main.c *)

(** Other processors run. *)
Definition others_run : K unit := swtch.

(** [while(c->started == 0);] *)
Fixpoint wait_started (fuel : nat) (i : nat) : K unit :=
  match fuel with
  | O => out_of_fuel
  | S fuel' =>
      c ← cpu_of i;
      if started c =? 0 then _ ← others_run; wait_started fuel' i else mret tt
  end.

(** The addresses are those the linker gives to [_binary_entryother_start],
    [_binary_entryother_size], [mpenter] and [entrypgdir]. *)
Definition startothers (entryother entryother_size mpenter entrypgdir : Z) : K unit :=
  (* Write entry code to unused memory at 0x7000. *)
  let code := P2V 0x7000 in
  _ ← kmemmove code entryother (Z.to_nat entryother_size);
  n ← getk (λ k, length (cpus (hw k)));
  for_each (seq 0 n) (λ i,
    me ← mycpu;
    if (i =? me)%nat then mret tt else            (* We've started already. *)
    stack ← kalloc;
    _ ← st32 (code - 4) (u32 (stack + KSTACKSIZE));
    _ ← st32 (code - 8) mpenter;
    _ ← st32 (code - 12) (V2P entrypgdir);
    c ← cpu_of i;
    _ ← lapicstartap (apicid c) (V2P code);
    (* wait for cpu to finish mpmain() *)
    r ← gets (λ w, length (resumes w));
    wait_started (S r) i).

(** The scheduler's loop is cut after [turns] turns. *)
Definition mpmain (turns : nat) : K unit :=
  c1 ← cpuid;
  c2 ← cpuid;
  _ ← cprintf (bytes_of "cpu%d: starting %d" ++ [10]) [AInt c1; AInt c2];
  _ ← idtinit;
  i ← mycpu;
  _ ← mod_cpu i (λ c, c <| started := 1 |>);      (* tell startothers() we're up *)
  scheduler turns.

Definition mpenter (turns : nat) : K unit :=
  _ ← switchkvm;
  _ ← seginit;
  _ ← lapicinit;
  mpmain turns.

Definition main (vectors : Z → Z) (entryother entryother_size mpenter entrypgdir : Z) (turns : nat) : K unit :=
  _ ← kinit1 sym_end (P2V (4 * 1024 * 1024));     (* phys page allocator *)
  _ ← kvmalloc;                                   (* kernel page table *)
  _ ← mpinit;                                     (* detect other processors *)
  _ ← lapicinit;                                  (* interrupt controller *)
  _ ← seginit;                                    (* segment descriptors *)
  _ ← picinit;                                    (* disable pic *)
  _ ← ioapicinit;                                 (* another interrupt controller *)
  _ ← consoleinit;                                (* console hardware *)
  _ ← uartinit;                                   (* serial port *)
  _ ← pinit;                                      (* process table *)
  _ ← tvinit vectors;                             (* trap vectors *)
  _ ← binit;                                      (* buffer cache *)
  _ ← fileinit;                                   (* file table *)
  _ ← Ide.ideinit;                                (* disk *)
  _ ← startothers entryother entryother_size mpenter entrypgdir;
  _ ← kinit2 (P2V (4 * 1024 * 1024)) (P2V PHYSTOP);
  _ ← userinit;                                   (* first user process *)
  mpmain turns.

End Trap.
