(* ===== verification/Eval.v ===== *)
(** * Executions as a relation between kernels

    [evals k v m a k' v']: with the kernel data [k] and the processor in view [v],
    the code [m] returns [a], without switching to another thread, and leaves the
    data [k'] and the view [v'].  The state of the processor itself is described by
    the view only, so [hw] plays no part in [k] and [k']. *)

From S2P Require Import Prelude Layout State Str Spinlock Kalloc Vm Sched Uaccess.

Definition at_hw (k : kern) (h : hwstate) (rs : list (kern → kern)) : world :=
  mkWorld (k <| hw := h |>) rs.

Definition evals {A} (k : kern) (v : hwview) (m : K A) (a : A) (k' : kern) (v' : hwview) : Prop :=
  ∀ h rs, hw_ok h v → ∃ h', hw_ok h' v' ∧ m (at_hw k h rs) = Ok a (at_hw k' h' rs).

Lemma at_hw_self w : at_hw (ks w) (hw (ks w)) (resumes w) = w.
Proof. by destruct w as [[] ]. Qed.

Lemma evals_runs {A} k v (m : K A) a k' v' w :
  evals k v m a k' v' → ks w = k → hw_ok (hw k) v → runs m w a k' v'.
Proof.
  intros He <- Hv. destruct (He _ (resumes w) Hv) as (h' & Hv' & H).
  exists h'. split; [done|]. by rewrite at_hw_self in H.
Qed.

Lemma runs_at_hw {A} (m : K A) k h rs a k' v :
  runs m (at_hw k h rs) a k' v → ∃ h', hw_ok h' v ∧ m (at_hw k h rs) = Ok a (at_hw k' h' rs).
Proof. done. Qed.

Lemma evals_ret {A} (a : A) k v : evals k v (mret a) a k v.
Proof. intros h rs Hv. by exists h. Qed.

Lemma evals_bind {A B} (m : K A) (f : A → K B) k v a k1 v1 b k2 v2 :
  evals k v m a k1 v1 → evals k1 v1 (f a) b k2 v2 → evals k v (m ≫= f) b k2 v2.
Proof.
  intros H1 H2 h rs Hv. destruct (H1 h rs Hv) as (h1 & Hv1 & E1).
  destruct (H2 h1 rs Hv1) as (h2 & Hv2 & E2). exists h2. split; [done|]. by mstep E1.
Qed.

Lemma evals_eq {A} (m : K A) k v a k1 v1 a' k1' v1' :
  evals k v m a k1 v1 → a = a' → k1 = k1' → v1 = v1' → evals k v m a' k1' v1'.
Proof. by intros ? -> -> ->. Qed.

Lemma evals_assoc {A B C} (m : K A) (f : A → K B) (g : B → K C) k v c k' v' :
  evals k v (m ≫= λ a, f a ≫= g) c k' v' → evals k v ((m ≫= f) ≫= g) c k' v'.
Proof. intros H h rs Hv. rewrite bind_assoc. by apply H. Qed.

Lemma evals_bind_ret {A B} (a : A) (g : A → K B) k v b k' v' :
  evals k v (g a) b k' v' → evals k v (mret a ≫= g) b k' v'.
Proof. done. Qed.

(** Reads and writes of data other than the processor's. *)
Lemma evals_getk {A B} (f : kern → A) (g : A → K B) k v b k' v' :
  (∀ k h, f (k <| hw := h |>) = f k) → evals k v (g (f k)) b k' v' → evals k v (getk f ≫= g) b k' v'.
Proof. intros Hf H h rs Hv. rewrite bind_getk. simpl. rewrite Hf. by apply H. Qed.

Lemma evals_modk (f : kern → kern) k v :
  (∀ k h, f (k <| hw := h |>) = (f k) <| hw := h |>) → evals k v (modk f) tt (f k) v.
Proof.
  intros Hf h rs Hv. exists h. split; [done|]. unfold modk, modify, at_hw.
  cbn [ks set]. by rewrite <- Hf.
Qed.

Lemma evals_modk_bind {B} (f : kern → kern) (g : unit → K B) k v b k' v' :
  (∀ k h, f (k <| hw := h |>) = (f k) <| hw := h |>) →
  evals (f k) v (g tt) b k' v' → evals k v (modk f ≫= g) b k' v'.
Proof. intros Hf H. eapply evals_bind; [by apply evals_modk|done]. Qed.

Lemma evals_deref {A} (o : option A) x k v : o = Some x → evals k v (deref o) x k v.
Proof. intros ->. apply evals_ret. Qed.

Lemma evals_resumes {A B} (f : list (kern → kern) → A) (g : A → K B) k v b k' v' :
  (∀ n, evals k v (g n) b k' v') → evals k v (gets (λ w, f (resumes w)) ≫= g) b k' v'.
Proof. intros H h rs Hv. rewrite bind_gets. by apply H. Qed.

Lemma evals_when_true (b : bool) m k v k' v' :
  b = true → evals k v m tt k' v' → evals k v (when b m) tt k' v'.
Proof. by intros ->. Qed.
Lemma evals_when_false (b : bool) m k v : b = false → evals k v (when b m) tt k v.
Proof. intros ->. apply evals_ret. Qed.

(** ** Locks and the current process *)

Lemma evals_acquire k v l :
  l ∉ hv_held v → l ∉ hv_others v → evals k v (acquire l) tt k (v_hold l v).
Proof. intros H1 H2 h rs Hv. by apply runs_at_hw, (runs_acquire (at_hw k h rs)). Qed.

Lemma evals_initlock k v l name :
  l ∉ hv_held v → l ∉ hv_others v → evals k v (initlock l name) tt k v.
Proof.
  intros H1 H2 h rs (c & []). exists (h <| locks ::= λ g l', if decide (l' = l) then mkSpinlock 0 name None else g l' |>). split; [|reflexivity].
  exists c. split; simpl; try done; intros l' **; destruct (decide (l' = l)) as [->|]; try done; auto.
Qed.

Lemma evals_release k v l : l ∈ hv_held v → evals k v (release l) tt k (v_drop l v).
Proof. intros H h rs Hv. by apply runs_at_hw, (runs_release (at_hw k h rs)). Qed.

Lemma evals_release_hold k v l : l ∉ hv_held v → evals k (v_hold l v) (release l) tt k v.
Proof.
  intros H. rewrite <- (v_drop_hold l v) at 2 by done. apply evals_release. auto with kern.
Qed.

Lemma evals_myproc k v : evals k v myproc (hv_proc v) k v.
Proof. intros h rs Hv. by apply runs_at_hw, (runs_myproc (at_hw k h rs)). Qed.

Lemma evals_holding k v l : evals k v (holding l) (bool_decide (l ∈ hv_held v)) k v.
Proof.
  intros h rs Hv. apply runs_at_hw, runs_of_with_hw. by apply (holding_spec 0 (at_hw k h rs)).
Qed.

(** The locks [ls] can be taken. *)
Definition free_locks (v : hwview) (ls : list lockid) : Prop :=
  Forall (λ l, l ∉ hv_held v ∧ l ∉ hv_others v) ls.

Lemma free_locks_in v ls l : free_locks v ls → l ∈ ls → l ∉ hv_held v ∧ l ∉ hv_others v.
Proof. unfold free_locks. rewrite Forall_forall. auto. Qed.

(** A lock that is free stays free while another is held. *)
Lemma free_hold v l l' : l ≠ l' → l ∉ hv_held v → l ∉ hv_held (v_hold l' v).
Proof. simpl. set_solver. Qed.

(** Equality of kernels, field by field: the two sides may be the same updates in
    a different order. *)
Lemma kern_eq k k' :
  hw k = hw k' → mem k = mem k' → freelist k = freelist k' → use_lock k = use_lock k' →
  kpgdir k = kpgdir k' → procs k = procs k' → nextpid k = nextpid k' → initproc k = initproc k' →
  shared k = shared k' → frames k = frames k' → ctxs k = ctxs k' → ticks k = ticks k' →
  first k = first k' → ftable k = ftable k' → pipes k = pipes k' → icache k = icache k' →
  bcache k = bcache k' → klog k = klog k' → sb k = sb k' → disk k = disk k' → devs k = devs k' →
  k = k'.
Proof. destruct k, k'. simpl. intros. by subst. Qed.
Ltac keq := apply kern_eq; try reflexivity.

Lemma map_alter_insert {A} (m : gmap Z A) f i x : m !! i = Some x → alter f i m = <[i := f x]> m.
Proof. intros Hx. by rewrite <- (alter_insert_eq m i f x), insert_id. Qed.

Section Procs.
Context `{KernelSyms}.

(** ** The process table *)

Lemma evals_curproc k v i : hv_proc v = Some i → evals k v curproc i k v.
Proof.
  intros Hp. eapply evals_bind; [apply evals_myproc|]. rewrite Hp. by apply evals_deref.
Qed.

Lemma evals_rd_proc k v i p : procs k !! i = Some p → evals k v (rd_proc i) p k v.
Proof. intros Hp. apply evals_getk; [done|]. by apply evals_deref. Qed.

Lemma rd_proc_ok w i p : procs (ks w) !! i = Some p → rd_proc i w = Ok p w.
Proof. intros Hp. unfold rd_proc. rewrite bind_getk, Hp. done. Qed.

Lemma evals_mod_proc k v i f : evals k v (mod_proc i f) tt (k <| procs ::= alter f i |>) v.
Proof. by apply evals_modk. Qed.

Lemma evals_rd_shared k v i p s :
  procs k !! i = Some p → shared k !! sharePtr p = Some s → evals k v (rd_shared i) s k v.
Proof.
  intros Hp Hs. eapply evals_bind; [by apply evals_rd_proc|].
  apply evals_getk; [done|]. by apply evals_deref.
Qed.

Lemma evals_mod_shared k v i p s f :
  procs k !! i = Some p → shared k !! sharePtr p = Some s →
  evals k v (mod_shared i f) tt (k <| shared ::= alter f (sharePtr p) |>) v.
Proof.
  intros Hp Hs. eapply evals_bind; [by apply evals_rd_proc|].
  apply evals_getk; [done|]. rewrite Hs. apply evals_bind_ret. by apply evals_modk.
Qed.

(** A field read through a pointer that is not null. *)
Lemma evals_pread k v i p f off : procs k !! i = Some p → evals k v (pread (Some i) f off) (f p) k v.
Proof. intros Hp. eapply evals_bind; [by apply evals_rd_proc|]. apply evals_ret. Qed.

(** ** Loops *)

(** A loop over the table that changes each entry by [g]. *)
Lemma evals_procs_map (g : proc → proc) (body : nat → K unit) k v n :
  length (procs k) = n →
  (∀ i ps p, ps !! i = Some p →
     evals (k <| procs := ps |>) v (body i) tt (k <| procs := <[i := g p]> ps |>) v) →
  evals k v (for_each (seq 0 n) body) tt (k <| procs := g <$> procs k |>) v.
Proof.
  intros Hn Hb.
  assert (∀ rest pre, evals (k <| procs := pre ++ rest |>) v
    (for_each (seq (length pre) (length rest)) body) tt (k <| procs := pre ++ (g <$> rest) |>) v) as Hgen.
  { induction rest as [|p rest IH]; intros pre; [apply evals_ret|].
    cbn [length seq for_each]. eapply evals_bind.
    - apply (Hb _ _ p). by rewrite lookup_app_r, Nat.sub_diag by done.
    - rewrite insert_app_r_alt, Nat.sub_diag by done. simpl.
      pose proof (IH (pre ++ [g p])) as HI. rewrite length_app, Nat.add_1_r in HI.
      rewrite <- !app_assoc in HI. done. }
  pose proof (Hgen (procs k) []) as HI. simpl in HI. rewrite Hn in HI.
  replace k with (k <| procs := procs k |>) at 1 by (by destruct k). done.
Qed.

(** A scan that stops on [x] with a change of state. *)
Lemma evals_find_hit {A B} (l1 : list A) x l2 (body : A → K (option B)) b k v k' v' :
  (∀ y, y ∈ l1 → evals k v (body y) None k v) → evals k v (body x) (Some b) k' v' →
  evals k v (for_find (l1 ++ x :: l2) body) (Some b) k' v'.
Proof.
  intros Hm Hh. induction l1 as [|y l1 IH]; cbn [app for_find].
  - eapply evals_bind; [exact Hh|]. apply evals_ret.
  - eapply evals_bind; [apply Hm; set_solver|]. apply IH. intros; apply Hm; set_solver.
Qed.

Lemma evals_find_miss {A B} (l : list A) (body : A → K (option B)) k v :
  (∀ y, y ∈ l → evals k v (body y) None k v) → evals k v (for_find l body) None k v.
Proof.
  intros Hm. induction l as [|y l IH]; [apply evals_ret|]. cbn [for_find].
  eapply evals_bind; [apply Hm; set_solver|]. apply IH. intros; apply Hm; set_solver.
Qed.

(** A scan that stops on the first entry for which [found] holds. *)
Lemma evals_for_find {A B} (l : list A) (body : A → K (option B)) (found : A → option B) k v :
  (∀ x, x ∈ l → evals k v (body x) (found x) k v) →
  evals k v (for_find l body) (head (omap found l)) k v.
Proof.
  intros Hb. induction l as [|x l IH]; [apply evals_ret|]. cbn [for_find omap list_omap].
  eapply evals_bind; [apply Hb; set_solver|].
  destruct (found x); [apply evals_ret|]. apply IH. intros; apply Hb; set_solver.
Qed.

(** The first slot of the process table that satisfies [P]. *)
Definition find_slot_of (P : proc → bool) (ps : list proc) : option nat :=
  fst <$> list_find (λ p, P p = true) ps.

Lemma find_slot_of_Some P ps i :
  find_slot_of P ps = Some i ↔
  ∃ p, ps !! i = Some p ∧ P p = true ∧ ∀ j q, (j < i)%nat → ps !! j = Some q → P q = false.
Proof.
  unfold find_slot_of. rewrite fmap_Some. split.
  - intros ([i' p] & (H1 & H2 & H3)%list_find_Some & ->). exists p. split_and!; [done..|].
    intros j q Hj Hq. apply not_true_is_false. by eapply H3.
  - intros (p & H1 & H2 & H3). exists (i, p). split; [|done]. apply list_find_Some. split_and!; [done..|].
    intros j q Hq Hj HP. by rewrite (H3 j q) in HP.
Qed.

Lemma find_slot_of_None P ps : find_slot_of P ps = None ↔ Forall (λ p, P p = false) ps.
Proof.
  unfold find_slot_of. rewrite fmap_None, list_find_None. rewrite !Forall_forall.
  setoid_rewrite <- not_true_iff_false. done.
Qed.

Lemma evals_scan (P : proc → bool) (body : nat → K (option nat)) k v n :
  length (procs k) = n →
  (∀ i p, procs k !! i = Some p → evals k v (body i) (if P p then Some i else None) k v) →
  evals k v (for_find (seq 0 n) body) (find_slot_of P (procs k)) k v.
Proof.
  intros Hn Hb. unfold find_slot_of.
  assert (∀ rest pre, procs k = pre ++ rest →
    evals k v (for_find (seq (length pre) (length rest)) body)
      (Nat.add (length pre) <$> (fst <$> list_find (λ p, P p = true) rest)) k v) as Hgen.
  { induction rest as [|p rest IH]; intros pre Hp; [apply evals_ret|].
    cbn [length seq for_find list_find].
    eapply evals_bind; [apply (Hb _ p); by rewrite Hp, lookup_app_r, Nat.sub_diag by done|].
    destruct (P p) eqn:E.
    - rewrite decide_True by done. simpl. rewrite Nat.add_0_r. apply evals_ret.
    - rewrite decide_False by done. pose proof (IH (pre ++ [p])) as HI.
      rewrite length_app, Nat.add_1_r, <- app_assoc in HI. eapply evals_eq; [by apply HI| |done|done].
      destruct (list_find _ rest) as [[j q]|]; simpl; [|done]. f_equal. lia. }
  pose proof (Hgen (procs k) [] eq_refl) as HI. simpl in HI. rewrite Hn in HI.
  eapply evals_eq; [exact HI| |done|done]. by destruct (list_find _ _) as [[] |].
Qed.

(** ** The allocator *)

Lemma kmem_ready_hold k v l : l ≠ L_kmem → kmem_ready k v → kmem_ready k (v_hold l v).
Proof. intros Hl Hr Hu. destruct (Hr Hu). simpl. set_solver. Qed.

Lemma evals_kalloc k v L :
  kmem_ready k v → kmem_inv k L →
  evals k v kalloc (hd 0 L) (match L with [] => k | p :: _ => k <| freelist := load32 (mem k) p |> end) v.
Proof.
  intros Hr Hk h rs Hv. destruct (kalloc_spec (at_hw k h rs) v L) as (h' & Hv' & E); [done|done|by apply kmem_inv_hw|].
  exists h'. split; [done|]. rewrite E. by destruct L.
Qed.

Lemma evals_kfree k v p :
  kmem_ready k v → valid_page p → evals k v (kfree p) tt (kfree_result p k) v.
Proof.
  intros Hr Hp h rs Hv. destruct (kfree_spec (at_hw k h rs) v p) as (h' & Hv' & E); [done..|].
  exists h'. split; [done|]. by rewrite E.
Qed.

End Procs.

(** ** Executions whose result is described by a predicate *)

Definition ends {A} (k : kern) (v : hwview) (m : K A) (v' : hwview) (Q : A → kern → Prop) : Prop :=
  ∀ h rs, hw_ok h v → post m (at_hw k h rs) v' Q.

Lemma ends_bind {A B} (m : K A) (f : A → K B) k v v1 v2 Q1 Q2 :
  ends k v m v1 Q1 → (∀ a k1, Q1 a k1 → ends k1 v1 (f a) v2 Q2) → ends k v (m ≫= f) v2 Q2.
Proof.
  intros H1 H2 h rs Hv. eapply post_bind; [by apply H1|]. intros a w1 Hv1 Hr HQ.
  rewrite <- (at_hw_self w1). by apply H2.
Qed.

Lemma ends_evals {A B} (m : K A) (f : A → K B) k v a k1 v1 v2 Q :
  evals k v m a k1 v1 → ends k1 v1 (f a) v2 Q → ends k v (m ≫= f) v2 Q.
Proof.
  intros H1 H2 h rs Hv. destruct (H1 h rs Hv) as (h1 & Hv1 & E1).
  destruct (H2 h1 rs Hv1) as (b & w2 & E2 & Hv2 & Hr & HQ). exists b, w2.
  split_and!; [by mstep E1|done..].
Qed.

Lemma ends_of_evals {A} (m : K A) k v a k1 v1 (Q : A → kern → Prop) :
  evals k v m a k1 v1 → (∀ h, Q a (k1 <| hw := h |>)) → ends k v m v1 Q.
Proof.
  intros H1 HQ h rs Hv. destruct (H1 h rs Hv) as (h1 & Hv1 & E1).
  exists a, (at_hw k1 h1 rs). split_and!; [exact E1|exact Hv1|done|apply HQ].
Qed.

Lemma ends_ret {A} (a : A) k v (Q : A → kern → Prop) :
  (∀ h, Q a (k <| hw := h |>)) → ends k v (mret a) v Q.
Proof. intros HQ h rs Hv. apply post_ret; [done|]. apply HQ. Qed.

Lemma ends_mono {A} (m : K A) k v v' (Q Q' : A → kern → Prop) :
  ends k v m v' Q → (∀ a k', Q a k' → Q' a k') → ends k v m v' Q'.
Proof. intros H HQ h rs Hv. eapply post_mono; [by apply H|done]. Qed.

Lemma ends_post {A} (m : K A) w v v' (Q : A → kern → Prop) :
  ends (ks w) v m v' Q → hw_ok (hw (ks w)) v → post m w v' Q.
Proof. intros H Hv. pose proof (H _ (resumes w) Hv) as Hp. by rewrite at_hw_self in Hp. Qed.

Lemma ends_assoc {A B C} (m : K A) (f : A → K B) (g : B → K C) k v v' Q :
  ends k v (m ≫= λ a, f a ≫= g) v' Q → ends k v ((m ≫= f) ≫= g) v' Q.
Proof. intros H h rs Hv. by apply post_assoc, H. Qed.

Lemma ends_bind_ret {A B} (a : A) (g : A → K B) k v v' Q :
  ends k v (g a) v' Q → ends k v (mret a ≫= g) v' Q.
Proof. done. Qed.

Lemma ends_getk {A B} (f : kern → A) (g : A → K B) k v v' Q :
  (∀ k h, f (k <| hw := h |>) = f k) → ends k v (g (f k)) v' Q → ends k v (getk f ≫= g) v' Q.
Proof. intros Hf H h rs Hv. apply post_getk. simpl. rewrite Hf. by apply H. Qed.

Lemma ends_modk {B} (f : kern → kern) (g : unit → K B) k v v' Q :
  (∀ k h, f (k <| hw := h |>) = (f k) <| hw := h |>) →
  ends (f k) v (g tt) v' Q → ends k v (modk f ≫= g) v' Q.
Proof. intros Hf H. eapply ends_evals; [by apply evals_modk|done]. Qed.

Lemma ends_resumes {A B} (f : list (kern → kern) → A) (g : A → K B) k v v' Q :
  (∀ n, ends k v (g n) v' Q) → ends k v (gets (λ w, f (resumes w)) ≫= g) v' Q.
Proof.
  intros H h rs Hv. destruct (H (f rs) h rs Hv) as (b & w' & E & Hv' & Hr & HQ). exists b, w'.
  split_and!; [|done..]. by rewrite bind_gets.
Qed.

Ltac npure :=
  repeat lazymatch goal with
    | |- ends _ _ (mbind _ (mbind _ _)) _ _ => apply ends_assoc
    | |- ends _ _ (mbind _ (getk _)) _ _ => apply ends_getk; [done|]
    | |- ends _ _ (mbind _ (modk _)) _ _ => apply ends_modk; [done|]
    | |- ends _ _ (mbind _ (mret _)) _ _ => apply ends_bind_ret
    end;
  cbv beta.
(** Run one command with an [evals] specification. *)
Ltac nstep H := npure; eapply ends_evals; [eapply H|]; cbv beta.

(** ** Executions that may switch, fault or panic

    [leads k v m Q]: the outcome of [m], started with the switches [rs] to come,
    satisfies [Q rs]. *)
Definition leads {A} (k : kern) (v : hwview) (m : K A) (Q : list (kern → kern) → outcome world A → Prop) : Prop :=
  ∀ h rs, hw_ok h v → Q rs (m (at_hw k h rs)).

Lemma leads_evals {A B} (m : K A) (f : A → K B) k v a k1 v1 Q :
  evals k v m a k1 v1 → leads k1 v1 (f a) Q → leads k v (m ≫= f) Q.
Proof.
  intros H1 H2 h rs Hv. destruct (H1 h rs Hv) as (h1 & Hv1 & E1).
  assert ((m ≫= f) (at_hw k h rs) = f a (at_hw k1 h1 rs)) as -> by (by mstep E1). by apply H2.
Qed.

Lemma leads_assoc {A B C} (m : K A) (f : A → K B) (g : B → K C) k v Q :
  leads k v (m ≫= λ a, f a ≫= g) Q → leads k v ((m ≫= f) ≫= g) Q.
Proof. intros H h rs Hv. rewrite bind_assoc. by apply H. Qed.

Lemma leads_getk {A B} (f : kern → A) (g : A → K B) k v Q :
  (∀ k h, f (k <| hw := h |>) = f k) → leads k v (g (f k)) Q → leads k v (getk f ≫= g) Q.
Proof. intros Hf H h rs Hv. rewrite bind_getk. simpl. rewrite Hf. by apply H. Qed.

Lemma leads_modk {B} (f : kern → kern) (g : unit → K B) k v Q :
  (∀ k h, f (k <| hw := h |>) = (f k) <| hw := h |>) → leads (f k) v (g tt) Q → leads k v (modk f ≫= g) Q.
Proof. intros Hf H. eapply leads_evals; [by apply evals_modk|done]. Qed.

Lemma leads_bind_ret {A B} (a : A) (g : A → K B) k v Q : leads k v (g a) Q → leads k v (mret a ≫= g) Q.
Proof. done. Qed.

Lemma leads_resumes {A B} (f : list (kern → kern) → A) (g : A → K B) k v Q :
  (∀ n, leads k v (g n) Q) → leads k v (gets (λ w, f (resumes w)) ≫= g) Q.
Proof. intros H h rs Hv. rewrite bind_gets. by apply H. Qed.

Lemma leads_ends {A B} (m : K A) (f : A → K B) k v v1 Q1 Q :
  ends k v m v1 Q1 → (∀ a k1, Q1 a k1 → leads k1 v1 (f a) Q) → leads k v (m ≫= f) Q.
Proof.
  intros H1 H2 h rs Hv. destruct (H1 h rs Hv) as (a & w1 & E & Hv1 & Hr & HQ).
  rewrite (bind_ok _ _ _ _ _ E). rewrite <- (at_hw_self w1). simpl in Hr. rewrite Hr. by apply H2.
Qed.

Lemma leads_ret {A} (a : A) k v (Q : list (kern → kern) → outcome world A → Prop) :
  (∀ h rs, hw_ok h v → Q rs (Ok a (at_hw k h rs))) → leads k v (mret a) Q.
Proof. intros HQ h rs Hv. by apply HQ. Qed.

Lemma leads_of_evals {A} (m : K A) k v a k1 v1 (Q : list (kern → kern) → outcome world A → Prop) :
  evals k v m a k1 v1 → (∀ h rs, hw_ok h v1 → Q rs (Ok a (at_hw k1 h rs))) → leads k v m Q.
Proof. intros He HQ h rs Hv. destruct (He h rs Hv) as (h' & Hv' & ->). by apply HQ. Qed.

Ltac lpure :=
  repeat lazymatch goal with
    | |- leads _ _ (mbind _ (mbind _ _)) _ => apply leads_assoc
    | |- leads _ _ (mbind _ (getk _)) _ => apply leads_getk; [done|]
    | |- leads _ _ (mbind _ (modk _)) _ => apply leads_modk; [done|]
    | |- leads _ _ (mbind _ (mret _)) _ => apply leads_bind_ret
    end;
  cbv beta.
Ltac lstep H := lpure; eapply leads_evals; [eapply H|]; cbv beta.

(** Run leading reads and writes. *)
Ltac epure :=
  repeat lazymatch goal with
    | |- evals _ _ (mbind _ (mbind _ _)) _ _ _ => apply evals_assoc
    | |- evals _ _ (mbind _ (getk _)) _ _ _ => apply evals_getk; [done|]
    | |- evals _ _ (mbind _ (modk _)) _ _ _ => apply evals_modk_bind; [done|]
    | |- evals _ _ (mbind _ (mret _)) _ _ _ => apply evals_bind_ret
    end;
  cbv beta.
(** Run one command with the specification [H]. *)
Ltac estep H := epure; eapply evals_bind; [eapply H|]; cbv beta.

(** ** Concrete processors

    CPU 0 running the process [i], with no lock or with the lock [l] held. *)
Definition run_hw (i : nat) : hwstate := boot_hw <| cpus := [boot_cpu <| cproc := Some i |>] |>.
Definition lock_hw (i : nat) (l : lockid) : hwstate :=
  mkHw [boot_cpu <| cproc := Some i |> <| ncli := 1 |> <| intena := 1 |>] 0 0 0
    (λ l', if decide (l' = l) then mkSpinlock 1 "" (Some 0%nat) else mkSpinlock 0 "" None).
Definition run_view (i : nat) : hwview := mkView 0 (Some i) 0 true ∅ ∅.
Definition lock_view (i : nat) (l : lockid) : hwview := mkView 0 (Some i) 0 true {[l]} ∅.

Lemma run_hw_ok i : hw_ok (run_hw i) (run_view i).
Proof. exists (boot_cpu <| cproc := Some i |>). split; try done; set_solver. Qed.

Lemma lock_hw_ok i l : hw_ok (lock_hw i l) (lock_view i l).
Proof.
  exists (boot_cpu <| cproc := Some i |> <| ncli := 1 |> <| intena := 1 |>).
  split; try done.
  - unfold lock_view. cbn [hv_held]. by rewrite size_singleton.
  - simpl. intros l' ->%elem_of_singleton. by rewrite decide_True.
  - simpl. intros l' Hn _. rewrite decide_False by set_solver. done.
Qed.
