(* ===== verification/UserMem.v ===== *)
(** * User memory as the kernel sees it

    Specifications of [clearpteu] and of the kernel's loads and stores at user
    addresses, in terms of the address space of VmInv.v. *)

From S2P Require Import Prelude Layout State Str Spinlock Kalloc Vm VmInv VmOps VmAlloc VmCopy Sched Uaccess Eval.

(** ** An entry without its user bit *)

Definition clear_u (e : Z) : Z := Z.land e (u32 (Z.lnot PTE_U)).

Lemma clear_u_id e : u32 (clear_u e) = clear_u e.
Proof.
  unfold clear_u, u32 at 1. change two32 with (2 ^ 32). rewrite <- Z.land_ones by done.
  by rewrite <- Z.land_assoc.
Qed.

Lemma clear_u_u32 e : is_u32 (clear_u e).
Proof. rewrite <- clear_u_id. apply u32_range. Qed.

Lemma clear_u_present e : present (clear_u e) = present e.
Proof. unfold present, clear_u. by rewrite <- Z.land_assoc. Qed.

Lemma clear_u_frame e : is_u32 e → frame_of (clear_u e) = frame_of e.
Proof.
  intros He. unfold frame_of, PTE_ADDR. rewrite clear_u_id, (u32_id e) by done.
  unfold clear_u. by rewrite <- Z.land_assoc.
Qed.

Lemma clear_u_bit e : Z.land (clear_u e) PTE_U = 0.
Proof. unfold clear_u. rewrite <- Z.land_assoc. apply Z.land_0_r. Qed.

Section Apart.
Context `{KernelSyms}.

(** ** The pages of one allocation set apart *)

Lemma as_inv_apart own m pd L st :
  NoDup (st :: L) → as_inv own m pd (st :: L) → as_inv (λ x, own x ∧ x ≠ st) m pd L.
Proof.
  intros [Hst _]%NoDup_cons Has. destruct (as_inv_tail _ _ _ _ _ Has) as [[Hp Hf] [U1 U2]].
  destruct Hp as [A1 (A2 & A3 & A4) A5 A6 A7], Hf as [B1 B2]. split; split; try done.
  - intros x Hx. split; [by apply A1|]. by intros ->.
  - split_and!; [done..|]. intros ->. apply U1. by left.
  - intros i t Hi Ht. destruct (A5 i t Hi Ht) as (? & ? & ? & ?). split_and!; [done..|].
    intros ->. apply U1. right. eauto.
  - intros va e Hva He. destruct (B1 va e Hva He) as (? & ? & ? & ?). split_and!; [done..|]. by eapply U2.
Qed.

Lemma as_inv_mono (own own' : Z → Prop) m pd L :
  (∀ x, own x → own' x) → as_inv own m pd L → as_inv own' m pd L.
Proof.
  intros Ho [[A1 (A2 & A3' & A4') A3 A4 A5] [B1 B2]]. split; split; auto.
  - intros i t Hi Ht. destruct (A3 i t Hi Ht) as (? & ? & ? & ?). auto.
  - intros va e Hva He. destruct (B1 va e Hva He) as (? & ? & ? & ?). auto.
Qed.

End Apart.

(** ** clearpteu *)

Section ClearPteu.
Context `{KernelSyms}.
Variables (own : Z → Prop) (k : kern) (v : hwview) (pd va e : Z) (L : list Z).
Hypothesis (Has : as_inv own (mem k) pd L) (Hva : 0 ≤ va < KERNBASE) (He : leaf (mem k) pd va = Some e).

Let t : Z := default 0 (tbl (mem k) pd (PDX va)).
Let m' : memory := store32 (mem k) (t + 4 * PTX va) (clear_u e).

Local Lemma clear_tbl : tbl (mem k) pd (PDX va) = Some t ∧ e = load32 (mem k) (t + 4 * PTX va) ∧ present e = true.
Proof.
  unfold leaf in He. unfold t. destruct (tbl (mem k) pd (PDX va)) as [t'|]; [|done]. simpl.
  destruct (present _) eqn:E; [|done]. by injection He as <-.
Qed.

(** The page of [va]. *)
Let a : Z := va - va mod PGSIZE.

Lemma clearpteu_leaf u : vpage u → leaf m' pd u = if u =? a then Some (clear_u e) else leaf (mem k) pd u.
Proof.
  intros Hu. destruct clear_tbl as (Ht & Hl & Hp). destruct Has as [Hpt _].
  unfold m'. rewrite (store_leaf_vpage own (mem k) pd L (PDX va) t (PTX va)) with (a := a); auto with kern.
  - by rewrite clear_u_id, clear_u_present, Hp.
  - split; [unfold pg_aligned|]; unfold a; zl.
  - unfold a. rewrite !PDX_spec; zl.
  - unfold a. rewrite !PTX_spec; zl.
Qed.

Lemma clearpteu_as : as_inv own m' pd L ∧ (∀ i, idx i → tbl m' pd i = tbl (mem k) pd i).
Proof.
  destruct clear_tbl as (Ht & Hl & Hp). destruct Has as [Hpt [B1 B2]].
  pose proof (store_tbl own (mem k) pd L (PDX va) t (PTX va) (clear_u e) Hpt (PDX_idx _) (PTX_idx _) Ht) as Htb.
  assert (is_u32 e) as Heu by (rewrite Hl; apply load32_range).
  assert (∀ u e', upage u → leaf m' pd u = Some e' → ∃ e0, leaf (mem k) pd u = Some e0 ∧ frame_of e' = frame_of e0) as Hold.
  { intros u e' Hu. rewrite clearpteu_leaf by auto with kern. destruct (Z.eqb_spec u a) as [->|]; [|eauto].
    intros [= <-]. exists e. unfold a. by rewrite leaf_mod, clear_u_frame by kl. }
  split; [|exact Htb]. split; [by apply (store_pt_inv own (mem k) pd L (PDX va) t); auto with kern|]. split.
  - intros u e' Hu Hl'. destruct (Hold u e' Hu Hl') as (e0 & H0 & ->). rewrite (pt_pages_ext (mem k)) by done. eauto.
  - intros u u' e1 e2 Hu Hu' H1 H2. destruct (Hold u e1 Hu H1) as (? & ? & ->), (Hold u' e2 Hu' H2) as (? & ? & ->). eauto.
Qed.

Lemma clearpteu_frame : mem_frame (pt_pages (mem k) pd) (mem k) m'.
Proof.
  destruct clear_tbl as (Ht & _). apply store32_frame; [apply PTX_idx|]. right. eauto with kern.
Qed.

Lemma evals_clearpteu : evals k v (clearpteu pd va) tt (k <| mem := m' |>) v.
Proof.
  destruct clear_tbl as (Ht & Hl & Hp). destruct Has as [Hpt _].
  destruct (pt_tbl _ _ _ _ Hpt _ _ (PDX_idx va) Ht) as (Htv & _).
  pose proof (valid_page_pos _ Htv). pose proof (PTX_range va). unfold clearpteu.
  eapply evals_bind; [|cbv beta].
  { intros h rs Hv. exists h. split; [done|]. by apply (walk_present (at_hw k h rs)). }
  rewrite (proj2 (Z.eqb_neq _ 0)) by kl. unfold ld32, st32. epure. rewrite <- Hl. fold (clear_u e).
  eapply evals_eq; [by apply evals_modk|done..].
Qed.

End ClearPteu.

(** ** Loads and stores at user addresses *)

Lemma clear_u_write e : Z.land (clear_u e) PTE_W = Z.land e PTE_W.
Proof. unfold clear_u. by rewrite <- Z.land_assoc. Qed.

(** The bytes from [va] on are mapped writable. *)
Definition writable (m : memory) (pd va n : Z) : Prop :=
  0 ≤ va ∧ va + n ≤ KERNBASE ∧
  ∀ i, 0 ≤ i < n → ∃ e, leaf m pd (va + i) = Some e ∧ Z.land e PTE_W ≠ 0.

Section Access.
Context `{KernelSyms}.

Lemma xlate_w_leaf own m pd L va e :
  pt_inv own m pd L → leaf m pd va = Some e → Z.land e PTE_W ≠ 0 →
  xlate_w m pd va = Some (frame_of e + va mod PGSIZE).
Proof.
  intros Hp. unfold leaf, xlate_w. destruct (tbl m pd (PDX va)) as [t|] eqn:Ht; [|done]. simpl.
  pose proof (pt_w _ _ _ _ Hp _ _ (PDX_idx va) Ht) as Hw.
  unfold tbl, pde_at, present, frame_of in *.
  destruct (truthy (Z.land (load32 m (pd + 4 * PDX va)) PTE_P)); [|done]. injection Ht as <-.
  set (pte := load32 m (_ + 4 * PTX va)). destruct (truthy (Z.land pte PTE_P)) eqn:E; [|done].
  intros [= <-] He. unfold truthy. by rewrite (proj2 (Z.eqb_neq _ 0) Hw), (proj2 (Z.eqb_neq _ 0) He).
Qed.

Lemma evals_vst8 own k v L pd va b e :
  as_inv own (mem k) pd L → hv_cr3 v = V2P pd → 0 ≤ va < KERNBASE →
  leaf (mem k) pd va = Some e → Z.land e PTE_W ≠ 0 →
  evals k v (vst8 va b) tt (k <| mem := store8 (mem k) (frame_of e + va mod PGSIZE) (u8 b) |>) v.
Proof.
  intros [Hp _] Hc Hva He Hw. destruct (pt_pd _ _ _ _ Hp) as (Hpd & _).
  destruct (V2P_page pd Hpd) as (_ & _ & HP).
  intros h rs Hv. exists h. split; [done|]. unfold vst8. rewrite bind_getk. simpl.
  destruct (id Hv) as [c Hat]. rewrite (hw_cr3 _ _ _ _ Hat), Hc, HP.
  rewrite (proj2 (Z.leb_gt KERNBASE va)) by lia. rewrite bind_getk. simpl.
  by rewrite (xlate_w_leaf own _ pd L va e).
Qed.

Lemma writable_ext m m' pd va n :
  (∀ u, leaf m' pd u = leaf m pd u) → writable m pd va n → writable m' pd va n.
Proof. intros Hl (A & B & C). split_and!; [done..|]. setoid_rewrite Hl. done. Qed.

Lemma store8_as own m pd L va b e :
  as_inv own m pd L → 0 ≤ va < KERNBASE → leaf m pd va = Some e →
  let m' := store8 m (frame_of e + va mod PGSIZE) b in
  wrote m pd va [b] m' ∧ as_inv own m' pd L ∧ (∀ u, leaf m' pd u = leaf m pd u).
Proof.
  intros Has Hva He m'.
  assert (upage (va - va mod PGSIZE)) as Hup by (split; [unfold pg_aligned|]; zl).
  assert (leaf m pd (va - va mod PGSIZE) = Some e) as He' by (by rewrite leaf_mod by kl).
  destruct (fr_page _ _ _ _ (proj2 Has) _ e Hup He') as ((Hal & _) & _ & Hnp & _).
  destruct (as_inv_frame own m m' pd L (λ x, x = frame_of e)) as (Has' & _ & Hl'); try done.
  { by intros y ->. }
  { by intros x Hpx ->. }
  { intros a Ha. specialize (Ha _ eq_refl). unfold m', store8, in_page in *. rewrite (proj2 (Z.eqb_neq _ _)); [done|]. zl. }
  split_and!; [|done..]. split; simpl.
  - intros i a Hi. assert (i = 0) as -> by lia. rewrite Z.add_0_r, xlate_leaf, He. simpl. intros [= <-].
    unfold m', store8. by rewrite Z.eqb_refl.
  - intros a Ha. unfold m', store8. rewrite (proj2 (Z.eqb_neq _ _)); [done|]. intros ->. apply (Ha 0); [lia|].
    by rewrite Z.add_0_r, xlate_leaf, He.
Qed.

Lemma evals_vwrite own v L pd l : ∀ k va,
  as_inv own (mem k) pd L → hv_cr3 v = V2P pd → writable (mem k) pd va (Z.of_nat (length l)) →
  ∃ m', evals k v (vwrite va l) tt (k <| mem := m' |>) v ∧ wrote (mem k) pd va (u8 <$> l) m' ∧
        as_inv own m' pd L ∧ (∀ u, leaf m' pd u = leaf (mem k) pd u).
Proof.
  induction l as [|b l IH]; intros k va Has Hc Hw.
  - exists (mem k). split_and!; [|by split; simpl; intros; [lia|]|done..]. eapply evals_eq; [apply evals_ret|done| |done]. by destruct k.
  - destruct (id Hw) as (H0 & Hlt & Hm). cbn [length] in Hlt, Hm. cbn [vwrite].
    destruct (Hm 0 ltac:(lia)) as (e & He & Hwe). rewrite Z.add_0_r in He.
    destruct (store8_as own (mem k) pd L va (u8 b) e Has ltac:(lia) He) as (W1 & Has1 & Hl1).
    set (m1 := store8 _ _ _) in *.
    set (k1 := k <| mem := m1 |>).
    destruct (IH k1 (va + 1) Has1 Hc) as (m2 & R & W2 & Has2 & Hl2).
    { split_and!; [lia|lia|]. intros i Hi. simpl. setoid_rewrite Hl1.
      destruct (Hm (1 + i) ltac:(lia)) as (e' & ? & ?). exists e'. split; [|done].
      by replace (va + 1 + i) with (va + (1 + i)) by lia. }
    exists m2. split_and!; [|change (u8 <$> b :: l) with ([u8 b] ++ (u8 <$> l)); eapply wrote_app; [exact W1|exact W2| |]|done|].
    + estep (evals_vst8 own k v L pd va b e); [done|done|lia|done|done|]. rewrite u32_id by kl.
      eapply evals_eq; [exact R|done| |done]. by destruct k.
    + intros u. by rewrite !xlate_leaf, Hl1.
    + intros i j a. cbn [length app]. rewrite length_fmap. intros Hi Hj H1 H2.
      pose proof (xlate_inj own (mem k) pd L (va + i) (va + j) a Has ltac:(lia) ltac:(lia) H1 H2). lia.
    + intros u. by rewrite Hl2.
Qed.

(** Writing through the map changes frames of user pages only. *)
Lemma wrote_frame m pd va buf m' :
  0 ≤ va → va + Z.of_nat (length buf) ≤ KERNBASE → wrote m pd va buf m' →
  mem_frame (λ x, ∃ u e, upage u ∧ leaf m pd u = Some e ∧ frame_of e = x) m m'.
Proof.
  intros H1 H2 [_ W] a Ha. apply W. intros i Hi. rewrite xlate_leaf.
  destruct (leaf m pd (va + i)) as [e|] eqn:He; [|done]. simpl. intros [= <-].
  apply (Ha (frame_of e)); [|unfold in_page; zl]. rewrite <- leaf_mod in He by kl.
  exists (va + i - (va + i) mod PGSIZE), e. split_and!; [split; [unfold pg_aligned|]; zl|done|done].
Qed.

Lemma wrote_tbl own m pd L va buf m' i :
  as_inv own m pd L → 0 ≤ va → va + Z.of_nat (length buf) ≤ KERNBASE → wrote m pd va buf m' → idx i →
  tbl m' pd i = tbl m pd i.
Proof.
  intros [Hp Hf] H1 H2 W Hi. eapply tbl_frame; [exact Hp| | |done|by eapply wrote_frame].
  - intros y (u & e & Hu & He & <-). by destruct (fr_page _ _ _ _ Hf u e Hu He) as ((? & _) & _).
  - intros (u & e & Hu & He & Hpd). destruct (fr_page _ _ _ _ Hf u e Hu He) as (_ & _ & Hn & _). apply Hn. by left.
Qed.

(** Pages of the address space: of its page table and of the user. *)
Definition in_space (m : memory) (pd x : Z) : Prop :=
  pt_pages m pd x ∨ ∃ u e, upage u ∧ leaf m pd u = Some e ∧ frame_of e = x.

Lemma in_space_own own m pd L x : as_inv own m pd L → in_space m pd x → valid_page x ∧ x ∉ L ∧ own x.
Proof.
  intros [Hp Hf] [Hx|(u & e & Hu & He & <-)]; [by eapply pt_pages_valid|].
  by destruct (fr_page _ _ _ _ Hf u e Hu He) as (? & ? & _ & ?).
Qed.

Lemma in_space_ext m m' pd x :
  (∀ i, idx i → tbl m' pd i = tbl m pd i) → (∀ u, leaf m' pd u = leaf m pd u) → in_space m' pd x → in_space m pd x.
Proof. intros Ht Hl [Hx|(u & e & Hu)]; [left; exact (proj1 (pt_pages_ext m m' pd x Ht) Hx)|right; exists u, e; by rewrite <- Hl]. Qed.

(** A write to the address space leaves the free pages and the pages of others alone. *)
Lemma space_frame_kmem own k m' pd L :
  as_inv own (mem k) pd L → kmem_inv k L → mem_frame (in_space (mem k) pd) (mem k) m' → kmem_inv (k <| mem := m' |>) L.
Proof.
  intros Has Hk Hf. apply (kmem_inv_frame k); [done| |done]. intros x a Hx Ha. simpl.
  eapply mem_frame_page; [| | |exact Hf|exact Ha].
  - intros y Hy. by destruct (in_space_own _ _ _ _ _ Has Hy) as ((? & _) & _).
  - pose proof (km_valid _ _ Hk) as Hv. rewrite Forall_forall in Hv. by destruct (Hv x Hx).
  - intros Hx'. by destruct (in_space_own _ _ _ _ _ Has Hx') as (_ & ? & _).
Qed.

Lemma wrote_space m pd va buf m' :
  0 ≤ va → va + Z.of_nat (length buf) ≤ KERNBASE → wrote m pd va buf m' → mem_frame (in_space m pd) m m'.
Proof. intros H1 H2 W. eapply mem_frame_mono; [|by eapply wrote_frame]. simpl. intros x Hx. by right. Qed.

(** ** Calls that change user memory *)

Lemma ends_allocuvm own k v pd oldsz newsz L :
  kmem_ready k v → kmem_inv k L → as_inv own (mem k) pd L → 0 ≤ oldsz →
  (∀ va, vpage va → PGROUNDUP oldsz ≤ va < newsz → leaf (mem k) pd va = None) →
  oldsz ≤ newsz < KERNBASE →
  ends k v (allocuvm pd oldsz newsz) v (λ r k', ∃ L',
     kmem_inv k' L' ∧ as_inv own (mem k') pd L' ∧ kframe (λ x, pt_pages (mem k') pd x ∨ x ∈ L) k k' ∧
     ((r = newsz ∧
       (∀ va, upage va → PGROUNDUP oldsz ≤ va < newsz → ∃ f, f ∈ L ∧
          leaf (mem k') pd va = Some (entry (V2P f) PTE_WU)) ∧
       (∀ va, vpage va → va < PGROUNDUP oldsz ∨ newsz ≤ va → leaf (mem k') pd va = leaf (mem k) pd va)) ∨
      (r = 0 ∧ ∀ va, vpage va → leaf (mem k') pd va = leaf (mem k) pd va))).
Proof.
  intros Hr Hk Has Ho Hfree Hn h rs Hv.
  eapply post_mono; [apply (allocuvm_spec own (at_hw k h rs) v pd oldsz newsz L); try done; by apply kmem_inv_hw|].
  intros r k' (L' & H1 & H2 & [] & H4). exists L'. split_and!; [done|done|by split|].
  destruct H4 as [(-> & Hnew & Hold)|(-> & Hl & _)]; [left|right; by split]. split_and!; [done| |done].
  intros va Hva Hb. destruct (Hnew va Hva Hb) as (f & ? & ? & _). eauto.
Qed.

Lemma ends_copyout {B} (f : Z → K B) own k v pd va buf L v' Q :
  as_inv own (mem k) pd L → user_range (mem k) pd va (Z.of_nat (length buf)) →
  (∀ m', wrote (mem k) pd va buf m' → as_inv own m' pd L → (∀ u, leaf m' pd u = leaf (mem k) pd u) →
     ends (k <| mem := m' |>) v (f 0) v' Q) →
  ends k v (copyout pd va buf ≫= f) v' Q.
Proof.
  intros Has Hur Hrest h rs Hv. unfold copyout.
  destruct (copyout_loop_spec own (S (length buf)) (at_hw k h rs) pd va buf L Has Hur ltac:(lia))
    as (m' & Hrun & W & Has' & Hl).
  destruct (Hrest m' W Has' Hl h rs Hv) as (b & w2 & E2 & Hv2 & Hr & HQ). exists b, w2.
  split_and!; [|done..]. by mstep Hrun.
Qed.

Lemma ends_hw {A} (m : K A) k h v v' Q : ends k v m v' Q → ends (k <| hw := h |>) v m v' Q.
Proof. intros He h' rs Hv. apply (He h' rs Hv). Qed.

(** Bytes at user addresses. *)
Definition user_bytes (m : memory) (pd va : Z) (l : list Z) : Prop :=
  ∀ i b, l !! i = Some b → uload8 m pd (va + Z.of_nat i) = Some b.

Lemma wrote_bytes m pd va buf m' :
  wrote m pd va buf m' → (∀ u, leaf m' pd u = leaf m pd u) →
  (∀ i, 0 ≤ i < Z.of_nat (length buf) → ∃ e, leaf m pd (va + i) = Some e) → user_bytes m' pd va buf.
Proof.
  intros [W _] Hl Hm i b Hb. pose proof (lookup_lt_Some _ _ _ Hb). unfold uload8.
  destruct (Hm (Z.of_nat i) ltac:(lia)) as (e & He). specialize (W (Z.of_nat i)).
  rewrite xlate_leaf, He in W. rewrite xlate_leaf, Hl, He. simpl in *. f_equal.
  rewrite (W _ ltac:(lia) eq_refl), nth_lookup, Nat2Z.id, Hb. done.
Qed.

(** A write elsewhere keeps them. *)
Lemma wrote_keeps own m pd L va buf m' va' l :
  as_inv own m pd L → wrote m pd va buf m' → (∀ u, leaf m' pd u = leaf m pd u) →
  0 ≤ va → va + Z.of_nat (length buf) ≤ KERNBASE → 0 ≤ va' → va' + Z.of_nat (length l) ≤ KERNBASE →
  va + Z.of_nat (length buf) ≤ va' ∨ va' + Z.of_nat (length l) ≤ va →
  user_bytes m pd va' l → user_bytes m' pd va' l.
Proof.
  intros Has [_ W] Hl H1 H2 H3 H4 Hd Hb i b Hi. pose proof (lookup_lt_Some _ _ _ Hi). specialize (Hb i b Hi).
  unfold uload8 in *. assert (xlate m' pd (va' + Z.of_nat i) = xlate m pd (va' + Z.of_nat i)) as -> by (by rewrite !xlate_leaf, Hl).
  destruct (xlate m pd (va' + Z.of_nat i)) as [a|] eqn:Hx; [|done]. simpl in *. rewrite <- Hb. f_equal. apply W.
  intros j Hj Hx'. pose proof (xlate_inj own m pd L (va' + Z.of_nat i) (va + j) a Has ltac:(lia) ltac:(lia) Hx Hx'). lia.
Qed.

(** A write to a page that is not of the address space keeps them. *)
Lemma user_bytes_frame own m m' pd L y va l :
  as_inv own m pd L → pg_aligned y → unused m pd y → mem_frame (λ x, x = y) m m' →
  (∀ u, leaf m' pd u = leaf m pd u) → 0 ≤ va → va + Z.of_nat (length l) ≤ KERNBASE →
  user_bytes m pd va l → user_bytes m' pd va l.
Proof.
  intros [_ Hfr] Hy [_ Hun] Hf Hl H1 H2 Hb i b Hi. pose proof (lookup_lt_Some _ _ _ Hi). specialize (Hb i b Hi).
  unfold uload8 in *. rewrite xlate_leaf in *. rewrite Hl. set (u := va + Z.of_nat i) in *.
  destruct (leaf m pd u) as [e|] eqn:He; [|done]. simpl in *. rewrite <- Hb. f_equal.
  rewrite <- leaf_mod in He by (unfold u; kl).
  assert (upage (u - u mod PGSIZE)) as Hup by (split; [unfold pg_aligned|]; unfold u; zl).
  destruct (fr_page _ _ _ _ Hfr _ e Hup He) as ((Hal & _) & _). specialize (Hun _ e Hup He).
  eapply (mem_frame_page (λ x, x = y) m m' (frame_of e)); [by intros ? ->|done|done|done|]. unfold in_page. zl.
Qed.

End Access.
