(* ===== verification/SchedProps.v ===== *)
(** * Sleeping and waking up: properties of Sched.v *)

From S2P Require Import Prelude Layout State Str Spinlock Kalloc Vm Sched Eval.

Section SchedProps.
Context `{KernelSyms}.

(** What [wakeup1(ch)] does to a slot of the process table. *)
Definition woken (ch : chan) (p : proc) : proc :=
  if bool_decide (state p = SLEEPING) && bool_decide (pchan p = ch)
  then p <| state := RUNNABLE |> else p.

Lemma evals_wakeup1 k v ch :
  length (procs k) = NPROCn →
  evals k v (wakeup1 ch) tt (k <| procs := woken ch <$> procs k |>) v.
Proof.
  intros Hn. apply evals_procs_map; [done|]. intros i ps p Hp.
  estep evals_rd_proc; [done|]. unfold woken. destruct (_ && _).
  - eapply evals_eq; [apply evals_mod_proc|done| |done].
    unfold set; simpl. by rewrite (list_alter_insert _ _ _ p).
  - eapply evals_eq; [apply evals_ret|done| |done]. by rewrite list_insert_id.
Qed.

Lemma evals_wakeup k v ch :
  length (procs k) = NPROCn → L_ptable ∉ hv_held v → L_ptable ∉ hv_others v →
  evals k v (wakeup ch) tt (k <| procs := woken ch <$> procs k |>) v.
Proof.
  intros Hn H1 H2. estep evals_acquire; [done..|]. estep evals_wakeup1; [done|].
  by apply evals_release_hold.
Qed.

(** ** Giving up the CPU *)

(** The rest of [sched] after its checks. *)
Definition sched_tail (ie : Z) : K unit :=
  _ ← swtch;
  i ← mycpu;
  mod_cpu i (λ c, c <| intena := ie |>).

(** With only [ptable.lock] held, [sched] comes to the switch. *)
Lemma sched_to_switch k v i p :
  hv_held v = {[L_ptable]} → hv_proc v = Some i → procs k !! i = Some p → state p ≠ RUNNING →
  ∀ h rs, hw_ok h v → ∃ h1 ie, hw_ok h1 v ∧ truthy ie = hv_ie v ∧
    sched (at_hw k h rs) = sched_tail ie (at_hw k h1 rs).
Proof.
  intros Hh Hp Hi Hst h rs Hv. unfold sched.
  destruct (evals_myproc k v h rs Hv) as (h1 & Hv1 & E1).
  destruct (evals_holding k v L_ptable h1 rs Hv1) as (h2 & (c & Hc) & E2).
  exists h2, (intena c). rewrite bool_decide_eq_true_2 in E2 by set_solver.
  pose proof (hw_find _ _ _ _ Hc) as Hf. pose proof (hw_lookup _ _ _ Hf) as Hl.
  assert (ncli c = 1) as Hn by (rewrite (hw_ncli _ _ _ _ Hc), Hh, size_singleton; done).
  assert (if_set h2 = false) as Hif by (rewrite (hw_if _ _ _ _ Hc), decide_False; [done|lia]).
  split_and!; [by exists c|apply (hw_ie _ _ _ _ Hc); lia|].
  mstep E1. mstep E2. rewrite Hp. simpl.
  mstep (mycpu_spec (at_hw k h2 rs)); [exact Hf|exact Hif|].
  mstep (cpu_of_spec (at_hw k h2 rs)); [exact Hl|]. rewrite Hn. simpl.
  rewrite bind_ret. mstep (rd_proc_ok (at_hw k h2 rs)); [exact Hi|].
  rewrite decide_False by done. unfold readeflags. rewrite bind_getk.
  unfold if_set in Hif. simpl. rewrite Hif.
  mstep (mycpu_spec (at_hw k h2 rs)); [exact Hf|exact Hif|].
  mstep (cpu_of_spec (at_hw k h2 rs)); [exact Hl|]. done.
Qed.

Lemma leads_sched {A} (f : unit → K A) k v i p (Q : list (kern → kern) → outcome world A → Prop) :
  hv_held v = {[L_ptable]} → hv_proc v = Some i → procs k !! i = Some p → state p ≠ RUNNING →
  (∀ h rs ie, hw_ok h v → truthy ie = hv_ie v → Q rs ((sched_tail ie ≫= f) (at_hw k h rs))) →
  leads k v (sched ≫= f) Q.
Proof.
  intros Hh Hp Hi Hst HQ h rs Hv. destruct (sched_to_switch k v i p Hh Hp Hi Hst h rs Hv) as (h1 & ie & Hv1 & Hie & E).
  rewrite (bind_cong sched (sched_tail ie) f _ _ E). by apply HQ.
Qed.

(** After the switch the interrupt state saved by [sched] is restored. *)
Lemma sched_tail_resumes ie f rs w v2 :
  resumes w = f :: rs → hw_ok (hw (f (ks w))) v2 → hv_held v2 = {[L_ptable]} →
  ∃ h, hw_ok h (v2 <| hv_ie := truthy ie |>) ∧ sched_tail ie w = Ok tt (at_hw (f (ks w)) h rs).
Proof.
  intros Hr (c & Hc) Hh. unfold sched_tail.
  assert (swtch w = Ok tt (mkWorld (f (ks w)) rs)) as E by (unfold swtch; by rewrite Hr).
  pose proof (hw_find _ _ _ _ Hc) as Hf.
  assert (ncli c = 1) as Hn by (rewrite (hw_ncli _ _ _ _ Hc), Hh, size_singleton; done).
  assert (if_set (hw (f (ks w))) = false) as Hif by (rewrite (hw_if _ _ _ _ Hc), decide_False; [done|lia]).
  exists ((hw (f (ks w))) <| cpus ::= alter (λ c, c <| intena := ie |>) (hv_cpu v2) |>). split.
  - exists (c <| intena := ie |>). destruct Hc as [_ Hn' Hp Hcr Hi Hie Hhe Ho Hfr].
    split; simpl; try done.
    + by apply (hw_find_alter _ _ _ (λ c, c <| intena := ie |>) Hf).
    + rewrite decide_False by lia. done.
  - mstep E. mstep (mycpu_spec (mkWorld (f (ks w)) rs)); [exact Hf|exact Hif|].
    unfold mod_cpu, modk, modify, at_hw. simpl. by destruct (f (ks w)).
Qed.

(** ** Sleeping *)

(** The slot of a process that sleeps on [ch]. *)
Definition asleep (ch : chan) (p : proc) : proc := p <| pchan := ch |> <| state := SLEEPING |>.

(** The state in which [sleep(ch, l)] switches: only [ptable.lock] is held. *)
Lemma sleep_to_switch k v i p l ch :
  hv_held v = {[l]} → l ≠ L_ptable → L_ptable ∉ hv_others v → hv_proc v = Some i → procs k !! i = Some p →
  let v1 := v_drop l (v_hold L_ptable v) in
  let k1 := k <| procs ::= <[i := asleep ch p]> |> in
  ∀ h rs, hw_ok h v → ∃ h1 ie, hw_ok h1 v1 ∧ truthy ie = hv_ie v ∧
    sleep ch (Some l) (at_hw k h rs) =
    (_ ← sched_tail ie; _ ← mod_proc i (λ p, p <| pchan := ch_addr 0 |>);
     _ ← release L_ptable; acquire l) (at_hw k1 h1 rs).
Proof.
  intros Hh Hne Ho Hp Hi v1 k1 h rs Hv.
  destruct (evals_myproc k v h rs Hv) as (h1 & Hv1 & E1).
  destruct (evals_acquire k v L_ptable) with (h:=h1) (rs:=rs) as (h2 & Hv2 & E2); [set_solver|done..|].
  destruct (evals_release k (v_hold L_ptable v) l) with (h:=h2) (rs:=rs) as (h3 & Hv3 & E3);
    [simpl; set_solver|done|].
  destruct (sched_to_switch k1 v1 i (asleep ch p)) with (h:=h3) (rs:=rs) as (h4 & ie & Hv4 & Hie & E4); try done.
  { simpl. set_solver. }
  { simpl. rewrite list_lookup_insert_eq; [done|by eapply lookup_lt_Some]. }
  exists h4, ie. split_and!; [done..|]. unfold sleep. mstep E1. rewrite Hp.
  rewrite (bool_decide_eq_false_2 (l = L_ptable)) by done. simpl negb. unfold when. cbv iota.
  rewrite bind_assoc. mstep E2. mstep E3. unfold mod_proc. rewrite !bind_modk.
  assert ((at_hw k h3 rs) <| ks ::= λ k, k <| procs ::= alter (λ p, p <| pchan := ch |>) i |> |>
    <| ks ::= λ k, k <| procs ::= alter (λ p, p <| state := SLEEPING |>) i |> |> = at_hw k1 h3 rs) as ->.
  { unfold k1, at_hw. destruct k. unfold set; simpl in *.
    rewrite list_alter_alter_eq. by rewrite (list_alter_insert _ _ _ p). }
  by apply bind_cong.
Qed.


(** [wakeup(ch)] makes runnable exactly the processes that sleep on [ch]: every
    other slot, and every other part of the kernel, is unchanged, and the lock it
    takes is released. *)
Lemma wakeup_wakes (w : world) (v : hwview) (ch : chan) :
  hw_ok (hw (ks w)) v → length (procs (ks w)) = NPROCn →
  L_ptable ∉ hv_held v → L_ptable ∉ hv_others v →
  ∃ k', runs (wakeup ch) w tt k' v ∧ k' = (ks w) <| procs := procs k' |> ∧
    ∀ i p, procs (ks w) !! i = Some p →
      procs k' !! i = Some (if bool_decide (state p = SLEEPING ∧ pchan p = ch)
                            then p <| state := RUNNABLE |> else p).
Proof.
  intros Hv Hn H1 H2. eexists. split_and!.
  - eapply evals_runs; [by apply evals_wakeup|done|done].
  - done.
  - intros i p Hp. simpl. rewrite list_lookup_fmap, Hp. simpl. unfold woken. f_equal.
    by rewrite <- bool_decide_and.
Qed.

End SchedProps.

(** ** Witnesses *)

(** A process that sleeps on the clock while the first process runs. *)
Definition sleepy_kern : kern :=
  boot_kern <| procs ::= <[1%nat := zero_proc <| state := SLEEPING |> <| pchan := ch_ticks |>]> |>.

(** A process that holds [tickslock] goes to sleep; the other threads wake it up. *)
Definition ticking : world :=
  mkWorld (boot_kern <| hw := lock_hw 0 L_tickslock |>)
    [λ k, k <| procs := woken ch_ticks <$> procs k |> <| hw := lock_hw 0 L_ptable |>].

