(* ===== verification/PipeProps.v ===== *)
(** * Pipes are bounded queues: properties of pipe.c

    The abstract state of a pipe is the list of bytes written and not yet read.
    The counters [nread] and [nwrite] are 32-bit and wrap around; the ring buffer's
    size divides 2^32, so the queue is not disturbed by the wrap. *)

From S2P Require Import Prelude Layout State Str Spinlock Kalloc Vm Sched Sleeplock Ports Apic Console Bio Log Inode Fs File Eval SchedProps.

(** ** The queue held in a pipe *)

(** Number of bytes in the pipe. *)
Definition pq_len (x : pipe) : Z := u32 (p_nwrite x - p_nread x).
Definition pq_at (x : pipe) (i : Z) : Z := nth (Z.to_nat ((p_nread x + i) mod PIPESIZE)) (p_data x) 0.
Definition contents (x : pipe) : list Z := pq_at x <$> seqZ 0 (pq_len x).

Record pipe_ok (x : pipe) : Prop := mkPipeOk {
  po_data : length (p_data x) = Z.to_nat PIPESIZE;
  po_nread : is_u32 (p_nread x);
  po_nwrite : is_u32 (p_nwrite x);
  po_len : pq_len x ≤ PIPESIZE
}.

Lemma pq_len_pos x : 0 ≤ pq_len x.
Proof. unfold pq_len, u32, two32. apply Z.mod_pos_bound. lia. Qed.

Lemma contents_length x : Z.of_nat (length (contents x)) = pq_len x.
Proof. unfold contents. rewrite length_fmap, length_seqZ. pose proof (pq_len_pos x). lia. Qed.

Lemma u32_mod_pipesize x : u32 x mod PIPESIZE = x mod PIPESIZE.
Proof. unfold u32, two32, PIPESIZE. zl. Qed.

Lemma pipe_full x : pipe_ok x → (p_nwrite x =? u32 (p_nread x + PIPESIZE)) = (PIPESIZE <=? pq_len x).
Proof.
  intros [_ Hr Hw Hl]. unfold pq_len, u32, is_u32, two32, PIPESIZE in *.
  destruct (Z.eqb_spec (p_nwrite x) ((p_nread x + 512) mod 4294967296)) as [->|Hn];
    destruct (Z.leb_spec 512 ((p_nwrite x - p_nread x) mod 4294967296)); zl.
Qed.

Lemma pipe_empty x : pipe_ok x → (p_nread x =? p_nwrite x) = (pq_len x =? 0).
Proof.
  intros [_ Hr Hw Hl]. unfold pq_len, u32, is_u32, two32 in *.
  destruct (Z.eqb_spec (p_nread x) (p_nwrite x));
    destruct (Z.eqb_spec ((p_nwrite x - p_nread x) mod 4294967296) 0); zl.
Qed.

Lemma pipe_put_len c x : pipe_ok x → pq_len x < PIPESIZE → pq_len (pipe_put c x) = pq_len x + 1.
Proof. intros [_ Hr Hw Hl] Hlt. unfold pq_len, pipe_put, u32, two32, PIPESIZE in *. simpl. zl. Qed.

Lemma pipe_put_ok c x : pipe_ok x → pq_len x < PIPESIZE → pipe_ok (pipe_put c x).
Proof.
  intros Hx Hlt. pose proof (pipe_put_len c x Hx Hlt). destruct Hx as [Hd Hr Hw Hl].
  split; [by simpl; rewrite length_insert|done| |lia].
  simpl. unfold u32, is_u32, two32. zl.
Qed.

(** The slot that [pipe_put] fills is that of the new last byte. *)
Lemma pipe_put_slot x i : pipe_ok x → 0 ≤ i < pq_len x →
  (p_nread x + i) mod PIPESIZE ≠ p_nwrite x mod PIPESIZE ∨ i + PIPESIZE ≤ pq_len x.
Proof. intros [_ Hr Hw Hl] Hi. unfold pq_len, u32, is_u32, two32, PIPESIZE in *. zl. Qed.

Lemma pipe_put_contents c x :
  pipe_ok x → pq_len x < PIPESIZE → contents (pipe_put c x) = contents x ++ [c].
Proof.
  intros Hx Hlt. pose proof (pq_len_pos x) as Hp. unfold contents.
  rewrite pipe_put_len by done. rewrite seqZ_app, fmap_app by lia. f_equal.
  - apply list_fmap_ext. intros _ i Hi%list_elem_of_lookup_2%elem_of_seqZ.
    unfold pq_at. simpl. rewrite !nth_lookup. rewrite list_lookup_insert_ne; [done|].
    intros Heq. apply Z2Nat.inj in Heq; [|unfold PIPESIZE; zl..].
    destruct (pipe_put_slot x i Hx); lia.
  - simpl. f_equal. unfold pq_at. simpl.
    rewrite !Z.add_0_l.
    assert ((p_nread x + pq_len x) mod PIPESIZE = p_nwrite x mod PIPESIZE) as ->.
    { destruct Hx as [_ Hr Hw Hl]. unfold pq_len, u32, is_u32, two32, PIPESIZE in *. zl. }
    rewrite nth_lookup, list_lookup_insert_eq; [done|]. rewrite (po_data _ Hx).
    unfold PIPESIZE. zl.
Qed.

(** The pipe after [nread++]. *)
Definition pipe_take (x : pipe) : pipe := x <| p_nread ::= λ n, u32 (n + 1) |>.

Lemma pipe_take_ok x : pipe_ok x → 0 < pq_len x →
  pipe_ok (pipe_take x) ∧ pq_len (pipe_take x) = pq_len x - 1.
Proof.
  intros [Hd Hr Hw Hl] Hp.
  assert (pq_len (pipe_take x) = pq_len x - 1) as E.
  { unfold pq_len, pipe_take, u32, is_u32, two32, PIPESIZE in *. simpl. zl. }
  split; [|done]. split; [done| |done|lia]. simpl. unfold u32, is_u32, two32. zl.
Qed.

Lemma pipe_take_contents x : pipe_ok x → 0 < pq_len x →
  contents x = pq_at x 0 :: contents (pipe_take x).
Proof.
  intros Hx Hp. destruct (pipe_take_ok x Hx Hp) as [_ E]. unfold contents. rewrite E.
  rewrite seqZ_cons by done. cbn [fmap list_fmap]. f_equal.
  replace (Z.succ 0) with (1 + 0) by done. rewrite <- fmap_add_seqZ, <- list_fmap_compose, <- Z.sub_1_r.
  apply list_fmap_ext. intros _ i _. unfold pq_at, pipe_take, compose. simpl. f_equal. f_equal.
  rewrite (Zplus_mod (u32 _)), u32_mod_pipesize, <- Zplus_mod. f_equal. lia.
Qed.

Lemma pq_first x : pipe_ok x → p_data x !! Z.to_nat (p_nread x mod PIPESIZE) = Some (pq_at x 0).
Proof.
  intros Hx. unfold pq_at. rewrite Z.add_0_r, nth_lookup.
  destruct (lookup_lt_is_Some_2 (p_data x) (Z.to_nat (p_nread x mod PIPESIZE))) as [y ->]; [|done].
  rewrite (po_data _ Hx). unfold PIPESIZE. zl.
Qed.

Section PipeProps.
Context `{KernelSyms} `{DiskDriver}.

Lemma evals_rd_pipe k v p x : pipes k !! p = Some x → evals k v (rd_pipe p) x k v.
Proof. intros Hp. apply evals_getk; [done|]. by apply evals_deref. Qed.

Lemma evals_mod_pipe k v p x f : pipes k !! p = Some x →
  evals k v (mod_pipe p f) tt (k <| pipes ::= <[p := f x]> |>) v.
Proof.
  intros Hp. eapply evals_eq; [by apply evals_modk|done| |done].
  unfold set; simpl. f_equal. by rewrite <- (alter_insert_eq _ _ _ x), insert_id.
Qed.

(** ** Writing *)

Lemma evals_wait_room k v p x n :
  pipes k !! p = Some x → pipe_ok x → pq_len x < PIPESIZE → evals k v (wait_room (S n) p) true k v.
Proof.
  intros Hp Hx Hl. cbn [wait_room]. estep evals_rd_pipe; [done|].
  rewrite pipe_full, (proj2 (Z.leb_gt _ _)) by done. apply evals_ret.
Qed.

(** The bytes [l] put into a pipe that has room for them. *)
Lemma evals_pipewrite_loop l k v p x :
  pipes k !! p = Some x → pipe_ok x → pq_len x + Z.of_nat (length l) ≤ PIPESIZE →
  ∃ x', evals k v (pipewrite_loop p l) true (k <| pipes ::= <[p := x']> |>) v ∧
    pipe_ok x' ∧ contents x' = contents x ++ l ∧
    p_readopen x' = p_readopen x ∧ p_writeopen x' = p_writeopen x.
Proof.
  revert k x. induction l as [|c l IH]; intros k x Hp Hx Hl.
  - exists x. split_and!; try done; [|by rewrite app_nil_r].
    eapply evals_eq; [apply evals_ret|done| |done]. destruct k. unfold set; simpl in *. by rewrite insert_id.
  - simpl length in Hl.
    destruct (IH (k <| pipes ::= <[p := pipe_put c x]> |>) (pipe_put c x)) as (x' & He & Hx' & Hc & Hr & Hw).
    { simpl. apply lookup_insert_eq. }
    { apply pipe_put_ok; [done|lia]. }
    { rewrite pipe_put_len by (done || lia). lia. }
    exists x'. split_and!; try done.
    + cbn [pipewrite_loop]. apply evals_resumes. intros n.
      estep evals_wait_room; [done..|lia|]. estep evals_mod_pipe; [done|].
      eapply evals_eq; [exact He|done| |done]. destruct k. unfold set; simpl. by rewrite insert_insert_eq.
    + rewrite Hc, pipe_put_contents, <- app_assoc by (done || lia). done.
Qed.

(** ** Reading *)

Lemma evals_wait_data k v p x n :
  pipes k !! p = Some x → pipe_ok x → 0 < pq_len x → evals k v (wait_data (S n) p) true k v.
Proof.
  intros Hp Hx Hl. cbn [wait_data]. estep evals_rd_pipe; [done|].
  rewrite pipe_empty, (proj2 (Z.eqb_neq _ _)) by (done || lia). apply evals_ret.
Qed.

Lemma evals_piperead_loop n k v p x :
  pipes k !! p = Some x → pipe_ok x →
  ∃ x', evals k v (piperead_loop n p) (take n (contents x)) (k <| pipes ::= <[p := x']> |>) v ∧
    pipe_ok x' ∧ contents x' = drop n (contents x) ∧
    p_readopen x' = p_readopen x ∧ p_writeopen x' = p_writeopen x.
Proof.
  revert k x. induction n as [|n IH]; intros k x Hp Hx.
  { exists x. split_and!; try done. eapply evals_eq; [apply evals_ret|done| |done].
    destruct k. unfold set; simpl in *. by rewrite insert_id. }
  cbn [piperead_loop]. destruct (decide (pq_len x = 0)) as [Hz|Hz].
  { pose proof (contents_length x) as Hl. rewrite Hz in Hl. destruct (contents x) eqn:Ec; [|simpl in Hl; lia].
    exists x. split_and!; try done. estep evals_rd_pipe; [done|].
    rewrite pipe_empty, (proj2 (Z.eqb_eq _ _)) by done.
    eapply evals_eq; [apply evals_ret|done| |done]. destruct k. unfold set; simpl in *. by rewrite insert_id. }
  assert (0 < pq_len x) as Hp' by (pose proof (pq_len_pos x); lia).
  destruct (pipe_take_ok x Hx Hp') as [Hx1 _].
  destruct (IH (k <| pipes ::= <[p := pipe_take x]> |>) (pipe_take x)) as (x' & He & Hx' & Hc & Hr & Hw).
  { simpl. apply lookup_insert_eq. }
  { done. }
  rewrite pipe_take_contents by done. exists x'. split_and!; try done.
  estep evals_rd_pipe; [done|]. rewrite pipe_empty, (proj2 (Z.eqb_neq _ _)) by (done || lia).
  eapply evals_bind; [by apply evals_deref, pq_first|].
  estep evals_mod_pipe; [done|]. estep He. eapply evals_eq; [apply evals_ret|done| |done].
  destruct k. unfold set; simpl. by rewrite insert_insert_eq.
Qed.

(** ** The refinement *)

(** A pipe of the kernel holds the queue [q]. *)
Definition holds (p : Z) (q : list Z) (k : kern) : Prop :=
  ∃ x, pipes k !! p = Some x ∧ pipe_ok x ∧ contents x = q.

Inductive pipe_op := PWrite (l : list Z) | PRead (n : nat).

(** A bounded queue; [None] when the operation would block. *)
Definition queue_step (q : list Z) (op : pipe_op) : option (Z * list Z * list Z) :=
  match op with
  | PWrite l => if Z.of_nat (length q + length l) <=? PIPESIZE
                then Some (Z.of_nat (length l), [], q ++ l) else None
  | PRead n => match q with
               | [] => None
               | _ => Some (Z.of_nat (length (take n q)), take n q, drop n q)
               end
  end.
Fixpoint queue_run (q : list Z) (ops : list pipe_op) : option (list (Z * list Z) * list Z) :=
  match ops with
  | [] => Some ([], q)
  | op :: ops' =>
      match queue_step q op with
      | None => None
      | Some (r, l, q1) =>
          match queue_run q1 ops' with
          | Some (rs, q2) => Some ((r, l) :: rs, q2)
          | None => None
          end
      end
  end.

(** The system's calls: results and bytes read. *)
Definition pipe_step (p : Z) (op : pipe_op) : K (Z * list Z) :=
  match op with
  | PWrite l => r ← pipewrite p l (Z.of_nat (length l)); mret (r, [])
  | PRead n => piperead p (Z.of_nat n)
  end.
Fixpoint pipe_run (p : Z) (ops : list pipe_op) : K (list (Z * list Z)) :=
  match ops with
  | [] => mret []
  | op :: ops' => r ← pipe_step p op; rs ← pipe_run p ops'; mret (r :: rs)
  end.

(** The locks that the pipe code takes. *)
Definition pipe_locks (p : Z) (v : hwview) : Prop := free_locks v [L_pipe p; L_ptable].

Lemma evals_pipe_step p op k v q r l q' :
  pipe_locks p v → length (procs k) = NPROCn → holds p q k → queue_step q op = Some (r, l, q') →
  ∃ k', evals k v (pipe_step p op) (r, l) k' v ∧ holds p q' k' ∧ length (procs k') = NPROCn.
Proof.
  intros Hlk Hn (x & Hp & Hx & <-) Hs.
  destruct (free_locks_in _ _ (L_pipe p) Hlk) as [Hf1 Hf2]; [set_solver|].
  destruct (free_locks_in _ _ L_ptable Hlk) as [Hf3 Hf4]; [set_solver|].
  pose proof (contents_length x) as Hcl. destruct op as [l0|n]; simpl in Hs.
  - destruct (Z.leb_spec (Z.of_nat (length (contents x) + length l0)) PIPESIZE); [|done]. simplify_eq.
    destruct (evals_pipewrite_loop l0 k (v_hold (L_pipe p) v) p x) as (x' & He & Hx' & Hc & _); [done..|lia|].
    set (k1 := k <| pipes ::= <[p := x']> |>) in *.
    exists (k1 <| procs := woken (ch_pipe_nread p) <$> procs k1 |>).
    split; [|split; [exists x'; rewrite <- Hc; split_and!; [apply lookup_insert_eq|done|done]|simpl; by rewrite length_fmap]].
    unfold pipe_step, pipewrite. epure. estep evals_acquire; [done..|].
    rewrite Nat2Z.id, take_ge by lia. estep He. simpl negb. cbv iota.
    estep evals_wakeup; [done|by apply free_hold|done|].
    estep evals_release_hold; [done|]. epure. apply evals_ret.
  - destruct (contents x) as [|c q0] eqn:Ec; [done|]. simplify_eq. rewrite <- Ec in *.
    destruct (evals_piperead_loop n k (v_hold (L_pipe p) v) p x) as (x' & He & Hx' & Hc & _); [done..|].
    set (k1 := k <| pipes ::= <[p := x']> |>) in *.
    exists (k1 <| procs := woken (ch_pipe_nwrite p) <$> procs k1 |>).
    split; [|split; [exists x'; rewrite <- Hc; split_and!; [apply lookup_insert_eq|done|done]|simpl; by rewrite length_fmap]].
    unfold pipe_step, piperead. estep evals_acquire; [done..|]. apply evals_resumes. intros m.
    estep evals_wait_data; [done..|rewrite Ec in Hcl; simpl in Hcl; lia|]. simpl negb. cbv iota.
    rewrite Nat2Z.id. estep He. estep evals_wakeup; [done|by apply free_hold|done|].
    estep evals_release_hold; [done|]. apply evals_ret.
Qed.

(** C20: a pipe is a bounded FIFO queue.  Every sequence of [pipewrite] and
    [piperead] calls that the abstract queue of at most [PIPESIZE] bytes performs
    without blocking is performed by the ring buffer with the same results: the
    counts returned, the bytes delivered and the bytes left in the pipe, whatever
    the values of the 32-bit counters, wrap-around included.  The locks are free
    again after each call. *)
Theorem pipe_refines_queue (w : world) (v : hwview) (p : Z) (ops : list pipe_op)
    (q q' : list Z) (rs : list (Z * list Z)) :
  hw_ok (hw (ks w)) v → pipe_locks p v → length (procs (ks w)) = NPROCn → holds p q (ks w) →
  queue_run q ops = Some (rs, q') →
  ∃ k', runs (pipe_run p ops) w rs k' v ∧ holds p q' k'.
Proof.
  intros Hv Hlk Hn Hq Hrun.
  assert (∃ k', evals (ks w) v (pipe_run p ops) rs k' v ∧ holds p q' k') as (k' & He & Hh).
  { clear Hv. revert Hn Hq Hrun. generalize (ks w) as k. revert q rs.
    induction ops as [|op ops IH]; intros q rs k Hn Hq Hrun; simpl in Hrun; simplify_eq.
    - exists k. split; [apply evals_ret|done].
    - destruct (queue_step q op) as [[[r l] q1]|] eqn:Hs; [|done].
      destruct (queue_run q1 ops) as [[rs1 q2]|] eqn:Hr; [|done]. simplify_eq.
      destruct (evals_pipe_step p op k v q r l q1) as (k1 & He1 & Hq1 & Hn1); [done..|].
      destruct (IH q1 rs1 k1) as (k2 & He2 & Hq2); [done..|].
      exists k2. split; [|done]. cbn [pipe_run]. estep He1. estep He2. apply evals_ret. }
  exists k'. split; [|done]. by eapply evals_runs.
Qed.

End PipeProps.

(** ** Witness *)

(** An empty pipe whose counters are about to wrap around. *)
Definition wrapping_pipe : pipe := new_pipe <| p_nread := 4294967295 |> <| p_nwrite := 4294967295 |>.
Definition pipe_world : world := mkWorld (boot_kern <| pipes := {[0x80200000 := wrapping_pipe]} |>) [].

Lemma pipe_refines_queue_witness :
  ∃ k', runs (pipe_run 0x80200000 [PWrite [1; 2; 3]; PRead 2; PWrite [4]; PRead 9]) pipe_world
          [(3, []); (2, [1; 2]); (1, []); (2, [3; 4])] k' boot_view ∧ holds 0x80200000 [] k'.
Proof.
  apply (pipe_refines_queue pipe_world boot_view 0x80200000 _ []).
  - apply boot_hw_ok.
  - unfold pipe_locks, free_locks. repeat constructor; set_solver.
  - reflexivity.
  - exists wrapping_pipe. split; [reflexivity|]. split; [|reflexivity]. split; unfold is_u32; done.
  - reflexivity.
Defined.
