(* ===== verification/ProcProps.v ===== *)
(** * Processes: properties of proc.c *)

From S2P Require Import Prelude Layout State Str Spinlock Kalloc Vm VmInv VmOps Sched Uaccess Sleeplock Ports Apic Console Bio Log Inode Fs File Proc Eval SchedProps.

Section ProcProps.
Context `{KernelSyms} `{DiskDriver}.

(** ** Trap frames *)

Lemma evals_rd_tf k v i p t : procs k !! i = Some p → frames k !! tf p = Some t → evals k v (rd_tf i) t k v.
Proof. intros Hp Ht. estep evals_rd_proc; [done|]. epure. by apply evals_deref. Qed.

Lemma evals_wr_tf k v i p t :
  procs k !! i = Some p → evals k v (wr_tf i t) tt (k <| frames ::= insert (tf p) t |>) v.
Proof. intros Hp. estep evals_rd_proc; [done|]. by apply evals_modk. Qed.

Lemma evals_mod_tf k v i p t f :
  procs k !! i = Some p → frames k !! tf p = Some t →
  evals k v (mod_tf i f) tt (k <| frames ::= insert (tf p) (f t) |>) v.
Proof. intros Hp Ht. estep evals_rd_tf; [done..|]. by apply evals_wr_tf. Qed.

(** ** Changes of the tables

    The kernel [k] with other processes, trap frames, shared data and memory. *)
Definition tabs (k : kern) (ps : list proc) (fr : gmap Z trapframe) (sh : gmap Z sharedData) (m : memory) : kern :=
  k <| procs := ps |> <| frames := fr |> <| shared := sh |> <| mem := m |>.

Section Tabs.
Variables (k : kern) (v : hwview) (ps : list proc) (fr : gmap Z trapframe) (sh : gmap Z sharedData) (m : memory).

Lemma tabs_rd_proc i p : ps !! i = Some p → evals (tabs k ps fr sh m) v (rd_proc i) p (tabs k ps fr sh m) v.
Proof. apply (evals_rd_proc (tabs k ps fr sh m)). Qed.

Lemma tabs_mod_proc i p f :
  ps !! i = Some p → evals (tabs k ps fr sh m) v (mod_proc i f) tt (tabs k (<[i := f p]> ps) fr sh m) v.
Proof.
  intros Hp. eapply evals_eq; [apply evals_mod_proc|done| |done]. keq. simpl. by rewrite (list_alter_insert _ _ _ p).
Qed.

Lemma tabs_rd_tf i p t : ps !! i = Some p → fr !! tf p = Some t →
  evals (tabs k ps fr sh m) v (rd_tf i) t (tabs k ps fr sh m) v.
Proof. apply (evals_rd_tf (tabs k ps fr sh m)). Qed.

Lemma tabs_wr_tf i p t : ps !! i = Some p →
  evals (tabs k ps fr sh m) v (wr_tf i t) tt (tabs k ps (<[tf p := t]> fr) sh m) v.
Proof. intros Hp. eapply evals_eq; [by apply (evals_wr_tf _ _ _ p)|done| |done]. by keq. Qed.

Lemma tabs_mod_tf i p t f : ps !! i = Some p → fr !! tf p = Some t →
  evals (tabs k ps fr sh m) v (mod_tf i f) tt (tabs k ps (<[tf p := f t]> fr) sh m) v.
Proof. intros Hp Ht. eapply evals_eq; [by eapply (evals_mod_tf _ _ _ p)|done| |done]. by keq. Qed.

Lemma tabs_rd_shared i p s : ps !! i = Some p → sh !! sharePtr p = Some s →
  evals (tabs k ps fr sh m) v (rd_shared i) s (tabs k ps fr sh m) v.
Proof. apply (evals_rd_shared (tabs k ps fr sh m)). Qed.

Lemma tabs_mod_shared i p s f : ps !! i = Some p → sh !! sharePtr p = Some s →
  evals (tabs k ps fr sh m) v (mod_shared i f) tt (tabs k ps fr (<[sharePtr p := f s]> sh) m) v.
Proof.
  intros Hp Hs. eapply evals_eq; [by eapply (evals_mod_shared _ _ _ p)|done| |done]. keq. simpl. by apply map_alter_insert.
Qed.

Lemma tabs_mem m' : (tabs k ps fr sh m) <| mem := m' |> = tabs k ps fr sh m'.
Proof. done. Qed.

End Tabs.

Lemma tabs_self k : tabs k (procs k) (frames k) (shared k) (mem k) = k.
Proof. by destruct k. Qed.

(** ** allocproc *)

(** Addresses on a kernel stack. *)
Definition stack_tf (st : Z) : Z := st + KSTACKSIZE - sizeof_trapframe.
Definition stack_ret (st : Z) : Z := stack_tf st - 4.
Definition stack_ctx (st : Z) : Z := stack_ret st - sizeof_context.

Definition is_unused (p : proc) : bool := bool_decide (state p = UNUSED).

(** The slot given out by [allocproc] with pid [n] and kernel stack [st]. *)
Definition embryo (n st : Z) (p : proc) : proc :=
  p <| state := EMBRYO |> <| pid := n |> <| kstack := st |> <| tf := stack_tf st |>
    <| pcontext := stack_ctx st |>.

Definition alloc_kern (i : nat) (st : Z) (k : kern) : kern :=
  k <| procs ::= alter (embryo (nextpid k) st) i |> <| nextpid := s32 (nextpid k + 1) |>
    <| freelist := load32 (mem k) st |> <| mem := store32 (mem k) (stack_ret st) sym_trapret |>
    <| ctxs ::= insert (stack_ctx st) (zero_context <| c_eip := sym_forkret |>) |>.

(** The slot when there is no memory for the stack. *)
Definition alloc_failed (i : nat) (k : kern) : kern :=
  k <| procs ::= alter (λ p, p <| state := EMBRYO |> <| pid := nextpid k |> <| kstack := 0 |> <| state := UNUSED |>) i |>
    <| nextpid := s32 (nextpid k + 1) |>.

Definition allocproc_outcome (k : kern) (L : list Z) : option nat * kern :=
  match find_slot_of is_unused (procs k) with
  | None => (None, k)
  | Some i => match L with
              | [] => (None, alloc_failed i k)
              | st :: _ => (Some i, alloc_kern i st k)
              end
  end.

Lemma evals_allocproc k v L :
  length (procs k) = NPROCn → L_ptable ∉ hv_held v → L_ptable ∉ hv_others v →
  kmem_ready k v → kmem_inv k L →
  evals k v allocproc (allocproc_outcome k L).1 (allocproc_outcome k L).2 v.
Proof.
  intros Hn Hl1 Hl2 Hr Hk. unfold allocproc, allocproc_outcome. estep evals_acquire; [done..|].
  eapply evals_bind; [apply (evals_scan is_unused); [done|]|].
  { intros i p Hp. estep evals_rd_proc; [done|]. apply evals_ret. }
  destruct (find_slot_of is_unused (procs k)) as [i|]; simpl.
  2:{ estep evals_release_hold; [done|]. apply evals_ret. }
  estep evals_mod_proc. epure. estep evals_mod_proc. estep evals_release_hold; [done|].
  set (k1 := k <| procs ::= _ |> <| nextpid := _ |> <| procs ::= _ |>).
  estep (evals_kalloc k1 v L); [done|by destruct Hk; split|].
  destruct L as [|st L]; simpl hd.
  - estep evals_mod_proc. cbn [Z.eqb]. estep evals_mod_proc.
    eapply evals_eq; [apply evals_ret|done| |done]. keq. simpl. by rewrite !list_alter_alter_eq.
  - estep evals_mod_proc.
    assert (st ≠ 0) as Hst.
    { pose proof (km_valid _ _ Hk) as Hv. inversion_clear Hv as [|? ? Hpv]. pose proof (valid_page_pos _ Hpv). kl. }
    rewrite (proj2 (Z.eqb_neq st 0)) by done. estep evals_mod_proc. unfold st32. epure.
    estep evals_mod_proc. epure.
    eapply evals_eq; [apply evals_ret|done| |done]. keq. simpl. by rewrite !list_alter_alter_eq.
Qed.

Lemma alloc_kern_kmem i st k L :
  kmem_inv k (st :: L) → kmem_inv (alloc_kern i st k) L ∧ mem_frame (λ x, x = st) (mem k) (mem (alloc_kern i st k)).
Proof.
  intros Hk. pose proof (kalloc_inv _ _ _ Hk) as Hk'. destruct Hk as [_ Hd Hv].
  inversion_clear Hd as [|? ? Hst _]. inversion_clear Hv as [|? ? [Ha _] HvL].
  assert (mem_frame (λ x, x = st) (mem k) (mem (alloc_kern i st k))) as Hf.
  { intros a Hn. simpl. apply fill_out. specialize (Hn st eq_refl).
    unfold in_page, stack_ret, stack_tf, sizeof_trapframe in *. kl. }
  split; [|done]. destruct Hk' as [Hl Hd' Hv']. split; [|done|done]. simpl in Hl |- *.
  eapply flist_ext; [|exact Hl]. intros x a Hx Ha'. symmetry. apply Hf. intros ? -> Hin. apply Hst.
  rewrite Forall_forall in HvL. destruct (HvL x Hx) as [Hax _]. by rewrite (pages_disjoint st x a).
Qed.

(** [allocproc] on every state of the table.  With no [UNUSED] slot it returns 0
    and changes nothing.  Otherwise it takes the first [UNUSED] slot and the next
    pid; without memory for a kernel stack the slot is [UNUSED] again and 0 is
    returned; else the slot is an [EMBRYO] with a page of the allocator as its
    kernel stack, whose context starts at [forkret] and returns to [trapret].  No
    other slot changes and memory changes in the stack's page only. *)
Lemma allocproc_allocates (w : world) (v : hwview) (L : list Z) :
  hw_ok (hw (ks w)) v → length (procs (ks w)) = NPROCn →
  L_ptable ∉ hv_held v → L_ptable ∉ hv_others v → kmem_ready (ks w) v → kmem_inv (ks w) L →
  (Forall (λ p, state p ≠ UNUSED) (procs (ks w)) → runs allocproc w None (ks w) v) ∧
  (∀ i p, procs (ks w) !! i = Some p → state p = UNUSED →
     (∀ j q, (j < i)%nat → procs (ks w) !! j = Some q → state q ≠ UNUSED) →
     match L with
     | [] => ∃ k' p', runs allocproc w None k' v ∧
         procs k' = <[i := p']> (procs (ks w)) ∧ state p' = UNUSED ∧ kstack p' = 0
     | st :: L' => ∃ k', runs allocproc w (Some i) k' v ∧ kmem_inv k' L' ∧
         procs k' = <[i := embryo (nextpid (ks w)) st p]> (procs (ks w)) ∧
         nextpid k' = s32 (nextpid (ks w) + 1) ∧
         ctxs k' !! stack_ctx st = Some (zero_context <| c_eip := sym_forkret |>) ∧
         load32 (mem k') (stack_ret st) = u32 sym_trapret ∧
         mem_frame (λ x, x = st) (mem (ks w)) (mem k') ∧
         shared k' = shared (ks w) ∧ frames k' = frames (ks w)
     end).
Proof.
  intros Hv Hn H1 H2 Hr Hk. pose proof (evals_allocproc (ks w) v L Hn H1 H2 Hr Hk) as He.
  unfold allocproc_outcome in He. split.
  - intros Hf. rewrite (proj2 (find_slot_of_None _ _)) in He; [by eapply evals_runs|].
    eapply Forall_impl; [exact Hf|]. intros p Hp. by apply bool_decide_eq_false.
  - intros i p Hp Hst Hlt.
    assert (find_slot_of is_unused (procs (ks w)) = Some i) as E.
    { apply find_slot_of_Some. exists p. split_and!; [done|by apply bool_decide_eq_true|].
      intros j q Hj Hq. by apply bool_decide_eq_false, (Hlt j). }
    rewrite E in He. destruct L as [|st L].
    + do 2 eexists. split_and!; [by eapply evals_runs|simpl; by rewrite (list_alter_insert _ _ _ p)|done|done].
    + destruct (alloc_kern_kmem i st (ks w) L Hk) as [Hk' Hf].
      exists (alloc_kern i st (ks w)). split_and!; try done.
      * by eapply evals_runs.
      * simpl. by rewrite (list_alter_insert _ _ _ p).
      * simpl. apply lookup_insert_eq.
      * simpl. apply load32_store32.
Qed.

End ProcProps.

(** ** Witness *)

