(* ===== verification/ThreadProps.v ===== *)
(** * Threads: properties of [thread_create], [thread_exit] and [thread_join] *)

From S2P Require Import Prelude Layout State Str Spinlock Kalloc Vm VmInv VmOps VmAlloc VmCopy VmProps Sched Uaccess Sleeplock Ports Apic Console Bio Log Inode Fs File Proc Thread Eval UserMem SchedProps ProcProps.

(** ** The table of threads *)

Definition first_free (s : sharedData) : option nat := fst <$> list_find (λ x, x = 0) (isThere s).

Definition registered (np : nat) (s : sharedData) : sharedData :=
  match first_free s with
  | Some i => s <| isThere ::= insert i 1 |> <| threads ::= insert i (Some np) |>
                <| numOfThread ::= λ n, s32 (n + 1) |>
  | None => s
  end.

(** The thread id: the index taken, or what the slot held before. *)
Definition order_in (s : sharedData) (p : proc) : Z :=
  match first_free s with Some i => Z.of_nat i | None => orderOfThread p end.

Lemma seq_split_at i n : (i < n)%nat → seq 0 n = seq 0 i ++ i :: seq (S i) (n - S i).
Proof.
  intros Hi. replace n with (i + S (n - S i))%nat at 1 by lia. by rewrite seq_app.
Qed.

Section ThreadProps.
Context `{KernelSyms} `{DiskDriver}.

Lemma evals_register_thread k v np p s :
  procs k !! np = Some p → shared k !! sharePtr p = Some s → length (isThere s) = NTHREAD →
  evals k v (register_thread np) tt
    (k <| shared ::= insert (sharePtr p) (registered np s) |>
       <| procs ::= insert np (p <| orderOfThread := order_in s p |>) |>) v.
Proof.
  intros Hp Hs Hn. unfold register_thread, registered, order_in.
  assert (∀ i, i ∈ seq 0 NTHREAD → isThere s !! i ≠ Some 0 → evals k v (
    s ← rd_shared np; t ← deref (isThere s !! i);
    if t =? 0 then
      _ ← mod_shared np (λ s, s <| isThere ::= insert i 1 |>);
      _ ← mod_shared np (λ s, s <| threads ::= insert i (Some np) |>);
      _ ← mod_shared np (λ s, s <| numOfThread ::= λ n, s32 (n + 1) |>);
      _ ← mod_proc np (λ p, p <| orderOfThread := Z.of_nat i |>);
      mret (Some tt)
    else mret None) None k v) as Hmiss.
  { intros i Hi%elem_of_seq Hz. estep evals_rd_shared; [done..|].
    destruct (lookup_lt_is_Some_2 (isThere s) i) as [x Hx]; [lia|]. rewrite Hx in *. estep (@evals_deref Z); [done|].
    rewrite (proj2 (Z.eqb_neq x 0)) by congruence. apply evals_ret. }
  destruct (first_free s) as [i|] eqn:E; unfold first_free in E.
  - apply fmap_Some in E as ([j x] & (Hx & -> & Hlt)%list_find_Some & ->). cbn [fst].
    pose proof (lookup_lt_Some _ _ _ Hx) as Hj. rewrite (seq_split_at j NTHREAD) by lia.
    eapply evals_bind; [|apply evals_ret]. apply evals_find_hit.
    + intros y Hy. apply Hmiss.
      * apply elem_of_seq in Hy. apply elem_of_seq. lia.
      * intros Hy0. apply elem_of_seq in Hy. by apply (Hlt y 0); [done|lia|].
    + estep evals_rd_shared; [done..|]. rewrite Hx. estep (@evals_deref Z); [done|]. rewrite Z.eqb_refl.
      estep evals_mod_shared; [done..|].
      estep evals_mod_shared; [done|by simpl; rewrite lookup_alter_eq, Hs|].
      estep evals_mod_shared; [done|by simpl; rewrite !lookup_alter_eq, Hs|].
      estep evals_mod_proc. eapply evals_eq; [apply evals_ret|done| |done].
      keq; simpl.
      * by rewrite (list_alter_insert _ _ _ p).
      * rewrite <- (insert_id (shared k) (sharePtr p) s Hs) at 1. by rewrite !alter_insert_eq.
  - apply fmap_None, list_find_None in E. rewrite Forall_forall in E.
    eapply evals_bind; [apply evals_find_miss|].
    + intros i Hi. apply Hmiss; [done|]. intros Hz. by eapply E; [eapply list_elem_of_lookup_2|].
    + eapply evals_eq; [apply evals_ret|done| |done]. keq; simpl.
      * rewrite list_insert_id; [done|]. rewrite Hp. by destruct p.
      * by rewrite insert_id.
Qed.
Lemma tabs_register_thread k v ps fr sh m np p s :
  ps !! np = Some p → sh !! sharePtr p = Some s → length (isThere s) = NTHREAD →
  evals (tabs k ps fr sh m) v (register_thread np) tt
    (tabs k (<[np := p <| orderOfThread := order_in s p |>]> ps) fr (<[sharePtr p := registered np s]> sh) m) v.
Proof. intros. eapply evals_eq; [by eapply (evals_register_thread _ _ _ p s)|done| |done]. by keq. Qed.

(** ** thread_create *)

(** The state in which process [cur] calls [thread_create]: slot [np] is the first
    free one, [s] is the data it shares, the address space [pgdir s] is in use and
    nothing is mapped in the two pages above its end. *)
Record thread_pre (own : Z → Prop) (k : kern) (v : hwview) (cur np : nat) (c p : proc)
    (s : sharedData) (t : trapframe) (L : list Z) : Prop := mkThreadPre {
  tc_len : length (procs k) = NPROCn;
  tc_proc : hv_proc v = Some cur;
  tc_cur : procs k !! cur = Some c ∧ state c ≠ UNUSED;
  tc_slot : procs k !! np = Some p ∧ state p = UNUSED;
  tc_first : ∀ j q, (j < np)%nat → procs k !! j = Some q → state q ≠ UNUSED;
  tc_lock : L_ptable ∉ hv_held v ∧ L_ptable ∉ hv_others v;
  tc_ready : kmem_ready k v;
  tc_kmem : kmem_inv k L;
  tc_space : as_inv own (mem k) (pgdir s) L;
  tc_cr3 : hv_cr3 v = V2P (pgdir s);
  tc_shared : shared k !! sharePtr c = Some s;
  tc_apart : ¬ own (sharePtr c);
  tc_tf : frames k !! tf c = Some t;
  tc_sz : 0 ≤ sz s ∧ sz s + 2 * PGSIZE < KERNBASE;
  tc_above : ∀ va, vpage va → PGROUNDUP (sz s) ≤ va < sz s + 2 * PGSIZE → leaf (mem k) (pgdir s) va = None;
  tc_below : sz s mod PGSIZE ≠ 0 → ∃ e, leaf (mem k) (pgdir s) (sz s) = Some e;
  tc_threads : length (isThere s) = NTHREAD
}.

(** The slot of the new thread before it is runnable. *)
Definition thread_embryo (k : kern) (c : proc) (st : Z) (p : proc) : proc :=
  (embryo (nextpid k) st p) <| sharePtr := sharePtr c |> <| parent := parent c |>.

(** The kernel when the stack is allocated. *)
Definition thread_kern (k : kern) (np : nat) (c p : proc) (t : trapframe) (st : Z) : kern :=
  (alloc_kern np st k) <| procs := <[np := thread_embryo k c st p]> (procs k) |>
    <| frames ::= insert (stack_tf st) (t <| tf_eax := 0 |>) |>.

(** The page with the end of the address space: its user bit is cleared. *)
Definition guard_page (s : sharedData) : Z := sz s - sz s mod PGSIZE.

(** The address space [s] has in memory [m], after a stack of two pages was added
    to the one it has in [m0] with free pages from [L]. *)
Record stack_mem (m0 : memory) (s : sharedData) (L : list Z) (m : memory) : Prop := mkStackMem {
  sm_old : ∀ va, vpage va → va < PGROUNDUP (sz s) ∨ sz s + 2 * PGSIZE ≤ va → va ≠ guard_page s →
    leaf m (pgdir s) va = leaf m0 (pgdir s) va;
  sm_guard : ∃ e, leaf m (pgdir s) (guard_page s) = Some (clear_u e) ∧
    (sz s mod PGSIZE = 0 → ∃ f, f ∈ L ∧ e = entry (V2P f) PTE_WU) ∧
    (sz s mod PGSIZE ≠ 0 → leaf m0 (pgdir s) (guard_page s) = Some e);
  sm_stack : ∀ va, upage va → PGROUNDUP (sz s) ≤ va < sz s + 2 * PGSIZE → va ≠ guard_page s →
    ∃ f, f ∈ L ∧ leaf m (pgdir s) va = Some (entry (V2P f) PTE_WU)
}.

Lemma stack_mem_ext m0 s L m m' :
  (∀ u, leaf m' (pgdir s) u = leaf m (pgdir s) u) → stack_mem m0 s L m → stack_mem m0 s L m'.
Proof. intros Hl [H1 H2 H3]. split; setoid_rewrite Hl; done. Qed.

Definition new_thread (k : kern) (c : proc) (s : sharedData) (st : Z) (p : proc) : proc :=
  (thread_embryo k c st p) <| stack := sz s + 2 * PGSIZE - 8 |> <| imMaster := 0 |> <| state := RUNNABLE |>
    <| orderOfThread := order_in s p |>.

(** A thread ready to run: [np] shares the data of [c], starts at [forkret], then
    [trapret], then [start] with the argument [arg] on a new stack. *)
Record thread_made (own : Z → Prop) (k : kern) (np : nat) (c p : proc) (s : sharedData) (t : trapframe)
    (st : Z) (L : list Z) (start arg : Z) (k' : kern) (L' : list Z) : Prop := mkThreadMade {
  tm_procs : procs k' = <[np := new_thread k c s st p]> (procs k);
  tm_shared : shared k' !! sharePtr c = Some (registered np (s <| sz := sz s + 2 * PGSIZE |>));
  tm_tf : frames k' !! stack_tf st =
    Some (t <| tf_eax := 0 |> <| tf_eip := start |> <| tf_esp := sz s + 2 * PGSIZE - 8 |>);
  tm_ctx : ctxs k' !! stack_ctx st = Some (zero_context <| c_eip := sym_forkret |>);
  tm_ret : load32 (mem k') (stack_ret st) = u32 sym_trapret;
  tm_kmem : kmem_inv k' L';
  tm_space : as_inv own (mem k') (pgdir s) L';
  tm_stack : stack_mem (mem k) s L (mem k');
  tm_args : user_bytes (mem k') (pgdir s) (sz s + 2 * PGSIZE - 8) (bytes32 0xffffffff ++ bytes32 arg)
}.

(** No memory for the stack: the slot is free again, with its kernel stack. *)
Record thread_unmade (own : Z → Prop) (k : kern) (np : nat) (c p : proc) (s : sharedData)
    (st : Z) (k' : kern) (L' : list Z) : Prop := mkThreadUnmade {
  tu_procs : procs k' = <[np := (thread_embryo k c st p) <| state := UNUSED |>]> (procs k);
  tu_shared : shared k' !! sharePtr c = Some s;
  tu_kmem : kmem_inv k' L';
  tu_space : as_inv own (mem k') (pgdir s) L';
  tu_leaf : ∀ va, vpage va → leaf (mem k') (pgdir s) va = leaf (mem k) (pgdir s) va
}.

Lemma thread_made_hw own k np c p s t st L start arg k' L' h :
  thread_made own k np c p s t st L start arg k' L' → thread_made own k np c p s t st L start arg (k' <| hw := h |>) L'.
Proof. intros []. split; try done. by apply kmem_inv_hw. Qed.

Lemma thread_unmade_hw (own own' : Z → Prop) k np c p s st k' L' h :
  (∀ x, own x → own' x) → thread_unmade own k np c p s st k' L' → thread_unmade own' k np c p s st (k' <| hw := h |>) L'.
Proof. intros Ho []. split; try done; [by apply kmem_inv_hw|by eapply as_inv_mono]. Qed.

Section Create.
Variables (own : Z → Prop) (k : kern) (v : hwview) (cur np : nat) (c p : proc) (s : sharedData)
  (t : trapframe) (st : Z) (L : list Z).
Hypothesis (Hpre : thread_pre own k v cur np c p s t (st :: L)).

Let kA := thread_kern k np c p t st.
Let pd := pgdir s.
Let sz1 := sz s + 2 * PGSIZE.

Lemma create_ne : np ≠ cur.
Proof.
  intros ->. destruct (tc_cur _ _ _ _ _ _ _ _ _ _ Hpre) as [Hc Hn], (tc_slot _ _ _ _ _ _ _ _ _ _ Hpre) as [Hp Hs].
  congruence.
Qed.

Lemma create_outcome : allocproc_outcome k (st :: L) = (Some np, alloc_kern np st k).
Proof.
  unfold allocproc_outcome.
  assert (find_slot_of is_unused (procs k) = Some np) as ->; [|done].
  destruct (tc_slot _ _ _ _ _ _ _ _ _ _ Hpre) as [Hp Hs].
  apply find_slot_of_Some. exists p. split_and!; [done|by apply bool_decide_eq_true|].
  intros j q Hj Hq. by eapply bool_decide_eq_false, (tc_first _ _ _ _ _ _ _ _ _ _ Hpre j).
Qed.

Lemma create_start : kmem_inv kA L ∧ as_inv (λ x, own x ∧ x ≠ st) (mem kA) pd L ∧
  mem_frame (λ x, x = st) (mem k) (mem kA) ∧ (∀ va, leaf (mem kA) pd va = leaf (mem k) pd va).
Proof.
  pose proof (tc_kmem _ _ _ _ _ _ _ _ _ _ Hpre) as Hk. pose proof (tc_space _ _ _ _ _ _ _ _ _ _ Hpre) as Has.
  destruct (alloc_kern_kmem np st k L Hk) as [Hk' Hf].
  pose proof (as_inv_apart _ _ _ _ _ (km_nodup _ _ Hk) Has) as Hap.
  destruct (as_inv_tail _ _ _ _ _ Has) as [_ [Hu _]].
  pose proof (km_valid _ _ Hk) as Hv. inversion_clear Hv as [|? ? [Hst _] _].
  destruct (as_inv_frame _ (mem k) (mem kA) pd L (λ x, x = st) Hap) as (Ha & _ & Hl); [by intros y ->|by intros x Hx ->|exact Hf|].
  split_and!; [|exact Ha|exact Hf|exact Hl]. by apply (kmem_inv_frame (alloc_kern np st k)).
Qed.

Lemma setup_start {B} (f : option nat → K B) start arg v' Q :
  ends kA (v_hold L_ptable v) (thread_start np start arg ≫= f) v' Q →
  ends k v (thread_setup cur start arg ≫= f) v' Q.
Proof.
  intros Hrest. destruct Hpre as [Hlen Hproc [Hc _] [Hp _] _ [Hl1 Hl2] Hr Hk _ _ _ _ Ht _ _ _ _].
  pose proof (evals_allocproc k v (st :: L) Hlen Hl1 Hl2 Hr Hk) as Ha. rewrite create_outcome in Ha.
  cbn [fst snd] in Ha. set (pn := embryo (nextpid k) st p).
  set (ka := alloc_kern np st k) in *.
  assert (ka = tabs ka (<[np := pn]> (procs k)) (frames k) (shared k) (mem ka)) as HA.
  { keq. simpl. by rewrite (list_alter_insert _ _ _ p). }
  pose proof (lookup_lt_Some _ _ _ Hp) as Hlt. pose proof create_ne as Hne.
  unfold thread_setup. nstep Ha. cbv iota. nstep evals_acquire; [done..|]. rewrite HA.
  nstep tabs_rd_proc; [by rewrite list_lookup_insert_ne|].
  nstep tabs_mod_proc; [by apply list_lookup_insert_eq|]. rewrite list_insert_insert_eq.
  nstep tabs_rd_proc; [by rewrite list_lookup_insert_ne|].
  nstep tabs_mod_proc; [by apply list_lookup_insert_eq|]. rewrite list_insert_insert_eq.
  nstep tabs_rd_tf; [by rewrite list_lookup_insert_ne|done|].
  nstep tabs_wr_tf; [by apply list_lookup_insert_eq|].
  nstep tabs_mod_tf; [by apply list_lookup_insert_eq|by apply lookup_insert_eq|]. rewrite insert_insert_eq. npure.
  eapply eq_ind; [exact Hrest|]. f_equal.
Qed.

(** *** What survives [allocuvm] *)

Let own' (x : Z) : Prop := own x ∧ x ≠ st.

Lemma create_kept kB LB :
  as_inv own' (mem kB) pd LB → kframe (λ x, pt_pages (mem kB) pd x ∨ x ∈ L) kA kB →
  procs kB = procs kA ∧ shared kB !! sharePtr c = Some s ∧
  frames kB !! stack_tf st = Some (t <| tf_eax := 0 |>) ∧
  ctxs kB !! stack_ctx st = Some (zero_context <| c_eip := sym_forkret |>) ∧
  load32 (mem kB) (stack_ret st) = u32 sym_trapret.
Proof.
  intros Has Hf. destruct create_start as (_ & HasA & _).
  assert (∀ x, pt_pages (mem kB) pd x ∨ x ∈ L → pg_aligned x ∧ own' x) as HP.
  { intros x [Hx|Hx].
    - by destruct (pt_pages_valid _ _ _ _ _ (proj1 Has) Hx) as ((? & _) & _ & ?).
    - split; [|by apply (pt_free _ _ _ _ (proj1 HasA))].
      pose proof (km_valid _ _ (tc_kmem _ _ _ _ _ _ _ _ _ _ Hpre)) as Hv. rewrite Forall_forall in Hv.
      by destruct (Hv x ltac:(set_solver)). }
  assert (page_objs kB (sharePtr c) = page_objs kA (sharePtr c)) as [= Hs _ _ _].
  { apply (kf_obj _ _ _ Hf). intros Hx. destruct (HP _ Hx) as (_ & Hx' & _). by apply (tc_apart _ _ _ _ _ _ _ _ _ _ Hpre). }
  assert (page_objs kB st = page_objs kA st) as [= _ _ Ht Hc].
  { apply (kf_obj _ _ _ Hf). intros Hx. by destruct (HP _ Hx) as (_ & _ & ?). }
  split_and!.
  - pose proof (kf_non _ _ _ Hf) as Hn. unfold same_but_mm, non_mm in Hn. congruence.
  - rewrite Hs. apply (tc_shared _ _ _ _ _ _ _ _ _ _ Hpre).
  - unfold stack_tf. rewrite Ht. simpl. unfold stack_tf. by rewrite lookup_insert_eq.
  - unfold stack_ctx, stack_ret, stack_tf. rewrite Hc. apply lookup_insert_eq.
  - etransitivity; [|apply (load32_store32 (mem k) (stack_ret st))]. apply load32_ext. intros a Ha. 
    apply (kf_mem _ _ _ Hf). intros x Hx Hin. destruct (HP x Hx) as (Hxa & _ & Hne). apply Hne.
    pose proof (km_valid _ _ (tc_kmem _ _ _ _ _ _ _ _ _ _ Hpre)) as Hv. inversion_clear Hv as [|? ? [Hst _] _].
    apply (pages_disjoint x st a); [done..|]. unfold in_page, stack_ret, stack_tf, sizeof_trapframe in *. kl.
Qed.

(** *** The new stack *)

Section Placed.
Variables (kB : kern) (LB : list Z).
Hypothesis (HkB : kmem_inv kB LB) (HasB : as_inv own' (mem kB) pd LB)
  (HfB : kframe (λ x, pt_pages (mem kB) pd x ∨ x ∈ L) kA kB)
  (Hnew : ∀ va, upage va → PGROUNDUP (sz s) ≤ va < sz1 → ∃ f, f ∈ L ∧
     leaf (mem kB) pd va = Some (entry (V2P f) PTE_WU))
  (Hold : ∀ va, vpage va → va < PGROUNDUP (sz s) ∨ sz1 ≤ va → leaf (mem kB) pd va = leaf (mem kA) pd va).

Lemma placed_bounds : 0 ≤ sz s ∧ sz1 < KERNBASE ∧ sz s ≤ PGROUNDUP (sz s) < sz s + PGSIZE ∧
  pg_aligned (PGROUNDUP (sz s)) ∧ upage (guard_page s).
Proof.
  destruct (tc_sz _ _ _ _ _ _ _ _ _ _ Hpre) as [B1 B2]. unfold sz1.
  pose proof (PGROUNDUP_bounds (sz s) B1 ltac:(kl)). pose proof (PGROUNDUP_aligned (sz s)).
  split_and!; [lia|lia|lia|lia|done|]. split; unfold guard_page, pg_aligned; zl.
Qed.

Lemma placed_guard : ∃ e, leaf (mem kB) pd (sz s) = Some e ∧
  (sz s mod PGSIZE = 0 → ∃ f, f ∈ L ∧ e = entry (V2P f) PTE_WU) ∧
  (sz s mod PGSIZE ≠ 0 → leaf (mem k) pd (guard_page s) = Some e).
Proof.
  destruct placed_bounds as (B0 & B1 & B2 & B3 & B4).
  destruct (decide (sz s mod PGSIZE = 0)) as [Hz|Hnz].
  - destruct (Hnew (sz s)) as (f & HfL & Hf); [split; [done|kl]|unfold pg_aligned, sz1 in *; zl|]. exists (entry (V2P f) PTE_WU). split_and!; [done|by exists f|done].
  - destruct (tc_below _ _ _ _ _ _ _ _ _ _ Hpre Hnz) as [e He]. destruct create_start as (_ & _ & _ & Hl).
    exists e. fold pd in He. rewrite <- leaf_mod in He |- * by kl. fold (guard_page s) in He |- *.
    split_and!; [|done|done]. rewrite Hold, Hl; [done|by apply upage_vpage|unfold guard_page, pg_aligned in *; zl].
Qed.

Lemma placed_range m :
  (∀ u, vpage u → u ≠ guard_page s → leaf m pd u = leaf (mem kB) pd u) → user_range m pd (sz1 - 8) 8.
Proof.
  intros Hl. destruct placed_bounds as (B0 & B1 & B2 & B3 & B4). unfold sz1 in *.
  split_and!; [kl|kl|]. intros i Hi. set (va := sz s + 2 * PGSIZE - 8 + i).
  destruct (Hnew (va - va mod PGSIZE)) as (f & HfL & Hf).
  { split; [unfold pg_aligned|]; unfold va; zl. }
  { unfold va, pg_aligned in *. zl. }
  exists (entry (V2P f) PTE_WU). split.
  - rewrite <- leaf_mod by (unfold va; kl). rewrite Hl; [done|apply upage_vpage; split; unfold va, pg_aligned; zl|].
    unfold guard_page, va. zl.
  - unfold entry. change PTE_U with (2 ^ 2). rewrite land_flag_bit, !Z.lor_spec by done. 
    by rewrite !orb_true_r.
Qed.

(** The kernel when the thread is registered. *)
Definition made_kern (start : Z) (m : memory) : kern :=
  tabs kB (<[np := new_thread k c s st p]> (procs k))
    (<[stack_tf st := t <| tf_eax := 0 |> <| tf_eip := start |> <| tf_esp := sz s + 2 * PGSIZE - 8 |>]> (frames kB))
    (<[sharePtr c := registered np (s <| sz := sz s + 2 * PGSIZE |>)]> (shared kB)) m.

(** A write to the address space is seen neither by the allocator nor on the kernel stack. *)
Lemma space_frame_apart k1 m m' L1 :
  as_inv own' m pd L1 → mem k1 = m → kmem_inv k1 L1 → load32 m (stack_ret st) = u32 sym_trapret → 
  mem_frame (in_space m pd) m m' →
  kmem_inv (k1 <| mem := m' |>) L1 ∧ load32 m' (stack_ret st) = u32 sym_trapret.
Proof.
  intros Has <- Hk Hr Hf. split; [by eapply space_frame_kmem|]. rewrite <- Hr. apply load32_ext. intros a Ha.
  apply Hf. intros x Hx Hin. destruct (in_space_own _ _ _ _ _ Has Hx) as ((Hxa & _) & _ & _ & Hne). apply Hne.
  pose proof (km_valid _ _ (tc_kmem _ _ _ _ _ _ _ _ _ _ Hpre)) as Hv. inversion_clear Hv as [|? ? [Hst _] _].
  apply (pages_disjoint x st a); [done..|]. unfold in_page, stack_ret, stack_tf, sizeof_trapframe in *. kl.
Qed.

Lemma placed_made e m1 m2 start arg :
  (sz s mod PGSIZE = 0 → ∃ f, f ∈ L ∧ e = entry (V2P f) PTE_WU) →
  (sz s mod PGSIZE ≠ 0 → leaf (mem k) pd (guard_page s) = Some e) → as_inv own' m1 pd LB →
  (∀ u, vpage u → leaf m1 pd u = if u =? guard_page s then Some (clear_u e) else leaf (mem kB) pd u) →
  mem_frame (in_space (mem kB) pd) (mem kB) m1 →
  wrote m1 pd (sz1 - 8) (bytes32 0xffffffff ++ bytes32 arg) m2 → as_inv own' m2 pd LB →
  (∀ u, leaf m2 pd u = leaf m1 pd u) →
  thread_made own' k np c p s t st L start arg (made_kern start m2) LB.
Proof.
  intros He1 He2 Has1 Hl1 Hf1 W Has2 Hl2. destruct (create_kept kB LB HasB HfB) as (Hps & Hsh & Htf & Hctx & Hret).
  destruct create_start as (_ & _ & _ & Hl0). destruct placed_bounds as (B0 & B1 & B2 & B3 & B4).
  destruct (space_frame_apart kB (mem kB) m1 LB HasB eq_refl HkB Hret Hf1) as [Hk1 Hret1].
  set (k1 := kB <| mem := m1 |>) in Hk1.
  destruct (space_frame_apart k1 m1 m2 LB Has1 eq_refl Hk1 Hret1) as [Hk2 Hret2].
  { eapply wrote_space; [| |exact W]; unfold sz1 in *; simpl; kl. }
  split; try done; simpl.
  - apply lookup_insert_eq.
  - apply lookup_insert_eq.
  - by apply (kmem_inv_frame (k1 <| mem := m2 |>)).
  - apply (stack_mem_ext _ _ _ m1); [done|]. split.
    + intros va Hva Hr Hne. fold pd. rewrite Hl1, (proj2 (Z.eqb_neq _ _) Hne), Hold, Hl0; done.
    + exists e. fold pd. by rewrite Hl1, Z.eqb_refl by auto with kern.
    + intros va Hva Hr Hne. fold pd. rewrite Hl1, (proj2 (Z.eqb_neq _ _) Hne) by auto with kern. by apply Hnew.
  - eapply wrote_bytes; [exact W|done|]. intros i Hi. destruct (placed_range m1) as (_ & _ & Hur).
    { intros u Hu Hne. by rewrite Hl1, (proj2 (Z.eqb_neq _ _) Hne). }
    destruct (Hur i Hi) as (e' & He' & _). by exists e'.
Qed.

End Placed.

Lemma start_unmade kB LB :
  kmem_inv kB LB → as_inv own' (mem kB) pd LB → kframe (λ x, pt_pages (mem kB) pd x ∨ x ∈ L) kA kB →
  (∀ va, vpage va → leaf (mem kB) pd va = leaf (mem kA) pd va) →
  thread_unmade own' k np c p s st (kB <| procs ::= alter (λ p, p <| state := UNUSED |>) np |>) LB.
Proof.
  intros Hk Has Hf Hl. destruct (create_kept kB LB Has Hf) as (Hps & Hsh & _).
  destruct create_start as (_ & _ & _ & Hl0). destruct (tc_slot _ _ _ _ _ _ _ _ _ _ Hpre) as [Hp _].
  pose proof (lookup_lt_Some _ _ _ Hp) as Hlt. split; [|done| |done|].
  - simpl. rewrite Hps. simpl.
    rewrite (list_alter_insert _ _ _ (thread_embryo k c st p)) by (by apply list_lookup_insert_eq).
    by rewrite list_insert_insert_eq.
  - by apply (kmem_inv_frame kB).
  - intros va Hva. simpl. by rewrite Hl, Hl0.
Qed.

Lemma start_ends {B} (f : option nat → K B) start arg v' Q :
  (∀ k' L', thread_made own' k np c p s t st L start arg k' L' → ends k' (v_hold L_ptable v) (f (Some np)) v' Q) →
  (∀ k' L', thread_unmade own' k np c p s st k' L' → ends k' v (f None) v' Q) →
  ends kA (v_hold L_ptable v) (thread_start np start arg ≫= f) v' Q.
Proof.
  intros Hok Hno. destruct create_start as (HkA & HasA & _ & Hl0).
  destruct placed_bounds as (B0 & B1 & B2 & B3 & B4).
  destruct (tc_slot _ _ _ _ _ _ _ _ _ _ Hpre) as [Hp _]. pose proof (lookup_lt_Some _ _ _ Hp) as Hlt.
  unfold thread_start.
  nstep (evals_rd_shared kA (v_hold L_ptable v) np (thread_embryo k c st p) s).
  { by apply list_lookup_insert_eq. }
  { apply (tc_shared _ _ _ _ _ _ _ _ _ _ Hpre). }
  rewrite u32_id by (unfold sz1 in *; kl). npure. eapply ends_bind.
  { apply (ends_allocuvm own' kA (v_hold L_ptable v) pd (sz s) sz1 L); try done.
    - apply kmem_ready_hold; [done|apply (tc_ready _ _ _ _ _ _ _ _ _ _ Hpre)].
    - intros va Hva Hr. rewrite Hl0. by apply (tc_above _ _ _ _ _ _ _ _ _ _ Hpre).
    - unfold sz1 in *. kl. }
  intros r kB (LB & HkB & HasB & HfB & [(-> & Hnew & Hold)|(-> & Hl)]).
  2:{ rewrite Z.eqb_refl. nstep evals_mod_proc. nstep evals_release_hold; [apply (tc_lock _ _ _ _ _ _ _ _ _ _ Hpre)|]. npure.
      by eapply Hno, start_unmade. }
  rewrite (proj2 (Z.eqb_neq sz1 0)) by (unfold sz1; kl).
  replace (u32 (sz1 - 2 * PGSIZE)) with (sz s) by (rewrite u32_id; unfold sz1 in *; kl).
  rewrite (u32_id (sz1 - 8)) by (unfold sz1 in *; kl). cbv zeta.
  destruct (create_kept kB LB HasB HfB) as (Hps & Hsh & Htf & _).
  destruct (placed_guard kB) as (e & He & He1 & He2); [done..|].
  assert (0 ≤ sz s < KERNBASE) as Bsz by (unfold sz1 in *; kl).
  nstep (evals_clearpteu own' kB (v_hold L_ptable v) pd (sz s) e LB); [done..|].
  pose proof (clearpteu_leaf own' kB pd (sz s) e LB HasB Bsz He) as Hl1.
  destruct (clearpteu_as own' kB pd (sz s) e LB HasB Bsz He) as [Has1 _].
  pose proof (clearpteu_frame kB pd (sz s) e He) as Hf1.
  set (m1 := store32 _ _ _) in *. clearbody m1. fold (guard_page s) in Hl1.
  rewrite <- (tabs_self kB) at 1. rewrite tabs_mem, Hps. simpl (procs kA).
  set (p1 := thread_embryo k c st p).
  nstep tabs_mod_shared; [by apply list_lookup_insert_eq|exact Hsh|].
  nstep tabs_rd_shared; [by apply list_lookup_insert_eq|apply lookup_insert_eq|].
  npure. eapply (ends_copyout _ own'); [exact Has1|by apply (placed_range kB); [..|intros u Hu Hne; rewrite Hl1, (proj2 (Z.eqb_neq _ _) Hne)]|].
  intros m2 W Has2 Hl2. rewrite tabs_mem. cbn [Z.ltb Z.compare].
  assert (∀ (q : proc) (qs : list proc), (np < length qs)%nat → <[np := q]> qs !! np = Some q) as Hq by (intros; by apply list_lookup_insert_eq).
  nstep tabs_mod_proc; [by apply Hq|]. rewrite list_insert_insert_eq.
  nstep tabs_mod_tf; [by apply Hq|exact Htf|].
  nstep tabs_mod_tf; [by apply Hq|apply lookup_insert_eq|]. rewrite insert_insert_eq.
  nstep tabs_mod_proc; [by apply Hq|]. rewrite list_insert_insert_eq.
  nstep tabs_mod_proc; [by apply Hq|]. rewrite list_insert_insert_eq.
  nstep tabs_register_thread; [by apply Hq|apply lookup_insert_eq|apply (tc_threads _ _ _ _ _ _ _ _ _ _ Hpre)|].
  rewrite list_insert_insert_eq, insert_insert_eq. npure.
  match goal with |- ends (tabs _ (<[np := ?q]> _) _ _ _) _ _ _ _ =>
    replace q with (new_thread k c s st p) by (by destruct p) end.
  apply (Hok (made_kern kB start m2) LB), (placed_made kB LB HkB HasB HfB Hnew Hold e m1 m2 start arg He1 He2 Has1 Hl1); [|done..].
  eapply mem_frame_mono; [|exact Hf1]. intros x Hx. by left.
Qed.

(** *** The thread id stored for the caller *)

Lemma made_writable start arg k' L' thread :
  thread_made own' k np c p s t st L start arg k' L' →
  writable (mem k) pd thread 4 → thread + 4 ≤ sz s → writable (mem k') pd thread 4.
Proof.
  intros Hm (W1 & W2 & W3) Hsz. destruct placed_bounds as (B0 & B1 & B2 & B3 & B4).
  destruct (tm_stack _ _ _ _ _ _ _ _ _ _ _ _ _ Hm) as [So (e & Sg & _ & Su) _].
  split_and!; [done..|]. intros i Hi. destruct (W3 i Hi) as (e0 & He0 & Hw0). set (va := thread + i) in *.
  assert (upage (va - va mod PGSIZE)) as Hup by (split; [unfold pg_aligned|]; unfold va; zl).
  rewrite <- leaf_mod in He0 by (unfold va; kl). setoid_rewrite <- leaf_mod; [|unfold va; kl].
  destruct (decide (va - va mod PGSIZE = guard_page s)) as [Hg|Hg].
  - rewrite Hg in *. exists (clear_u e). split; [done|]. rewrite clear_u_write.
    assert (sz s mod PGSIZE ≠ 0) as Hnz by (unfold guard_page, va in *; zl). specialize (Su Hnz). fold pd in Su. congruence.
  - exists e0. split; [|done]. fold pd in So. rewrite So; [done|by apply upage_vpage|unfold va; left; zl|done].
Qed.

Lemma made_stored start arg k' L' thread l m' :
  thread_made own' k np c p s t st L start arg k' L' → length l = 4%nat → 0 ≤ thread → thread + 4 ≤ sz s →
  wrote (mem k') pd thread l m' → as_inv own' m' pd L' → (∀ u, leaf m' pd u = leaf (mem k') pd u) →
  thread_made own k np c p s t st L start arg (k' <| mem := m' |>) L'.
Proof.
  intros Hm Hl H1 H2 W Has Hlf. destruct placed_bounds as (B0 & B1 & B2 & B3 & B4).
  destruct (id Hm) as [M1 M2 M3 M4 M5 M6 M7 M8 M9].
  destruct (space_frame_apart k' (mem k') m' L' M7 eq_refl M6 M5) as [Hk Hr].
  { eapply wrote_space; [| |exact W]; rewrite ?Hl; unfold sz1 in *; kl. }
  split; try done.
  - eapply as_inv_mono; [|exact Has]. by intros x [].
  - by eapply stack_mem_ext.
  - eapply (wrote_keeps own'); [exact M7|exact W|done|..|exact M9]; rewrite ?Hl; unfold sz1 in *; simpl; kl.
Qed.

End Create.

Lemma u8_bytes32 x : u8 <$> bytes32 x = bytes32 x.
Proof. unfold bytes32, byte_of, u8. simpl. by rewrite !Z.mod_mod by done. Qed.

(** C2: [thread_create] called by a process whose table, address space and allocator
    are well formed.  It returns with the locks it was called with.  It returns 0 when
    the new slot is [RUNNABLE], shares the caller's data and its parent, is recorded in
    the first free entry of the table of threads, will return from the kernel to
    [start] on a stack of two new pages that holds the return address 0xffffffff and
    [arg], and the thread id is stored at [thread]; the page of the old end of the
    address space has lost its user bit: the lower stack page when the size was a
    multiple of the page size, and else the last page in use.  Without memory for the
    stack it returns -1, the address space is as before and the slot is [UNUSED],
    but its kernel stack is not freed. *)
Theorem thread_create_makes (own : Z → Prop) (w : world) (v : hwview) (cur np : nat) (c p : proc)
    (s : sharedData) (t : trapframe) (st : Z) (L : list Z) (thread start arg : Z) :
  hw_ok (hw (ks w)) v → thread_pre own (ks w) v cur np c p s t (st :: L) →
  writable (mem (ks w)) (pgdir s) thread 4 → thread + 4 ≤ sz s →
  post (thread_create thread start arg) w v (λ r k', ∃ L',
    (r = 0 ∧ thread_made own (ks w) np c p s t st L start arg k' L' ∧
     user_bytes (mem k') (pgdir s) thread (bytes32 (order_in s p))) ∨
    (r = -1 ∧ thread_unmade own (ks w) np c p s st k' L' ∧ st ∉ L')).
Proof.
  intros Hv Hpre Hw Hsz. eapply ends_post; [|done]. unfold thread_create.
  nstep evals_curproc; [apply (tc_proc _ _ _ _ _ _ _ _ _ _ Hpre)|]. npure.
  eapply setup_start, start_ends; [exact Hpre|exact Hpre| |].
  - intros k' L' Hm. pose proof (made_writable _ _ _ _ _ _ _ _ _ _ _ Hpre _ _ _ _ _ Hm Hw Hsz) as Hw'.
    destruct (tc_slot _ _ _ _ _ _ _ _ _ _ Hpre) as [Hp _]. pose proof (lookup_lt_Some _ _ _ Hp) as Hlt.
    nstep evals_rd_proc; [rewrite (tm_procs _ _ _ _ _ _ _ _ _ _ _ _ _ Hm); by apply list_lookup_insert_eq|].
    set (tid := orderOfThread (new_thread (ks w) c s st p)).
    destruct (evals_vwrite _ (v_hold L_ptable v) L' (pgdir s) (bytes32 tid) k' thread
      (tm_space _ _ _ _ _ _ _ _ _ _ _ _ _ Hm) (tc_cr3 _ _ _ _ _ _ _ _ _ _ Hpre) Hw') as (m' & R & W & Has & Hl).
    nstep R. nstep evals_release_hold; [apply (tc_lock _ _ _ _ _ _ _ _ _ _ Hpre)|]. npure.
    rewrite u8_bytes32 in W. destruct (id Hw') as (W0 & _ & W3).
    apply ends_ret. intros h. exists L'. left. split_and!; [done| |].
    + by eapply thread_made_hw, (made_stored own (ks w) v cur) with (thread := thread) (l := bytes32 tid).
    + eapply wrote_bytes; [exact W|done|]. intros i Hi. destruct (W3 i Hi) as (e & He & _). by exists e.
  - intros k' L' Hu. apply ends_ret. intros h. exists L'. right. split_and!; [done| |].
    + eapply thread_unmade_hw; [|exact Hu]. by intros x [].
    + intros Hst. by destruct (pt_free _ _ _ _ (proj1 (tu_space _ _ _ _ _ _ _ _ _ Hu)) st Hst).
Qed.

End ThreadProps.

(** ** Witnesses

    The address space of one page at address 0 (VmProps.v) with three free pages;
    the process in slot 0 is the only one. *)

#[local] Existing Instance image_syms.

Definition demo_pages : list Z := [0x80202000; 0x80201000; 0x80200000].
Definition thread_mem : memory := store32 (store32 demo_mem 0x80201000 0x80200000) 0x80202000 0x80201000.
Definition thread_shared : sharedData :=
  zero_shared <| sz := 0x1000 |> <| pgdir := 0x80300000 |> <| isThere := [1; 0; 0; 0; 0; 0] |>
    <| threads := [Some 0%nat; None; None; None; None; None] |> <| numOfThread := 1 |>.
Definition thread_proc : proc :=
  zero_proc <| state := RUNNING |> <| pid := 1 |> <| sharePtr := 0x80400000 |> <| tf := stack_tf 0x80500000 |>
    <| imMaster := 1 |>.
Definition thread_world : world :=
  mkWorld (boot_kern <| hw := (run_hw 0) <| cr3 := V2P 0x80300000 |> |> <| freelist := 0x80202000 |> <| mem := thread_mem |>
    <| procs ::= insert 0%nat thread_proc |> <| shared := {[ 0x80400000 := thread_shared ]} |>
    <| frames := {[ stack_tf 0x80500000 := zero_tf ]} |>) [].
Definition thread_view : hwview := (run_view 0) <| hv_cr3 := V2P 0x80300000 |>.
Definition thread_own (x : Z) : Prop := demo_own x ∨ x ∈ demo_pages.

Lemma thread_hw_ok : hw_ok (hw (ks thread_world)) thread_view.
Proof. exists (boot_cpu <| cproc := Some 0%nat |>). split; try done; set_solver. Qed.

Lemma demo_pages_valid : Forall valid_page demo_pages.
Proof. repeat constructor; by vm_compute. Qed.

Lemma thread_kmem : kmem_inv (ks thread_world) demo_pages.
Proof.
  split; [by vm_compute| |apply demo_pages_valid]. unfold demo_pages. repeat (constructor; [set_solver by lia|]). constructor.
Qed.

Lemma thread_space : as_inv thread_own thread_mem 0x80300000 demo_pages ∧
  (∀ va, leaf thread_mem 0x80300000 va = leaf demo_mem 0x80300000 va).
Proof.
  assert (∀ x, x = 0x80202000 ∨ x = 0x80201000 → unused demo_mem 0x80300000 x) as Hun.
  { intros x Hx. split.
    - intros [?|(i & Hi & Ht)]; [lia|]. rewrite demo_tbl in Ht by done. destruct (i =? 0); [|done]. injection Ht as Ht. lia.
    - intros va e Hva. rewrite demo_leaf by auto with kern. destruct (va =? 0); [|done]. intros [= <-]. rewrite demo_frame_0. lia. }
  assert (as_inv thread_own demo_mem 0x80300000 demo_pages) as Has.
  { apply as_inv_cons; [apply as_inv_cons; [eapply as_inv_mono; [|apply demo_as]|..]|..].
    - by left.
    - apply Hun. by right.
    - right. set_solver.
    - apply Hun. by left.
    - right. set_solver. }
  destruct (as_inv_frame thread_own demo_mem thread_mem 0x80300000 demo_pages (λ x, x = 0x80202000 ∨ x = 0x80201000)) as (H1 & _ & H2).
  - exact Has.
  - intros y [->| ->]; by vm_compute.
  - intros x Hx Hy. by destruct (Hun x Hy).
  - intros a Ha. pose proof (Ha 0x80202000 ltac:(by left)). pose proof (Ha 0x80201000 ltac:(by right)).
    unfold thread_mem, store32. rewrite !fill_out; [done|unfold in_page in *; kl..].
  - done.
Qed.

Lemma thread_demo_pre : thread_pre thread_own (ks thread_world) thread_view 0 1 thread_proc zero_proc thread_shared
  zero_tf demo_pages.
Proof.
  destruct thread_space as [Has Hl]. split; try done.
  - intros j q Hj. destruct j; [|lia]. by intros [= <-].
  - apply thread_kmem.
  - unfold thread_own, demo_own, demo_pages. set_solver by lia.
  - intros va Hva Hb. simpl. rewrite Hl. apply demo_free; [done|]. change (PGROUNDUP _) with 0x1000 in Hb. lia.
Qed.

Lemma thread_create_returns_0 :
  match thread_create 0x10 0x100 7 thread_world with Ok r _ => r | _ => 1 end = 0.
Proof. by vm_compute. Qed.

Lemma thread_create_makes_witness : ∃ w',
  thread_create 0x10 0x100 7 thread_world = Ok 0 w' ∧
  state <$> (procs (ks w') !! 1%nat) = Some RUNNABLE ∧
  user_bytes (mem (ks w')) 0x80300000 (0x3000 - 8) (bytes32 0xffffffff ++ bytes32 7) ∧
  user_bytes (mem (ks w')) 0x80300000 0x10 (bytes32 1).
Proof.
  destruct (thread_create_makes thread_own thread_world thread_view 0 1 thread_proc zero_proc thread_shared zero_tf
    0x80202000 [0x80201000; 0x80200000] 0x10 0x100 7) as (r & w' & Hrun & _ & _ & L' & Hcase).
  - exact thread_hw_ok.
  - exact thread_demo_pre.
  - destruct thread_space as [_ Hl]. split_and!; [done|done|]. intros i Hi. exists (entry (V2P 0x80302000) PTE_WU).
    split; [|by vm_compute]. simpl (mem _). rewrite Hl, <- leaf_mod by kl.
    replace (0x10 + i - _) with 0 by (rewrite Z.mod_small; kl). apply demo_leaf_0.
  - done.
  - pose proof thread_create_returns_0 as H0. rewrite Hrun in H0. subst r. exists w'.
    destruct Hcase as [(_ & Hm & Ht)|[? _]]; [|done]. split_and!; [done| |apply Hm|exact Ht].
    by rewrite (tm_procs _ _ _ _ _ _ _ _ _ _ _ _ _ Hm).
Defined.
