(* ===== verification/JoinProps.v ===== *)
(** * The end of a thread: properties of [thread_exit] and [thread_join] *)

From S2P Require Import Prelude Layout State Str Spinlock Kalloc Vm VmInv VmOps VmAlloc VmCopy VmProps Sched Uaccess Sleeplock Ports Apic Console Bio Log Inode Fs File Proc Thread Eval UserMem SchedProps ProcProps ThreadProps.

Section JoinProps.
Context `{KernelSyms} `{DiskDriver}.

(** ** thread_exit *)

(** Entry [i] is the first of the table of threads whose thread is a master, [mi]. *)
Definition master_at (k : kern) (s : sharedData) (i mi : nat) : Prop :=
  (∃ m, threads s !! i = Some (Some mi) ∧ procs k !! mi = Some m ∧ imMaster m = 1) ∧
  (i < NTHREAD)%nat ∧
  ∀ j, (j < i)%nat → ∃ tj q, threads s !! j = Some (Some tj) ∧ procs k !! tj = Some q ∧ imMaster q ≠ 1.

Definition exited (rv : Z) (c : proc) : proc := c <| state := ZOMBIE |> <| retval := rv |>.

(** The kernel when the thread in slot [cur] gives up the CPU for the last time. *)
Definition exit_kern (k : kern) (cur mi : nat) (c : proc) (s : sharedData) (rv : Z) : kern :=
  k <| procs := <[cur := exited rv c]> (woken (ch_proc mi) <$> procs k) |>
    <| shared ::= insert (sharePtr c) (s <| isThere ::= insert (Z.to_nat (orderOfThread c)) 0 |>) |>.

Definition find_master (cur : nat) : K (option nat) :=
  for_find (seq 0 NTHREAD) (λ i,
    s ← rd_shared cur; t ← deref (threads s !! i); m ← pread t imMaster off_imMaster;
    mret (if m =? 1 then Some i else None)).

Lemma evals_find_master k v cur c s i mi :
  procs k !! cur = Some c → shared k !! sharePtr c = Some s → master_at k s i mi →
  evals k v (find_master cur) (Some i) k v.
Proof.
  intros Hc Hs ((m & Ht & Hm & H1) & Hi & Hb). unfold find_master. rewrite (seq_split_at i NTHREAD) by done.
  apply evals_find_hit.
  - intros j Hj%elem_of_seq. destruct (Hb j ltac:(lia)) as (tj & q & Htj & Hq & Hq1).
    estep evals_rd_shared; [done..|]. rewrite Htj. estep (@evals_deref (option nat)); [done|].
    estep evals_pread; [done|]. rewrite (proj2 (Z.eqb_neq _ _) Hq1). apply evals_ret.
  - estep evals_rd_shared; [done..|]. rewrite Ht. estep (@evals_deref (option nat)); [done|].
    estep evals_pread; [done|]. rewrite H1. apply evals_ret.
Qed.

Lemma bind_not_ok {S A B} (m : M S A) (f : A → M S B) w :
  (∀ a w1 b w2, f a w1 ≠ Ok b w2) → ∀ b w2, (m ≫= f) w ≠ Ok b w2.
Proof. intros Hf b w2 Hb. apply bind_ok_inv in Hb as (a & w1 & _ & Hb). by eapply Hf. Qed.

(** C10: [thread_exit(rv)], called by a thread that holds no lock and is in the table of
    its process together with the master, does not return.  When it gives up the CPU
    its slot is a [ZOMBIE] that keeps [rv], its entry of [isThere] is free, the
    master is awake if it slept in [thread_join], and only [ptable.lock] is held. *)
Theorem thread_exit_ends (w : world) (v : hwview) (cur : nat) (c : proc) (s : sharedData) (i mi : nat) (rv : Z) :
  hw_ok (hw (ks w)) v → hv_held v = ∅ → L_ptable ∉ hv_others v → hv_proc v = Some cur →
  length (procs (ks w)) = NPROCn → procs (ks w) !! cur = Some c → state c = RUNNING →
  shared (ks w) !! sharePtr c = Some s → master_at (ks w) s i mi →
  0 ≤ orderOfThread c < Z.of_nat NTHREAD →
  (∀ w', thread_exit rv w ≠ Ok tt w') ∧
  (resumes w = [] → ∃ h1, hw_ok h1 (v_hold L_ptable v) ∧
     thread_exit rv w = Switched (at_hw (exit_kern (ks w) cur mi c s rv) h1 [])).
Proof.
  intros Hv Hh Ho Hp Hn Hc Hst Hs Hm Hord. set (k := ks w) in *. set (k1 := exit_kern k cur mi c s rv).
  assert (leads k v (thread_exit rv) (λ rs o, (∀ w', o ≠ Ok tt w') ∧
    (rs = [] → ∃ h1, hw_ok h1 (v_hold L_ptable v) ∧ o = Switched (at_hw k1 h1 [])))) as Hl.
  2:{ pose proof (Hl (hw k) (resumes w) Hv) as Hw. unfold k in Hw. by rewrite at_hw_self in Hw. }
  assert (woken (ch_proc mi) c = c) as Hw by (unfold woken; by rewrite Hst).
  pose proof (lookup_lt_Some _ _ _ Hc) as Hlt.
  unfold thread_exit. lstep evals_curproc; [done|]. lstep evals_acquire; [set_solver|done|].
  fold (find_master cur). lstep evals_find_master; [done..|].
  lstep evals_rd_shared; [done..|]. change (default NTHREAD (Some i)) with i. destruct (proj1 Hm) as (m & Ht & _).
  unfold thread_chan. rewrite Ht. lpure. lstep evals_wakeup1; [done|].
  set (ps := woken _ <$> _). assert (ps !! cur = Some c) as Hc'
    by (unfold ps; rewrite list_lookup_fmap; fold k; rewrite Hc; simpl; by rewrite Hw).
  lstep evals_rd_proc; [exact Hc'|].
  rewrite (proj2 (Z.ltb_ge _ _)), (proj2 (Z.leb_gt _ _)) by lia. cbn [orb].
  lstep evals_mod_shared; [exact Hc'|exact Hs|]. lstep evals_mod_proc. lstep evals_mod_proc.
  match goal with |- leads ?kk _ _ _ => replace kk with k1 end.
  2:{ unfold k1, exit_kern. keq; simpl; [|by symmetry; apply map_alter_insert].
      rewrite list_alter_alter_eq. by rewrite (list_alter_insert _ _ _ c). }
  eapply (leads_sched _ _ _ cur (exited rv c)); [simpl; set_solver|done| |done|].
  { simpl. apply list_lookup_insert_eq. by rewrite length_fmap. }
  intros h rs ie Hv1 _. split.
  - intros w'. by apply bind_not_ok.
  - intros ->. exists h. split; [done|]. by apply bind_switched, bind_switched.
Qed.

(** ** thread_join *)

(** The slot of a joined thread. *)
Definition reaped (p : proc) : proc :=
  p <| retval := 0 |> <| kstack := 0 |> <| state := UNUSED |> <| pid := 0 |> <| parent := None |>
    <| killed := 0 |> <| pname ::= insert 0%nat 0 |> <| imMaster := 0 |> <| orderOfThread := 0 |>
    <| sharePtr := 0 |> <| stack := 0 |>.

(** The kernel after [thread_free], with [kf] for the kernel after [kfree]. *)
Definition freed_kern (kf : kern) (i : nat) (c p : proc) (s : sharedData) (ps : list proc) : kern :=
  kf <| procs := <[i := reaped p]> ps |>
     <| shared ::= insert (sharePtr c) (s <| numOfThread ::= λ n, s32 (n - 1) |>) |>.

Lemma evals_thread_free k v i p cur c s :
  procs k !! i = Some p → procs k !! cur = Some c → i ≠ cur → shared k !! sharePtr c = Some s →
  sharePtr c ≠ kstack p → kmem_ready k v → valid_page (kstack p) →
  evals k v (thread_free i cur) tt (freed_kern (kfree_result (kstack p) k) i c p s (procs k)) v.
Proof.
  intros Hp Hc Hne Hs Hsp Hr Hv. pose proof (lookup_lt_Some _ _ _ Hp) as Hlt. unfold thread_free.
  estep evals_mod_proc. estep evals_rd_proc; [by simpl; rewrite list_lookup_alter_eq, Hp|].
  cbn [kstack]. estep evals_kfree; [done|done|]. estep evals_mod_proc.
  epure. eapply evals_bind; [eapply (evals_mod_shared _ v cur c s)|].
  { simpl. by rewrite !list_lookup_alter_ne by done. }
  { simpl. by rewrite lookup_delete_ne by done. }
  eapply evals_eq; [apply evals_mod_proc|done| |done]. unfold freed_kern. keq; simpl.
  - rewrite !list_alter_alter_eq. by rewrite (list_alter_insert _ _ _ p).
  - apply map_alter_insert. by rewrite lookup_delete_ne.
Qed.

(** [p] is a thread with id [thread], other than the master, that has exited; threads of one
    process are recognised by their common parent. *)
Definition exited_thread (thread : Z) (c p : proc) : Prop :=
  state p = ZOMBIE ∧ u32 (orderOfThread p) = u32 thread ∧ parent p = parent c ∧ imMaster p ≠ 1.

Lemma joinable_exited thread c p : joinable thread c p = true ↔ exited_thread thread c p.
Proof.
  unfold joinable, exited_thread. rewrite !andb_true_iff, negb_true_iff, Z.eqb_eq, Z.eqb_neq, !bool_decide_eq_true. tauto.
Qed.

(** The state in which master [cur] joins a thread: slot [i] is the first that matches,
    and its kernel stack is a page apart from the address space and the free pages. *)
Record join_pre (own : Z → Prop) (k : kern) (v : hwview) (cur i : nat) (c p : proc)
    (s : sharedData) (L : list Z) (thread rv : Z) : Prop := mkJoinPre {
  tj_len : length (procs k) = NPROCn;
  tj_proc : hv_proc v = Some cur;
  tj_cur : procs k !! cur = Some c ∧ imMaster c = 1;
  tj_slot : procs k !! i = Some p ∧ exited_thread thread c p;
  tj_first : ∀ j q, (j < i)%nat → procs k !! j = Some q → ¬ exited_thread thread c q;
  tj_lock : L_ptable ∉ hv_held v ∧ L_ptable ∉ hv_others v;
  tj_ready : kmem_ready k v;
  tj_kmem : kmem_inv k L;
  tj_space : as_inv own (mem k) (pgdir s) L;
  tj_cr3 : hv_cr3 v = V2P (pgdir s);
  tj_shared : shared k !! sharePtr c = Some s ∧ sharePtr c ≠ kstack p;
  tj_stack : valid_page (kstack p) ∧ kstack p ∉ L ∧ unused (mem k) (pgdir s) (kstack p) ∧ own (kstack p);
  tj_rv : rv ≠ 0 ∧ writable (mem k) (pgdir s) rv 4
}.

Lemma joinable_ne thread c p : imMaster c = 1 → joinable thread c p = true → c ≠ p.
Proof. unfold joinable. intros Hc Hj <-. rewrite Hc in Hj. by rewrite !andb_false_r in Hj. Qed.

(** C3: [thread_join(thread, rv)] by the master when a thread of that id has exited.
    It returns 0, the value the thread passed to [thread_exit] is at [rv], the
    thread's kernel stack is back in the allocator, its slot is [UNUSED], and the
    count of threads is one less; no other slot and no mapping changes and the
    locks are those of the call. *)
Theorem thread_join_collects (own : Z → Prop) (w : world) (v : hwview) (cur i : nat) (c p : proc)
    (s : sharedData) (L : list Z) (thread rv : Z) :
  hw_ok (hw (ks w)) v → join_pre own (ks w) v cur i c p s L thread rv →
  post (thread_join thread rv) w v (λ r k', r = 0 ∧
    procs k' = <[i := reaped p]> (procs (ks w)) ∧
    shared k' !! sharePtr c = Some (s <| numOfThread ::= λ n, s32 (n - 1) |>) ∧
    kmem_inv k' (kstack p :: L) ∧ as_inv own (mem k') (pgdir s) (kstack p :: L) ∧
    user_bytes (mem k') (pgdir s) rv (bytes32 (retval p)) ∧
    (∀ va, leaf (mem k') (pgdir s) va = leaf (mem (ks w)) (pgdir s) va)).
Proof.
  intros Hv [Hn Hp [Hc Hm] [Hi Hj] Hf [Hl1 Hl2] Hr Hk Has Hcr [Hs Hsp] (Hst1 & Hst2 & Hst3 & Hst4) [Hrv Hw]].
  apply (proj2 (joinable_exited thread c p)) in Hj. set (k := ks w) in *. eapply ends_post; [|done]. fold k. unfold thread_join.
  nstep evals_curproc; [done|]. nstep evals_rd_proc; [done|]. rewrite Hm. cbn [Z.eqb Pos.eqb negb].
  nstep evals_acquire; [done..|]. npure. apply ends_resumes. intros n. cbn [thread_join_loop]. npure.
  eapply ends_evals; [apply (evals_scan (joinable thread c)); [done|]|].
  { intros j q Hq. estep evals_rd_proc; [done|]. estep evals_rd_proc; [done|]. apply evals_ret. }
  assert (find_slot_of (joinable thread c) (procs k) = Some i) as ->.
  { apply find_slot_of_Some. exists p. split_and!; [done..|]. intros j q Hjlt Hq. apply not_true_is_false. rewrite joinable_exited. by apply (Hf j). }
  cbv iota beta. nstep evals_rd_proc; [done|].
  destruct (evals_vwrite own (v_hold L_ptable v) L (pgdir s) (bytes32 (retval p)) k rv Has Hcr Hw) as (m' & R & W & Has' & Hl).
  rewrite u8_bytes32 in W. npure. eapply ends_evals; [apply evals_when_true; [|exact R]|].
  { by rewrite (proj2 (Z.eqb_neq rv 0)). }
  destruct (id Hw) as (W1 & W2 & W3).
  set (k1 := k <| mem := m' |>).
  assert (kmem_inv k1 L) as Hk1 by (eapply space_frame_kmem; [exact Has|done|by eapply wrote_space; [..|exact W]]).
  assert (unused m' (pgdir s) (kstack p)) as Hun.
  { eapply unused_ext; [|by intros; apply Hl|exact Hst3]. intros j Hjx. by eapply (wrote_tbl own); [exact Has|..|exact W|]. }
  destruct (kfree_unused own k1 (pgdir s) L (kstack p) Hk1 Has' Hst1 Hst2 Hun Hst4) as (Hk2 & Has2 & _ & Hlf2).
  npure. eapply ends_evals.
  { apply (evals_thread_free k1 _ i p cur c s); try done; [|by apply kmem_ready_hold].
    intros ->. eapply (joinable_ne thread c p); [done..|]. congruence. }
  nstep evals_release_hold; [done|]. apply ends_ret. intros h. split_and!; try done.
  - simpl. apply lookup_insert_eq.
  - by apply (kmem_inv_frame (kfree_result (kstack p) k1)).
  - eapply (user_bytes_frame own m'); [exact Has'|by destruct Hst1|exact Hun| |done|done|done|].
    + apply (kf_mem _ _ _ (kfree_kframe (kstack p) k1)).
    + eapply wrote_bytes; [exact W|done|]. intros j Hjr. destruct (W3 j Hjr) as (e & He & _). by exists e.
  - intros va. etransitivity; [apply Hlf2|apply Hl].
Qed.

End JoinProps.

(** ** Witnesses *)

#[local] Existing Instance image_syms.

(** Slot 1 is a thread of the process of slot 0, which waits for it. *)
Definition exit_thread : proc :=
  zero_proc <| state := RUNNING |> <| sharePtr := 0x80400000 |> <| orderOfThread := 1 |>.
Definition exit_world : world :=
  mkWorld ((ks thread_world) <| hw := run_hw 1 |>
    <| procs ::= λ ps, <[1%nat := exit_thread]> (<[0%nat := asleep (ch_proc 0) thread_proc]> ps) |>) [].

Lemma thread_exit_ends_witness : ∃ w', thread_exit 42 exit_world = Switched w' ∧
  state <$> (procs (ks w') !! 1%nat) = Some ZOMBIE ∧ state <$> (procs (ks w') !! 0%nat) = Some RUNNABLE.
Proof.
  destruct (thread_exit_ends exit_world (run_view 1) 1 exit_thread thread_shared 0 0 42) as [_ He].
  - apply run_hw_ok.
  - done.
  - set_solver.
  - done.
  - done.
  - done.
  - done.
  - done.
  - split_and!; [by eexists|unfold NTHREAD; lia|intros j Hj; lia].
  - done.
  - destruct (He eq_refl) as (h1 & _ & ->). by eexists.
Defined.

Definition joined_thread : proc :=
  zero_proc <| state := ZOMBIE |> <| sharePtr := 0x80400000 |> <| orderOfThread := 1 |> <| retval := 42 |>
    <| kstack := 0x80203000 |>.
Definition join_world : world :=
  mkWorld ((ks thread_world) <| procs ::= insert 1%nat joined_thread |>) [].
Definition join_own (x : Z) : Prop := thread_own x ∨ x = 0x80203000.

Lemma join_demo_pre : join_pre join_own (ks join_world) thread_view 0 1 thread_proc joined_thread thread_shared demo_pages 1 0x20.
Proof.
  destruct thread_space as [Has Hl]. split; try done.
  - intros j q Hj. destruct j; [|lia]. by intros [= <-] [? _].
  - apply (kmem_inv_frame (ks thread_world)); [done|done|apply thread_kmem].
  - eapply as_inv_mono; [|exact Has]. by left.
  - split_and!; [by vm_compute..|unfold demo_pages; set_solver by lia| |by right]. split.
    + intros Hx. destruct (pt_pages_valid _ _ _ _ _ (proj1 Has) Hx) as (_ & _ & Ho).
      unfold thread_own, demo_own, demo_pages in Ho. set_solver by lia.
    + intros va e Hva He Hx. destruct (fr_page _ _ _ _ (proj2 Has) va e Hva He) as (_ & _ & _ & Ho).
      rewrite Hx in Ho. unfold thread_own, demo_own, demo_pages in Ho. set_solver by lia.
  - split; [done|]. split_and!; [done|done|]. intros i Hi. exists (entry (V2P 0x80302000) PTE_WU).
    split; [|by vm_compute]. simpl (mem _). rewrite Hl, <- leaf_mod by kl.
    replace (0x20 + i - _) with 0 by (rewrite Z.mod_small; kl). apply demo_leaf_0.
Qed.

Lemma thread_join_collects_witness : ∃ w', thread_join 1 0x20 join_world = Ok 0 w' ∧
  user_bytes (mem (ks w')) 0x80300000 0x20 (bytes32 42) ∧ kmem_inv (ks w') (0x80203000 :: demo_pages).
Proof.
  destruct (thread_join_collects join_own join_world thread_view 0 1 thread_proc joined_thread thread_shared demo_pages 1 0x20)
    as (r & w' & Hrun & _ & _ & -> & _ & _ & Hk & _ & Hb & _).
  - exact thread_hw_ok.
  - exact join_demo_pre.
  - exists w'. split_and!; [exact Hrun|exact Hb|exact Hk].
Defined.
