(* ===== verification/BufList.v ===== *)
(** * Doubly linked lists

    The list of buffers of bio.c as two functions, [N] for the field [next] and [P]
    for [prev]: scanning, unlinking an element and putting one at the front. *)

From S2P Require Import Prelude Layout State Str Spinlock Kalloc Vm Sched Sleeplock Ports Bio Uaccess Eval.

Section Links.
Implicit Types (N P : nat → nat) (l : list nat) (x y z b : nat).

(** From [x] the links lead through [l] to [y], and back. *)
Fixpoint seg N P x l y : Prop :=
  match l with
  | [] => N x = y ∧ P y = x
  | z :: l' => N x = z ∧ P z = x ∧ seg N P z l' y
  end.

Lemma seg_ext N P N' P' x l y :
  (∀ z, z ∈ x :: l → N' z = N z) → (∀ z, z ∈ l ++ [y] → P' z = P z) → seg N P x l y → seg N' P' x l y.
Proof.
  revert x. induction l as [|z l IH]; intros x HN HP; simpl.
  - rewrite HN, HP by set_solver. done.
  - rewrite HN, HP by set_solver. intros (? & ? & ?). split_and!; [done..|].
    apply IH; [|intros; apply HP; set_solver|done]. intros; apply HN; set_solver.
Qed.

Lemma seg_app N P x l1 b l2 y : seg N P x (l1 ++ b :: l2) y ↔ seg N P x l1 b ∧ seg N P b l2 y.
Proof. revert x. induction l1 as [|z l1 IH]; intros x; simpl; [naive_solver|]. rewrite IH. naive_solver. Qed.

(** The element before and the one after [b]. *)
Lemma seg_before N P x l b : seg N P x l b → P b ∈ x :: l.
Proof. revert x. induction l as [|z l IH]; intros x; simpl; [set_solver|]. intros (_ & _ & Hs). apply IH in Hs. set_solver. Qed.
Lemma seg_after N P b l y : seg N P b l y → N b ∈ l ++ [y].
Proof. destruct l; simpl; [|intros (? & _)]; set_solver. Qed.

Definition upd (F : nat → nat) (i v : nat) : nat → nat := λ j, if decide (j = i) then v else F j.

Lemma upd_ne F i v j : j ≠ i → upd F i v j = F j.
Proof. intros. unfold upd. by rewrite decide_False. Qed.
Lemma upd_eq F i v : upd F i v i = v.
Proof. unfold upd. by rewrite decide_True. Qed.

(** [b->next->prev = b->prev; b->prev->next = b->next]. *)
Lemma seg_unlink N P x l1 b l2 y :
  NoDup (l1 ++ b :: l2) → x ∉ l1 ++ b :: l2 → y ∉ l1 ++ b :: l2 →
  seg N P x (l1 ++ b :: l2) y → seg (upd N (P b) (N b)) (upd P (N b) (P b)) x (l1 ++ l2) y.
Proof.
  revert x. induction l1 as [|w l1 IH]; intros x Hd Hx Hy; simpl.
  - intros (HN & HP & Hs). simpl in *. apply NoDup_cons in Hd as [Hb Hd]. rewrite HP. destruct l2 as [|z l2]; simpl in *.
    + destruct Hs as [Hs1 Hs2]. rewrite Hs1, !upd_eq. done.
    + destruct Hs as (Hs1 & Hs2 & Hs). rewrite Hs1, !upd_eq. split_and!; [done..|].
      apply NoDup_cons in Hd as [Hz Hd].
      apply (seg_ext N P); [| |done]; intros u Hu; apply upd_ne; set_solver.
  - intros (HN & HP & Hs). simpl in *. apply NoDup_cons in Hd as [Hw Hd].
    pose proof (proj1 (seg_app _ _ _ _ _ _ _) Hs) as [Hs1 Hs2].
    pose proof (seg_before _ _ _ _ _ Hs1) as Hb. pose proof (seg_after _ _ _ _ _ Hs2) as Ha.
    split_and!.
    + rewrite upd_ne; [done|]. clear -Hx Hb. set_solver.
    + rewrite upd_ne; [done|]. clear -Hw Hy Ha. set_solver.
    + apply IH; [done|clear -Hw; set_solver|clear -Hy; set_solver|done].
Qed.

(** [b] put between [h] and what follows it. *)
Lemma seg_push N P h l b y :
  b ∉ h :: l → b ≠ y → h ∉ l → (∀ z, z ∈ l → z ≠ y) → NoDup l → seg N P h l y →
  seg (upd (upd N b (N h)) h b) (upd (upd P b h) (N h) b) h (b :: l) y.
Proof.
  intros Hb Hby Hh Hy Hd Hs. cbn [seg]. rewrite upd_eq.
  assert (N h ≠ b) as Hnb by (pose proof (seg_after _ _ _ _ _ Hs); set_solver).
  rewrite (upd_ne _ _ _ b), upd_eq by done. split_and!; [done..|]. destruct l as [|z l]; cbn [seg] in *.
  - destruct Hs as [Hs _]. rewrite (upd_ne _ h) by set_solver. rewrite upd_eq, Hs, upd_eq. done.
  - destruct Hs as (H1 & H2 & Hs). rewrite (upd_ne _ h) by set_solver. rewrite upd_eq, H1, upd_eq. split_and!; [done..|].
    apply NoDup_cons in Hd as [Hz Hd].
    apply (seg_ext N P); [| |done]; intros u Hu; rewrite !upd_ne; set_solver.
Qed.

End Links.

(** ** Following one kind of link *)

Fixpoint chain (F : nat → nat) (x : nat) (l : list nat) (y : nat) : Prop :=
  match l with
  | [] => F x = y
  | z :: l' => F x = z ∧ chain F z l' y
  end.

Lemma chain_snoc F x l z y : chain F x (l ++ [z]) y ↔ chain F x l z ∧ F z = y.
Proof. revert x. induction l as [|u l IH]; intros x; simpl; [naive_solver|]. rewrite IH. naive_solver. Qed.

Lemma seg_next N P x l y : seg N P x l y → chain N x l y.
Proof. revert x. induction l as [|z l IH]; intros x; simpl; [naive_solver|]. intros (? & _ & ?). auto. Qed.

Lemma seg_prev N P x l y : seg N P x l y → chain P y (rev l) x.
Proof.
  revert x. induction l as [|z l IH]; intros x; simpl; [naive_solver|]. intros (_ & HP & Hs).
  rewrite chain_snoc. auto.
Qed.

(** ** The buffers *)

Definition nx (bc : list buf) (i : nat) : nat := from_option b_next 0%nat (bc !! i).
Definition pv (bc : list buf) (i : nat) : nat := from_option b_prev 0%nat (bc !! i).

(** The buffers in the order of the list. *)
Record buf_list (bc : list buf) (l : list nat) : Prop := mkBufList {
  bl_len : length bc = S NBUFn;
  bl_seg : seg (nx bc) (pv bc) BHEAD l BHEAD;
  bl_nodup : NoDup l;
  bl_all : ∀ i, i ∈ l ↔ (i < NBUFn)%nat
}.

Lemma bl_length bc l : buf_list bc l → (length l ≤ NBUFn)%nat.
Proof.
  intros [Hn Hs Hd Ha]. rewrite <- (length_seq NBUFn 0). apply submseteq_length, NoDup_submseteq; [done|].
  intros i Hi%Ha. apply elem_of_seq. lia.
Qed.

(** The first buffer of [l] that satisfies [Q]. *)
Definition bfind (Q : buf → bool) (bc : list buf) (l : list nat) : option nat :=
  snd <$> list_find (λ i, from_option Q false (bc !! i) = true) l.

Lemma bfind_Some Q bc l i : bfind Q bc l = Some i → i ∈ l ∧ ∃ x, bc !! i = Some x ∧ Q x = true.
Proof.
  unfold bfind. intros ([j i'] & (H1 & H2 & _)%list_find_Some & ->)%fmap_Some. simpl.
  split; [by eapply list_elem_of_lookup_2|]. destruct (bc !! i') as [x|]; [by exists x|done].
Qed.

Lemma bfind_None Q bc l i x : bfind Q bc l = None → i ∈ l → bc !! i = Some x → Q x = false.
Proof.
  unfold bfind. intros Hf%fmap_None%list_find_None Hi Hx. rewrite Forall_forall in Hf. specialize (Hf i Hi).
  rewrite Hx in Hf. by apply not_true_is_false.
Qed.

(** Equal up to the links. *)
Definition unlinked (b : buf) : buf := b <| b_prev := 0%nat |> <| b_next := 0%nat |>.
Definition same_bufs (bc bc' : list buf) : Prop := unlinked <$> bc = unlinked <$> bc'.


Section Scan.
Context `{KernelSyms} `{DiskDriver}.

Lemma evals_rd_buf k v i x : bcache k !! i = Some x → evals k v (rd_buf i) x k v.
Proof. intros Hx. apply evals_getk; [done|]. by apply evals_deref. Qed.

Lemma evals_mod_buf k v i f : evals k v (mod_buf i f) tt (k <| bcache ::= alter f i |>) v.
Proof. by apply evals_modk. Qed.

Lemma evals_bscan (step : buf → nat) Q k v l : ∀ x fuel,
  chain (λ i, from_option step 0%nat (bcache k !! i)) x l BHEAD →
  (∀ i, i ∈ l → (i < NBUFn)%nat) → length (bcache k) = S NBUFn → (length l < fuel)%nat →
  evals k v (bscan fuel step Q (from_option step 0%nat (bcache k !! x))) (bfind Q (bcache k) l) k v.
Proof.
  induction l as [|z l IH]; intros x fuel Hc Hl Hn Hf; (destruct fuel as [|fuel]; [simpl in Hf; lia|]); cbn [bscan]; simpl in Hc.
  - rewrite Hc, Nat.eqb_refl. apply evals_ret.
  - destruct Hc as [-> Hc]. assert (z < NBUFn)%nat as Hz by (apply Hl; set_solver).
    rewrite (proj2 (Nat.eqb_neq z BHEAD)) by (unfold BHEAD; lia).
    destruct (lookup_lt_is_Some_2 (bcache k) z) as [b Hb]; [lia|]. estep evals_rd_buf; [done|].
    unfold bfind. cbn [list_find]. rewrite Hb. simpl from_option. destruct (Q b) eqn:E.
    + rewrite decide_True by done. apply evals_ret.
    + rewrite decide_False by done. replace (step b) with (from_option step 0%nat (bcache k !! z)) by (by rewrite Hb).
      eapply evals_eq; [apply IH; [done|intros; apply Hl; set_solver|done|simpl in Hf; lia]| |done|done].
      unfold bfind. by destruct (list_find _ l) as [[] |].
Qed.

Lemma evals_scan_next k v l Q :
  buf_list (bcache k) l → evals k v (bscan (S NBUFn) b_next Q (nx (bcache k) BHEAD)) (bfind Q (bcache k) l) k v.
Proof.
  intros Hb. pose proof (bl_length _ _ Hb). destruct Hb as [Hn Hs Hd Ha].
  apply evals_bscan; [by eapply seg_next|by intros; apply Ha|done|lia].
Qed.

Lemma evals_scan_prev k v l Q :
  buf_list (bcache k) l → evals k v (bscan (S NBUFn) b_prev Q (pv (bcache k) BHEAD)) (bfind Q (bcache k) (rev l)) k v.
Proof.
  intros Hb. pose proof (bl_length _ _ Hb). destruct Hb as [Hn Hs Hd Ha].
  apply evals_bscan; [by eapply seg_prev| |done|rewrite length_rev; lia].
  intros i Hi. by apply Ha, elem_of_rev.
Qed.

End Scan.

(** ** Moving a buffer to the front *)

Definition setn (i v : nat) (bc : list buf) : list buf := alter (λ y, y <| b_next := v |>) i bc.
Definition setp (i v : nat) (bc : list buf) : list buf := alter (λ y, y <| b_prev := v |>) i bc.

Section SetLink.
Variables (i v : nat) (bc : list buf).
Hypothesis (Hi : (i < length bc)%nat).

Lemma nx_setn j : nx (setn i v bc) j = upd (nx bc) i v j.
Proof.
  unfold nx, setn, upd. destruct (decide (j = i)) as [->|Hne].
  - rewrite list_lookup_alter_eq. by destruct (lookup_lt_is_Some_2 bc i Hi) as [x ->].
  - by rewrite list_lookup_alter_ne.
Qed.
Lemma pv_setp j : pv (setp i v bc) j = upd (pv bc) i v j.
Proof.
  unfold pv, setp, upd. destruct (decide (j = i)) as [->|Hne].
  - rewrite list_lookup_alter_eq. by destruct (lookup_lt_is_Some_2 bc i Hi) as [x ->].
  - by rewrite list_lookup_alter_ne.
Qed.
Lemma nx_setp j : nx (setp i v bc) j = nx bc j.
Proof.
  unfold nx, setp. destruct (decide (j = i)) as [->|Hne]; [|by rewrite list_lookup_alter_ne].
  rewrite list_lookup_alter_eq. by destruct (bc !! i).
Qed.
Lemma pv_setn j : pv (setn i v bc) j = pv bc j.
Proof.
  unfold pv, setn. destruct (decide (j = i)) as [->|Hne]; [|by rewrite list_lookup_alter_ne].
  rewrite list_lookup_alter_eq. by destruct (bc !! i).
Qed.
End SetLink.

Lemma length_setn i v bc : length (setn i v bc) = length bc.
Proof. apply length_alter. Qed.
Lemma length_setp i v bc : length (setp i v bc) = length bc.
Proof. apply length_alter. Qed.

Lemma alter_unlinked f i bc : (∀ x, unlinked (f x) = unlinked x) → same_bufs (alter f i bc) bc.
Proof.
  intros Hf. unfold same_bufs. apply list_eq. intros j. rewrite !list_lookup_fmap.
  destruct (decide (j = i)) as [->|Hne]; [|by rewrite list_lookup_alter_ne].
  rewrite list_lookup_alter_eq. destruct (bc !! i); simpl; [|done]. by rewrite Hf.
Qed.

Definition mtf (b : nat) (bc : list buf) : list buf :=
  let bc1 := setp (nx bc b) (pv bc b) bc in
  let bc2 := setn (pv bc1 b) (nx bc1 b) bc1 in
  let bc3 := setn b (nx bc2 BHEAD) bc2 in
  let bc4 := setp b BHEAD bc3 in
  let bc5 := setp (nx bc4 BHEAD) b bc4 in
  setn BHEAD b bc5.

Lemma mtf_same b bc : same_bufs (mtf b bc) bc.
Proof. unfold same_bufs, mtf. cbv zeta. unfold setn, setp. by rewrite !alter_unlinked. Qed.

Lemma mtf_list b bc l1 l2 :
  buf_list bc (l1 ++ b :: l2) → buf_list (mtf b bc) (b :: l1 ++ l2).
Proof.
  intros [Hn Hs Hd Ha]. set (N := nx bc) in *. set (P := pv bc) in *.
  assert (∀ i, i ∈ l1 ++ b :: l2 → (i < NBUFn)%nat) as Hlt by (intros i; apply Ha).
  assert (BHEAD ∉ l1 ++ b :: l2) as HH by (intros Hin%Hlt; unfold BHEAD in Hin; lia).
  assert (b < NBUFn)%nat as Hb by (apply Hlt; set_solver).
  pose proof (proj1 (seg_app _ _ _ _ _ _ _) Hs) as [Hs1 Hs2].
  pose proof (seg_before _ _ _ _ _ Hs1) as HPb. pose proof (seg_after _ _ _ _ _ Hs2) as HNb.
  pose proof (seg_unlink _ _ _ _ _ _ _ Hd HH HH Hs) as Hu.
  assert (Permutation (l1 ++ b :: l2) (b :: l1 ++ l2)) as Hperm by (symmetry; apply Permutation_middle).
  pose proof (proj1 (NoDup_Permutation_proper _ _ Hperm) Hd) as Hd'. pose proof Hd' as [Hb' Hd'']%NoDup_cons.
  assert (∀ i, i ∈ BHEAD :: l1 ++ b :: l2 → (i < length bc)%nat) as Hlen.
  { intros i [->|Hi%Hlt]%elem_of_cons; rewrite Hn; unfold BHEAD in *; lia. }
  assert (N b < length bc)%nat as B1 by (apply Hlen; clear -HNb; set_solver).
  assert (P b < length bc)%nat as B2 by (apply Hlen; clear -HPb; set_solver).
  assert (N b ≠ b) as B3 by (intros E; rewrite E in HNb; clear -HNb Hb' HH; set_solver).
  assert (b ≠ N b) as B3' by congruence.
  assert (BHEAD ≠ b) as B4 by (clear -HH; set_solver).
  assert (b < length bc)%nat as B5 by lia.
  set (N2 := upd N (P b) (N b)) in *. set (P2 := upd P (N b) (P b)) in *.
  pose proof (seg_after _ _ _ _ _ Hu) as HN2.
  assert (N2 BHEAD < length bc)%nat as B6 by (apply Hlen; clear -HN2; set_solver).
  assert (BHEAD < length bc)%nat as B7 by (apply Hlen; set_solver).
  set (bc1 := setp (nx bc b) (pv bc b) bc). set (bc2 := setn (pv bc1 b) (nx bc1 b) bc1).
  assert (pv bc1 b = P b) as E1p by (unfold bc1; by rewrite pv_setp, upd_ne).
  assert (∀ j, nx bc1 j = N j) as E1n by (intros j; unfold bc1; by rewrite nx_setp).
  assert (∀ j, nx bc2 j = N2 j) as E2n.
  { intros j. unfold bc2. rewrite nx_setn, E1p, E1n by (rewrite E1p; unfold bc1; by rewrite length_setp).
    unfold N2, upd. by rewrite E1n. }
  assert (∀ j, pv bc2 j = P2 j) as E2p by (intros j; unfold bc2, bc1; by rewrite pv_setn, pv_setp).
  set (bc3 := setn b (nx bc2 BHEAD) bc2). set (bc4 := setp b BHEAD bc3). set (bc5 := setp (nx bc4 BHEAD) b bc4).
  assert (length bc2 = length bc) as L2 by (unfold bc2, bc1; by rewrite length_setn, length_setp).
  assert (nx bc4 BHEAD = N2 BHEAD) as EH.
  { unfold bc4, bc3. rewrite nx_setp, nx_setn, upd_ne by (rewrite ?L2; done). apply E2n. }
  change (mtf b bc) with (setn BHEAD b bc5). split.
  - unfold bc5, bc4, bc3. by rewrite !length_setn, !length_setp, length_setn, L2.
  - eapply seg_ext; [| |apply (seg_push N2 P2 BHEAD (l1 ++ l2) b BHEAD)]; try done.
    + intros j _. rewrite nx_setn by (unfold bc5, bc4, bc3; rewrite !length_setp, length_setn, L2; done).
      unfold upd. case_decide; [done|]. unfold bc5, bc4, bc3.
      rewrite !nx_setp, nx_setn by (by rewrite L2). unfold upd. case_decide; apply E2n.
    + intros j _. rewrite pv_setn. unfold bc5. rewrite EH, pv_setp by (unfold bc4, bc3; rewrite length_setp, length_setn, L2; done).
      unfold upd. case_decide; [done|]. unfold bc4.
      rewrite pv_setp by (unfold bc3; rewrite length_setn, L2; done). unfold upd. case_decide; [done|].
      unfold bc3. by rewrite pv_setn, E2p.
    + clear -B4 Hb'. set_solver.
    + clear -HH. set_solver.
    + intros z Hz ->. clear -HH Hz. set_solver.
  - done.
  - intros i. rewrite <- Ha, Hperm. done.
Qed.
