(* ===== verification/BioProps.v ===== *)
(** * The buffer cache: properties of bio.c

    The cache over the driver of memide.c, with a loss of power possible before every
    transfer.  [cache] relates the buffers to what they stand for: the contents of
    the disk, the blocks changed in memory only, and the blocks held by the caller. *)

From S2P Require Import Prelude Layout State Str Spinlock Kalloc Vm Sched Sleeplock Ports Memide Bio Uaccess Eval SchedProps BufList.

(** ** Executions that may lose power *)

(** The driver of memide.c; the power fails when [stop] says so. *)
Definition crash_rw `{KernelSyms} (stop : kern → nat → bool) (b : nat) : K unit := λ w,
  if stop (ks w) b then Switched w else Memide.iderw b w.

(** [m] returns with [Q], or the power fails with a disk that satisfies [C]. *)
Definition survives {A} (k : kern) (v : hwview) (m : K A) (v' : hwview) (Q : A → kern → Prop)
    (C : (Z → list Z) → Prop) : Prop :=
  leads k v m (λ rs o, match o with
    | Ok a w' => hw_ok (hw (ks w')) v' ∧ resumes w' = rs ∧ Q a (ks w')
    | Switched w' => C (disk (ks w'))
    | _ => False
    end).

Lemma survives_bind {A B} (m : K A) (f : A → K B) k v v1 v2 Q1 Q2 C :
  survives k v m v1 Q1 C → (∀ a k1, Q1 a k1 → survives k1 v1 (f a) v2 Q2 C) → survives k v (m ≫= f) v2 Q2 C.
Proof.
  intros H1 H2 h rs Hv. specialize (H1 h rs Hv). destruct (m (at_hw k h rs)) as [a w1| | | |w1|] eqn:E; try done.
  - destruct H1 as (Hv1 & <- & HQ). rewrite (bind_ok _ _ _ _ _ E). rewrite <- (at_hw_self w1). by apply H2.
  - by rewrite (bind_switched _ _ _ _ E).
Qed.

Lemma survives_evals {A B} (m : K A) (f : A → K B) k v a k1 v1 v2 Q C :
  evals k v m a k1 v1 → survives k1 v1 (f a) v2 Q C → survives k v (m ≫= f) v2 Q C.
Proof. apply leads_evals. Qed.

Lemma survives_ret {A} (a : A) k v (Q : A → kern → Prop) C :
  (∀ h, Q a (k <| hw := h |>)) → survives k v (mret a) v Q C.
Proof. intros HQ h rs Hv. split_and!; [done..|]. apply HQ. Qed.

Lemma survives_of_evals {A} (m : K A) k v a k1 v1 (Q : A → kern → Prop) C :
  evals k v m a k1 v1 → (∀ h, Q a (k1 <| hw := h |>)) → survives k v m v1 Q C.
Proof.
  intros H1 HQ h rs Hv. destruct (H1 h rs Hv) as (h1 & Hv1 & E1). rewrite E1. split_and!; [done..|]. apply HQ.
Qed.

Lemma survives_mono {A} (m : K A) k v v' (Q Q' : A → kern → Prop) (C C' : (Z → list Z) → Prop) :
  survives k v m v' Q C → (∀ a k', Q a k' → Q' a k') → (∀ d, C d → C' d) → survives k v m v' Q' C'.
Proof.
  intros H HQ HC h rs Hv. specialize (H h rs Hv). destruct (m (at_hw k h rs)); try done; [|by apply HC].
  destruct H as (? & ? & ?). auto.
Qed.

Lemma survives_hw {A} (m : K A) k h v v' Q C : survives k v m v' Q C → survives (k <| hw := h |>) v m v' Q C.
Proof. intros Hs h' rs Hv. apply (Hs h' rs Hv). Qed.

Lemma survives_assoc {A B D} (m : K A) (f : A → K B) (g : B → K D) k v v' Q C :
  survives k v (m ≫= λ a, f a ≫= g) v' Q C → survives k v ((m ≫= f) ≫= g) v' Q C.
Proof. apply leads_assoc. Qed.
Lemma survives_getk {A B} (f : kern → A) (g : A → K B) k v v' Q C :
  (∀ k h, f (k <| hw := h |>) = f k) → survives k v (g (f k)) v' Q C → survives k v (getk f ≫= g) v' Q C.
Proof. apply leads_getk. Qed.
Lemma survives_modk {B} (f : kern → kern) (g : unit → K B) k v v' Q C :
  (∀ k h, f (k <| hw := h |>) = (f k) <| hw := h |>) → survives (f k) v (g tt) v' Q C →
  survives k v (modk f ≫= g) v' Q C.
Proof. apply leads_modk. Qed.
Lemma survives_bind_ret {A B} (a : A) (g : A → K B) k v v' Q C :
  survives k v (g a) v' Q C → survives k v (mret a ≫= g) v' Q C.
Proof. done. Qed.

Ltac spure :=
  repeat lazymatch goal with
    | |- survives _ _ (mbind _ (mbind _ _)) _ _ _ => apply survives_assoc
    | |- survives _ _ (mbind _ (getk _)) _ _ _ => apply survives_getk; [done|]
    | |- survives _ _ (mbind _ (modk _)) _ _ _ => apply survives_modk; [done|]
    | |- survives _ _ (mbind _ (mret _)) _ _ _ => apply survives_bind_ret
    end;
  cbv beta.
Ltac sstep H := spure; eapply survives_evals; [eapply H|]; cbv beta.

(** ** The kernel with other processes, buffers and disk *)

Definition bcs (k : kern) (ps : list proc) (bc : list buf) (dk : Z → list Z) : kern :=
  k <| procs := ps |> <| bcache := bc |> <| disk := dk |>.

Section Cache.
Context `{KernelSyms} (stop : kern → nat → bool).
#[local] Instance crash_driver : DiskDriver := crash_rw stop.

(** The caller: process [c] in slot [cur], with no spin lock held. *)
Variables (v : hwview) (cur : nat) (c : proc).
Hypothesis (Hheld : hv_held v = ∅) (Hothers : hv_others v = ∅) (Hproc : hv_proc v = Some cur)
  (Hrun : state c = RUNNING).

Definition procs_ok (ps : list proc) : Prop := length ps = NPROCn ∧ ps !! cur = Some c.

Lemma procs_ok_woken ch ps : procs_ok ps → procs_ok (woken ch <$> ps).
Proof.
  intros [Hn Hc]. split; [by rewrite length_fmap|]. rewrite list_lookup_fmap, Hc. simpl. unfold woken. by rewrite Hrun.
Qed.

Section Steps.
Variables (k : kern) (ps : list proc) (bc : list buf) (dk : Z → list Z).

Lemma bcs_rd_buf vv i x : bc !! i = Some x → evals (bcs k ps bc dk) vv (rd_buf i) x (bcs k ps bc dk) vv.
Proof. apply (evals_rd_buf (bcs k ps bc dk)). Qed.
Lemma bcs_mod_buf vv i f : evals (bcs k ps bc dk) vv (mod_buf i f) tt (bcs k ps (alter f i bc) dk) vv.
Proof. eapply evals_eq; [apply evals_mod_buf|done| |done]. by keq. Qed.

Lemma bcs_holdingsleep i x :
  procs_ok ps → bc !! i = Some x → sl_locked (b_lock x) = 1 → sl_pid (b_lock x) = pid c →
  evals (bcs k ps bc dk) v (holdingsleep (SL_buf i)) true (bcs k ps bc dk) v.
Proof.
  intros [_ Hc] Hx Hl Hp. unfold holdingsleep. estep evals_acquire; [set_solver..|].
  unfold rd_slock. epure. estep (@evals_deref buf); [exact Hx|]. epure. rewrite Hl. cbn [truthy Z.eqb negb].
  estep evals_curproc; [done|]. estep evals_rd_proc; [exact Hc|]. epure. rewrite Hp, Z.eqb_refl.
  estep evals_release_hold; [set_solver|]. apply evals_ret.
Qed.

Lemma bcs_acquiresleep i x :
  procs_ok ps → bc !! i = Some x → sl_locked (b_lock x) = 0 →
  evals (bcs k ps bc dk) v (acquiresleep (SL_buf i)) tt
    (bcs k ps (<[i := x <| b_lock ::= λ s, s <| sl_locked := 1 |> <| sl_pid := pid c |> |>]> bc) dk) v.
Proof.
  intros [_ Hc] Hx Hl. unfold acquiresleep. estep evals_acquire; [set_solver..|].
  unfold sleep_while. epure. apply evals_resumes. intros n. cbn [sleep_while_loop]. unfold rd_slock. epure.
  estep (@evals_deref buf); [exact Hx|]. epure. rewrite Hl. cbn [truthy Z.eqb negb]. unfold mod_slock. epure.
  estep evals_curproc; [done|]. estep evals_rd_proc; [exact Hc|]. epure.
  eapply evals_eq; [apply evals_release_hold; set_solver|done| |done]. keq. simpl.
  rewrite list_alter_alter_eq. by rewrite (list_alter_insert _ _ _ x).
Qed.

Lemma bcs_releasesleep i x :
  procs_ok ps → bc !! i = Some x →
  evals (bcs k ps bc dk) v (releasesleep (SL_buf i)) tt
    (bcs k (woken (ch_sleep (SL_buf i)) <$> ps)
       (<[i := x <| b_lock ::= λ s, s <| sl_locked := 0 |> <| sl_pid := 0 |> |>]> bc) dk) v.
Proof.
  intros [Hn Hc] Hx. unfold releasesleep. estep evals_acquire; [set_solver..|]. unfold mod_slock. epure.
  estep evals_wakeup; [exact Hn|simpl; set_solver..|].
  eapply evals_eq; [apply evals_release_hold; set_solver|done| |done]. keq. simpl.
  rewrite list_alter_alter_eq. by rewrite (list_alter_insert _ _ _ x).
Qed.

End Steps.
(** ** What the cache stands for *)

(** The flags of a buffer in use for block [b]. *)
Definition flags_of (o : gmap Z (list Z)) (b : Z) : Z :=
  match o !! b with Some _ => Z.lor B_VALID B_DIRTY | None => B_VALID end.

(** The contents of block [b]: the change kept in memory, or what is on the disk. *)
Definition block (d : Z → list Z) (o : gmap Z (list Z)) (b : Z) : list Z := default (d b) (o !! b).

Definition locked_buf (x : buf) : Prop :=
  b_refcnt x = 1 ∧ sl_locked (b_lock x) = 1 ∧ sl_pid (b_lock x) = pid c.
Definition idle_buf (x : buf) : Prop := b_refcnt x = 0 ∧ sl_locked (b_lock x) = 0.

(** The buffers [bc] for the disk [d]: the blocks in [o] are dirty, and the caller
    holds the buffers in [h], each with its block and data. *)
Record cache (bc : list buf) (d : Z → list Z) (o : gmap Z (list Z)) (h : gmap nat (Z * list Z)) : Prop := mkCache {
  ca_list : ∃ l, buf_list bc l;
  ca_uniq : ∀ i j x y, (i < NBUFn)%nat → (j < NBUFn)%nat → bc !! i = Some x → bc !! j = Some y →
    b_dev x = 1 → b_dev y = 1 → b_blockno x = b_blockno y → i = j;
  ca_held : ∀ i b data, h !! i = Some (b, data) → ∃ x, (i < NBUFn)%nat ∧ bc !! i = Some x ∧
    b_dev x = 1 ∧ b_blockno x = b ∧ b_data x = data ∧ b_flags x = flags_of o b ∧ locked_buf x;
  ca_idle : ∀ i x, (i < NBUFn)%nat → bc !! i = Some x → h !! i = None → idle_buf x ∧
    (if decide (b_dev x = 1)
     then b_flags x = flags_of o (b_blockno x) ∧ b_data x = block d o (b_blockno x)
     else Z.land (b_flags x) B_DIRTY = 0);
  ca_pin : ∀ b, is_Some (o !! b) → ∃ i x, (i < NBUFn)%nat ∧ bc !! i = Some x ∧ b_dev x = 1 ∧ b_blockno x = b
}.

(** The kernel [k] with such a cache. *)
Definition cst (k : kern) (d : Z → list Z) (o : gmap Z (list Z)) (h : gmap nat (Z * list Z)) (k' : kern) : Prop :=
  ∃ hh ps bc, k' = (bcs k ps bc d) <| hw := hh |> ∧ procs_ok ps ∧ cache bc d o h.

Lemma flags_of_valid o b : Z.land (flags_of o b) B_VALID =? 0 = false.
Proof. unfold flags_of. by destruct (o !! b). Qed.
Lemma flags_of_dirty o b : Z.land (flags_of o b) B_DIRTY =? 0 = bool_decide (o !! b = None).
Proof. unfold flags_of. by destruct (o !! b). Qed.

(** With fewer than [NBUF] buffers held or dirty, one can be recycled. *)
Lemma cache_room bc d o h : cache bc d o h → (size h + size o < NBUFn)%nat →
  ∃ i x, (i < NBUFn)%nat ∧ bc !! i = Some x ∧ b_refcnt x = 0 ∧ Z.land (b_flags x) B_DIRTY = 0.
Proof.
  intros Hca Hsz. destruct (ca_list _ _ _ _ Hca) as [l Hl].
  pose proof (bl_len _ _ Hl) as Hlen.
  set (clean := λ i, from_option (λ x, Z.land (b_flags x) B_DIRTY =? 0) false (bc !! i)).
  destruct (decide (Exists (λ i, h !! i = None ∧ clean i = true) (seq 0 NBUFn))) as [He|He].
  - apply Exists_exists in He as (i & Hi%elem_of_seq & Hh & Hc). unfold clean in Hc.
    destruct (bc !! i) as [x|] eqn:Hx; [|done]. apply Z.eqb_eq in Hc. exists i, x. split_and!; [lia|done| |done].
    by apply (ca_idle _ _ _ _ Hca i x ltac:(lia)).
  - exfalso. set (f := λ i, match h !! i with Some _ => inl i | None => inr (from_option b_blockno 0 (bc !! i)) end : nat + Z).
    assert (∀ i, (i < NBUFn)%nat → h !! i = None → ∃ x, bc !! i = Some x ∧ b_dev x = 1 ∧ is_Some (o !! b_blockno x)) as Hd.
    { intros i Hi Hh. destruct (lookup_lt_is_Some_2 bc i) as [x Hx]; [lia|]. exists x.
      destruct (ca_idle _ _ _ _ Hca i x Hi Hx Hh) as [_ Hfl].
      assert (clean i = false) as Hcl.
      { apply not_true_is_false. intros Hcl. apply He, Exists_exists. exists i. split; [apply elem_of_seq; lia|done]. }
      unfold clean in Hcl. rewrite Hx in Hcl. simpl in Hcl. destruct (decide (b_dev x = 1)) as [E|]; [|by rewrite Hfl in Hcl].
      split_and!; [done..|]. destruct Hfl as [Hfl _]. rewrite Hfl, flags_of_dirty in Hcl.
      apply bool_decide_eq_false in Hcl. by apply not_eq_None_Some. }
    assert (length (f <$> seq 0 NBUFn) ≤ length ((inl <$> elements (dom h)) ++ (inr <$> elements (dom o))))%nat as Hle.
    { apply submseteq_length, NoDup_submseteq.
      - apply NoDup_fmap_2_strong; [|apply NoDup_seq]. intros i j Hi%elem_of_seq Hj%elem_of_seq. unfold f.
        destruct (h !! i) eqn:Ei, (h !! j) eqn:Ej; intros [= Heq]; [done|].
        destruct (Hd i ltac:(lia) Ei) as (x & Hx & Hx1 & _), (Hd j ltac:(lia) Ej) as (y & Hy & Hy1 & _).
        rewrite Hx, Hy in Heq. by apply (ca_uniq _ _ _ _ Hca i j x y ltac:(lia) ltac:(lia)).
      - intros z (i & -> & Hi%elem_of_seq)%list_elem_of_fmap. unfold f. apply elem_of_app.
        destruct (h !! i) eqn:Ei.
        + left. apply list_elem_of_fmap. exists i. split; [done|]. apply elem_of_elements, elem_of_dom. by eexists.
        + right. destruct (Hd i ltac:(lia) Ei) as (x & Hx & _ & Ho). rewrite Hx. apply list_elem_of_fmap.
          exists (b_blockno x). split; [done|]. by apply elem_of_elements, elem_of_dom. }
    rewrite length_app, !length_fmap, length_seq in Hle.
    change (length (elements (dom h))) with (size (dom h)) in Hle. change (length (elements (dom o))) with (size (dom o)) in Hle.
    rewrite !size_dom in Hle. lia.
Qed.

(** ** Taking a buffer *)

Lemma buf_list_insert bc l i x x' :
  bc !! i = Some x → b_next x' = b_next x → b_prev x' = b_prev x → buf_list bc l → buf_list (<[i := x']> bc) l.
Proof.
  intros Hx Hn Hp [Hl Hs Hd Ha]. pose proof (lookup_lt_Some _ _ _ Hx). split; [by rewrite length_insert| |done|done].
  eapply seg_ext; [| |exact Hs]; intros j _; unfold nx, pv;
    (destruct (decide (j = i)) as [->|]; [rewrite list_lookup_insert_eq, Hx by done; simpl; congruence|by rewrite list_lookup_insert_ne]).
Qed.

(** Buffer [i], which nobody holds, becomes that of block [b]. *)
Record taken (bc : list buf) (o : gmap Z (list Z)) (h : gmap nat (Z * list Z)) (b : Z) (i : nat) (x x' : buf) : Prop := mkTaken {
  tk_lt : (i < NBUFn)%nat;
  tk_free : h !! i = None;
  tk_old : bc !! i = Some x;
  tk_only : ∀ j y, (j < NBUFn)%nat → bc !! j = Some y → b_dev y = 1 → b_blockno y = b → j = i;
  tk_pin : b_dev x = 1 → is_Some (o !! b_blockno x) → b_blockno x = b;
  tk_block : b_dev x' = 1 ∧ b_blockno x' = b;
  tk_lock : locked_buf x';
  tk_links : b_next x' = b_next x ∧ b_prev x' = b_prev x
}.

Lemma cache_taken bc d o h b i x x' :
  cache bc d o h → taken bc o h b i x x' → b_flags x' = flags_of o b →
  cache (<[i := x']> bc) d o (<[i := (b, b_data x')]> h).
Proof.
  intros Hca [Hi Hh Hx Ho Hpin [Hd Hb] Hlk [Hn Hp]] Hf. pose proof (lookup_lt_Some _ _ _ Hx) as Hlt.
  assert (∀ j y, <[i := x']> bc !! j = Some y → j = i ∧ y = x' ∨ j ≠ i ∧ bc !! j = Some y) as Hins.
  { intros j y. destruct (decide (j = i)) as [->|]; [rewrite list_lookup_insert_eq by done|rewrite list_lookup_insert_ne by done]; naive_solver. }
  destruct Hca as [[l Hl] Hu Hhe Hid Hpi]. split.
  - exists l. by eapply buf_list_insert.
  - intros j1 j2 y1 y2 Hj1 Hj2 [[-> ->]|[Hn1 H1]]%Hins [[-> ->]|[Hn2 H2]]%Hins E1 E2 E3; [done| | |by eapply Hu].
    + symmetry. apply (Ho j2 y2); [done..|congruence].
    + apply (Ho j1 y1); [done..|congruence].
  - intros j b' data. destruct (decide (j = i)) as [->|].
    + rewrite lookup_insert_eq. intros [= <- <-]. exists x'. rewrite list_lookup_insert_eq by done. split_and!; done.
    + rewrite lookup_insert_ne, list_lookup_insert_ne by done. apply Hhe.
  - intros j y Hj [[-> ->]|[Hne Hy]]%Hins; [by rewrite lookup_insert_eq|]. rewrite lookup_insert_ne by done. by apply Hid.
  - intros b' Hb'. destruct (Hpi b' Hb') as (j & y & Hj & Hy & E1 & E2). destruct (decide (j = i)) as [->|].
    + exists i, x'. rewrite list_lookup_insert_eq by done. split_and!; [done..|]. rewrite Hb. rewrite Hx in Hy.
      injection Hy as ->. rewrite <- E2 in *. by rewrite Hpin.
    + exists j, y. by rewrite list_lookup_insert_ne.
Qed.

Definition not_held (h : gmap nat (Z * list Z)) (b : Z) : Prop := ∀ i data, h !! i ≠ Some (b, data).

Lemma not_held_at bc d o h b i x :
  cache bc d o h → not_held h b → (i < NBUFn)%nat → bc !! i = Some x → b_dev x = 1 → b_blockno x = b → h !! i = None.
Proof.
  intros Hca Hnh Hi Hx Hd Hb. destruct (h !! i) as [[b' data]|] eqn:E; [|done].
  destruct (ca_held _ _ _ _ Hca i b' data E) as (y & _ & Hy & _ & Hyb & _). rewrite Hx in Hy. injection Hy as <-.
  rewrite <- Hyb, Hb in E. by destruct (Hnh i data).
Qed.

Lemma bget_hit k ps bc d o h b i x :
  procs_ok ps → cache bc d o h → not_held h b → (i < NBUFn)%nat → bc !! i = Some x → b_dev x = 1 → b_blockno x = b →
  let x' := x <| b_refcnt := 1 |> <| b_lock ::= λ s, s <| sl_locked := 1 |> <| sl_pid := pid c |> |> in
  evals (bcs k ps bc d) (v_hold L_bcache v)
    (_ ← mod_buf i (λ b, b <| b_refcnt ::= λ n, u32 (n + 1) |>); _ ← release L_bcache; _ ← acquiresleep (SL_buf i); mret i)
    i (bcs k ps (<[i := x']> bc) d) v ∧
  taken bc o h b i x x' ∧ b_flags x' = flags_of o b ∧ b_data x' = block d o b.
Proof.
  intros Hps Hca Hnh Hi Hx Hd Hb x'. pose proof (lookup_lt_Some _ _ _ Hx) as Hlt.
  pose proof (not_held_at _ _ _ _ _ _ _ Hca Hnh Hi Hx Hd Hb) as Hh.
  destruct (ca_idle _ _ _ _ Hca i x Hi Hx Hh) as [[Hr Hl] Hfl]. rewrite decide_True in Hfl by done. rewrite Hb in Hfl.
  split_and!; [|split; try done|apply Hfl..].
  - estep bcs_mod_buf. estep evals_release_hold; [set_solver|].
    rewrite (list_alter_insert _ _ _ x) by done.
    estep bcs_acquiresleep; [done|by rewrite list_lookup_insert_eq|done|]. rewrite list_insert_insert_eq.
    eapply evals_eq; [apply evals_ret|done| |done]. unfold x'.
    assert (x <| b_refcnt ::= λ n, u32 (n + 1) |> = x <| b_refcnt := 1 |>) as -> by (unfold set; simpl; by rewrite Hr). done.
  - intros j y Hj Hy E1 E2. by apply (ca_uniq _ _ _ _ Hca j i y x); [..|congruence].
Qed.

Lemma bget_miss k ps bc d o h b i x :
  procs_ok ps → cache bc d o h → (i < NBUFn)%nat → bc !! i = Some x →
  b_refcnt x = 0 → Z.land (b_flags x) B_DIRTY = 0 →
  (∀ j y, (j < NBUFn)%nat → bc !! j = Some y → b_dev y = 1 → b_blockno y ≠ b) →
  let x' := x <| b_dev := 1 |> <| b_blockno := b |> <| b_flags := 0 |> <| b_refcnt := 1 |>
              <| b_lock ::= λ s, s <| sl_locked := 1 |> <| sl_pid := pid c |> |> in
  evals (bcs k ps bc d) (v_hold L_bcache v)
    (_ ← mod_buf i (λ b, b <| b_dev := 1 |>); _ ← mod_buf i (λ y, y <| b_blockno := b |>);
     _ ← mod_buf i (λ b, b <| b_flags := 0 |>); _ ← mod_buf i (λ b, b <| b_refcnt := 1 |>);
     _ ← release L_bcache; _ ← acquiresleep (SL_buf i); mret i)
    i (bcs k ps (<[i := x']> bc) d) v ∧
  taken bc o h b i x x' ∧ o !! b = None.
Proof.
  intros Hps Hca Hi Hx Hr Hfl Hno x'. pose proof (lookup_lt_Some _ _ _ Hx) as Hlt.
  assert (h !! i = None) as Hh.
  { destruct (h !! i) as [[b' data]|] eqn:E; [|done]. destruct (ca_held _ _ _ _ Hca i b' data E) as (y & _ & Hy & _ & _ & _ & _ & Hlk & _).
    congruence. }
  destruct (ca_idle _ _ _ _ Hca i x Hi Hx Hh) as [[_ Hl] Hfx].
  split_and!; [|split; try done|].
  - estep bcs_mod_buf. estep bcs_mod_buf. estep bcs_mod_buf. estep bcs_mod_buf. rewrite !list_alter_alter_eq.
    estep evals_release_hold; [set_solver|]. rewrite (list_alter_insert _ _ _ x) by done.
    estep bcs_acquiresleep; [done|by rewrite list_lookup_insert_eq|done|]. rewrite list_insert_insert_eq.
    apply evals_ret.
  - intros j y Hj Hy E1 E2. by destruct (Hno j y).
  - intros E1 E2. rewrite decide_True in Hfx by done. destruct Hfx as [Hfx _]. rewrite Hfx in Hfl.
    apply Z.eqb_eq in Hfl. rewrite flags_of_dirty in Hfl. apply bool_decide_eq_true in Hfl. rewrite Hfl in E2. by destruct E2.
  - apply eq_None_not_Some. intros Ho. destruct (ca_pin _ _ _ _ Hca b Ho) as (j & y & Hj & Hy & E1 & E2). by destruct (Hno j y).
Qed.

(** [bget] takes the buffer of the block, or a clean one that becomes its buffer. *)
Lemma bget_spec k ps bc d o h b :
  procs_ok ps → cache bc d o h → not_held h b → (size h + size o < NBUFn)%nat →
  ∃ i x x', evals (bcs k ps bc d) v (bget 1 b) i (bcs k ps (<[i := x']> bc) d) v ∧ taken bc o h b i x x' ∧
    (b_flags x' = flags_of o b ∧ b_data x' = block d o b ∨ b_flags x' = 0 ∧ o !! b = None).
Proof.
  intros Hps Hca Hnh Hroom. destruct (ca_list _ _ _ _ Hca) as [l Hl].
  destruct (lookup_lt_is_Some_2 bc BHEAD) as [hd Hhd]; [rewrite (bl_len _ _ Hl); unfold BHEAD; lia|].
  assert (nx bc BHEAD = b_next hd ∧ pv bc BHEAD = b_prev hd) as [Hnx Hpv] by (unfold nx, pv; by rewrite Hhd).
  set (Q1 := λ x, (b_dev x =? 1) && (b_blockno x =? b)). set (Q2 := λ x, (b_refcnt x =? 0) && (Z.land (b_flags x) B_DIRTY =? 0)).
  pose proof (evals_scan_next (bcs k ps bc d) (v_hold L_bcache v) l Q1 Hl) as S1.
  pose proof (evals_scan_prev (bcs k ps bc d) (v_hold L_bcache v) l Q2 Hl) as S2.
  change (bcache (bcs k ps bc d)) with bc in S1, S2. rewrite Hnx in S1. rewrite Hpv in S2.
  destruct (bfind Q1 bc l) as [i|] eqn:E1.
  - destruct (bfind_Some _ _ _ _ E1) as (Hi%(bl_all _ _ Hl) & x & Hx & [H1%Z.eqb_eq H2%Z.eqb_eq]%andb_true_iff).
    destruct (bget_hit k ps bc d o h b i x Hps Hca Hnh Hi Hx H1 H2) as (He & Ht & Hf).
    do 3 eexists. split_and!; [|exact Ht|by left]. unfold bget. estep evals_acquire; [set_solver..|].
    estep bcs_rd_buf; [exact Hhd|]. estep S1. exact He.
  - assert (∀ j y, (j < NBUFn)%nat → bc !! j = Some y → b_dev y = 1 → b_blockno y ≠ b) as Hno.
    { intros j y Hj Hy Hd Hb. pose proof (bfind_None _ _ _ j y E1 ltac:(by apply (bl_all _ _ Hl)) Hy) as HQ.
      unfold Q1 in HQ. by rewrite Hd, Hb, !Z.eqb_refl in HQ. }
    destruct (bfind Q2 bc (rev l)) as [i|] eqn:E2.
    + destruct (bfind_Some _ _ _ _ E2) as (Hi%(proj1 (elem_of_rev _ _))%(bl_all _ _ Hl) & x & Hx & [H1%Z.eqb_eq H2%Z.eqb_eq]%andb_true_iff).
      destruct (bget_miss k ps bc d o h b i x Hps Hca Hi Hx H1 H2 Hno) as (He & Ht & Ho).
      do 3 eexists. split_and!; [|exact Ht|by right]. unfold bget. estep evals_acquire; [set_solver..|].
      estep bcs_rd_buf; [exact Hhd|]. estep S1. estep S2. exact He.
    + exfalso. destruct (cache_room _ _ _ _ Hca Hroom) as (i & x & Hi & Hx & H1 & H2).
      pose proof (bfind_None _ _ _ i x E2) as HQ. unfold Q2 in HQ. rewrite H1, H2 in HQ. simpl in HQ.
      assert (i ∈ rev l) as Hin by (by apply (proj2 (elem_of_rev _ _)), (bl_all _ _ Hl)). by specialize (HQ Hin Hx).
Qed.

(** ** Transfers *)

Lemma survives_rw k i k1 :
  evals k v (Memide.iderw i) tt k1 v →
  survives k v (disk_rw i) v (λ _ k', ∃ hh, k' = k1 <| hw := hh |>) (λ d', d' = disk k).
Proof.
  intros He hh rs Hv. unfold disk_rw, crash_driver, crash_rw. destruct (stop _ _); [done|].
  destruct (He hh rs Hv) as (h1 & Hv1 & ->). split_and!; [done..|]. by exists h1.
Qed.

Section Rw.
Variables (k : kern) (ps : list proc) (bc : list buf) (d : Z → list Z) (i : nat) (x : buf).
Hypothesis (Hps : procs_ok ps) (Hx : bc !! i = Some x) (Hlk : locked_buf x) (Hdev : b_dev x = 1)
  (Hsz : b_blockno x < disksize (devs k)).

Lemma bcs_iderw_read : b_flags x = 0 →
  evals (bcs k ps bc d) v (Memide.iderw i) tt
    (bcs k ps (<[i := x <| b_data := d (b_blockno x) |> <| b_flags := B_VALID |>]> bc) d) v.
Proof.
  intros Hf. destruct Hlk as (_ & Hl & Hp). unfold iderw. estep bcs_holdingsleep; [done..|]. cbn [negb].
  estep bcs_rd_buf; [done|]. rewrite Hf, Hdev. cbn [Z.eqb Pos.eqb negb].
  change (Z.land 0 (Z.lor B_VALID B_DIRTY) =? B_VALID) with false. change (truthy (Z.land 0 B_DIRTY)) with false. cbv iota.
  unfold get_dev. epure. change (devs (bcs k ps bc d)) with (devs k). rewrite (proj2 (Z.leb_gt _ _)) by done.
  epure. estep bcs_mod_buf.
  eapply evals_eq; [apply bcs_mod_buf|done| |done]. rewrite list_alter_alter_eq, (list_alter_insert _ _ _ x) by done.
  keq. simpl. f_equal. unfold set; simpl. by rewrite Hf.
Qed.

Lemma bcs_iderw_write : b_flags x = Z.lor B_VALID B_DIRTY →
  evals (bcs k ps bc d) v (Memide.iderw i) tt
    (bcs k ps (<[i := x <| b_flags := B_VALID |>]> bc) (λ y, if y =? b_blockno x then b_data x else d y)) v.
Proof.
  intros Hf. destruct Hlk as (_ & Hl & Hp). unfold iderw. estep bcs_holdingsleep; [done..|]. cbn [negb].
  estep bcs_rd_buf; [done|]. rewrite Hf, Hdev. cbn [Z.eqb Pos.eqb negb].
  change (Z.land (Z.lor B_VALID B_DIRTY) (Z.lor B_VALID B_DIRTY) =? B_VALID) with false.
  change (truthy (Z.land (Z.lor B_VALID B_DIRTY) B_DIRTY)) with true. cbv iota.
  unfold get_dev. epure. change (devs (bcs k ps bc d)) with (devs k). rewrite (proj2 (Z.leb_gt _ _)) by done.
  estep bcs_mod_buf. epure.
  eapply evals_eq; [apply evals_mod_buf|done| |done]. keq. simpl.
  rewrite list_alter_alter_eq, (list_alter_insert _ _ _ x) by done. f_equal. unfold set; simpl. by rewrite Hf.
Qed.

End Rw.

Lemma survives_bread k0 k d o h b :
  cst k0 d o h k → not_held h b → (size h + size o < NBUFn)%nat → b < disksize (devs k0) →
  survives k v (bread 1 b) v
    (λ i k', h !! i = None ∧ cst k0 d o (<[i := (b, block d o b)]> h) k') (λ d', d' = d).
Proof.
  intros (hh & ps & bc & -> & Hps & Hca) Hnh Hroom Hsz. apply survives_hw.
  destruct (bget_spec k0 ps bc d o h b Hps Hca Hnh Hroom) as (i & x & x' & He & Ht & Hcase). unfold bread.
  pose proof (lookup_lt_Some _ _ _ (tk_old _ _ _ _ _ _ _ Ht)) as Hlt. destruct (tk_block _ _ _ _ _ _ _ Ht) as [Hd Hb].
  assert (<[i := x']> bc !! i = Some x') as Hx' by (by apply list_lookup_insert_eq).
  sstep He. sstep bcs_rd_buf; [exact Hx'|]. destruct Hcase as [[Hf Hdat]|[Hf Ho]].
  - rewrite Hf, flags_of_valid. unfold when. spure. apply survives_ret. intros h1. split; [apply (tk_free _ _ _ _ _ _ _ Ht)|].
    exists h1, ps, (<[i := x']> bc). split_and!; [done..|]. rewrite <- Hdat. by eapply cache_taken.
  - rewrite Hf. change (Z.land 0 B_VALID =? 0) with true. unfold when. set (x2 := x' <| b_data := d b |> <| b_flags := B_VALID |>).
    eapply survives_bind.
    { eapply survives_mono; [apply survives_rw, (bcs_iderw_read k0 ps _ d i x')|..]; try done.
      - apply (tk_lock _ _ _ _ _ _ _ Ht).
      - by rewrite Hb. }
    intros [] k1 (h1 & ->). apply survives_hw. cbv beta. apply survives_ret. intros h2. split; [apply (tk_free _ _ _ _ _ _ _ Ht)|].
    exists h2, ps, (<[i := x2]> bc). rewrite list_insert_insert_eq, Hb. split_and!; [done..|].
    replace (block d o b) with (b_data x2) by (unfold block; by rewrite Ho).
    eapply (cache_taken bc d o h b i x); [done| |by unfold flags_of; rewrite Ho].
    destruct Ht. by split.
Qed.

(** ** Using a buffer *)

Lemma cst_held k0 k d o h i b data : cst k0 d o h k → h !! i = Some (b, data) →
  ∃ x, bcache k !! i = Some x ∧ b_blockno x = b ∧ b_data x = data.
Proof.
  intros (hh & ps & bc & -> & _ & Hca) Hi. destruct (ca_held _ _ _ _ Hca i b data Hi) as (x & _ & Hx & _ & Hb & Hd & _).
  by exists x.
Qed.

Lemma cst_rd_data k0 k d o h i b data : cst k0 d o h k → h !! i = Some (b, data) → evals k v (rd_data i) data k v.
Proof.
  intros Hc Hi. destruct (cst_held _ _ _ _ _ _ _ _ Hc Hi) as (x & Hx & _ & <-). estep evals_rd_buf; [done|]. apply evals_ret.
Qed.

(** A change of the buffer of block [b], and of what is known of this block. *)
Lemma cache_set bc d o h d' o' h' i b x x' :
  cache bc d o h → (i < NBUFn)%nat → bc !! i = Some x → b_dev x = 1 → b_blockno x = b →
  b_dev x' = 1 → b_blockno x' = b → b_next x' = b_next x → b_prev x' = b_prev x →
  (∀ j, j ≠ i → h' !! j = h !! j) → (∀ b', b' ≠ b → o' !! b' = o !! b' ∧ d' b' = d b') →
  b_flags x' = flags_of o' b →
  match h' !! i with
  | Some (b0, data) => b0 = b ∧ b_data x' = data ∧ locked_buf x'
  | None => idle_buf x' ∧ b_data x' = block d' o' b
  end →
  cache (<[i := x']> bc) d' o' h'.
Proof.
  intros Hca Hi Hx Hd Hb Hd' Hb' Hn Hp Hh Ho Hf Hm. pose proof (lookup_lt_Some _ _ _ Hx) as Hlt.
  assert (∀ j y, <[i := x']> bc !! j = Some y → j = i ∧ y = x' ∨ j ≠ i ∧ bc !! j = Some y) as Hins.
  { intros j y. destruct (decide (j = i)) as [->|]; [rewrite list_lookup_insert_eq by done|rewrite list_lookup_insert_ne by done]; naive_solver. }
  destruct Hca as [[l Hl] Hu Hhe Hid Hpi].
  assert (∀ j y, (j < NBUFn)%nat → j ≠ i → bc !! j = Some y → b_dev y = 1 → b_blockno y ≠ b) as Hne.
  { intros j y Hj Hji Hy Hdy Hby. apply Hji. by apply (Hu j i y x); [..|congruence]. }
  split.
  - exists l. by eapply buf_list_insert.
  - intros j1 j2 y1 y2 Hj1 Hj2 [[-> ->]|[Hn1 H1]]%Hins [[-> ->]|[Hn2 H2]]%Hins E1 E2 E3; [done| | |by eapply Hu].
    + destruct (Hne j2 y2 Hj2 Hn2 H2 E2). congruence.
    + destruct (Hne j1 y1 Hj1 Hn1 H1 E1). congruence.
  - intros j b1 data. destruct (decide (j = i)) as [->|Hji].
    + intros Hj. rewrite Hj in Hm. destruct Hm as (-> & Hdat & Hlk). exists x'. by rewrite list_lookup_insert_eq.
    + rewrite Hh by done. intros Hj. destruct (Hhe j b1 data Hj) as (y & Hjl & Hy & E1 & E2 & E3 & E4 & E5).
      exists y. rewrite list_lookup_insert_ne by done. split_and!; try done.
      unfold flags_of. by rewrite (proj1 (Ho b1 ltac:(rewrite <- E2; by apply (Hne j y)))).
  - intros j y Hj [[-> ->]|[Hji Hy]]%Hins Hnone.
    + rewrite Hnone in Hm. destruct Hm as [Hidle Hdat]. split; [done|]. rewrite decide_True, Hb' by done. done.
    + rewrite Hh in Hnone by done. destruct (Hid j y Hj Hy Hnone) as [? Hy']. split; [done|].
      destruct (decide (b_dev y = 1)) as [E|]; [|done]. destruct (Ho (b_blockno y) (Hne j y Hj Hji Hy E)) as [Eo Ed].
      unfold flags_of, block. by rewrite Eo, Ed.
  - intros b1 Hb1. destruct (decide (b1 = b)) as [->|Hbb].
    + exists i, x'. by rewrite list_lookup_insert_eq.
    + rewrite (proj1 (Ho b1 Hbb)) in Hb1. destruct (Hpi b1 Hb1) as (j & y & Hj & Hy & E1 & E2).
      destruct (decide (j = i)) as [->|]; [congruence|]. exists j, y. by rewrite list_lookup_insert_ne.
Qed.

(** Changing the data of a held buffer. *)
Lemma cst_mod_data k0 k d o h i b data f :
  cst k0 d o h k → h !! i = Some (b, data) →
  ∃ k', evals k v (mod_data i f) tt k' v ∧ cst k0 d o (<[i := (b, f data)]> h) k'.
Proof.
  intros (hh & ps & bc & -> & Hps & Hca) Hi.
  destruct (ca_held _ _ _ _ Hca i b data Hi) as (x & Hlt & Hx & Hd & Hb & <- & Hf & Hlk).
  exists (bcs k0 ps (alter (λ x, x <| b_data ::= f |>) i bc) d). split; [intros h1 rs Hv; by apply (bcs_mod_buf k0 ps bc d v i _ h1 rs)|].
  exists (hw k0), ps, (<[i := x <| b_data ::= f |>]> bc). split_and!; [|done|].
  - rewrite (list_alter_insert _ _ _ x) by done. by keq.
  - eapply (cache_set bc d o h); try done; [by intros; rewrite lookup_insert_ne|]. by rewrite lookup_insert_eq.
Qed.

(** Writing a held buffer to the disk. *)
Definition upd_disk (d : Z → list Z) (b : Z) (data : list Z) : Z → list Z := λ y, if y =? b then data else d y.

Lemma survives_bwrite k0 k d o h i b data :
  cst k0 d o h k → h !! i = Some (b, data) → b < disksize (devs k0) →
  survives k v (bwrite i) v (λ _ k', cst k0 (upd_disk d b data) (delete b o) h k') (λ d', d' = d).
Proof.
  intros (hh & ps & bc & -> & Hps & Hca) Hi Hsz. apply survives_hw.
  destruct (ca_held _ _ _ _ Hca i b data Hi) as (x & Hlt & Hx & Hd & Hb & <- & Hf & Hlk).
  pose proof (lookup_lt_Some _ _ _ Hx) as Hlen. unfold bwrite. sstep bcs_holdingsleep; [done|done|apply Hlk..|]. cbn [negb].
  set (x1 := x <| b_flags := Z.lor B_VALID B_DIRTY |>).
  sstep bcs_mod_buf. rewrite (list_alter_insert _ _ _ x) by done.
  assert (x <| b_flags ::= λ f, Z.lor f B_DIRTY |> = x1) as ->.
  { unfold x1, set; simpl. rewrite Hf. f_equal. unfold flags_of. by destruct (o !! b). }
  eapply survives_mono; [apply survives_rw, (bcs_iderw_write k0 ps (<[i := x1]> bc) d i x1)|..]; try done.
  - by apply list_lookup_insert_eq.
  - by simpl; rewrite Hb.
  - intros [] k' (h1 & ->). rewrite list_insert_insert_eq. exists h1, ps, (<[i := x1 <| b_flags := B_VALID |>]> bc).
    simpl b_blockno. rewrite Hb. split_and!; [done|done|].
    eapply (cache_set bc d o h); try done.
    + intros b' Hne. rewrite lookup_delete_ne by done. unfold upd_disk. by rewrite (proj2 (Z.eqb_neq b' b)).
    + unfold flags_of. by rewrite lookup_delete_eq.
    + by rewrite Hi.
Qed.

(** ** Giving a buffer back *)

Lemma buf_at bc i : (i < length bc)%nat → ∃ x, bc !! i = Some x ∧ b_next x = nx bc i ∧ b_prev x = pv bc i.
Proof. intros Hi. destruct (lookup_lt_is_Some_2 bc i Hi) as [x Hx]. exists x. unfold nx, pv. by rewrite Hx. Qed.

Lemma bcs_mtf k ps bc d vv b :
  length bc = S NBUFn → (b < NBUFn)%nat →
  evals (bcs k ps bc d) vv (move_to_front b) tt (bcs k ps (mtf b bc) d) vv.
Proof.
  intros Hn Hb. unfold move_to_front, mtf. cbv zeta.
  set (bc1 := setp (nx bc b) (pv bc b) bc). set (bc2 := setn (pv bc1 b) (nx bc1 b) bc1).
  set (bc3 := setn b (nx bc2 BHEAD) bc2). set (bc4 := setp b BHEAD bc3).
  assert (length bc1 = S NBUFn ∧ length bc2 = S NBUFn ∧ length bc4 = S NBUFn) as (L1 & L2 & L4)
    by (unfold bc4, bc3, bc2, bc1; by rewrite !length_setp, !length_setn, !length_setp).
  destruct (buf_at bc b) as (x & Hx & Ex1 & Ex2); [lia|].
  destruct (buf_at bc1 b) as (x1 & Hx1 & Ey1 & Ey2); [lia|].
  destruct (buf_at bc2 BHEAD) as (hd & Hhd & Eh & _); [unfold BHEAD; lia|].
  destruct (buf_at bc4 BHEAD) as (hd4 & Hhd4 & Eh4 & _); [unfold BHEAD; lia|].
  estep bcs_rd_buf; [exact Hx|]. estep bcs_mod_buf. rewrite Ex1, Ex2. fold (setp (nx bc b) (pv bc b) bc). fold bc1.
  estep bcs_rd_buf; [exact Hx1|]. estep bcs_mod_buf. rewrite Ey1, Ey2. fold (setn (pv bc1 b) (nx bc1 b) bc1). fold bc2.
  estep bcs_rd_buf; [exact Hhd|]. estep bcs_mod_buf. rewrite Eh. fold (setn b (nx bc2 BHEAD) bc2). fold bc3.
  estep bcs_mod_buf. fold (setp b BHEAD bc3). fold bc4.
  estep bcs_rd_buf; [exact Hhd4|]. estep bcs_mod_buf. rewrite Eh4. apply bcs_mod_buf.
Qed.

(** The links do not matter to the cache. *)
Lemma cache_same bc bc' d o h : same_bufs bc' bc → (∃ l, buf_list bc' l) → cache bc d o h → cache bc' d o h.
Proof.
  intros Hs Hl [_ Hu Hhe Hid Hpi].
  assert (∀ i x', bc' !! i = Some x' → ∃ x, bc !! i = Some x ∧ unlinked x' = unlinked x) as S1.
  { intros i x' Hx. assert ((unlinked <$> bc) !! i = Some (unlinked x')) as E by (rewrite <- Hs, list_lookup_fmap, Hx; done).
    rewrite list_lookup_fmap in E. destruct (bc !! i) as [x|]; [|done]. apply (inj Some) in E. by exists x. }
  assert (∀ i x, bc !! i = Some x → ∃ x', bc' !! i = Some x' ∧ unlinked x' = unlinked x) as S2.
  { intros i x Hx. assert (i < length bc')%nat as Hi.
    { assert (length bc' = length bc) as -> by (rewrite <- (length_fmap unlinked bc'), Hs; apply length_fmap). by eapply lookup_lt_Some. }
    destruct (lookup_lt_is_Some_2 bc' i Hi) as [x' Hx']. exists x'. split; [done|].
    destruct (S1 i x' Hx') as (y & Hy & E). rewrite Hx in Hy. by injection Hy as ->. }
  split; [done|..].
  - intros i j x y Hi Hj (x1 & Hx & [=])%S1 (y1 & Hy & [=])%S1 E1 E2 E3. apply (Hu i j x1 y1); congruence.
  - intros i b data Hh. destruct (Hhe i b data Hh) as (x & Hi & (x' & Hx' & [=])%S2 & E1 & E2 & E3 & E4 & E5 & E6 & E7).
    exists x'. split_and!; try done; [congruence..|]. split_and!; congruence.
  - intros i x' Hi (x & Hx & [=])%S1 Hh. destruct (Hid i x Hi Hx Hh) as [[E1 E2] E3].
    assert (b_dev x' = b_dev x ∧ b_blockno x' = b_blockno x ∧ b_flags x' = b_flags x ∧ b_data x' = b_data x) as (-> & -> & -> & ->) by done.
    split; [split; congruence|done].
  - intros b Hb. destruct (Hpi b Hb) as (i & x & Hi & (x' & Hx' & [=])%S2 & E1 & E2). exists i, x'. split_and!; congruence.
Qed.

Lemma cst_brelse k0 k d o h i b :
  cst k0 d o h k → h !! i = Some (b, block d o b) →
  ∃ k', evals k v (brelse i) tt k' v ∧ cst k0 d o (delete i h) k'.
Proof.
  intros (hh & ps & bc & -> & Hps & Hca) Hi.
  destruct (ca_held _ _ _ _ Hca i b _ Hi) as (x & Hlt & Hx & Hd & Hb & Hdat & Hf & Hlk).
  pose proof (lookup_lt_Some _ _ _ Hx) as Hlen. destruct Hlk as (Hr & Hl & Hp).
  set (x1 := x <| b_lock ::= λ s, s <| sl_locked := 0 |> <| sl_pid := 0 |> |> <| b_refcnt := 0 |>).
  set (ps1 := woken (ch_sleep (SL_buf i)) <$> ps).
  assert (cache (<[i := x1]> bc) d o (delete i h)) as Hc1.
  { eapply (cache_set bc d o h); try done; [by intros; rewrite lookup_delete_ne|]. by rewrite lookup_delete_eq. }
  destruct (ca_list _ _ _ _ Hc1) as [l Hbl].
  assert (∃ l1 l2, l = l1 ++ i :: l2) as (l1 & l2 & ->) by (by apply list_elem_of_split, (bl_all _ _ Hbl)).
  exists (bcs k0 ps1 (mtf i (<[i := x1]> bc)) d). split.
  - assert (evals (bcs k0 ps bc d) v (brelse i) tt (bcs k0 ps1 (mtf i (<[i := x1]> bc)) d) v) as He; [|intros h1 rs Hv; by apply (He h1 rs)].
    unfold brelse. estep bcs_holdingsleep; [done..|]. cbn [negb].
    estep bcs_releasesleep; [done..|]. fold ps1. estep evals_acquire; [set_solver..|]. estep bcs_mod_buf.
    set (x0 := x <| b_lock ::= _ |>). rewrite (list_alter_insert _ _ _ x0) by (by apply list_lookup_insert_eq).
    rewrite list_insert_insert_eq.
    assert (x0 <| b_refcnt ::= λ n, u32 (n - 1) |> = x1) as -> by (unfold x0, x1, set; simpl; by rewrite Hr).
    estep bcs_rd_buf; [by apply list_lookup_insert_eq|]. simpl b_refcnt. cbn [Z.eqb]. unfold when.
    estep bcs_mtf; [apply (bl_len _ _ Hbl)|done|]. by apply evals_release_hold; set_solver.
  - exists (hw k0), ps1, (mtf i (<[i := x1]> bc)). split_and!; [by keq|by apply procs_ok_woken|].
    eapply cache_same; [apply mtf_same| |exact Hc1]. eexists. by apply mtf_list.
Qed.

End Cache.

(** ** Steps of a client *)

(** A process [c] in slot [cur] that runs without spin locks. *)
Record caller (v : hwview) (cur : nat) (c : proc) : Prop := mkCaller {
  cl_held : hv_held v = ∅;
  cl_others : hv_others v = ∅;
  cl_proc : hv_proc v = Some cur;
  cl_run : state c = RUNNING
}.

Section CacheSteps.
Context `{KernelSyms} (stop : kern → nat → bool).
#[local] Instance client_driver : DiskDriver := crash_rw stop.
Variables (v : hwview) (cur : nat) (c : proc).
Hypothesis (Hcl : caller v cur c).

Abbreviation cst := (cst cur c).

Lemma cst_hw k0 d o h k hh : cst k0 d o h k → cst k0 d o h (k <| hw := hh |>).
Proof. intros (h1 & ps & bc & -> & Hps & Hca). by exists hh, ps, bc. Qed.

Lemma cst_disk k0 d o h k : cst k0 d o h k → disk k = d.
Proof. by intros (h1 & ps & bc & -> & _). Qed.

Lemma go_bread k0 k d o h b {B} (f : nat → K B) Q (C : (Z → list Z) → Prop) :
  cst k0 d o h k → not_held h b → (size h + size o < NBUFn)%nat → b < disksize (devs k0) → C d →
  (∀ i k', h !! i = None → cst k0 d o (<[i := (b, block d o b)]> h) k' → survives k' v (f i) v Q C) →
  survives k v (bread 1 b ≫= f) v Q C.
Proof.
  intros Hc Hnh Hr Hb HC Hf. eapply survives_bind.
  - eapply survives_mono; [apply (survives_bread stop v cur c); try apply Hcl; done|..].
    + intros i k' HQ. exact HQ.
    + by intros d' ->.
  - intros i k' [Hi Hk']. by apply Hf.
Qed.

Lemma go_bwrite k0 k d o h i b data {B} (f : unit → K B) Q (C : (Z → list Z) → Prop) :
  cst k0 d o h k → h !! i = Some (b, data) → b < disksize (devs k0) → C d →
  (∀ k', cst k0 (upd_disk d b data) (delete b o) h k' → survives k' v (f tt) v Q C) →
  survives k v (bwrite i ≫= f) v Q C.
Proof.
  intros Hc Hi Hb HC Hf. eapply survives_bind with (Q1 := λ _ k', cst k0 (upd_disk d b data) (delete b o) h k').
  - eapply survives_mono; [eapply (survives_bwrite stop v cur c); try apply Hcl; done|..].
    + intros [] k' HQ. exact HQ.
    + by intros d' ->.
  - intros [] k' Hk'. by apply Hf.
Qed.

Lemma go_mod_data k0 k d o h i b data g {B} (f : unit → K B) Q C :
  cst k0 d o h k → h !! i = Some (b, data) →
  (∀ k', cst k0 d o (<[i := (b, g data)]> h) k' → survives k' v (f tt) v Q C) →
  survives k v (mod_data i g ≫= f) v Q C.
Proof.
  intros Hc Hi Hf. destruct (cst_mod_data v cur c k0 k d o h i b data g Hc Hi) as (k' & He & Hk'). sstep He. by apply Hf.
Qed.

Lemma go_brelse k0 k d o h i b {B} (f : unit → K B) Q C :
  cst k0 d o h k → h !! i = Some (b, block d o b) →
  (∀ k', cst k0 d o (delete i h) k' → survives k' v (f tt) v Q C) →
  survives k v (brelse i ≫= f) v Q C.
Proof.
  intros Hc Hi Hf. destruct (cst_brelse stop v cur c ltac:(apply Hcl) ltac:(apply Hcl) ltac:(apply Hcl) ltac:(apply Hcl) k0 k d o h i b Hc Hi)
    as (k' & He & Hk'). sstep He. by apply Hf.
Qed.

Lemma end_brelse k0 k d o h i b (Q : unit → kern → Prop) C :
  cst k0 d o h k → h !! i = Some (b, block d o b) → (∀ k', cst k0 d o (delete i h) k' → Q tt k') →
  survives k v (brelse i) v Q C.
Proof.
  intros Hc Hi Hf. destruct (cst_brelse stop v cur c ltac:(apply Hcl) ltac:(apply Hcl) ltac:(apply Hcl) ltac:(apply Hcl) k0 k d o h i b Hc Hi)
    as (k' & He & Hk'). eapply survives_of_evals; [exact He|]. intros h1. by apply Hf, cst_hw.
Qed.

Lemma block_upd d o b data b' : b' ≠ b → block (upd_disk d b data) o b' = block d o b'.
Proof. intros Hne. unfold block, upd_disk. by rewrite (proj2 (Z.eqb_neq b' b)). Qed.
Lemma block_upd_eq d o b data : o !! b = None → block (upd_disk d b data) o b = data.
Proof. intros Ho. unfold block, upd_disk. by rewrite Ho, Z.eqb_refl. Qed.

Lemma not_held_empty b : not_held ∅ b.
Proof. intros i data. by rewrite lookup_empty. Qed.
Lemma not_held_one i b' data b : b' ≠ b → not_held {[i := (b', data)]} b.
Proof. intros Hne j data' [_ [= ? ?]]%lookup_singleton_Some. done. Qed.

End CacheSteps.

(** ** The cache after binit *)

Definition fresh_buf (i : nat) : buf :=
  zero_buf <| b_lock := mkSleeplock 0 "buffer" 0 |>
    <| b_next := (match i with O => BHEAD | S j => j end) |> <| b_prev := S i |>.
Definition fresh_bcache : list buf :=
  (fresh_buf <$> seq 0 NBUFn) ++ [zero_buf <| b_next := 29%nat |> <| b_prev := 0%nat |>].

Lemma binit_fresh :
  match binit (mkWorld boot_kern []) with Ok _ w => bcache (ks w) = fresh_bcache | _ => False end.
Proof. by vm_compute. Qed.

Lemma fresh_lookup i x : (i < NBUFn)%nat → fresh_bcache !! i = Some x → x = fresh_buf i.
Proof.
  intros Hi. unfold fresh_bcache. rewrite lookup_app_l by (by rewrite length_fmap, length_seq).
  rewrite list_lookup_fmap, lookup_seq_lt by done. by intros [= <-].
Qed.

Lemma fresh_list : buf_list fresh_bcache (reverse (seq 0 NBUFn)).
Proof.
  split; [done|by vm_compute|apply (bool_decide_unpack _); by vm_compute|].
  intros i. rewrite elem_of_reverse, elem_of_seq. lia.
Qed.

Lemma fresh_cache c d : cache c fresh_bcache d ∅ ∅.
Proof.
  split.
  - eexists. apply fresh_list.
  - intros i j x y Hi _ Hx _ Hd. by rewrite (fresh_lookup i x Hi Hx) in Hd.
  - done.
  - intros i x Hi Hx _. by rewrite (fresh_lookup i x Hi Hx).
  - intros b [x Hx]. done.
Qed.

(** ** Claim: a cached disk is a disk *)

(** What a client does with a block, and the same on an array of blocks. *)
Inductive blockop := ReadBlock (b : Z) | WriteBlock (b : Z) (data : list Z).
Definition op_block (op : blockop) : Z := match op with ReadBlock b | WriteBlock b _ => b end.

Definition do_op `{KernelSyms} `{DiskDriver} (op : blockop) : K (list Z) :=
  match op with
  | ReadBlock b => i ← bread 1 b; x ← rd_data i; _ ← brelse i; mret x
  | WriteBlock b data => i ← bread 1 b; _ ← mod_data i (λ _, data); _ ← bwrite i; _ ← brelse i; mret data
  end.
Fixpoint do_ops `{KernelSyms} `{DiskDriver} (ops : list blockop) : K (list (list Z)) :=
  match ops with
  | [] => mret []
  | op :: ops' => x ← do_op op; xs ← do_ops ops'; mret (x :: xs)
  end.

Definition disk_op (d : Z → list Z) (op : blockop) : list Z * (Z → list Z) :=
  match op with
  | ReadBlock b => (d b, d)
  | WriteBlock b data => (data, upd_disk d b data)
  end.
Fixpoint disk_ops (d : Z → list Z) (ops : list blockop) : list (list Z) * (Z → list Z) :=
  match ops with
  | [] => ([], d)
  | op :: ops' => let '(x, d1) := disk_op d op in let '(xs, d2) := disk_ops d1 ops' in (x :: xs, d2)
  end.

Section DiskOps.
Context `{KernelSyms} (stop : kern → nat → bool).
#[local] Instance ops_driver : DiskDriver := crash_rw stop.
Variables (v : hwview) (cur : nat) (c : proc).
Hypothesis (Hcl : caller v cur c).

Lemma survives_do_op k0 k d op :
  cst cur c k0 d ∅ ∅ k → op_block op < disksize (devs k0) →
  survives k v (do_op op) v (λ x k', x = (disk_op d op).1 ∧ cst cur c k0 (disk_op d op).2 ∅ ∅ k') (λ d', d' = d).
Proof.
  intros Hc Hb. destruct op as [b|b data]; unfold do_op; simpl in *.
  - eapply (go_bread stop v cur c Hcl); [exact Hc|apply not_held_empty|rewrite !map_size_empty; unfold NBUFn; lia|done|done|].
    intros i k1 _ Hc1. sstep (cst_rd_data v cur c k0 k1); [exact Hc1|apply lookup_insert_eq|].
    eapply (go_brelse stop v cur c Hcl); [exact Hc1|apply lookup_insert_eq|]. intros k2 Hc2. rewrite delete_insert_id in Hc2 by done.
    apply survives_ret. intros h. split; [done|by apply cst_hw].
  - eapply (go_bread stop v cur c Hcl); [exact Hc|apply not_held_empty|rewrite !map_size_empty; unfold NBUFn; lia|done|done|].
    intros i k1 _ Hc1. eapply (go_mod_data v cur c); [exact Hc1|apply lookup_insert_eq|]. intros k2 Hc2. rewrite insert_insert_eq in Hc2.
    eapply (go_bwrite stop v cur c Hcl); [exact Hc2|apply lookup_insert_eq|done|done|]. intros k3 Hc3. rewrite delete_empty in Hc3.
    eapply (go_brelse stop v cur c Hcl); [exact Hc3|rewrite block_upd_eq by done; apply lookup_insert_eq|].
    intros k4 Hc4. rewrite delete_insert_id in Hc4 by done. apply survives_ret. intros h. split; [done|by apply cst_hw].
Qed.

Lemma survives_do_ops k0 ops k d :
  cst cur c k0 d ∅ ∅ k → Forall (λ op, op_block op < disksize (devs k0)) ops →
  survives k v (do_ops ops) v (λ xs k', xs = (disk_ops d ops).1 ∧ cst cur c k0 (disk_ops d ops).2 ∅ ∅ k')
    (λ d', ∃ n, d' = (disk_ops d (take n ops)).2).
Proof.
  intros Hc Hf. revert k d Hc. induction Hf as [|op ops Hop _ IH]; intros k d Hc; cbn [do_ops].
  - apply survives_ret. intros h. split; [done|by apply cst_hw].
  - eapply survives_bind.
    { eapply survives_mono; [by apply survives_do_op|intros x k' HQ; exact HQ|]. intros d' ->. by exists 0%nat. }
    intros x k1 [-> Hc1]. cbn [disk_ops]. destruct (disk_op d op) as [x d1] eqn:E. cbn [fst snd] in *.
    eapply survives_bind.
    { eapply survives_mono; [by apply IH|intros y k' HQ; exact HQ|]. intros d' [n ->]. exists (S n). cbn [take disk_ops].
      rewrite E. by destruct (disk_ops d1 (take n ops)). }
    intros xs k2 [-> Hc2]. destruct (disk_ops d1 ops) as [ys d2] eqn:E2. apply survives_ret. intros h. split; [done|by apply cst_hw].
Qed.
End DiskOps.

(** C7: through the cache, a sequence of reads and writes of blocks, each by [bread],
    [bwrite] and [brelse], has the results and the effect it has on the array of blocks
    itself, from any state of the cache that agrees with the disk; when the power fails
    at a transfer, the disk is the one after some first part of the sequence. *)
Theorem cache_refines_disk `{KernelSyms} stop v cur c k d ops h rs :
  caller v cur c → cst cur c k d ∅ ∅ k → Forall (λ op, op_block op < disksize (devs k)) ops → hw_ok h v →
  match @do_ops _ (crash_rw stop) ops (at_hw k h rs) with
  | Ok xs w => xs = (disk_ops d ops).1 ∧ disk (ks w) = (disk_ops d ops).2 ∧ cst cur c k (disk_ops d ops).2 ∅ ∅ (ks w)
  | Switched w => ∃ n, disk (ks w) = (disk_ops d (take n ops)).2
  | _ => False
  end.
Proof.
  intros Hcl Hc Hf Hh. pose proof (survives_do_ops stop v cur c Hcl k ops k d Hc Hf h rs Hh) as Hs.
  destruct (do_ops ops (at_hw k h rs)) as [xs w| | | |w|]; try done.
  destruct Hs as (_ & _ & Hx & Hc'). split_and!; [done|by eapply cst_disk|done].
Qed.

(** A machine with a disk of 1000 blocks, after [binit]. *)
Definition disk_proc : proc := zero_proc <| state := RUNNING |> <| pid := 1 |>.
Definition disk_kern (d : Z → list Z) : kern :=
  boot_kern <| procs ::= insert 0%nat disk_proc |> <| bcache := fresh_bcache |> <| disk := d |>
    <| devs ::= λ x, x <| disksize := 1000 |> |>.

#[local] Existing Instance image_syms.

Lemma disk_caller : caller (run_view 0) 0 disk_proc.
Proof. by split. Qed.

Lemma disk_kern_cst d : cst 0 disk_proc (disk_kern d) d ∅ ∅ (disk_kern d).
Proof.
  exists (hw (disk_kern d)), (procs (disk_kern d)), fresh_bcache. split_and!; [done|done|apply fresh_cache].
Qed.

Definition demo_ops : list blockop := [WriteBlock 7 [1; 2]; ReadBlock 7; ReadBlock 8].
Definition returns {A} (o : outcome world A) : bool := match o with Ok _ _ => true | _ => false end.

Lemma demo_ops_return : returns (@do_ops _ (crash_rw (λ _ _, false)) demo_ops (at_hw (disk_kern (λ b, [b])) (run_hw 0) [])) = true.
Proof. by vm_compute. Qed.

Lemma cache_refines_disk_witness : ∃ w,
  @do_ops _ (crash_rw (λ _ _, false)) demo_ops (at_hw (disk_kern (λ b, [b])) (run_hw 0) []) = Ok [[1; 2]; [1; 2]; [8]] w ∧
  disk (ks w) 7 = [1; 2] ∧ disk (ks w) 8 = [8].
Proof.
  pose proof (cache_refines_disk (λ _ _, false) (run_view 0) 0 disk_proc (disk_kern (λ b, [b])) (λ b, [b])
    demo_ops (run_hw 0) [] disk_caller (disk_kern_cst _) ltac:(repeat constructor) (run_hw_ok 0)) as Hw.
  pose proof demo_ops_return as Hr. destruct (do_ops demo_ops _) as [xs w| | | |w|]; try done.
  destruct Hw as (-> & Hd & _). exists w. by rewrite Hd.
Defined.
