(* ===== verification/LogProps.v ===== *)
(** * The write-ahead log: properties of log.c

    A transaction is atomic: after a loss of power at any transfer of [commit], and
    any number of interrupted recoveries, [recover_from_log] leaves either none or
    all of its blocks at their home locations. *)

From S2P Require Import Prelude Layout State Str Spinlock Kalloc Vm Sched Sleeplock Ports Memide Bio Log Uaccess Eval SchedProps BufList BioProps.

(** ** Words in blocks *)

Lemma length_splice d o l : 0 ≤ o → (Z.to_nat o + length l ≤ length d)%nat → length (splice d o l) = length d.
Proof. intros Ho Hl. unfold splice. rewrite !length_app, length_take, length_drop. lia. Qed.

Lemma nth_splice_in d o l i :
  0 ≤ o → (Z.to_nat o + length l ≤ length d)%nat → 0 ≤ i < Z.of_nat (length l) →
  nth (Z.to_nat (o + i)) (splice d o l) 0 = nth (Z.to_nat i) l 0.
Proof.
  intros Ho Hl Hi. unfold splice. rewrite app_nth2; rewrite length_take; [|lia].
  rewrite app_nth1 by lia. f_equal. lia.
Qed.

Lemma nth_splice_out d o l i :
  0 ≤ o → (Z.to_nat o + length l ≤ length d)%nat → 0 ≤ i → i < o ∨ o + Z.of_nat (length l) ≤ i →
  nth (Z.to_nat i) (splice d o l) 0 = nth (Z.to_nat i) d 0.
Proof.
  intros Ho Hl Hi Hout. unfold splice. rewrite !nth_lookup. f_equal. destruct Hout.
  - rewrite lookup_app_l by (rewrite length_take; lia). by rewrite lookup_take_lt by lia.
  - rewrite lookup_app_r by (rewrite length_take; lia). rewrite lookup_app_r by (rewrite length_take; lia).
    rewrite lookup_drop, length_take. f_equal. lia.
Qed.

Lemma length_put32 d o v : 0 ≤ o → o + 4 ≤ Z.of_nat (length d) → length (put32 d o v) = length d.
Proof. intros. apply length_splice; simpl; lia. Qed.

Lemma u8_byte_of v i : u8 (byte_of v i) = byte_of v i.
Proof. unfold byte_of, u8. by rewrite Z.mod_mod. Qed.

Lemma bytes_u32 v : byte_of v 0 + 256 * byte_of v 1 + 65536 * byte_of v 2 + 16777216 * byte_of v 3 = u32 v.
Proof.
  unfold byte_of, u8, u32, two32. rewrite !Z.shiftr_div_pow2 by done.
  change (2 ^ (8 * 0)) with 1. change (2 ^ (8 * 1)) with 256. change (2 ^ (8 * 2)) with 65536. change (2 ^ (8 * 3)) with 16777216. zl.
Qed.

Lemma get32_put32 d o v : 0 ≤ o → o + 4 ≤ Z.of_nat (length d) → get32 (put32 d o v) o = u32 v.
Proof.
  intros Ho Hl. unfold get32, byte_at, put32.
  pose proof (nth_splice_in d o (bytes32 v) 0 Ho ltac:(simpl; lia) ltac:(simpl; lia)) as E0. rewrite Z.add_0_r in E0.
  rewrite E0, !nth_splice_in by (simpl; lia).
  change (u8 (byte_of v 0) + 256 * u8 (byte_of v 1) + 65536 * u8 (byte_of v 2) + 16777216 * u8 (byte_of v 3) = u32 v).
  rewrite !u8_byte_of. apply bytes_u32.
Qed.

Lemma get32_put32_ne d o v o' :
  0 ≤ o → o + 4 ≤ Z.of_nat (length d) → 0 ≤ o' → o' + 4 ≤ o ∨ o + 4 ≤ o' → get32 (put32 d o v) o' = get32 d o'.
Proof.
  intros Ho Hl Ho' Hne. unfold get32, byte_at, put32. by rewrite !nth_splice_out by (simpl; lia).
Qed.

Section LogSteps.
Context `{KernelSyms} (stop : kern → nat → bool).
#[local] Instance log_driver : DiskDriver := crash_rw stop.
Variables (v : hwview) (cur : nat) (c : proc).
Hypothesis (Hcl : caller v cur c).

Abbreviation cst := (cst cur c).

(** The kernel with a cache in which nothing is held. *)
Abbreviation rest k0 d o k := (cst k0 d o ∅ k).

Lemma cst_klog k0 d o h k : cst k0 d o h k → klog k = klog k0 ∧ disk k = d.
Proof. by intros (h1 & ps & bc & -> & _). Qed.

Lemma cst_mod_log k0 d o h k f :
  cst k0 d o h k → evals k v (mod_log f) tt (k <| klog ::= f |>) v ∧ cst (k0 <| klog ::= f |>) d o h (k <| klog ::= f |>).
Proof. intros (h1 & ps & bc & -> & Hps & Hca). split; [by apply evals_modk|]. by exists h1, ps, bc. Qed.

Lemma evals_rd_lh k i b :
  0 ≤ i → lh_block (klog k) !! Z.to_nat i = Some b → evals k v (rd_lh i) b k v.
Proof. intros Hi Hb. unfold rd_lh. epure. rewrite (proj2 (Z.ltb_ge i 0)) by done. by apply evals_deref. Qed.

(** A loop over the header with [n] entries. *)
Lemma survives_for_lh (I : Z → kern → Prop) n body C k :
  0 ≤ n ≤ LOGSIZE → I 0 k → (∀ i k, I i k → lh_n (klog k) = n) → (∀ i k h, I i k → I i (k <| hw := h |>)) →
  (∀ i k, 0 ≤ i < n → I i k → survives k v (body i) v (λ _ k', I (i + 1) k') C) →
  survives k v (for_lh body) v (λ _ k', I n k') C.
Proof.
  intros Hn HI Hlh Hhw Hb. unfold for_lh.
  assert (∀ fuel i k, 0 ≤ i ≤ n → n - i < Z.of_nat fuel → I i k →
    survives k v (for_upto fuel i (getk (λ k, lh_n (klog k))) body) v (λ _ k', I n k') C) as Hgen.
  { induction fuel as [|fuel IH]; intros i k1 Hi Hf Hk1; [lia|]. cbn [for_upto]. spure. rewrite (Hlh i k1 Hk1).
    destruct (Z.ltb_spec i n) as [Hlt|Hge].
    - eapply survives_bind; [apply Hb; [lia|done]|]. intros [] k2 Hk2. apply IH; [lia|lia|done].
    - assert (i = n) as -> by lia. apply survives_ret. intros h. by apply Hhw. }
  apply Hgen; [lia| |done]. unfold LOGSIZE, MAXOPBLOCKS, LOGSIZEn in *. lia.
Qed.

(** Both buffers of a copy are given back. *)
Lemma release_two i j p q (x y x' : list Z) : i ≠ j →
  delete i (delete j (<[i := (p, x')]> (<[j := (q, y)]> (<[i := (p, x)]> (∅ : gmap nat (Z * list Z)))))) = ∅.
Proof.
  intros Hne. apply map_eq. intros u. rewrite lookup_empty.
  destruct (decide (u = i)) as [->|]; [by rewrite lookup_delete_eq|]. rewrite lookup_delete_ne by done.
  destruct (decide (u = j)) as [->|]; [by rewrite lookup_delete_eq|]. rewrite lookup_delete_ne by done.
  by rewrite !lookup_insert_ne by done.
Qed.

Lemma release_both i j (x y : Z * list Z) :
  delete j (delete i (<[j := y]> (<[i := x]> (∅ : gmap nat (Z * list Z))))) = ∅.
Proof.
  apply map_eq. intros u. rewrite lookup_empty.
  destruct (decide (u = j)) as [->|]; [by rewrite lookup_delete_eq|]. rewrite lookup_delete_ne by done.
  destruct (decide (u = i)) as [->|]; [by rewrite lookup_delete_eq|]. by rewrite lookup_delete_ne, !lookup_insert_ne by done.
Qed.

(** ** The log on disk *)

Variables (k0 : kern).
Let L := klog k0.
Let S0 := log_start L.
Let n := lh_n L.
(** [log.lh.block[i]]. *)
Definition home (l : log) (i : Z) : Z := nth (Z.to_nat i) (lh_block l) 0.
(** The block that holds entry [i]. *)
Definition slot (l : log) (i : Z) : Z := log_start l + 1 + i.
(** The blocks of the log, header included. *)
Definition in_log (l : log) (b : Z) : Prop := log_start l ≤ b ≤ log_start l + LOGSIZE.

(** The log lies on the disk and its entries name different blocks outside it. *)
Record log_ok (k : kern) (l : log) : Prop := mkLogOk {
  lo_dev : log_dev l = 1;
  lo_n : 0 ≤ lh_n l ≤ LOGSIZE;
  lo_len : length (lh_block l) = LOGSIZEn;
  lo_start : 0 ≤ log_start l ∧ log_start l + LOGSIZE < disksize (devs k) ∧ disksize (devs k) < two31;
  lo_home : ∀ i, 0 ≤ i < lh_n l → 0 ≤ home l i < disksize (devs k) ∧ ¬ in_log l (home l i);
  lo_inj : ∀ i j, 0 ≤ i < lh_n l → 0 ≤ j < lh_n l → home l i = home l j → i = j
}.
Hypothesis (Hlog : log_ok k0 L).

Lemma home_at i : 0 ≤ i < n → lh_block L !! Z.to_nat i = Some (home L i).
Proof.
  intros Hi. unfold home. rewrite nth_lookup. destruct (lookup_lt_is_Some_2 (lh_block L) (Z.to_nat i)) as [x ->]; [|done].
  rewrite (lo_len _ _ Hlog). pose proof (lo_n _ _ Hlog) as Hn. fold n in Hn. unfold LOGSIZE, MAXOPBLOCKS, LOGSIZEn in *. lia.
Qed.

Lemma slot_bounds i : 0 ≤ i < n → in_log L (slot L i) ∧ slot L i ≠ S0 ∧ is_u32 (slot L i) ∧ slot L i < disksize (devs k0).
Proof.
  intros Hi. pose proof (lo_n _ _ Hlog) as Hn. fold n in Hn. destruct (lo_start _ _ Hlog) as (H1 & H2 & H3).
  unfold in_log, slot, S0, is_u32, two31, two32 in *. lia.
Qed.

(** ** write_log *)

Section WriteLog.
Variables (d : Z → list Z) (o : gmap Z (list Z)).
Hypothesis (Ho : ∀ b, in_log L b → o !! b = None) (Hroom : (size o + 1 < NBUFn)%nat).

(** [d'] is [d] but for the first [i] slots of the log. *)
Definition logged (i : Z) (d' : Z → list Z) : Prop :=
  (∀ j, 0 ≤ j < i → d' (slot L j) = block d o (home L j)) ∧
  (∀ b, (∀ j, 0 ≤ j < n → b ≠ slot L j) → d' b = d b).

Lemma block_log d' i : 0 ≤ i ≤ n → logged i d' → ∀ j, 0 ≤ j < n → block d' o (home L j) = block d o (home L j).
Proof.
  intros Hi [_ Hd] j Hj. unfold block. rewrite Hd; [done|]. intros j' Hj' Heq.
  destruct (lo_home _ _ Hlog j Hj) as [_ Hn]. apply Hn. rewrite Heq. by apply slot_bounds.
Qed.

Lemma survives_write_log k :
  rest k0 d o k →
  survives k v write_log v (λ _ k', ∃ d', rest k0 d' o k' ∧ logged n d') (λ d', ∃ i, 0 ≤ i ≤ n ∧ logged i d').
Proof.
  intros Hk. unfold write_log.
  apply (survives_for_lh (λ i k, ∃ d', rest k0 d' o k ∧ logged i d')).
  - apply (lo_n _ _ Hlog).
  - exists d. split; [done|]. split; [intros; lia|done].
  - intros i k1 (d' & Hc & _). by destruct (cst_klog _ _ _ _ _ Hc) as [-> _].
  - intros i k1 h (d' & Hc & Hl). exists d'. split; [by apply cst_hw|done].
  - intros i k1 Hi (d' & Hc & Hl). destruct (cst_klog _ _ _ _ _ Hc) as [EL _]. fold L in EL.
    destruct (slot_bounds i Hi) as (Hs1 & Hs2 & Hs3 & Hs4). destruct (lo_home _ _ Hlog i Hi) as [Hh1 Hh2].
    assert (∃ i, 0 ≤ i ≤ n ∧ logged i d') as HC by (exists i; split; [lia|done]).
    destruct (lo_start _ _ Hlog) as (_ & _ & Hds).
    spure. rewrite EL, (lo_dev _ _ Hlog). change (u32 1) with 1.
    replace (u32 (log_start L + i + 1)) with (slot L i) by (rewrite u32_id; unfold slot in *; [lia|replace (log_start L + i + 1) with (log_start L + 1 + i) by lia; done]).
    eapply (go_bread stop v cur c Hcl); [exact Hc|apply not_held_empty|rewrite map_size_empty; lia|done|done|]. intros to k2 _ Hc2.
    destruct (cst_klog _ _ _ _ _ Hc2) as [EL2 _]. fold L in EL2. spure. rewrite EL2, (lo_dev _ _ Hlog).
    sstep evals_rd_lh; [lia|rewrite EL2; by apply home_at|]. change (u32 1) with 1. rewrite u32_id by (unfold is_u32, two31, two32 in *; lia).
    eapply (go_bread stop v cur c Hcl); [exact Hc2|by apply not_held_one; intros Heq; rewrite Heq in Hs1|rewrite insert_empty, map_size_singleton; lia|apply Hh1|done|].
    intros from k3 Hne%lookup_insert_None Hc3. destruct Hne as [_ Hne].
    sstep (cst_rd_data v cur c k0 k3); [exact Hc3|apply lookup_insert_eq|].
    spure. eapply (go_mod_data v cur c); [exact Hc3|rewrite lookup_insert_ne by done; apply lookup_insert_eq|]. intros k4 Hc4.
    spure. eapply (go_bwrite stop v cur c Hcl); [exact Hc4|apply lookup_insert_eq|done|done|]. intros k5 Hc5. rewrite delete_id in Hc5 by (by apply Ho).
    assert (home L i ≠ slot L i) as Hhs by (intros Heq; rewrite Heq in Hh2; done).
    spure. eapply (go_brelse stop v cur c Hcl); [exact Hc5|rewrite lookup_insert_ne, block_upd by done; apply lookup_insert_eq|]. intros k6 Hc6.
    eapply (end_brelse stop v cur c Hcl); [exact Hc6|rewrite lookup_delete_ne, block_upd_eq by (done || by apply Ho); apply lookup_insert_eq|].
    intros k7 Hc7. rewrite release_two in Hc7 by done. eexists. split; [exact Hc7|].
    rewrite (block_log d' i) by (done || lia). destruct Hl as [Hl1 Hl2]. split.
    + intros j Hj. unfold upd_disk. destruct (Z.eqb_spec (slot L j) (slot L i)) as [E|E].
      * assert (j = i) as -> by (unfold slot in E; lia). done.
      * apply Hl1. unfold slot in E. assert (j ≠ i) by (intros ->; done). lia.
    + intros b Hb. unfold upd_disk. rewrite (proj2 (Z.eqb_neq b (slot L i))) by (by apply Hb). by apply Hl2.
Qed.

End WriteLog.

(** ** install_trans *)

Section Install.
Variables (d : Z → list Z) (o : gmap Z (list Z)).
Hypothesis (Ho : ∀ b, in_log L b → o !! b = None) (Hroom : (size o + 1 < NBUFn)%nat).

(** The first [i] entries of the log are at home. *)
Definition installed (i : Z) (d' : Z → list Z) (o' : gmap Z (list Z)) : Prop :=
  (∀ j, 0 ≤ j < i → d' (home L j) = d (slot L j) ∧ o' !! home L j = None) ∧
  (∀ b, (∀ j, 0 ≤ j < i → b ≠ home L j) → d' b = d b ∧ o' !! b = o !! b) ∧
  (size o' ≤ size o)%nat.

Lemma installed_step i d' o' : 0 ≤ i < n → installed i d' o' →
  installed (i + 1) (upd_disk d' (home L i) (d (slot L i))) (delete (home L i) o').
Proof.
  intros Hi (I1 & I2 & I3). split_and!.
  - intros j Hj. unfold upd_disk. destruct (decide (j = i)) as [->|Hne]; [by rewrite Z.eqb_refl, lookup_delete_eq|].
    assert (home L j ≠ home L i) as Hh by (intros E; apply Hne, (lo_inj _ _ Hlog); [lia..|done]).
    rewrite (proj2 (Z.eqb_neq _ _) Hh), lookup_delete_ne by done. apply I1. lia.
  - intros b Hb. unfold upd_disk. assert (b ≠ home L i) as Hh by (apply Hb; lia).
    rewrite (proj2 (Z.eqb_neq _ _) Hh), lookup_delete_ne by done. apply I2. intros j Hj. apply Hb. lia.
  - etransitivity; [|exact I3]. apply map_subseteq_size, delete_subseteq.
Qed.

Lemma survives_install k :
  rest k0 d o k →
  survives k v install_trans v (λ _ k', ∃ d' o', rest k0 d' o' k' ∧ installed n d' o')
    (λ d', ∃ i o', 0 ≤ i ≤ n ∧ installed i d' o').
Proof.
  intros Hk. unfold install_trans.
  apply (survives_for_lh (λ i k, ∃ d' o', rest k0 d' o' k ∧ installed i d' o')).
  - apply (lo_n _ _ Hlog).
  - exists d, o. split; [done|]. split_and!; [intros; lia|done|done].
  - intros i k1 (d' & o' & Hc & _). by destruct (cst_klog _ _ _ _ _ Hc) as [-> _].
  - intros i k1 h (d' & o' & Hc & Hl). exists d', o'. split; [by apply cst_hw|done].
  - intros i k1 Hi (d' & o' & Hc & HI). destruct (cst_klog _ _ _ _ _ Hc) as [EL _]. fold L in EL.
    destruct (slot_bounds i Hi) as (Hs1 & Hs2 & Hs3 & Hs4). destruct (lo_home _ _ Hlog i Hi) as [Hh1 Hh2].
    assert (∃ i o', 0 ≤ i ≤ n ∧ installed i d' o') as HC by (exists i, o'; split; [lia|done]).
    destruct (lo_start _ _ Hlog) as (_ & _ & Hds). destruct (id HI) as (I1 & I2 & I3).
    destruct (I2 (slot L i)) as [Ed Eo].
    { intros j Hj E. destruct (lo_home _ _ Hlog j ltac:(fold n; lia)) as [_ Hn]. apply Hn. by rewrite <- E. }
    rewrite Ho in Eo by done.
    spure. rewrite EL, (lo_dev _ _ Hlog). change (u32 1) with 1.
    replace (u32 (log_start L + i + 1)) with (slot L i) by (rewrite u32_id; unfold slot in *; [lia|replace (log_start L + i + 1) with (log_start L + 1 + i) by lia; done]).
    eapply (go_bread stop v cur c Hcl); [exact Hc|apply not_held_empty|rewrite map_size_empty; lia|done|done|]. intros lb k2 _ Hc2.
    destruct (cst_klog _ _ _ _ _ Hc2) as [EL2 _]. fold L in EL2. spure. rewrite EL2, (lo_dev _ _ Hlog).
    sstep evals_rd_lh; [lia|rewrite EL2; by apply home_at|]. change (u32 1) with 1. rewrite u32_id by (unfold is_u32, two31, two32 in *; lia).
    eapply (go_bread stop v cur c Hcl); [exact Hc2|by apply not_held_one; intros Heq; rewrite Heq in Hs1|rewrite insert_empty, map_size_singleton; lia|apply Hh1|done|].
    intros db k3 Hne%lookup_insert_None Hc3. destruct Hne as [_ Hne].
    sstep (cst_rd_data v cur c k0 k3); [exact Hc3|rewrite lookup_insert_ne by done; apply lookup_insert_eq|].
    spure. eapply (go_mod_data v cur c); [exact Hc3|apply lookup_insert_eq|]. intros k4 Hc4. rewrite insert_insert_eq in Hc4.
    spure. eapply (go_bwrite stop v cur c Hcl); [exact Hc4|apply lookup_insert_eq|apply Hh1|done|]. intros k5 Hc5.
    assert (block d' o' (slot L i) = d (slot L i)) as Eb by (unfold block; by rewrite Eo). rewrite Eb in Hc5.
    assert (slot L i ≠ home L i) as Hhs by (intros Heq; rewrite Heq in Hs1; done).
    assert (block (upd_disk d' (home L i) (d (slot L i))) (delete (home L i) o') (slot L i) = block d' o' (slot L i)) as Eb2
      by (rewrite block_upd by done; unfold block; by rewrite lookup_delete_ne).
    spure. eapply (go_brelse stop v cur c Hcl _ _ _ _ _ _ (slot L i)); [exact Hc5|rewrite lookup_insert_ne, Eb2, Eb by done; apply lookup_insert_eq|]. intros k6 Hc6.
    eapply (end_brelse stop v cur c Hcl); [exact Hc6|rewrite lookup_delete_ne, block_upd_eq by (done || apply lookup_delete_eq); apply lookup_insert_eq|].
    intros k7 Hc7. rewrite release_both in Hc7.
    do 2 eexists. split; [exact Hc7|]. by apply installed_step.
Qed.

End Install.

(** ** The header *)

(** The first [i] entries of the header are in the block [x]. *)
Definition header_to (l : log) (i : Z) (x : list Z) : Prop :=
  length x = Z.to_nat BSIZE ∧ get32 x 0 = u32 (lh_n l) ∧ ∀ j, 0 ≤ j < i → get32 x (4 + 4 * j) = u32 (home l j).
Definition is_header (l : log) (x : list Z) : Prop := header_to l (lh_n l) x.

Lemma survives_write_head d o k :
  rest k0 d o k → o !! S0 = None → length (d S0) = Z.to_nat BSIZE → (size o < NBUFn)%nat →
  survives k v write_head v (λ _ k', ∃ x, is_header L x ∧ rest k0 (upd_disk d S0 x) o k') (λ d', d' = d).
Proof.
  intros Hk Ho Hlen Hroom. destruct (cst_klog _ _ _ _ _ Hk) as [EL _]. fold L in EL.
  destruct (lo_start _ _ Hlog) as (B1 & B2 & B3). pose proof (lo_n _ _ Hlog) as Bn. fold n in Bn.
  unfold write_head. spure. rewrite EL, (lo_dev _ _ Hlog). change (u32 1) with 1. fold S0.
  rewrite u32_id by (unfold is_u32, two31, two32, S0, LOGSIZE, MAXOPBLOCKS in *; lia).
  eapply (go_bread stop v cur c Hcl); [exact Hk|apply not_held_empty|rewrite map_size_empty; lia|unfold S0, LOGSIZE, MAXOPBLOCKS in *; lia|done|].
  intros b k1 _ Hc1. assert (block d o S0 = d S0) as Eb by (unfold block; by rewrite Ho). rewrite Eb in Hc1.
  destruct (cst_klog _ _ _ _ _ Hc1) as [EL1 _]. fold L in EL1. spure. rewrite EL1. fold n.
  eapply (go_mod_data v cur c); [exact Hc1|apply lookup_insert_eq|]. intros k2 Hc2. rewrite insert_insert_eq in Hc2.
  spure. eapply survives_bind.
  - apply (survives_for_lh (λ i k, ∃ x, cst k0 d o (<[b := (S0, x)]> ∅) k ∧ header_to L i x)) with (n := n).
    + done.
    + eexists. split; [exact Hc2|]. split_and!; [rewrite length_put32; [done|lia|rewrite Hlen; unfold BSIZE; lia]| |intros; lia].
      rewrite get32_put32; [done|lia|rewrite Hlen; unfold BSIZE; lia].
    + intros i k3 (x & Hc & _). by destruct (cst_klog _ _ _ _ _ Hc) as [-> _].
    + intros i k3 h (x & Hc & Hx). exists x. split; [by apply cst_hw|done].
    + intros i k3 Hi (x & Hc & (X1 & X2 & X3)). destruct (cst_klog _ _ _ _ _ Hc) as [EL3 _]. fold L in EL3.
      sstep evals_rd_lh; [lia|rewrite EL3; by apply home_at|].
      destruct (cst_mod_data v cur c k0 k3 d o _ b S0 x (λ d, put32 d (4 + 4 * i) (home L i)) Hc) as (k4 & He & Hc4); [apply lookup_insert_eq|].
      assert (0 ≤ 4 + 4 * i ∧ 4 + 4 * i + 4 ≤ Z.of_nat (length x)) as [P1 P2]
        by (rewrite X1; unfold BSIZE, LOGSIZE, MAXOPBLOCKS in *; lia).
      eapply survives_of_evals; [exact He|]. intros h. rewrite insert_insert_eq in Hc4. eexists. split; [by apply cst_hw|].
      split_and!; [by rewrite length_put32|by rewrite get32_put32_ne by lia|].
      intros j Hj. destruct (decide (j = i)) as [->|]; [by rewrite get32_put32|]. rewrite get32_put32_ne by lia. apply X3. lia.
  - intros [] k3 (x & Hc3 & Hx). spure.
    eapply (go_bwrite stop v cur c Hcl); [exact Hc3|apply lookup_insert_eq|unfold S0, LOGSIZE, MAXOPBLOCKS in *; lia|done|].
    intros k4 Hc4. rewrite delete_id in Hc4 by done.
    eapply (end_brelse stop v cur c Hcl); [exact Hc4|rewrite block_upd_eq by done; apply lookup_insert_eq|].
    intros k5 Hc5. rewrite delete_insert_id in Hc5 by done. by exists x.
Qed.

End LogSteps.

(** ** What the log on a disk means *)

Definition hdr_n (x : list Z) : Z := s32 (get32 x 0).
Definition hdr_home (x : list Z) (i : Z) : Z := s32 (get32 x (4 + 4 * i)).

(** Where the log starts, from the super block of [d]. *)
Definition sb_log (d : Z → list Z) : Z := s32 (get32 (d 1) 16).

(** The disk [d] once the first [m] blocks of its log are at home. *)
Definition recovered_to (start : Z) (d : Z → list Z) (m : Z) : Z → list Z :=
  foldl (λ d' i, upd_disk d' (hdr_home (d start) i) (d (start + 1 + i))) d (seqZ 0 m).
Definition recovered (start : Z) (d : Z → list Z) : Z → list Z := recovered_to start d (hdr_n (d start)).

Lemma recovered_succ start d m : 0 ≤ m →
  recovered_to start d (m + 1) = upd_disk (recovered_to start d m) (hdr_home (d start) m) (d (start + 1 + m)).
Proof.
  intros Hm. unfold recovered_to. rewrite seqZ_app by lia. rewrite foldl_app. simpl. by rewrite Z.add_0_l.
Qed.

Lemma recovered_home (home : Z → Z) start d m :
  (∀ i, 0 ≤ i < m → hdr_home (d start) i = home i) →
  (∀ i j, 0 ≤ i < m → 0 ≤ j < m → home i = home j → i = j) →
  (∀ i, 0 ≤ i < m → recovered_to start d m (home i) = d (start + 1 + i)) ∧
  (∀ b, (∀ i, 0 ≤ i < m → b ≠ home i) → recovered_to start d m b = d b).
Proof.
  intros Hh Hinj. destruct (decide (0 ≤ m)) as [Hm|Hm].
  2:{ split; [intros; lia|]. intros b _. unfold recovered_to. by rewrite seqZ_nil by lia. }
  revert m Hm Hh Hinj. apply (natlike_ind (λ m, _ → _ → _)).
  - intros _ _. split; [intros; lia|done].
  - intros m Hm IH Hh Hinj. rewrite <- Z.add_1_r in *. rewrite recovered_succ by done. rewrite Hh by lia.
    destruct IH as [IH1 IH2]; [intros; apply Hh; lia|intros; apply Hinj; [lia..|done]|]. unfold upd_disk. split.
    + intros i Hi. destruct (Z.eqb_spec (home i) (home m)) as [E|E].
      * by rewrite (Hinj i m ltac:(lia) ltac:(lia) E).
      * apply IH1. assert (i ≠ m) by (intros ->; done). lia.
    + intros b Hb. rewrite (proj2 (Z.eqb_neq b (home m))) by (apply Hb; lia). apply IH2. intros; apply Hb; lia.
Qed.

Lemma s32_small x : 0 ≤ x < two31 → s32 (u32 x) = x.
Proof. intros Hx. rewrite u32_id by (unfold is_u32, two31, two32 in *; lia). apply s32_id. unfold two31 in *. lia. Qed.

Lemma recovered_header k l d :
  log_ok k l → is_header l (d (log_start l)) →
  (∀ i, 0 ≤ i < lh_n l → recovered (log_start l) d (home l i) = d (slot l i)) ∧
  (∀ b, (∀ i, 0 ≤ i < lh_n l → b ≠ home l i) → recovered (log_start l) d b = d b).
Proof.
  intros Hl (_ & H1 & H2). pose proof (lo_n _ _ Hl) as Hn. destruct (lo_start _ _ Hl) as (B1 & B2 & B3).
  unfold recovered, hdr_n. rewrite H1, s32_small by (unfold LOGSIZE, MAXOPBLOCKS, two31 in *; lia).
  apply (recovered_home (home l)); [|apply (lo_inj _ _ Hl)].
  intros i Hi. unfold hdr_home. rewrite H2 by done. apply s32_small. pose proof (lo_home _ _ Hl i Hi). lia.
Qed.

Lemma recovered_none start d : hdr_n (d start) = 0 → recovered start d = d.
Proof. unfold recovered. by intros ->. Qed.

(** ** commit *)

(** A transaction ready to commit on the disk [d]: the blocks changed in memory, [o],
    are among those listed in the header, and the log on disk is empty. *)
Record commit_pre (cur : nat) (c : proc) (k : kern) (d : Z → list Z) (o : gmap Z (list Z)) : Prop := mkCommitPre {
  cp_log : log_ok k (klog k);
  cp_some : 0 < lh_n (klog k);
  cp_cache : cst cur c k d o ∅ k;
  cp_room : (size o + 1 < NBUFn)%nat;
  cp_dirty : ∀ b, is_Some (o !! b) → ∃ i, 0 ≤ i < lh_n (klog k) ∧ b = home (klog k) i;
  cp_sb : sb_log d = log_start (klog k) ∧ 1 < sb_log d ∧ ∀ i, 0 ≤ i < lh_n (klog k) → home (klog k) i ≠ 1;
  cp_len : length (d (log_start (klog k))) = Z.to_nat BSIZE;
  cp_empty : hdr_n (d (log_start (klog k))) = 0
}.

Section Commit.
Context `{KernelSyms} (stop : kern → nat → bool).
Variables (v : hwview) (cur : nat) (c : proc).
Hypothesis (Hcl : caller v cur c).
Variables (k : kern) (d : Z → list Z) (o : gmap Z (list Z)).
Hypothesis (Hpre : commit_pre cur c k d o).

Let L := klog k.
Let S0 := log_start L.
Let n := lh_n L.

Lemma commit_no_log b : in_log L b → o !! b = None.
Proof.
  intros Hb. apply eq_None_not_Some. intros Hs. destruct (cp_dirty _ _ _ _ _ Hpre b Hs) as (i & Hi & ->).
  by destruct (lo_home _ _ (cp_log _ _ _ _ _ Hpre) i Hi) as [_ Hn].
Qed.

(** All of the old blocks, or all of the new ones. *)
Definition all_old (d' : Z → list Z) : Prop := ∀ b, ¬ in_log L b → recovered S0 d' b = d b.
Definition all_new (d' : Z → list Z) : Prop := ∀ b, ¬ in_log L b → recovered S0 d' b = block d o b.

Lemma start_in_log : in_log L S0.
Proof. unfold in_log, S0, LOGSIZE, MAXOPBLOCKS. lia. Qed.

Lemma home_not_start i : 0 ≤ i < n → S0 ≠ home L i.
Proof. intros Hi E. destruct (lo_home _ _ (cp_log _ _ _ _ _ Hpre) i Hi) as [_ Hn]. apply Hn. fold L. rewrite <- E. apply start_in_log. Qed.

Lemma slot_in_log i : 0 ≤ i < n → in_log L (slot L i) ∧ slot L i ≠ S0.
Proof. intros Hi. pose proof (slot_bounds k (cp_log _ _ _ _ _ Hpre) i Hi) as (? & ? & _). done. Qed.

Lemma logged_header i d' : logged k d o i d' → d' S0 = d S0.
Proof. intros [_ Hd]. apply Hd. intros j Hj E. by apply (proj2 (slot_in_log j Hj)). Qed.

Lemma logged_old i d' : logged k d o i d' → all_old d'.
Proof.
  intros Hl b Hb. rewrite recovered_none by (rewrite (logged_header i d' Hl); apply (cp_empty _ _ _ _ _ Hpre)).
  apply Hl. intros j Hj ->. by destruct (slot_in_log j Hj).
Qed.

Lemma installed_new i d1 x d' o' :
  logged k d o n d1 → is_header L x → 0 ≤ i ≤ n → installed k (upd_disk d1 S0 x) o i d' o' →
  all_new d' ∧ d' S0 = x ∧ (∀ b, in_log L b → o' !! b = None) ∧
  (i = n → ∀ b, ¬ in_log L b → d' b = block d o b).
Proof.
  intros [Hl1 Hl2] Hx Hi (I1 & I2 & _). set (d2 := upd_disk d1 S0 x) in *.
  assert (d' S0 = x) as ES.
  { destruct (I2 S0) as [-> _]; [intros j Hj; apply home_not_start; lia|]. unfold d2, upd_disk. by rewrite Z.eqb_refl. }
  assert (∀ j, 0 ≤ j < n → d2 (slot L j) = block d o (home L j)) as E2.
  { intros j Hj. unfold d2, upd_disk. rewrite (proj2 (Z.eqb_neq _ _)) by (by apply slot_in_log). by apply Hl1. }
  assert (∀ b, in_log L b → ∀ j, 0 ≤ j < n → b ≠ home L j) as Hnh.
  { intros b Hb j Hj ->. by destruct (lo_home _ _ (cp_log _ _ _ _ _ Hpre) j Hj). }
  assert (∀ b, ¬ in_log L b → recovered S0 d' b = block d o b ∧ (i = n → d' b = block d o b)) as Hall.
  { intros b Hb. destruct (recovered_header k L d' (cp_log _ _ _ _ _ Hpre)) as [R1 R2]; [by rewrite <- ES in Hx|].
    fold n in R1, R2. fold S0 in R1, R2.
    destruct (decide (Exists (λ j, b = home L j) (seqZ 0 n))) as [He|He].
    + apply Exists_exists in He as (j & Hj%elem_of_seqZ & ->). assert (0 ≤ j < n) as Hj' by lia.
      rewrite R1 by done. split; [|intros ->; destruct (I1 j Hj') as [E1 _]; fold L in E1; rewrite E1; by apply E2].
      destruct (I2 (slot L j)) as [-> _]; [intros; apply Hnh; [by apply slot_in_log|lia]|]. by apply E2.
    + assert (∀ j, 0 ≤ j < n → b ≠ home L j) as Hno.
      { intros j Hj ->. apply He, Exists_exists. exists j. split; [apply elem_of_seqZ; lia|done]. }
      rewrite R2 by done. assert (d' b = block d o b); [|done]. destruct (I2 b) as [-> _]; [intros; apply Hno; lia|].
      assert (o !! b = None) as Ho.
      { apply eq_None_not_Some. intros Hs. destruct (cp_dirty _ _ _ _ _ Hpre b Hs) as (j & Hj & E). by apply (Hno j). }
      unfold block. rewrite Ho. simpl. unfold d2, upd_disk. rewrite (proj2 (Z.eqb_neq b S0)) by (intros ->; apply Hb, start_in_log).
      apply Hl2. intros j Hj ->. by destruct (slot_in_log j Hj). }
  split_and!; [intros b Hb; by apply Hall|done| |intros Hin b Hb; by apply Hall].
  - intros b Hb. destruct (I2 b) as [_ ->]; [intros; apply Hnh; [done|lia]|]. by apply commit_no_log.
Qed.

(** The whole of [commit]: the new blocks are at home and the log is empty; a loss of
    power leaves a disk whose recovery has all of the old blocks or all of the new. *)
Lemma survives_commit :
  survives k v (@commit (crash_rw stop)) v
    (λ _ k', ∃ d', cst cur c (k <| klog ::= λ l, l <| lh_n := 0 |> |>) d' ∅ ∅ k' ∧
       (∀ b, ¬ in_log L b → d' b = block d o b) ∧ hdr_n (d' S0) = 0 ∧ length (d' S0) = Z.to_nat BSIZE)
    (λ d', all_old d' ∧ d' S0 = d S0 ∨ all_new d' ∧ is_header L (d' S0)).
Proof.
  pose proof (cp_log _ _ _ _ _ Hpre) as Hlog. pose proof (cp_some _ _ _ _ _ Hpre) as Hn. fold L in Hlog, Hn. fold n in Hn.
  pose proof (cp_room _ _ _ _ _ Hpre) as Hroom. unfold commit. spure. fold L n.
  rewrite (proj2 (Z.ltb_lt 0 n)) by done. unfold when.
  eapply survives_bind.
  { eapply survives_mono; [apply (survives_write_log stop v cur c Hcl k Hlog d o commit_no_log Hroom k (cp_cache _ _ _ _ _ Hpre))|intros a k' HQ; exact HQ|].
    intros d' (i & _ & Hl). left. split; [by eapply logged_old|by eapply logged_header]. }
  intros [] k1 (d1 & Hc1 & Hl1). cbv beta.
  assert (length (d1 S0) = Z.to_nat BSIZE) as Hlen by (rewrite (logged_header n d1 Hl1); apply (cp_len _ _ _ _ _ Hpre)).
  eapply survives_bind.
  { eapply survives_mono; [apply (survives_write_head stop v cur c Hcl k Hlog d1 o k1 Hc1 (commit_no_log _ start_in_log) Hlen ltac:(lia))|intros a k' HQ; exact HQ|].
    intros d' ->. left. split; [by eapply logged_old|by eapply logged_header]. }
  intros [] k2 (x & Hx & Hc2). cbv beta. eapply survives_bind.
  { eapply survives_mono; [apply (survives_install stop v cur c Hcl k Hlog _ o commit_no_log Hroom k2 Hc2)|intros a k' HQ; exact HQ|].
    intros d' (i & o' & Hi & HI). right. destruct (installed_new i d1 x d' o' Hl1 Hx Hi HI) as (? & -> & _). done. }
  intros [] k3 (d3 & o3 & Hc3 & HI). cbv beta.
  destruct (installed_new n d1 x d3 o3 Hl1 Hx ltac:(lia) HI) as (Hnew & ES & Ho3 & Hhome).
  destruct (cst_mod_log v cur c k d3 o3 ∅ k3 (λ l, l <| lh_n := 0 |>) Hc3) as [He Hc4]. sstep He.
  set (kE := k <| klog ::= λ l, l <| lh_n := 0 |> |>) in *.
  assert (log_ok kE (klog kE)) as Hlog4.
  { destruct Hlog. split; try done; simpl; intros; lia. }
  destruct HI as (I1 & I2 & I3).
  assert (o3 = ∅) as ->.
  { apply map_empty. intros b. destruct (decide (Exists (λ j, b = home L j) (seqZ 0 n))) as [Hex|Hex].
    - apply Exists_exists in Hex as (j & Hj%elem_of_seqZ & ->). apply (I1 j). fold L n. lia.
    - destruct (I2 b) as [_ ->].
      { intros j Hj ->. apply Hex, Exists_exists. exists j. fold L n in Hj. split; [apply elem_of_seqZ; lia|done]. }
      apply eq_None_not_Some. intros Hs. destruct (cp_dirty _ _ _ _ _ Hpre b Hs) as (j & Hj & ->).
      apply Hex, Exists_exists. exists j. split; [apply elem_of_seqZ; fold L n in Hj; lia|done]. }
  eapply survives_mono; [apply (survives_write_head stop v cur c Hcl kE Hlog4 d3 ∅ _ Hc4)|..].
  - done.
  - simpl. fold L S0. rewrite ES. apply Hx.
  - rewrite map_size_empty. unfold NBUFn. lia.
  - intros [] k5 (y & (Y1 & Y2 & _) & Hc5). eexists. split_and!; [exact Hc5| | |].
    + intros b Hb. unfold upd_disk. rewrite (proj2 (Z.eqb_neq _ _)) by (intros ->; by apply Hb, start_in_log).
      by apply Hhome.
    + simpl. fold L S0. unfold upd_disk, hdr_n. by rewrite Z.eqb_refl, Y2.
    + simpl. fold L S0. unfold upd_disk. by rewrite Z.eqb_refl.
  - intros d' ->. right. by rewrite ES.
Qed.

End Commit.

(** ** Recovery *)

(** The log on the disk [d] of [size] blocks is one that [commit] leaves: its header
    names different blocks, neither in the log nor the super block. *)
Record disk_log (size start : Z) (d : Z → list Z) : Prop := mkDiskLog {
  dl_len : length (d start) = Z.to_nat BSIZE;
  dl_n : 0 ≤ hdr_n (d start) ≤ LOGSIZE;
  dl_home : ∀ i, 0 ≤ i < hdr_n (d start) →
    0 ≤ hdr_home (d start) i < size ∧ ¬ (start ≤ hdr_home (d start) i ≤ start + LOGSIZE) ∧ hdr_home (d start) i ≠ 1;
  dl_inj : ∀ i j, 0 ≤ i < hdr_n (d start) → 0 ≤ j < hdr_n (d start) → hdr_home (d start) i = hdr_home (d start) j → i = j
}.

Lemma disk_log_empty size start d :
  length (d start) = Z.to_nat BSIZE → hdr_n (d start) = 0 → disk_log size start d.
Proof. intros Hl Hn. split; [done|rewrite Hn; unfold LOGSIZE, MAXOPBLOCKS; lia|rewrite Hn; lia..]. Qed.

Lemma disk_log_same size start d d' : d' start = d start → disk_log size start d → disk_log size start d'.
Proof. intros E []. split; rewrite E; done. Qed.

(** The header [l] in memory and the one on the disk agree. *)
Lemma header_disk_log k l d :
  log_ok k l → (∀ i, 0 ≤ i < lh_n l → home l i ≠ 1) → is_header l (d (log_start l)) →
  disk_log (disksize (devs k)) (log_start l) d.
Proof.
  intros Hl H1 (Hlen & Hn & Hh). pose proof (lo_n _ _ Hl) as Bn. destruct (lo_start _ _ Hl) as (B1 & B2 & B3).
  assert (hdr_n (d (log_start l)) = lh_n l) as En.
  { unfold hdr_n. rewrite Hn. apply s32_small. unfold LOGSIZE, MAXOPBLOCKS, two31 in *. lia. }
  assert (∀ i, 0 ≤ i < lh_n l → hdr_home (d (log_start l)) i = home l i) as Eh.
  { intros i Hi. unfold hdr_home. rewrite Hh by done. apply s32_small. pose proof (lo_home _ _ Hl i Hi). lia. }
  split; rewrite ?En; [done|done| |].
  - intros i Hi. rewrite Eh by done. destruct (lo_home _ _ Hl i Hi). split_and!; [lia..|done|by apply H1].
  - intros i j Hi Hj. rewrite !Eh by done. by apply (lo_inj _ _ Hl).
Qed.

(** A kernel whose log is set up for the disk's: what [initlog] establishes before
    it calls [recover_from_log]. *)
Record log_set (k : kern) (start : Z) : Prop := mkLogSet {
  ls_dev : log_dev (klog k) = 1;
  ls_start : log_start (klog k) = start;
  ls_len : length (lh_block (klog k)) = LOGSIZEn;
  ls_bounds : 0 ≤ start ∧ start + LOGSIZE < disksize (devs k) ∧ disksize (devs k) < two31
}.

Section Recover.
Context `{KernelSyms} (stop : kern → nat → bool).
Variables (v : hwview) (cur : nat) (c : proc).
Hypothesis (Hcl : caller v cur c).
Variables (k : kern) (start : Z) (d : Z → list Z).
Hypothesis (Hset : log_set k start) (Hdl : disk_log (disksize (devs k)) start d).

Let n := hdr_n (d start).

(** The first [i] entries of the header have been read into [l]. *)
Definition head_read (i : Z) (l : log) : Prop :=
  log_dev l = 1 ∧ log_start l = start ∧ length (lh_block l) = LOGSIZEn ∧ lh_n l = n ∧
  log_size l = log_size (klog k) ∧ log_outstanding l = log_outstanding (klog k) ∧ log_committing l = log_committing (klog k) ∧
  ∀ j, 0 ≤ j < i → home l j = hdr_home (d start) j.

Lemma head_read_step i l x :
  0 ≤ i < n → head_read i l → x = hdr_home (d start) i →
  head_read (i + 1) (l <| lh_block ::= insert (Z.to_nat i) x |>).
Proof.
  intros Hi (H1 & H2 & H3 & H4 & H5 & H6 & H7 & H8) ->. repeat (split; [try done; simpl; by rewrite ?length_insert|]).
  pose proof (dl_n _ _ _ Hdl) as Hn. fold n in Hn.
  intros j Hj. unfold home. cbn. rewrite nth_lookup. destruct (decide (j = i)) as [->|Hne].
  - rewrite list_lookup_insert_eq; [done|]. rewrite H3. unfold LOGSIZE, MAXOPBLOCKS, LOGSIZEn in *. lia.
  - rewrite list_lookup_insert_ne by lia. rewrite <- nth_lookup. apply H8. lia.
Qed.

Lemma survives_read_head k1 :
  cst cur c k d ∅ ∅ k1 →
  survives k1 v (@read_head (crash_rw stop)) v
    (λ _ k', ∃ l, head_read n l ∧ cst cur c (k <| klog := l |>) d ∅ ∅ k') (λ d', d' = d).
Proof.
  intros Hk. destruct (cst_klog _ _ _ _ _ _ _ Hk) as [EL _].
  destruct (ls_bounds _ _ Hset) as (B1 & B2 & B3). pose proof (dl_n _ _ _ Hdl) as Bn. fold n in Bn.
  unfold read_head. spure. rewrite EL, (ls_dev _ _ Hset), (ls_start _ _ Hset). change (u32 1) with 1.
  rewrite u32_id by (unfold is_u32, two31, two32, LOGSIZE, MAXOPBLOCKS in *; lia).
  eapply (go_bread stop v cur c Hcl); [exact Hk|apply not_held_empty|rewrite !map_size_empty; unfold NBUFn; lia|unfold LOGSIZE, MAXOPBLOCKS in *; lia|done|].
  intros b k2 _ Hc2. change (block d ∅ start) with (d start) in Hc2.
  sstep (cst_rd_data v cur c k k2); [exact Hc2|apply lookup_insert_eq|].
  spure. destruct (cst_mod_log v cur c k d ∅ _ k2 (λ l, l <| lh_n := n |>) Hc2) as [He Hc3]. sstep He.
  eapply survives_bind.
  - apply (survives_for_lh v (λ i k', ∃ l, head_read i l ∧ cst cur c (k <| klog := l |>) d ∅ (<[b := (start, d start)]> ∅) k')) with (n := n).
    + done.
    + eexists. split; [|exact Hc3]. destruct Hset. repeat (split; [done|]). intros; lia.
    + intros i k3 (l & Hl & Hc). destruct (cst_klog _ _ _ _ _ _ _ Hc) as [-> _]. apply Hl.
    + intros i k3 h (l & Hl & Hc). exists l. split; [done|by apply cst_hw].
    + intros i k3 Hi (l & Hl & Hc). destruct (cst_klog _ _ _ _ _ _ _ Hc) as [EL3 _]. cbn in EL3.
      unfold wr_lh. destruct (lookup_lt_is_Some_2 (lh_block l) (Z.to_nat i)) as [z Hz].
      { destruct Hl as (_ & _ & -> & _). unfold LOGSIZE, MAXOPBLOCKS, LOGSIZEn in *. lia. }
      sstep evals_rd_lh; [lia|by rewrite EL3|].
      destruct (cst_mod_log v cur c _ d ∅ _ k3 (λ l, l <| lh_block ::= insert (Z.to_nat i) (hdr_home (d start) i) |>) Hc) as [He3 Hc4].
      eapply survives_of_evals; [exact He3|]. intros h. eexists. split; [|apply cst_hw; exact Hc4].
      by apply head_read_step.
  - intros [] k3 (l & Hl & Hc). eapply (end_brelse stop v cur c Hcl); [exact Hc|apply lookup_insert_eq|].
    intros k4 Hc4. rewrite delete_insert_id in Hc4 by done. by exists l.
Qed.

Lemma head_read_ok l : head_read n l → log_ok (k <| klog := l |>) l.
Proof.
  intros (H1 & H2 & H3 & H4 & _ & _ & _ & H8). split; rewrite ?H4; try done; rewrite ?H2.
  - apply (dl_n _ _ _ Hdl).
  - apply (ls_bounds _ _ Hset).
  - intros i Hi. rewrite H8 by done. unfold in_log. rewrite H2. by destruct (dl_home _ _ _ Hdl i Hi) as (? & ? & _).
  - intros i j Hi Hj. rewrite !H8 by done. by apply (dl_inj _ _ _ Hdl).
Qed.

(** With some entries at home, recovery yields the same disk; with all of them, this is it. *)
Lemma installed_recovered l i d' o' :
  head_read n l → 0 ≤ i ≤ n → installed (k <| klog := l |>) d ∅ i d' o' →
  o' = ∅ ∧ d' start = d start ∧
  ∀ b, ¬ (start ≤ b ≤ start + LOGSIZE) → recovered start d' b = recovered start d b ∧ (i = n → d' b = recovered start d b).
Proof.
  intros Hl Hi (I1 & I2 & I3). destruct (id Hl) as (_ & H2 & _ & _ & _ & _ & _ & H8). cbn in I1, I2. pose proof (dl_n _ _ _ Hdl) as Bn. fold n in Bn.
  assert (∀ b, start ≤ b ≤ start + LOGSIZE → d' b = d b) as Hin.
  { intros b Hb. apply I2. intros j Hj ->. destruct (dl_home _ _ _ Hdl j ltac:(fold n; lia)) as (_ & Hn & _).
    apply Hn. by rewrite <- H8 by lia. }
  assert (d' start = d start) as ES by (apply Hin; unfold LOGSIZE, MAXOPBLOCKS; lia).
  split_and!; [apply map_size_empty_iff; rewrite map_size_empty in I3; lia|done|]. intros b Hb.
  destruct (recovered_home (hdr_home (d start)) start d n) as [R1 R2]; [done|apply (dl_inj _ _ _ Hdl)|].
  destruct (recovered_home (hdr_home (d start)) start d' n) as [R1' R2']; [by rewrite ES|apply (dl_inj _ _ _ Hdl)|].
  unfold recovered. rewrite ES. fold n.
  destruct (decide (Exists (λ j, b = hdr_home (d start) j) (seqZ 0 n))) as [He|He].
  - apply Exists_exists in He as (j & Hj%elem_of_seqZ & ->). rewrite R1, R1' by lia.
    split; [apply Hin; lia|]. intros ->. destruct (I1 j ltac:(lia)) as [E _]. rewrite H8 in E by lia. rewrite E.
    unfold slot. by rewrite H2.
  - assert (∀ j, 0 ≤ j < n → b ≠ hdr_home (d start) j) as Hno.
    { intros j Hj ->. apply He, Exists_exists. exists j. split; [apply elem_of_seqZ; lia|done]. }
    rewrite R2, R2' by done. assert (d' b = d b); [|done]. apply I2. intros j Hj. rewrite H8 by lia. apply Hno. lia.
Qed.

(** [recover_from_log] completes the transaction in the log and empties it; a loss of
    power on the way changes nothing about what the log stands for. *)
Lemma survives_recover k1 :
  cst cur c k d ∅ ∅ k1 →
  survives k1 v (@recover_from_log (crash_rw stop)) v
    (λ _ k', ∃ l d', cst cur c (k <| klog := l |>) d' ∅ ∅ k' ∧ head_read 0 (l <| lh_n := n |>) ∧ lh_n l = 0 ∧
       hdr_n (d' start) = 0 ∧ length (d' start) = Z.to_nat BSIZE ∧
       ∀ b, ¬ (start ≤ b ≤ start + LOGSIZE) → d' b = recovered start d b)
    (λ d', d' start = d start ∧ ∀ b, ¬ (start ≤ b ≤ start + LOGSIZE) → recovered start d' b = recovered start d b).
Proof.
  intros Hk. unfold recover_from_log. eapply survives_bind.
  { eapply survives_mono; [by apply survives_read_head|intros a k' HQ; exact HQ|]. by intros d' ->. }
  intros [] k2 (l & Hl & Hc2). cbv beta. pose proof (head_read_ok l Hl) as Hok. destruct (id Hl) as (_ & H2 & _ & H4 & _).
  eapply survives_bind.
  { eapply survives_mono; [apply (survives_install stop v cur c Hcl (k <| klog := l |>) Hok d ∅)|intros a k' HQ; exact HQ|].
    - done.
    - rewrite map_size_empty. unfold NBUFn. lia.
    - exact Hc2.
    - intros d' (i & o' & Hi & HI). cbn in Hi. rewrite H4 in Hi.
      destruct (installed_recovered l i d' o' Hl Hi HI) as (_ & ? & HR). split; [done|]. intros b Hb. by apply HR. }
  intros [] k3 (d3 & o3 & Hc3 & HI). cbn in HI. rewrite H4 in HI. cbv beta.
  destruct (installed_recovered l n d3 o3 Hl ltac:(split; [apply (dl_n _ _ _ Hdl)|done]) HI) as (-> & ES & HR).
  destruct (cst_mod_log v cur c _ d3 ∅ ∅ k3 (λ l, l <| lh_n := 0 |>) Hc3) as [He Hc4]. sstep He.
  set (kE := k <| klog := l <| lh_n := 0 |> |>) in *.
  assert (log_ok kE (klog kE)) as Hlog4.
  { destruct Hok. split; try done; simpl; intros; unfold LOGSIZE, MAXOPBLOCKS; lia. }
  eapply survives_mono; [apply (survives_write_head stop v cur c Hcl kE Hlog4 d3 ∅ _ Hc4)|..].
  - done.
  - simpl. rewrite H2, ES. apply (dl_len _ _ _ Hdl).
  - rewrite map_size_empty. unfold NBUFn. lia.
  - simpl. rewrite H2. intros [] k5 (y & (Y1 & Y2 & _) & Hc5). do 2 eexists. split; [exact Hc5|]. split_and!.
    + destruct Hl as (? & ? & ? & ? & ? & ? & ? & _). repeat (split; [done|]). intros; lia.
    + done.
    + unfold upd_disk, hdr_n. by rewrite Z.eqb_refl, Y2.
    + unfold upd_disk. by rewrite Z.eqb_refl.
    + intros b Hb. unfold upd_disk. rewrite (proj2 (Z.eqb_neq _ _)) by (intros ->; apply Hb; unfold LOGSIZE, MAXOPBLOCKS; lia).
      by apply HR.
  - intros d' ->. split; [done|]. intros b Hb. by apply HR.
Qed.
End Recover.

(** ** initlog *)

(** A disk of [sz] blocks with a super block, and after it a log that [commit] wrote. *)
Record disk_ok (sz : Z) (d : Z → list Z) : Prop := mkDiskOk {
  dk_bounds : 1 < sb_log d ∧ sb_log d + LOGSIZE < sz ∧ sz < two31;
  dk_log : disk_log sz (sb_log d) d
}.
(** The blocks outside the log. *)
Definition outside (d : Z → list Z) (b : Z) : Prop := ¬ (sb_log d ≤ b ≤ sb_log d + LOGSIZE).

Lemma recovered_sb sz d : disk_ok sz d → recovered (sb_log d) d 1 = d 1.
Proof.
  intros [Hb Hdl]. unfold recovered. destruct (recovered_home (hdr_home (d (sb_log d))) (sb_log d) d (hdr_n (d (sb_log d)))) as [_ R]; [done|apply (dl_inj _ _ _ Hdl)|]. apply R.
  intros i Hi E. by destruct (dl_home _ _ _ Hdl i Hi) as (_ & _ & ?).
Qed.

(** A disk whose log has the same header and stands for the same blocks. *)
Lemma disk_ok_same sz d d' :
  disk_ok sz d → d' (sb_log d) = d (sb_log d) →
  (∀ b, outside d b → recovered (sb_log d) d' b = recovered (sb_log d) d b) → disk_ok sz d' ∧ sb_log d' = sb_log d.
Proof.
  intros Hd ES HR. destruct (id Hd) as [Hb Hdl]. assert (d' 1 = d 1) as E1.
  { rewrite <- (recovered_sb sz d Hd), <- HR by (unfold outside; lia).
    destruct (recovered_home (hdr_home (d (sb_log d))) (sb_log d) d' (hdr_n (d (sb_log d)))) as [_ R]; [by rewrite ES|apply (dl_inj _ _ _ Hdl)|].
    unfold recovered. rewrite ES, R; [done|]. intros i Hi E. by destruct (dl_home _ _ _ Hdl i Hi) as (_ & _ & ?). }
  assert (sb_log d' = sb_log d) as E by (unfold sb_log; by rewrite E1). split; [|done]. split; rewrite E; [done|].
  by eapply disk_log_same.
Qed.

Section Init.
Context `{KernelSyms} (stop : kern → nat → bool).
Variables (v : hwview) (cur : nat) (c : proc).
Hypothesis (Hcl : caller v cur c).

(** A machine of [sz] blocks that starts on the disk [d]: its cache holds nothing else
    than the disk does. *)
Record machine (sz : Z) (k : kern) (d : Z → list Z) : Prop := mkMachine {
  mc_cache : cst cur c k d ∅ ∅ k;
  mc_len : length (lh_block (klog k)) = LOGSIZEn;
  mc_size : disksize (devs k) = sz
}.

Lemma survives_initlog sz k d :
  machine sz k d → disk_ok sz d →
  survives k v (@initlog (crash_rw stop) 1) v
    (λ _ k', ∃ l d', cst cur c (k <| klog := l |>) d' ∅ ∅ k' ∧ lh_n l = 0 ∧ log_dev l = 1 ∧ log_start l = sb_log d ∧
       hdr_n (d' (sb_log d)) = 0 ∧ length (d' (sb_log d)) = Z.to_nat BSIZE ∧
       ∀ b, ¬ (sb_log d ≤ b ≤ sb_log d + LOGSIZE) → d' b = recovered (sb_log d) d b)
    (λ d', d' (sb_log d) = d (sb_log d) ∧
       ∀ b, ¬ (sb_log d ≤ b ≤ sb_log d + LOGSIZE) → recovered (sb_log d) d' b = recovered (sb_log d) d b).
Proof.
  intros [Hc Hlen <-] [Hb Hdl]. unfold initlog. change (BSIZE <=? sizeof_logheader) with false. cbv iota.
  sstep evals_initlock; [rewrite (cl_held _ _ _ Hcl); set_solver|rewrite (cl_others _ _ _ Hcl); set_solver|].
  unfold readsb. spure. change (u32 1) with 1. destruct Hb as (B1 & B2 & B3).
  eapply (go_bread stop v cur c Hcl); [exact Hc|apply not_held_empty|rewrite !map_size_empty; unfold NBUFn; lia| |done|].
  { unfold LOGSIZE, MAXOPBLOCKS in *. lia. }
  intros b k1 _ Hc1. change (block d ∅ 1) with (d 1) in Hc1.
  sstep (cst_rd_data v cur c k k1); [exact Hc1|apply lookup_insert_eq|].
  spure. eapply (go_brelse stop v cur c Hcl); [exact Hc1|apply lookup_insert_eq|]. intros k2 Hc2. rewrite delete_insert_id in Hc2 by done.
  spure. cbn [sb_logstart sb_nlog]. fold (sb_log d).
  destruct (cst_mod_log v cur c _ d ∅ ∅ k2 (λ l, l <| log_start := sb_log d |>) Hc2) as [He3 Hc3]. sstep He3.
  destruct (cst_mod_log v cur c _ d ∅ ∅ _ (λ l, l <| log_size := s32 (get32 (d 1) 12) |>) Hc3) as [He4 Hc4]. sstep He4.
  destruct (cst_mod_log v cur c _ d ∅ ∅ _ (λ l, l <| log_dev := 1 |>) Hc4) as [He5 Hc5]. sstep He5.
  match type of Hc5 with BioProps.cst _ _ ?x _ _ _ _ => set (kI := x) in * end.
  assert (log_set kI (sb_log d)) as Hset by (split; [done..|split; [lia|done]]).
  eapply survives_mono; [apply (survives_recover stop v cur c Hcl kI (sb_log d) d Hset Hdl _ Hc5)| |done].
  intros [] k' (l & d' & Hc' & (? & ? & _) & ? & ? & ? & ?). exists l, d'. done.
Qed.
End Init.

(** ** Claims *)

(** After a loss of power in [commit] the disk still has a log that can be recovered. *)
Lemma commit_disk_ok cur c k d o d' :
  commit_pre cur c k d o →
  all_old k d d' ∧ d' (log_start (klog k)) = d (log_start (klog k)) ∨ all_new k d o d' ∧ is_header (klog k) (d' (log_start (klog k))) →
  disk_ok (disksize (devs k)) d' ∧ sb_log d' = log_start (klog k).
Proof.
  intros Hpre Hd'. destruct (cp_sb _ _ _ _ _ Hpre) as (Esb & Hb1 & H1). pose proof (cp_log _ _ _ _ _ Hpre) as Hlog.
  destruct (lo_start _ _ Hlog) as (B1 & B2 & B3). assert (¬ in_log (klog k) 1) as Hn1 by (unfold in_log; lia).
  assert (disk_log (disksize (devs k)) (log_start (klog k)) d' ∧ d' 1 = d 1) as [Hdl E1].
  { destruct Hd' as [[Hold ES]|[Hnew Hh]].
    - assert (hdr_n (d' (log_start (klog k))) = 0) as En by (rewrite ES; apply (cp_empty _ _ _ _ _ Hpre)). split.
      + apply disk_log_empty; [|done]. rewrite ES. apply (cp_len _ _ _ _ _ Hpre).
      + rewrite <- (Hold 1 Hn1). by rewrite recovered_none.
    - split; [by apply header_disk_log|]. destruct (recovered_header k (klog k) d' Hlog Hh) as [_ R].
      rewrite <- (R 1), (Hnew 1 Hn1); [|intros i Hi E; by apply (H1 i Hi)].
      unfold block. destruct (o !! 1) as [x|] eqn:E; [|done].
      destruct (cp_dirty _ _ _ _ _ Hpre 1 ltac:(by exists x)) as (i & Hi & E'). by destruct (H1 i Hi). }
  assert (sb_log d' = log_start (klog k)) as E by (rewrite <- Esb; unfold sb_log; by rewrite E1).
  split; [|done]. split; rewrite E; [lia|done].
Qed.


(** The disk once the machine has come up: any number of starts cut short by a loss of
    power in [initlog], then one that completes. *)
Inductive recovery `{KernelSyms} (sz : Z) : (Z → list Z) → (Z → list Z) → Prop :=
| recovery_done stop v cur c k h rs d w :
    caller v cur c → machine cur c sz k d → hw_ok h v →
    @initlog (crash_rw stop) 1 (at_hw k h rs) = Ok tt w → recovery sz d (disk (ks w))
| recovery_again stop v cur c k h rs d w d' :
    caller v cur c → machine cur c sz k d → hw_ok h v →
    @initlog (crash_rw stop) 1 (at_hw k h rs) = Switched w → recovery sz (disk (ks w)) d' → recovery sz d d'.

Lemma recovery_recovers `{KernelSyms} sz d d' :
  recovery sz d d' → disk_ok sz d → ∀ b, outside d b → d' b = recovered (sb_log d) d b.
Proof.
  induction 1 as [stop v cur c k h rs d w Hcl Hm Hh E|stop v cur c k h rs d w d' Hcl Hm Hh E _ IH]; intros Hd b Hb;
    pose proof (survives_initlog stop v cur c Hcl sz k d Hm Hd h rs Hh) as Hs; rewrite E in Hs.
  - destruct Hs as (_ & _ & l & d1 & Hc & _ & _ & _ & _ & _ & HR). destruct (cst_klog _ _ _ _ _ _ _ Hc) as [_ ->]. by apply HR.
  - destruct Hs as [ES HR]. destruct (disk_ok_same sz d (disk (ks w)) Hd ES HR) as [Hd' Esb].
    rewrite IH; [|done|unfold outside; by rewrite Esb]. rewrite Esb. by apply HR.
Qed.

(** C5: a transaction is atomic and, once [commit] returns, durable: it returns with every
    changed block at its home on the disk and the log empty, or the power fails at one of
    its transfers and then, whatever number of starts are cut short in turn, the start
    that completes leaves all of the transaction's blocks as they were or all as they
    were changed; nothing else outside the log differs. *)
Theorem commit_atomic `{KernelSyms} stop v cur c k d o h rs :
  caller v cur c → commit_pre cur c k d o → hw_ok h v →
  match @commit (crash_rw stop) (at_hw k h rs) with
  | Ok _ w => lh_n (klog (ks w)) = 0 ∧ hdr_n (disk (ks w) (log_start (klog k))) = 0 ∧
      ∀ b, ¬ in_log (klog k) b → disk (ks w) b = block d o b
  | Switched w => disk_ok (disksize (devs k)) (disk (ks w)) ∧
      ∀ d', recovery (disksize (devs k)) (disk (ks w)) d' →
        (∀ b, ¬ in_log (klog k) b → d' b = d b) ∨ (∀ b, ¬ in_log (klog k) b → d' b = block d o b)
  | _ => False
  end.
Proof.
  intros Hcl Hpre Hh. pose proof (survives_commit stop v cur c Hcl k d o Hpre h rs Hh) as Hs.
  destruct (commit (at_hw k h rs)) as [[] w| | | |w|] eqn:E; try done.
  - destruct Hs as (_ & _ & d1 & Hc & HR & Hn & _). by destruct (cst_klog _ _ _ _ _ _ _ Hc) as [-> ->].
  - destruct (commit_disk_ok cur c k d o _ Hpre Hs) as [Hok Esb]. split; [done|]. intros d' Hr.
    pose proof (recovery_recovers _ _ _ Hr Hok) as Hd. unfold outside in Hd. rewrite Esb in Hd.
    destruct Hs as [[Ha _]|[Ha _]]; [left|right]; intros b Hb; rewrite Hd by done; by apply Ha.
Qed.

(** C6: [initlog] on a disk with a log that [commit] left returns with the logged blocks
    copied home and the log empty, both in memory and on the disk; when the power fails
    on the way, the disk can be recovered again and stands for the same blocks. *)
Theorem initlog_recovers `{KernelSyms} stop v cur c sz k d h rs :
  caller v cur c → machine cur c sz k d → disk_ok sz d → hw_ok h v →
  match @initlog (crash_rw stop) 1 (at_hw k h rs) with
  | Ok _ w => lh_n (klog (ks w)) = 0 ∧ log_start (klog (ks w)) = sb_log d ∧ hdr_n (disk (ks w) (sb_log d)) = 0 ∧
      ∀ b, outside d b → disk (ks w) b = recovered (sb_log d) d b
  | Switched w => disk_ok sz (disk (ks w)) ∧ sb_log (disk (ks w)) = sb_log d ∧
      ∀ b, outside d b → recovered (sb_log d) (disk (ks w)) b = recovered (sb_log d) d b
  | _ => False
  end.
Proof.
  intros Hcl Hm Hd Hh. pose proof (survives_initlog stop v cur c Hcl sz k d Hm Hd h rs Hh) as Hs.
  destruct (initlog 1 (at_hw k h rs)) as [[] w| | | |w|]; try done.
  - destruct Hs as (_ & _ & l & d1 & Hc & Hn & _ & Hst & Hz & _ & HR). by destruct (cst_klog _ _ _ _ _ _ _ Hc) as [-> ->].
  - destruct Hs as [ES HR]. by destruct (disk_ok_same sz d _ Hd ES HR).
Qed.

(** ** A disk and a transaction on it *)

#[local] Existing Instance image_syms.

Definition zero_block : list Z := replicate (Z.to_nat BSIZE) 0.
(** The log starts at block 2. *)
Definition demo_disk (b : Z) : list Z := if b =? 1 then put32 zero_block 16 2 else zero_block.
(** Block 60 has been changed. *)
Definition new_block : list Z := put32 zero_block 0 77.
Definition demo_dirty : gmap Z (list Z) := {[60 := new_block]}.
Definition demo_buf : buf :=
  (fresh_buf 0) <| b_flags := Z.lor B_VALID B_DIRTY |> <| b_dev := 1 |> <| b_blockno := 60 |> <| b_data := new_block |>.
Definition demo_log : log := mkLog 2 31 0 1 1 1 (60 :: replicate 29 0).
Definition commit_kern : kern := (disk_kern demo_disk) <| bcache ::= <[0%nat := demo_buf]> |> <| klog := demo_log |>.

Lemma commit_lookup i x : (i < NBUFn)%nat → bcache commit_kern !! i = Some x → i = 0%nat ∧ x = demo_buf ∨ x = fresh_buf i.
Proof.
  intros Hi Hx. unfold commit_kern in Hx. cbn in Hx. destruct i as [|i].
  - left. by injection Hx as <-.
  - right. by apply (fresh_lookup (S i)).
Qed.

Lemma commit_cst : cst 0 disk_proc commit_kern demo_disk demo_dirty ∅ commit_kern.
Proof.
  exists (hw commit_kern), (procs commit_kern), (bcache commit_kern). split_and!; [done|done|]. split.
  - exists (reverse (seq 0 NBUFn)). split; [done|by vm_compute|apply (bool_decide_unpack _); by vm_compute|].
    intros i. rewrite elem_of_reverse, elem_of_seq. lia.
  - intros i j x y Hi Hj Hx Hy. destruct (commit_lookup i x Hi Hx) as [[-> ->]| ->]; [|done].
    by destruct (commit_lookup j y Hj Hy) as [[-> ->]| ->].
  - done.
  - intros i x Hi Hx _. destruct (commit_lookup i x Hi Hx) as [[-> ->]| ->]; [|done].
    split; [done|]. rewrite decide_True by done. by vm_compute.
  - intros b [x Hx]. unfold demo_dirty in Hx. apply lookup_singleton_Some in Hx as [<- _]. exists 0%nat, demo_buf. split_and!; [unfold NBUFn; lia|done..].
Qed.

Lemma demo_homes i : 0 ≤ i < 1 → home demo_log i = 60.
Proof. intros Hi. assert (i = 0) as -> by lia. done. Qed.

Lemma demo_commit_pre : commit_pre 0 disk_proc commit_kern demo_disk demo_dirty.
Proof.
  split; try done.
  - split; try done; simpl.
    + intros i Hi. rewrite demo_homes by done. unfold in_log, demo_log, LOGSIZE, MAXOPBLOCKS. simpl. lia.
    + intros i j Hi Hj _. lia.
  - apply commit_cst.
  - unfold demo_dirty. rewrite map_size_singleton. unfold NBUFn. lia.
  - intros b [x Hx]. unfold demo_dirty in Hx. apply lookup_singleton_Some in Hx as [<- _]. exists 0. split; [simpl; lia|done].
  - split_and!; [done|by vm_compute|]. intros i Hi. simpl (klog _). by rewrite demo_homes.
Qed.

(** The power fails once the header is on the disk. *)
Definition after_header (k : kern) (_ : nat) : bool := hdr_n (disk k 2) =? 1.

Lemma demo_commit_returns : returns (@commit (crash_rw (λ _ _, false)) (at_hw commit_kern (run_hw 0) [])) = true.
Proof. by vm_compute. Qed.
Lemma demo_commit_stops :
  match @commit (crash_rw after_header) (at_hw commit_kern (run_hw 0) []) with Switched w => hdr_n (disk (ks w) 2) | _ => 0 end = 1.
Proof. by vm_compute. Qed.

Lemma commit_atomic_witness :
  (∃ w, @commit (crash_rw (λ _ _, false)) (at_hw commit_kern (run_hw 0) []) = Ok tt w ∧ disk (ks w) 60 = new_block) ∧
  ∃ w, @commit (crash_rw after_header) (at_hw commit_kern (run_hw 0) []) = Switched w ∧ hdr_n (disk (ks w) 2) = 1 ∧
    ∀ d', recovery 1000 (disk (ks w)) d' → d' 60 = zero_block ∨ d' 60 = new_block.
Proof.
  assert (¬ in_log demo_log 60) as H60 by (unfold in_log, demo_log, LOGSIZE, MAXOPBLOCKS; simpl; lia). split.
  - pose proof (commit_atomic (λ _ _, false) (run_view 0) 0 disk_proc commit_kern demo_disk demo_dirty (run_hw 0) []
      disk_caller demo_commit_pre (run_hw_ok 0)) as Hw. pose proof demo_commit_returns as Hr.
    destruct (commit _) as [[] w| | | |w|]; try done. exists w. split; [done|]. destruct Hw as (_ & _ & ->); [done|by vm_compute].
  - pose proof (commit_atomic after_header (run_view 0) 0 disk_proc commit_kern demo_disk demo_dirty (run_hw 0) []
      disk_caller demo_commit_pre (run_hw_ok 0)) as Hw. pose proof demo_commit_stops as Hr.
    destruct (commit _) as [[] w| | | |w|]; try done. exists w. split_and!; [done|done|].
    intros d' Hd. destruct Hw as [_ Hw]. destruct (Hw d' Hd) as [Ho|Hn]; [left; by rewrite Ho|right; by rewrite Hn].
Defined.

(** A committed transaction left in the log: block 3 is to be copied to block 60. *)
Definition logged_disk (b : Z) : list Z :=
  if b =? 2 then put32 (put32 zero_block 0 1) 4 60 else if b =? 3 then new_block else demo_disk b.

Lemma logged_machine : machine 0 disk_proc 1000 (disk_kern logged_disk) logged_disk.
Proof. split; [apply disk_kern_cst|done|done]. Qed.

Lemma logged_disk_ok : disk_ok 1000 logged_disk.
Proof.
  assert (sb_log logged_disk = 2) as E by (by vm_compute).
  assert (hdr_n (logged_disk 2) = 1) as En by (by vm_compute).
  assert (∀ i, 0 ≤ i < 1 → hdr_home (logged_disk 2) i = 60) as Eh.
  { intros i Hi. assert (i = 0) as -> by lia. by vm_compute. }
  split; rewrite E; [unfold LOGSIZE, MAXOPBLOCKS, two31; lia|]. split; rewrite ?En.
  - by vm_compute.
  - unfold LOGSIZE, MAXOPBLOCKS. lia.
  - intros i Hi. rewrite Eh by done. unfold LOGSIZE, MAXOPBLOCKS. lia.
  - intros i j Hi Hj _. lia.
Qed.

Lemma logged_init_returns : returns (@initlog (crash_rw (λ _ _, false)) 1 (at_hw (disk_kern logged_disk) (run_hw 0) [])) = true.
Proof. by vm_compute. Qed.

Lemma initlog_recovers_witness : ∃ w,
  @initlog (crash_rw (λ _ _, false)) 1 (at_hw (disk_kern logged_disk) (run_hw 0) []) = Ok tt w ∧
  disk (ks w) 60 = new_block ∧ hdr_n (disk (ks w) 2) = 0.
Proof.
  pose proof (initlog_recovers (λ _ _, false) (run_view 0) 0 disk_proc 1000 (disk_kern logged_disk) logged_disk (run_hw 0) []
    disk_caller logged_machine logged_disk_ok (run_hw_ok 0)) as Hw. pose proof logged_init_returns as Hr.
  destruct (initlog 1 _) as [[] w| | | |w|]; try done. exists w. destruct Hw as (_ & _ & Hn & Hd). split_and!; [done| |done].
  rewrite Hd; [by vm_compute|]. change (sb_log logged_disk) with (s32 (get32 (logged_disk 1) 16)). unfold outside.
  replace (sb_log logged_disk) with 2 by (by vm_compute). unfold LOGSIZE, MAXOPBLOCKS. lia.
Defined.
