(* ===== verification/TransProps.v ===== *)
(** * Transactions: begin_op, log_write and end_op

    A system call that changes blocks between [begin_op] and [end_op] changes all of
    them or none, whatever the moment at which the power fails. *)

From S2P Require Import Prelude Layout State Str Spinlock Kalloc Vm Sched Sleeplock Ports Memide Bio Log Uaccess Eval SchedProps BufList BioProps LogProps.

(** ** log_write *)

(** The header [l'] is [l] with block [b] recorded: absorbed when it was there already. *)
Definition recorded (l : log) (b : Z) (l' : log) : Prop :=
  l' = l ∧ (∃ i, 0 ≤ i < lh_n l ∧ home l i = b) ∨
  l' = l <| lh_block ::= insert (Z.to_nat (lh_n l)) b |> <| lh_n ::= λ n, n + 1 |> ∧ ∀ i, 0 ≤ i < lh_n l → home l i ≠ b.

Definition same_params (l l' : log) : Prop :=
  log_start l' = log_start l ∧ log_size l' = log_size l ∧ log_dev l' = log_dev l ∧
  log_outstanding l' = log_outstanding l ∧ log_committing l' = log_committing l.

Lemma recorded_homes k l b l' :
  log_ok k l → lh_n l < LOGSIZE → recorded l b l' →
  lh_n l ≤ lh_n l' ≤ lh_n l + 1 ∧ length (lh_block l') = LOGSIZEn ∧ same_params l l' ∧
  (∃ i, 0 ≤ i < lh_n l' ∧ home l' i = b) ∧ (∀ i, 0 ≤ i < lh_n l → home l' i = home l i) ∧
  (∀ i, lh_n l ≤ i < lh_n l' → home l' i = b ∧ ∀ j, 0 ≤ j < lh_n l → home l j ≠ b).
Proof.
  intros Hok Hlt. pose proof (lo_n _ _ Hok) as Hn. pose proof (lo_len _ _ Hok) as Hlen.
  intros [[-> Hi]|[-> Hno]].
  - split_and!; try done; try lia.
  - assert (home (l <| lh_block ::= insert (Z.to_nat (lh_n l)) b |> <| lh_n ::= λ n, n + 1 |>) (lh_n l) = b) as Eb.
    { unfold home. cbn. rewrite nth_lookup, list_lookup_insert_eq; [done|]. rewrite Hlen. unfold LOGSIZE, MAXOPBLOCKS, LOGSIZEn in *. lia. }
    split_and!; try done; cbn; try lia.
    + by rewrite length_insert.
    + exists (lh_n l). split; [lia|done].
    + intros i Hi. unfold home. cbn. rewrite !nth_lookup, list_lookup_insert_ne by lia. done.
    + intros i Hi. assert (i = lh_n l) as -> by lia. done.
Qed.

Lemma recorded_ok k l b l' :
  log_ok k l → lh_n l < LOGSIZE → 0 ≤ b < disksize (devs k) → ¬ in_log l b → recorded l b l' → log_ok k l'.
Proof.
  intros Hok Hlt Hb Hnl Hr. destruct (recorded_homes k l b l' Hok Hlt Hr) as (R1 & R2 & (R3 & _ & R4 & _) & _ & R6 & R7).
  pose proof (lo_n _ _ Hok) as Hn.
  assert (∀ i, 0 ≤ i < lh_n l' → 0 ≤ i < lh_n l ∨ lh_n l ≤ i < lh_n l') as Hsplit by lia.
  split.
  - rewrite R4. apply Hok.
  - lia.
  - done.
  - rewrite R3. apply Hok.
  - intros i Hi. unfold in_log. rewrite R3. destruct (Hsplit i Hi) as [Hi'|Hi'].
    + rewrite R6 by done. by apply (lo_home _ _ Hok).
    + by destruct (R7 i Hi') as [-> _].
  - intros i j Hi Hj E. destruct (Hsplit i Hi) as [Hi'|Hi'], (Hsplit j Hj) as [Hj'|Hj'].
    + apply (lo_inj _ _ Hok); [done..|]. by rewrite <- !R6.
    + destruct (R7 j Hj') as [Ej Hno]. rewrite R6, Ej in E by done. by destruct (Hno i Hi').
    + destruct (R7 i Hi') as [Ei Hno]. rewrite Ei, R6 in E by done. by destruct (Hno j Hj').
    + lia.
Qed.

Section LogWrite.
Context `{KernelSyms} (stop : kern → nat → bool).
#[local] Instance trans_driver : DiskDriver := crash_rw stop.
Variables (v : hwview) (cur : nat) (c : proc).
Hypothesis (Hcl : caller v cur c).

Lemma cst_mark_dirty vv k0 k d o h i b data :
  cst cur c k0 d o h k → h !! i = Some (b, data) →
  ∃ k', evals k vv (mod_buf i (λ x, x <| b_flags ::= λ f, Z.lor f B_DIRTY |>)) tt k' vv ∧ cst cur c k0 d (<[b := data]> o) h k'.
Proof.
  intros (hh & ps & bc & -> & Hps & Hca) Hi.
  destruct (ca_held _ _ _ _ _ Hca i b data Hi) as (x & Hlt & Hx & Hd & Hb & <- & Hf & Hlk).
  set (f := λ x, x <| b_flags ::= λ f, Z.lor f B_DIRTY |>).
  exists (bcs k0 ps (alter f i bc) d). split; [intros h1 rs Hv; by apply (bcs_mod_buf k0 ps bc d vv i _ h1 rs)|].
  exists (hw k0), ps, (<[i := f x]> bc). split_and!; [|done|].
  - rewrite (list_alter_insert _ _ _ x) by done. by keq.
  - eapply (cache_set c bc d o h); try done.
    + intros b' Hne. by rewrite lookup_insert_ne.
    + unfold f, flags_of. simpl. rewrite lookup_insert_eq, Hf. unfold flags_of. by destruct (o !! b).
    + by rewrite Hi.
Qed.

Lemma cst_wakeup vv k0 k d o h ch :
  L_ptable ∉ hv_held vv → L_ptable ∉ hv_others vv →
  cst cur c k0 d o h k → ∃ k', evals k vv (wakeup ch) tt k' vv ∧ cst cur c k0 d o h k'.
Proof.
  intros H1 H2 (hh & ps & bc & -> & Hps & Hca). exists (bcs k0 (woken ch <$> ps) bc d). split.
  - intros h1 rs Hv. destruct (evals_wakeup (bcs k0 ps bc d) vv ch) with h1 rs as (h2 & Hv2 & E); [apply Hps|done..|].
    exists h2. split; [done|]. exact E.
  - exists (hw k0), (woken ch <$> ps), bc. split_and!; [by keq| |done]. by apply procs_ok_woken; [apply Hcl|].
Qed.

Lemma evals_find_slot vv k l b :
  klog k = l → log_ok k l → 0 ≤ b < two31 →
  ∃ i, evals k vv (find_slot (S (S LOGSIZEn)) 0 b) i k vv ∧
    (0 ≤ i < lh_n l ∧ home l i = b ∨ i = lh_n l ∧ ∀ j, 0 ≤ j < lh_n l → home l j ≠ b).
Proof.
  intros <- Hok Hb. set (l := klog k) in *. pose proof (lo_n _ _ Hok) as Hn.
  assert (∀ fuel i, 0 ≤ i ≤ lh_n l → lh_n l - i < Z.of_nat fuel → (∀ j, 0 ≤ j < i → home l j ≠ b) →
    ∃ r, evals k vv (find_slot fuel i b) r k vv ∧ (0 ≤ r < lh_n l ∧ home l r = b ∨ r = lh_n l ∧ ∀ j, 0 ≤ j < lh_n l → home l j ≠ b)) as Hgen.
  { induction fuel as [|fuel IH]; intros i Hi Hf Hno; [lia|]. cbn [find_slot].
    destruct (Z.ltb_spec i (lh_n l)) as [Hlt|Hge].
    - assert (u32 (home l i) = home l i) as Eu.
      { pose proof (lo_home _ _ Hok i ltac:(lia)) as [Hh _]. destruct (lo_start _ _ Hok) as (_ & _ & Hd). apply u32_id. unfold is_u32, two31, two32 in *. lia. }
      destruct (Z.eqb_spec (home l i) b) as [E|E].
      + exists i. split; [|left; split; [lia|done]]. epure. fold l. destruct (Z.ltb_spec i (lh_n l)); [|lia].
        estep evals_rd_lh; [lia|apply (home_at k); [done|fold l; lia]|]. fold l. rewrite Eu, (proj2 (Z.eqb_eq _ _) E). apply evals_ret.
      + destruct (IH (i + 1)) as (r & Hr & Hcase); [lia|lia| |].
        { intros j Hj. destruct (decide (j = i)) as [->|]; [done|]. apply Hno. lia. }
        exists r. split; [|done]. epure. fold l. destruct (Z.ltb_spec i (lh_n l)); [|lia].
        estep evals_rd_lh; [lia|apply (home_at k); [done|fold l; lia]|]. fold l. by rewrite Eu, (proj2 (Z.eqb_neq _ _) E).
    - assert (i = lh_n l) as -> by lia. exists (lh_n l). split; [|by right]. epure. fold l.
      destruct (Z.ltb_spec (lh_n l) (lh_n l)); [lia|]. apply evals_ret. }
  apply Hgen; [lia| |intros; lia]. unfold LOGSIZE, MAXOPBLOCKS, LOGSIZEn in *. lia.
Qed.

Lemma evals_log_write k0 k d o h i b data :
  let l := klog k0 in
  cst cur c k0 d o h k → log_ok k0 l → lh_n l < LOGSIZE → lh_n l < log_size l - 1 → 1 ≤ log_outstanding l →
  h !! i = Some (b, data) → 0 ≤ b < disksize (devs k0) →
  ∃ k' l', evals k v (log_write i) tt k' v ∧ cst cur c (k0 <| klog := l' |>) d (<[b := data]> o) h k' ∧ recorded l b l'.
Proof.
  intros l Hc Hok Hn Hsz Hout Hi Hb. destruct (cst_klog _ _ _ _ _ _ _ Hc) as [El _]. fold l in El.
  destruct (lo_start _ _ Hok) as (_ & _ & Hds). pose proof (lo_n _ _ Hok) as Bn.
  assert (log_ok k l) as Hokk by (destruct Hc as (? & ? & ? & -> & _); destruct Hok; by split).
  destruct (evals_find_slot (v_hold L_log v) k l b El Hokk ltac:(lia)) as (r & Hfind & Hcase).
  destruct (cst_held cur c _ _ _ _ _ _ _ _ Hc Hi) as (x & Hx & Hxb & Hxd).
  assert (∃ l', recorded l b l' ∧ l' = (if r =? lh_n l then l <| lh_block ::= insert (Z.to_nat r) b |> <| lh_n ::= λ n, n + 1 |>
    else l <| lh_block ::= insert (Z.to_nat r) b |>)) as (l' & Hrec & El').
  { eexists. split; [|done]. destruct Hcase as [[Hr Eh]|[-> Hno]].
    - rewrite (proj2 (Z.eqb_neq r (lh_n l))) by lia. left. split; [|by exists r].
      assert (insert (Z.to_nat r) b (lh_block l) = lh_block l) as E; [|by destruct l; unfold set; cbn in *; rewrite E].
      apply list_insert_id. rewrite <- Eh. by apply (home_at k0 Hok).
    - rewrite Z.eqb_refl. by right. }
  destruct (cst_mod_log (v_hold L_log v) cur c k0 d o h k (λ l, l <| lh_block ::= insert (Z.to_nat r) b |>) Hc) as [He1 Hc1].
  set (k1 := k <| klog ::= λ l, l <| lh_block ::= insert (Z.to_nat r) b |> |>) in *.
  assert (∃ k2, evals k1 (v_hold L_log v) (when (r =? lh_n l) (mod_log (λ l, l <| lh_n ::= λ n, n + 1 |>))) tt k2 (v_hold L_log v) ∧
    cst cur c (k0 <| klog := l' |>) d o h k2) as (k2 & He2 & Hc2).
  { rewrite El'. destruct (r =? lh_n l).
    - destruct (cst_mod_log (v_hold L_log v) cur c _ d o h k1 (λ l, l <| lh_n ::= λ n, n + 1 |>) Hc1) as [He2 Hc2]. eexists. split; [exact He2|exact Hc2].
    - exists k1. split; [apply evals_ret|exact Hc1]. }
  destruct (cst_mark_dirty (v_hold L_log v) _ k2 d o h i b data Hc2 Hi) as (k3 & He3 & Hc3).
  exists k3, l'. split_and!; [|exact Hc3|exact Hrec].
  destruct (lookup_lt_is_Some_2 (lh_block l) (Z.to_nat r)) as [z Hz]; [rewrite (lo_len _ _ Hok); unfold LOGSIZE, MAXOPBLOCKS, LOGSIZEn in *; lia|].
  unfold log_write. epure. rewrite El. rewrite (proj2 (Z.leb_gt _ _) Hn), (proj2 (Z.leb_gt (log_size l - 1) (lh_n l))) by lia. cbn [orb].
  rewrite (proj2 (Z.ltb_ge _ _) Hout). estep evals_acquire; [rewrite (cl_held _ _ _ Hcl); set_solver|rewrite (cl_others _ _ _ Hcl); set_solver|].
  estep evals_rd_buf; [exact Hx|]. rewrite Hxb. estep Hfind. unfold wr_lh.
  epure. eapply evals_bind.
  { apply evals_rd_lh; [lia|rewrite El; exact Hz]. }
  cbv beta. rewrite s32_id by (unfold two31 in *; lia). estep He1. epure. change (klog k1) with ((klog k) <| lh_block ::= insert (Z.to_nat r) b |>). rewrite El. cbn [lh_n].
  change (lh_n (l <| lh_block ::= insert (Z.to_nat r) b |>)) with (lh_n l).
  estep He2. estep He3. apply evals_release_hold. rewrite (cl_held _ _ _ Hcl). set_solver.
Qed.
End LogWrite.

(** ** A transaction *)

(** A change of block [w.1] to [w.2] under the log, as the file system makes it. *)
Definition trans_write `{KernelSyms} `{DiskDriver} (w : Z * list Z) : K unit :=
  i ← bread 1 w.1; _ ← mod_data i (λ _, w.2); _ ← log_write i; brelse i.
Definition transaction `{KernelSyms} `{DiskDriver} (ws : list (Z * list Z)) : K unit :=
  _ ← begin_op; _ ← for_each ws trans_write; end_op.

(** The disk after the changes. *)
Definition after (d : Z → list Z) (ws : list (Z * list Z)) : Z → list Z := foldl (λ d w, upd_disk d w.1 w.2) d ws.

Lemma after_cong d1 d2 ws b : d1 b = d2 b → after d1 ws b = after d2 ws b.
Proof.
  unfold after. revert d1 d2. induction ws as [|w ws IH]; intros d1 d2 E; [done|]. simpl. apply IH. unfold upd_disk. by destruct (_ =? _).
Qed.

(** No operation is in progress and the log is empty, in memory and on the disk. *)
Record quiet (cur : nat) (c : proc) (k : kern) (d : Z → list Z) : Prop := mkQuiet {
  qu_cache : cst cur c k d ∅ ∅ k;
  qu_log : log_ok k (klog k);
  qu_idle : lh_n (klog k) = 0 ∧ log_outstanding (klog k) = 0 ∧ log_committing (klog k) = 0;
  qu_size : LOGSIZE ≤ log_size (klog k);
  qu_sb : sb_log d = log_start (klog k) ∧ 1 < sb_log d;
  qu_len : length (d (log_start (klog k))) = Z.to_nat BSIZE;
  qu_empty : hdr_n (d (log_start (klog k))) = 0
}.

(** The blocks an operation may change. *)
Definition may_write (sz : Z) (l : log) (w : Z * list Z) : Prop := 0 ≤ w.1 < sz ∧ ¬ in_log l w.1 ∧ w.1 ≠ 1.

Lemma cst_self cur c k0 d o h k : cst cur c k0 d o h k → cst cur c k d o h k.
Proof. intros (hh & ps & bc & -> & Hps & Hca). exists hh, ps, bc. split_and!; [by keq|done|done]. Qed.

Lemma cst_trans cur c k0 d o h k d' o' h' k' : cst cur c k0 d o h k → cst cur c k d' o' h' k' → cst cur c k0 d' o' h' k'.
Proof.
  intros (hh & ps & bc & -> & _ & _) (hh' & ps' & bc' & -> & Hps & Hca). exists hh', ps', bc'. split_and!; [by keq|done|done].
Qed.

Lemma quiet_hw cur c k d h : quiet cur c k d → quiet cur c (k <| hw := h |>) d.
Proof.
  intros []. split; try done; [|destruct qu_log0; by split].
  destruct qu_cache0 as (hh & ps & bc & E & Hps & Hca). exists h, ps, bc. split_and!; [|done..]. rewrite E at 1. by keq.
Qed.

Section Transaction.
Context `{KernelSyms} (stop : kern → nat → bool).
#[local] Instance op_driver : DiskDriver := crash_rw stop.
Variables (v : hwview) (cur : nat) (c : proc).
Hypothesis (Hcl : caller v cur c).
Variables (k0 : kern) (d : Z → list Z).
Hypothesis (Hq : quiet cur c k0 d).

Let L := klog k0.

(** The changes [ws] have been made in memory, under the header [l]; the log is
    otherwise as [lr] says. *)
Record in_trans (lr : log) (ws : list (Z * list Z)) (l : log) (o : gmap Z (list Z)) (k : kern) : Prop := mkInTrans {
  it_cache : cst cur c (k0 <| klog := l |>) d o ∅ k;
  it_log : log_ok (k0 <| klog := l |>) l;
  it_par : same_params lr l;
  it_n : lh_n l ≤ Z.of_nat (length ws);
  it_home : ∀ i, 0 ≤ i < lh_n l → home l i ≠ 1;
  it_dirty : ∀ b, is_Some (o !! b) → ∃ i, 0 ≤ i < lh_n l ∧ b = home l i;
  it_size : (size o ≤ length ws)%nat;
  it_block : ∀ b, block d o b = after d ws b
}.

Lemma in_trans_hw lr ws l o k h : in_trans lr ws l o k → in_trans lr ws l o (k <| hw := h |>).
Proof. intros []. split; try done. by apply cst_hw. Qed.

(** The log while one operation is in progress. *)
Let L1 := L <| log_outstanding := 1 |>.

Lemma survives_begin_op k :
  cst cur c k0 d ∅ ∅ k → survives k v begin_op v (λ _ k', ∃ l, in_trans L1 [] l ∅ k') (λ d', d' = d).
Proof.
  intros Hc. destruct (cst_klog _ _ _ _ _ _ _ Hc) as [El _]. destruct (qu_idle _ _ _ _ Hq) as (I1 & I2 & I3). fold L in El, I1, I2, I3.
  destruct (cst_mod_log (v_hold L_log v) cur c k0 d ∅ ∅ k (λ l, l <| log_outstanding ::= λ n, n + 1 |>) Hc) as [He Hc1].
  eapply (survives_of_evals _ k v tt (k <| klog ::= λ l, l <| log_outstanding ::= λ n, n + 1 |> |>) v).
  - unfold begin_op. estep evals_acquire; [rewrite (cl_held _ _ _ Hcl); set_solver|rewrite (cl_others _ _ _ Hcl); set_solver|].
    apply evals_resumes. intros n. cbn [begin_op_loop]. epure. rewrite El, I3. cbn [truthy Z.eqb negb]. rewrite I1, I2.
    change (LOGSIZE <? 0 + (0 + 1) * MAXOPBLOCKS) with false. cbv iota. estep He. apply evals_release_hold. rewrite (cl_held _ _ _ Hcl). set_solver.
  - intros h. exists (L <| log_outstanding ::= λ n, n + 1 |>). apply in_trans_hw. split; try done.
    + destruct (qu_log _ _ _ _ Hq). by split.
    + unfold same_params. cbn. by rewrite I2.
    + cbn. by rewrite I1.
    + cbn. rewrite I1. lia.
    + intros b [x Hx]. done.
Qed.

(** A block read under the log. *)
Lemma trans_bread ws l o k b {B} (f : nat → K B) Q :
  in_trans L1 ws l o k → b < disksize (devs k0) → (length ws < Z.to_nat MAXOPBLOCKS)%nat →
  (∀ i k1, cst cur c (k0 <| klog := l |>) d o {[i := (b, after d ws b)]} k1 → survives k1 v (f i) v Q (λ d', d' = d)) →
  survives k v (bread 1 b ≫= f) v Q (λ d', d' = d).
Proof.
  intros Hit Hb Hlen Hf. pose proof (it_size _ _ _ _ _ Hit) as Hsz. assert (Z.to_nat MAXOPBLOCKS = 10%nat) as EM by done.
  eapply (go_bread stop v cur c Hcl); [apply (it_cache _ _ _ _ _ Hit)|apply not_held_empty|rewrite map_size_empty; unfold NBUFn; lia|done|done|].
  intros i k1 _ Hc1. rewrite (it_block _ _ _ _ _ Hit) in Hc1. by apply Hf.
Qed.

(** A held block recorded in the log with the data [data], and given back. *)
Lemma trans_log ws l o k k2 i b data :
  in_trans L1 ws l o k → cst cur c (k0 <| klog := l |>) d o {[i := (b, data)]} k2 →
  may_write (disksize (devs k0)) L (b, data) → (length ws < Z.to_nat MAXOPBLOCKS)%nat →
  survives k2 v (_ ← log_write i; brelse i) v (λ _ k', ∃ l' o', in_trans L1 (ws ++ [(b, data)]) l' o' k') (λ d', d' = d).
Proof.
  intros [_ Hok Hpar Hn Hh1 Hdir Hsz Hbl] Hc2 (Hw1 & Hw2 & Hw3) Hlen. cbn [fst snd] in *.
  destruct (id Hpar) as (P1 & P2 & P3 & P4 & P5). pose proof (qu_size _ _ _ _ Hq) as Hqs. fold L in Hqs. cbn in P1, P2, P4.
  assert (LOGSIZE = 30 ∧ Z.to_nat MAXOPBLOCKS = 10%nat) as [EL EM] by done.
  destruct (evals_log_write v cur c Hcl _ k2 d o _ i b data Hc2 Hok) as (k3 & l' & He & Hc3 & Hrec);
    [cbn; lia|cbn; lia|cbn; lia|apply lookup_insert_eq|done|].
  sstep He. cbn in Hrec. destruct (recorded_homes _ l b l' Hok ltac:(lia) Hrec) as (R1 & R2 & (R3 & R3a & R3b & R3c & R3d) & R5 & R6 & R7).
  assert (block d (<[b := data]> o) b = data) as Eb by (unfold block; by rewrite lookup_insert_eq).
  eapply (end_brelse stop v cur c Hcl _ _ d (<[b := data]> o) _ i b); [exact Hc3|rewrite Eb; apply lookup_insert_eq|].
  intros k4 Hc4. rewrite delete_singleton_eq in Hc4. exists l', (<[b := data]> o). split.
  - exact Hc4.
  - assert (log_ok (k0 <| klog := l |>) l') as Hok'; [|destruct Hok'; by split].
    eapply recorded_ok; [exact Hok|lia|done| |exact Hrec]. unfold in_log. rewrite P1. exact Hw2.
  - unfold same_params. by rewrite R3, R3a, R3b, R3c, R3d.
  - rewrite length_app. cbn [length]. lia.
  - intros j Hj. destruct (decide (j < lh_n l)); [rewrite R6 by lia; apply Hh1; lia|]. by destruct (R7 j ltac:(lia)) as [-> _].
  - intros b' Hb'. destruct (decide (b' = b)) as [->|]; [destruct R5 as (j & Hj & E); by exists j|].
    rewrite lookup_insert_ne in Hb' by done. destruct (Hdir b' Hb') as (j & Hj & E). exists j. split; [lia|]. by rewrite R6.
  - rewrite length_app. cbn [length]. rewrite map_size_insert. destruct (o !! b); simpl; lia.
  - intros b'. unfold after. rewrite foldl_app. cbn [foldl]. fold (after d ws). unfold upd_disk. cbn [fst snd].
    destruct (Z.eqb_spec b' b) as [->|Hne]; [done|]. rewrite <- Hbl. unfold block. by rewrite lookup_insert_ne.
Qed.

(** A block changed by [g]. *)
Lemma trans_modify ws l o k b g :
  in_trans L1 ws l o k → may_write (disksize (devs k0)) L (b, g (after d ws b)) → (length ws < Z.to_nat MAXOPBLOCKS)%nat →
  survives k v (i ← bread 1 b; _ ← mod_data i g; _ ← log_write i; brelse i) v
    (λ _ k', ∃ l' o', in_trans L1 (ws ++ [(b, g (after d ws b))]) l' o' k') (λ d', d' = d).
Proof.
  intros Hit Hw Hlen. eapply trans_bread; [done|apply Hw|done|]. intros i k1 Hc1.
  eapply (go_mod_data v cur c); [exact Hc1|apply lookup_insert_eq|]. intros k2 Hc2. rewrite insert_singleton_eq in Hc2.
  by eapply trans_log.
Qed.

Lemma survives_trans_write ws w l o k :
  in_trans L1 ws l o k → may_write (disksize (devs k0)) L w → (length ws < Z.to_nat MAXOPBLOCKS)%nat →
  survives k v (trans_write w) v (λ _ k', ∃ l' o', in_trans L1 (ws ++ [w]) l' o' k') (λ d', d' = d).
Proof. destruct w as [b data]. intros. by eapply (trans_modify ws l o k b (λ _, data)). Qed.

Lemma survives_trans_writes ws :
  Forall (may_write (disksize (devs k0)) L) ws →
  ∀ ws0 l o k, in_trans L1 ws0 l o k → (length ws0 + length ws ≤ Z.to_nat MAXOPBLOCKS)%nat →
  survives k v (for_each ws trans_write) v (λ _ k', ∃ l' o', in_trans L1 (ws0 ++ ws) l' o' k') (λ d', d' = d).
Proof.
  induction 1 as [|w ws Hw _ IH]; intros ws0 l o k Hit Hlen; cbn [for_each length] in *.
  - apply survives_ret. intros h. rewrite app_nil_r. exists l, o. by apply in_trans_hw.
  - eapply survives_bind; [eapply survives_trans_write; [exact Hit|done|lia]|]. intros [] k1 (l1 & o1 & Hit1). cbv beta.
    replace (ws0 ++ w :: ws) with ((ws0 ++ [w]) ++ ws) by (by rewrite <- app_assoc). eapply IH; [exact Hit1|].
    rewrite length_app. cbn [length]. lia.
Qed.

Let S0 := log_start L.
Let sz := disksize (devs k0).

(** What the disk may be after a loss of power: recovery has none or all of [ws]. *)
Definition old_or_new (ws : list (Z * list Z)) (d' : Z → list Z) : Prop :=
  disk_ok sz d' ∧ sb_log d' = S0 ∧
  ((∀ b, ¬ in_log L b → recovered S0 d' b = d b) ∨ (∀ b, ¬ in_log L b → recovered S0 d' b = after d ws b)).

Lemma old_now ws : old_or_new ws d.
Proof.
  destruct (qu_sb _ _ _ _ Hq) as [E1 E2]. fold L in E1. fold S0 in E1. destruct (lo_start _ _ (qu_log _ _ _ _ Hq)) as (B1 & B2 & B3). fold L in B1, B2, B3.
  split_and!; [|done|left; intros b _; rewrite recovered_none; [done|apply (qu_empty _ _ _ _ Hq)]].
  split; rewrite E1; [unfold S0, sz in *; lia|]. apply disk_log_empty; [apply (qu_len _ _ _ _ Hq)|apply (qu_empty _ _ _ _ Hq)].
Qed.

(** The disk on which the transaction is complete. *)
Definition complete (ws : list (Z * list Z)) (d' : Z → list Z) : Prop :=
  (∀ b, ¬ in_log L b → d' b = after d ws b) ∧ hdr_n (d' S0) = 0 ∧ length (d' S0) = Z.to_nat BSIZE.

Lemma survives_commit_trans lr ws l o k :
  Forall (may_write sz L) ws → (length ws ≤ Z.to_nat MAXOPBLOCKS)%nat →
  in_trans lr ws l o k → log_start lr = S0 → klog k = l →
  survives k v commit v (λ _ k', ∃ d', cst cur c (k0 <| klog := l <| lh_n := 0 |> |>) d' ∅ ∅ k' ∧ complete ws d') (old_or_new ws).
Proof.
  intros Hws Hlen [Hc Hok Hpar Hn Hh1 Hdir Hsz Hbl] Elr El. destruct (id Hpar) as (P1 & P2 & P3 & P4 & P5). rewrite Elr in P1.
  pose proof (lo_n _ _ Hok) as Bn. destruct (qu_sb _ _ _ _ Hq) as [Q1 Q2]. fold L in Q1. fold S0 in Q1.
  destruct (decide (lh_n l = 0)) as [E0|E0].
  - assert (o = ∅) as ->.
    { apply map_empty. intros b. apply eq_None_not_Some. intros Hs. destruct (Hdir b Hs) as (i & Hi & _). lia. }
    eapply survives_of_evals; [unfold commit; epure; rewrite El, E0; apply evals_ret|]. intros h. exists d. split_and!.
    + replace (l <| lh_n := 0 |>) with l by (rewrite <- E0; by destruct l). by apply cst_hw.
    + split_and!; [intros b _; by rewrite <- Hbl|apply (qu_empty _ _ _ _ Hq)|apply (qu_len _ _ _ _ Hq)].
  - assert (devs k = devs k0) as Ed by (by destruct Hc as (? & ? & ? & -> & _)).
    assert (commit_pre cur c k d o) as Hpre.
    { split; rewrite ?El, ?P1; try done.
      - destruct Hok. split; rewrite ?Ed; done.
      - lia.
      - by eapply cst_self.
      - assert (Z.to_nat MAXOPBLOCKS = 10%nat) by done. unfold NBUFn. lia.
      - apply (qu_len _ _ _ _ Hq).
      - apply (qu_empty _ _ _ _ Hq). }
    assert (∀ b, in_log l b ↔ in_log L b) as Hin by (intros b; unfold in_log; by rewrite P1).
    eapply survives_mono; [apply (survives_commit stop v cur c Hcl k d o Hpre)|..].
    + rewrite El, P1. intros [] k' (d' & Hc' & D1 & D2 & D3). exists d'.
      split; [|split_and!; [intros b Hb; rewrite <- Hbl; apply D1; by rewrite Hin|exact D2|exact D3]].
      eapply cst_trans; [|exact Hc']. destruct Hc as (hh & ps & bc & -> & Hps & Hca). exists hh, ps, bc.
      split_and!; [by keq|done|exact Hca].
    + intros d' Hd'. destruct (commit_disk_ok cur c k d o d' Hpre Hd') as [D1 D2]. rewrite Ed in D1. rewrite El, P1 in D2.
      split_and!; [exact D1|exact D2|]. destruct Hd' as [[Ha _]|[Ha _]]; unfold all_old, all_new in Ha; rewrite El, P1 in Ha;
        [left|right]; intros b Hb; unfold S0; rewrite Ha by (by rewrite Hin); [done|apply Hbl].
Qed.

Lemma after_other ws b : Forall (λ w, w.1 ≠ b) ws → after d ws b = d b.
Proof.
  unfold after. intros Hf. induction ws as [|w ws IH] using rev_ind; [done|]. apply Forall_app in Hf as [Hf Hw]. apply Forall_cons_1 in Hw as [Hw _].
  rewrite foldl_app. cbn [foldl]. unfold upd_disk at 1. rewrite (proj2 (Z.eqb_neq b w.1)) by (intros ->; done). by apply IH.
Qed.

Lemma quiet_again ws l d' k :
  Forall (may_write sz L) ws → cst cur c (k0 <| klog := l |>) d' ∅ ∅ k → log_ok (k0 <| klog := l |>) l → complete ws d' →
  lh_n l = 0 → log_start l = S0 → log_size l = log_size L → log_outstanding l = 0 → log_committing l = 0 →
  quiet cur c k d' ∧ klog k = l ∧ devs k = devs k0.
Proof.
  intros Hws Hc Hok (C1 & C2 & C3) E1 E2 E3 E4 E5. destruct (cst_klog _ _ _ _ _ _ _ Hc) as [El _]. cbn in El.
  assert (devs k = devs k0) as Ed by (by destruct Hc as (? & ? & ? & -> & _)). split; [|done].
  destruct (qu_sb _ _ _ _ Hq) as [Q1 Q2]. fold L in Q1. fold S0 in Q1.
  assert (d' 1 = d 1) as D1.
  { rewrite C1 by (unfold in_log; fold S0; lia). apply after_other. eapply Forall_impl; [exact Hws|]. by intros w (_ & _ & ?). }
  split; rewrite ?El, ?E2.
  - by eapply cst_self.
  - destruct Hok. split; rewrite ?Ed; done.
  - done.
  - rewrite E3. apply (qu_size _ _ _ _ Hq).
  - assert (sb_log d' = sb_log d) as -> by (unfold sb_log; by rewrite D1). done.
  - done.
  - done.
Qed.

Lemma survives_end_op ws l o k :
  Forall (may_write sz L) ws → (length ws ≤ Z.to_nat MAXOPBLOCKS)%nat → in_trans L1 ws l o k →
  survives k v end_op v
    (λ _ k', ∃ d', quiet cur c k' d' ∧ complete ws d' ∧ log_start (klog k') = S0 ∧ devs k' = devs k0) (old_or_new ws).
Proof.
  intros Hws Hlen Hit. destruct (id Hit) as [Hc Hok Hpar Hn Hh1 Hdir Hsz Hbl]. destruct (id Hpar) as (P1 & P2 & P3 & P4 & P5). cbn in P1, P2, P3, P4, P5.
  destruct (qu_idle _ _ _ _ Hq) as (_ & _ & I3). fold L in I3. rewrite I3 in P5. destruct (cst_klog _ _ _ _ _ _ _ Hc) as [El _]. cbn in El.
  assert (L_log ∉ hv_held v ∧ L_log ∉ hv_others v) as [F1 F2] by (rewrite (cl_held _ _ _ Hcl), (cl_others _ _ _ Hcl); split; set_solver).
  assert (L_ptable ∉ hv_held (v_hold L_log v) ∧ L_ptable ∉ hv_others (v_hold L_log v)) as [F3 F4]
    by (simpl; rewrite (cl_held _ _ _ Hcl), (cl_others _ _ _ Hcl); split; set_solver).
  unfold end_op. sstep evals_acquire; [done..|].
  destruct (cst_mod_log (v_hold L_log v) cur c _ d o ∅ k (λ l, l <| log_outstanding ::= λ n, n - 1 |>) Hc) as [He1 Hc1]. sstep He1.
  set (k1 := k <| klog ::= _ |>) in *. spure. change (klog k1) with ((klog k) <| log_outstanding ::= λ n, n - 1 |>). rewrite El. cbn [log_committing log_outstanding].
  change (log_committing (l <| log_outstanding ::= λ n, n - 1 |>)) with (log_committing l).
  change (log_outstanding (l <| log_outstanding ::= λ n, n - 1 |>)) with (log_outstanding l - 1). rewrite P4, P5. change (1 - 1 =? 0) with true. cbn [truthy Z.eqb negb].
  destruct (cst_mod_log (v_hold L_log v) cur c _ d o ∅ k1 (λ l, l <| log_committing := 1 |>) Hc1) as [He2 Hc2]. sstep He2.
  set (k2 := k1 <| klog ::= _ |>) in *. spure. sstep evals_release_hold; [done|]. unfold when.
  set (l2 := l <| log_outstanding ::= λ n, n - 1 |> <| log_committing := 1 |>).
  assert (klog k2 = l2) as El2.
  { change (klog k2) with ((klog k) <| log_outstanding ::= λ n, n - 1 |> <| log_committing := 1 |>). by rewrite El. }
  eapply survives_bind.
  { apply (survives_commit_trans l2 ws l2 o k2 Hws Hlen); [|done|done]. split; try done.
    - destruct Hok. by split. }
  intros [] k3 (d3 & Hc3 & Hcomp). cbv beta. sstep evals_acquire; [done..|].
  destruct (cst_mod_log (v_hold L_log v) cur c _ d3 ∅ ∅ k3 (λ l, l <| log_committing := 0 |>) Hc3) as [He4 Hc4]. sstep He4.
  destruct (cst_wakeup v cur c Hcl (v_hold L_log v) _ _ d3 ∅ ∅ ch_log F3 F4 Hc4) as (k5 & He5 & Hc5). sstep He5.
  eapply survives_of_evals; [by apply evals_release_hold|]. intros h. exists d3.
  set (l5 := l2 <| lh_n := 0 |> <| log_committing := 0 |>).
  destruct (quiet_again ws l5 d3 (k5 <| hw := h |>) Hws) as (Hq5 & E5 & Ed5); try done.
  - by apply cst_hw.
  - destruct Hok. split; try done; simpl; unfold LOGSIZE, MAXOPBLOCKS; intros; lia.
  - simpl. lia.
  - split_and!; [done|done| |done]. by rewrite E5.
Qed.

Lemma survives_transaction ws k :
  Forall (may_write sz L) ws → (length ws ≤ Z.to_nat MAXOPBLOCKS)%nat → cst cur c k0 d ∅ ∅ k →
  survives k v (transaction ws) v
    (λ _ k', ∃ d', quiet cur c k' d' ∧ complete ws d' ∧ log_start (klog k') = S0 ∧ devs k' = devs k0) (old_or_new ws).
Proof.
  intros Hws Hlen Hc. unfold transaction. eapply survives_bind.
  { eapply survives_mono; [by apply survives_begin_op|intros a k' HQ; exact HQ|]. intros d' ->. apply old_now. }
  intros [] k1 (l1 & Hit1). cbv beta. eapply survives_bind.
  { eapply survives_mono; [eapply (survives_trans_writes ws Hws [] l1 ∅ k1 Hit1); simpl; lia|intros a k' HQ; exact HQ|]. intros d' ->. apply old_now. }
  intros [] k2 (l2 & o2 & Hit2). cbv beta. by eapply survives_end_op.
Qed.

End Transaction.

(** ** Claim *)

Definition ok_trans (k : kern) (ws : list (Z * list Z)) : Prop :=
  Forall (may_write (disksize (devs k)) (klog k)) ws ∧ (length ws ≤ Z.to_nat MAXOPBLOCKS)%nat.

Lemma after_app d ws1 ws2 : after d (ws1 ++ ws2) = after (after d ws1) ws2.
Proof. apply foldl_app. Qed.

Section Transactions.
Context `{KernelSyms} (stop : kern → nat → bool).
#[local] Instance list_driver : DiskDriver := crash_rw stop.
Variables (v : hwview) (cur : nat) (c : proc).
Hypothesis (Hcl : caller v cur c).
Variables (k0 : kern).
Let L := klog k0.
Let S0 := log_start L.
Let sz := disksize (devs k0).

Lemma in_log_start l b : log_start l = S0 → in_log l b ↔ in_log L b.
Proof. intros E. unfold in_log. by rewrite E. Qed.

Lemma ok_trans_start k ws : log_start (klog k) = S0 → devs k = devs k0 → ok_trans k0 ws → ok_trans k ws.
Proof.
  intros E Ed [Hf Hl]. split; [|done]. eapply Forall_impl; [exact Hf|]. intros w (H1 & H2 & H3).
  unfold may_write. rewrite Ed, in_log_start by done. done.
Qed.

(** Each transaction happens, or all that follow it do not. *)
Lemma survives_transactions wss : Forall (ok_trans k0) wss →
  ∀ k d1 d, quiet cur c k d1 → log_start (klog k) = S0 → devs k = devs k0 → (∀ b, ¬ in_log L b → d1 b = d b) →
  survives k v (for_each wss transaction) v
    (λ _ k', quiet cur c k' (disk k') ∧ ∀ b, ¬ in_log L b → disk k' b = after d (concat wss) b)
    (λ d', disk_ok sz d' ∧ sb_log d' = S0 ∧ ∃ n, ∀ b, ¬ in_log L b → recovered S0 d' b = after d (concat (take n wss)) b).
Proof.
  induction 1 as [|ws wss Hws _ IH]; intros k d1 d Hq El Ed Hd; cbn [for_each].
  - apply survives_ret. intros h. destruct (cst_klog _ _ _ _ _ _ _ (qu_cache _ _ _ _ Hq)) as [_ Edk].
    cbn. rewrite Edk. split; [by apply quiet_hw|done].
  - destruct (ok_trans_start k ws El Ed Hws) as [Hf Hl]. eapply survives_bind.
    { eapply survives_mono; [apply (survives_transaction stop v cur c Hcl k d1 Hq ws k Hf Hl (qu_cache _ _ _ _ Hq))|intros a k' HQ; exact HQ|].
      intros d' (D1 & D2 & D3). rewrite Ed in D1. rewrite El in D2, D3. split_and!; [exact D1|exact D2|].
      destruct D3 as [D3|D3]; [exists 0%nat|exists 1%nat]; intros b Hb; rewrite D3 by (by rewrite in_log_start).
      - by apply Hd.
      - cbn [take concat]. rewrite app_nil_r. by apply after_cong, Hd. }
    intros [] k1 (d2 & Hq2 & (C1 & _) & E2 & Ed2). cbv beta. rewrite El in E2. rewrite Ed in Ed2.
    eapply survives_mono; [apply (IH k1 d2 (after d ws) Hq2 E2 Ed2)|..].
    + intros b Hb. rewrite C1 by (by rewrite in_log_start). by apply after_cong, Hd.
    + intros [] k' [Hq' Hd']. split; [done|]. intros b Hb. cbn [concat]. rewrite after_app. by apply Hd'.
    + intros d' (D1 & D2 & n & D3). split_and!; [done|done|]. exists (S n). intros b Hb. cbn [take concat]. rewrite after_app. by apply D3.
Qed.
End Transactions.

(** C1: the file system's view of the log: a sequence of transactions, each of them changes
    of at most [MAXOPBLOCKS] blocks between [begin_op] and [end_op], leaves the disk as the
    changes made directly would; and whenever the power fails, the machine comes up again,
    after any number of interrupted recoveries, with the disk that some first part of the
    transactions produces, never with a part of one. *)
Theorem transactions_atomic `{KernelSyms} stop v cur c k d wss h rs :
  caller v cur c → quiet cur c k d → Forall (ok_trans k) wss → hw_ok h v →
  match for_each wss (@transaction _ (crash_rw stop)) (at_hw k h rs) with
  | Ok _ w => quiet cur c (ks w) (disk (ks w)) ∧ ∀ b, ¬ in_log (klog k) b → disk (ks w) b = after d (concat wss) b
  | Switched w => disk_ok (disksize (devs k)) (disk (ks w)) ∧
      ∀ d', recovery (disksize (devs k)) (disk (ks w)) d' →
        ∃ n, ∀ b, ¬ in_log (klog k) b → d' b = after d (concat (take n wss)) b
  | _ => False
  end.
Proof.
  intros Hcl Hq Hws Hh. pose proof (survives_transactions stop v cur c Hcl k wss Hws k d d Hq eq_refl eq_refl ltac:(done) h rs Hh) as Hs.
  destruct (for_each wss transaction (at_hw k h rs)) as [[] w| | | |w|]; try done; [apply Hs|].
  destruct Hs as (Hok & Esb & n & Hn). split; [done|]. intros d' Hr. exists n. intros b Hb.
  rewrite (recovery_recovers _ _ _ Hr Hok), Esb; [by apply Hn|]. unfold outside. by rewrite Esb.
Qed.

(** ** Two transactions *)

#[local] Existing Instance image_syms.

Definition quiet_kern : kern := (disk_kern demo_disk) <| klog := mkLog 2 30 0 0 1 0 (replicate 30 0) |>.
Definition block_of (x : Z) : list Z := put32 zero_block 0 x.
Definition demo_trans : list (list (Z * list Z)) := [[(60, block_of 1); (61, block_of 2); (60, block_of 3)]; [(61, block_of 4)]].

Lemma demo_quiet : quiet 0 disk_proc quiet_kern demo_disk.
Proof.
  split; try done.
  - exists (hw quiet_kern), (procs quiet_kern), fresh_bcache. split_and!; [done|done|apply fresh_cache].
  - split; try done; simpl; intros; lia.
Qed.

Lemma demo_trans_ok : Forall (ok_trans quiet_kern) demo_trans.
Proof.
  repeat constructor; unfold in_log, LOGSIZE, MAXOPBLOCKS; simpl; lia.
Qed.

(** The power fails in the second transaction, once its header is on the disk. *)
Definition second_header (k : kern) (_ : nat) : bool := (hdr_n (disk k 2) =? 1) && (byte_at (disk k 60) 0 =? 3).

Lemma demo_trans_return : returns (for_each demo_trans (@transaction _ (crash_rw (λ _ _, false))) (at_hw quiet_kern (run_hw 0) [])) = true.
Proof. by vm_compute. Qed.
Lemma demo_trans_stop :
  match for_each demo_trans (@transaction _ (crash_rw second_header)) (at_hw quiet_kern (run_hw 0) []) with
  | Switched w => byte_at (disk (ks w) 61) 0 | _ => 0 end = 2.
Proof. by vm_compute. Qed.

Lemma transactions_atomic_witness :
  (∃ w, for_each demo_trans (@transaction _ (crash_rw (λ _ _, false))) (at_hw quiet_kern (run_hw 0) []) = Ok tt w ∧
     disk (ks w) 60 = block_of 3 ∧ disk (ks w) 61 = block_of 4) ∧
  ∃ w, for_each demo_trans (@transaction _ (crash_rw second_header)) (at_hw quiet_kern (run_hw 0) []) = Switched w ∧
    ∀ d', recovery 1000 (disk (ks w)) d' → (d' 60, d' 61) ∈ [(zero_block, zero_block); (block_of 3, block_of 2); (block_of 3, block_of 4)].
Proof.
  assert (∀ b, 60 ≤ b → ¬ in_log (klog quiet_kern) b) as Hout by (intros b Hb; unfold in_log, LOGSIZE, MAXOPBLOCKS; simpl; lia). split.
  - pose proof (transactions_atomic (λ _ _, false) (run_view 0) 0 disk_proc quiet_kern demo_disk demo_trans (run_hw 0) []
      disk_caller demo_quiet demo_trans_ok (run_hw_ok 0)) as Hw. pose proof demo_trans_return as Hr.
    destruct (for_each _ _ _) as [[] w| | | |w|]; try done. exists w. destruct Hw as [_ Hw]. split_and!; [done|by rewrite Hw by (by apply Hout)..].
  - pose proof (transactions_atomic second_header (run_view 0) 0 disk_proc quiet_kern demo_disk demo_trans (run_hw 0) []
      disk_caller demo_quiet demo_trans_ok (run_hw_ok 0)) as Hw. pose proof demo_trans_stop as Hr.
    destruct (for_each _ _ _) as [[] w| | | |w|]; try done. exists w. split; [done|]. intros d' Hd. destruct Hw as [_ Hw].
    destruct (Hw d' Hd) as [n Hn]. rewrite !Hn by (by apply Hout).
    destruct n as [|[|n]]; [left|right; left|]; [done..|]. cbn [take demo_trans]. rewrite take_nil. do 2 right. left.
Defined.
