(* ===== verification/ArgProps.v ===== *)
(** * System call arguments: properties of fetchint, argint, argptr and argstr

    The checks are written with unsigned 32-bit sums; they accept exactly the words,
    blocks and strings that lie inside the process, compared without wrap-around. *)

From S2P Require Import Prelude Layout State Str Spinlock Kalloc Vm VmInv VmSpace VmOps VmAlloc VmCopy VmProps Sched Uaccess Eval ProcProps Sleeplock Ports Apic Console Bio Log Inode Fs File Proc Thread Syscall.

(** ** The memory of a process *)

(** The current process [p] has [sz s] bytes of memory with the contents [f]. *)
Record user_image (k : kern) (v : hwview) (cur : nat) (p : proc) (s : sharedData) (t : trapframe) (f : Z → Z) : Prop := mkImage {
  ui_cur : hv_proc v = Some cur;
  ui_proc : procs k !! cur = Some p;
  ui_shared : shared k !! sharePtr p = Some s;
  ui_tf : frames k !! tf p = Some t;
  ui_sz : 0 ≤ sz s ≤ KERNBASE;
  ui_mem : ∀ a, 0 ≤ a < sz s → uload8 (mem k) (P2V (hv_cr3 v)) a = Some (f a) ∧ 0 ≤ f a < 256
}.

Definition word_at (f : Z → Z) (a : Z) : Z := f a + 256 * f (a + 1) + 65536 * f (a + 2) + 16777216 * f (a + 3).

(** The [n]th argument of a call whose stack pointer is [esp]. *)
Definition arg_word (f : Z → Z) (sz esp n : Z) : option Z :=
  let a := u32 (esp + 4 + 4 * n) in if a + 4 <=? sz then Some (word_at f a) else None.
Definition arg_block (f : Z → Z) (sz esp n size : Z) : option Z :=
  match arg_word f sz esp n with
  | Some p => if (0 <=? size) && (p <? sz) && (p + size <=? sz) then Some p else None
  | None => None
  end.
(** The string at [a]: the bytes before the first zero, which must be below [sz]. *)
Definition string_at (f : Z → Z) (sz a : Z) : option (list Z) :=
  let l := f <$> seqZ a (sz - a) in
  match list_find (λ b, b = 0) l with Some (i, _) => Some (take i l) | None => None end.
Definition arg_string (f : Z → Z) (sz esp n : Z) : option (list Z) :=
  match arg_word f sz esp n with Some a => string_at f sz a | None => None end.

Section Args.
Context `{KernelSyms}.
Variables (k : kern) (v : hwview) (cur : nat) (p : proc) (s : sharedData) (t : trapframe) (f : Z → Z).
Hypothesis (Hu : user_image k v cur p s t f).

Lemma word_at_range a : 0 ≤ a → a + 4 ≤ sz s → is_u32 (word_at f a).
Proof.
  intros Ha Hb. pose proof (ui_mem _ _ _ _ _ _ _ Hu) as Hm. unfold word_at, is_u32, two32.
  destruct (Hm a ltac:(lia)) as [_ ?], (Hm (a + 1) ltac:(lia)) as [_ ?], (Hm (a + 2) ltac:(lia)) as [_ ?], (Hm (a + 3) ltac:(lia)) as [_ ?]. lia.
Qed.

Lemma evals_vld8 a : 0 ≤ a < sz s → evals k v (vld8 a) (f a) k v.
Proof.
  intros Ha h rs Hv. exists h. split; [done|]. unfold vld8. rewrite bind_getk. simpl.
  destruct (id Hv) as [c Hat]. rewrite (hw_cr3 _ _ _ _ Hat). pose proof (ui_sz _ _ _ _ _ _ _ Hu).
  rewrite (proj2 (Z.leb_gt KERNBASE a)) by lia. rewrite bind_getk. simpl.
  by rewrite (proj1 (ui_mem _ _ _ _ _ _ _ Hu a Ha)).
Qed.

Lemma evals_vld32 a : 0 ≤ a → a + 4 ≤ sz s → evals k v (vld32 a) (word_at f a) k v.
Proof.
  intros Ha Hb h rs Hv. exists h. split; [done|]. unfold vld32. rewrite bind_getk. simpl.
  destruct (id Hv) as [c Hat]. rewrite (hw_cr3 _ _ _ _ Hat), bind_getk. simpl. unfold uload32.
  pose proof (ui_mem _ _ _ _ _ _ _ Hu) as Hm.
  destruct (Hm a ltac:(lia)) as [-> ?], (Hm (a + 1) ltac:(lia)) as [-> ?], (Hm (a + 2) ltac:(lia)) as [-> ?], (Hm (a + 3) ltac:(lia)) as [-> ?].
  simpl. unfold u8. by rewrite !Z.mod_small.
Qed.

Lemma evals_fetchint a : is_u32 a →
  evals k v (fetchint a) (if a + 4 <=? sz s then Some (s32 (word_at f a)) else None) k v.
Proof.
  intros Ha. pose proof (ui_sz _ _ _ _ _ _ _ Hu) as Hsz. unfold fetchint. estep evals_curproc; [apply Hu|].
  estep evals_rd_shared; [apply Hu..|]. unfold is_u32, two32, KERNBASE in *.
  destruct (Z.leb_spec (sz s) a) as [H1|H1]; cbn [orb].
  - rewrite (proj2 (Z.leb_gt _ _)) by lia. apply evals_ret.
  - rewrite u32_id by (unfold is_u32, two32; lia). destruct (Z.ltb_spec (sz s) (a + 4)).
    + rewrite (proj2 (Z.leb_gt _ _)) by lia. apply evals_ret.
    + rewrite (proj2 (Z.leb_le _ _)) by lia. estep evals_vld32; [lia..|]. apply evals_ret.
Qed.

Lemma evals_argint n : evals k v (argint n) (s32 <$> arg_word f (sz s) (tf_esp t) n) k v.
Proof.
  unfold argint. estep evals_curproc; [apply Hu|]. estep evals_rd_tf; [apply Hu..|].
  eapply evals_eq; [apply evals_fetchint, u32_range| |done..]. unfold arg_word. by destruct (_ <=? _).
Qed.

Lemma arg_word_range n w : arg_word f (sz s) (tf_esp t) n = Some w → is_u32 w.
Proof.
  unfold arg_word. destruct (Z.leb_spec (u32 (tf_esp t + 4 + 4 * n) + 4) (sz s)); [|done]. intros [= <-].
  apply word_at_range; [apply u32_range|done].
Qed.

Lemma u32_s32 w : is_u32 w → u32 (s32 w) = w.
Proof.
  intros Hw. unfold s32, u32, is_u32, two31, two32 in *. destruct (_ <? _) eqn:E; zl.
Qed.

Lemma evals_argptr n size : size < two31 →
  evals k v (argptr n size) (arg_block f (sz s) (tf_esp t) n size) k v.
Proof.
  intros Hsize. pose proof (ui_sz _ _ _ _ _ _ _ Hu) as Hsz. unfold argptr. estep evals_curproc; [apply Hu|].
  estep evals_argint. unfold arg_block. destruct (arg_word f (sz s) (tf_esp t) n) as [w|] eqn:E; cbn [fmap option_fmap option_map]; [|apply evals_ret].
  pose proof (arg_word_range n w E) as Hw. estep evals_rd_shared; [apply Hu..|]. rewrite u32_s32 by done.
  unfold is_u32, two31, two32, KERNBASE in *. rewrite (Z.ltb_antisym 0 size). destruct (Z.leb_spec 0 size) as [H0|H0]; cbn [negb orb andb]; [|apply evals_ret].
  rewrite (Z.ltb_antisym (sz s) w). destruct (Z.leb_spec (sz s) w) as [H1|H1]; cbn [negb orb andb]; [apply evals_ret|].
  rewrite u32_id by (unfold is_u32, two32; lia). rewrite (Z.ltb_antisym (w + size) (sz s)). destruct (w + size <=? sz s); cbn [negb]; apply evals_ret.
Qed.

Lemma string_at_step a : 0 ≤ a < sz s →
  string_at f (sz s) a = if f a =? 0 then Some [] else cons (f a) <$> string_at f (sz s) (a + 1).
Proof.
  intros Ha. unfold string_at. rewrite seqZ_cons by lia. replace (Z.pred (sz s - a)) with (sz s - (a + 1)) by lia.
  replace (Z.succ a) with (a + 1) by lia. cbn [fmap list_fmap list_find].
  destruct (Z.eqb_spec (f a) 0) as [E|E]; [by rewrite decide_True|]. rewrite decide_False by done.
  set (l := f <$> seqZ (a + 1) (sz s - (a + 1))). change (list_fmap Z Z f (seqZ (a + 1) (sz s - (a + 1)))) with l.
  by destruct (list_find (λ b, b = 0) l) as [[i y]|].
Qed.

Lemma evals_fetchstr_loop : ∀ n a, 0 ≤ a → sz s - a = Z.of_nat n →
  evals k v (fetchstr_loop n a) (string_at f (sz s) a) k v.
Proof.
  induction n as [|n IH]; intros a Ha Hn; cbn [fetchstr_loop].
  - unfold string_at. replace (sz s - a) with 0 by lia. apply evals_ret.
  - rewrite string_at_step by lia. estep evals_vld8; [lia|]. unfold u8.
    rewrite Z.mod_small by (apply (ui_mem _ _ _ _ _ _ _ Hu a); lia). destruct (f a =? 0); [apply evals_ret|].
    estep (IH (a + 1)); [lia..|]. destruct (string_at f (sz s) (a + 1)); apply evals_ret.
Qed.

Lemma evals_argstr n : evals k v (argstr n) (arg_string f (sz s) (tf_esp t) n) k v.
Proof.
  pose proof (ui_sz _ _ _ _ _ _ _ Hu) as Hsz. unfold argstr, arg_string. estep evals_argint.
  destruct (arg_word f (sz s) (tf_esp t) n) as [w|] eqn:E; cbn [fmap option_fmap option_map]; [|apply evals_ret].
  pose proof (arg_word_range n w E) as Hw. rewrite u32_s32 by done. unfold fetchstr.
  estep evals_curproc; [apply Hu|]. estep evals_rd_shared; [apply Hu..|]. destruct (Z.leb_spec (sz s) w).
  - unfold string_at. rewrite seqZ_nil by lia. apply evals_ret.
  - apply evals_fetchstr_loop; unfold is_u32 in *; lia.
Qed.

(** C22: [argptr] returns the pointer exactly when the argument word and the block of [size]
    bytes it points to both lie inside the process, without wrap-around: the machine's
    32-bit checks accept nothing else.  It never faults, and every byte of an accepted
    block is mapped. *)
Theorem argptr_in_bounds n size h rs : size < two31 → hw_ok h v →
  ∃ h', hw_ok h' v ∧ argptr n size (at_hw k h rs) = Ok (arg_block f (sz s) (tf_esp t) n size) (at_hw k h' rs) ∧
    ∀ q, arg_block f (sz s) (tf_esp t) n size = Some q →
      0 ≤ size ∧ 0 ≤ q ∧ q + size ≤ sz s ∧ ∀ i, 0 ≤ i < size → is_Some (uload8 (mem k) (P2V (hv_cr3 v)) (q + i)).
Proof.
  intros Hsize Hv. destruct (evals_argptr n size Hsize h rs Hv) as (h' & Hv' & E). exists h'. split_and!; [done|exact E|].
  intros q. unfold arg_block. destruct (arg_word f (sz s) (tf_esp t) n) as [w|] eqn:Ew; [|done].
  pose proof (arg_word_range n w Ew) as Hw. destruct (Z.leb_spec 0 size), (Z.ltb_spec w (sz s)), (Z.leb_spec (w + size) (sz s)); try done.
  intros [= <-]. unfold is_u32 in Hw. split_and!; [done|lia|done|]. intros i Hi.
  destruct (ui_mem _ _ _ _ _ _ _ Hu (w + i)) as [-> _]; [lia|done].
Qed.

(** C32: [argstr] is the function that takes the bytes of the process from the pointer up to
    its first zero byte, and fails when the argument or that zero byte lies outside the
    process; the loop over the string terminates and never faults. *)
Theorem argstr_reads_string n h rs : hw_ok h v →
  ∃ h', hw_ok h' v ∧ argstr n (at_hw k h rs) = Ok (arg_string f (sz s) (tf_esp t) n) (at_hw k h' rs).
Proof. intros Hv. by apply evals_argstr. Qed.

End Args.

(** ** A process of 64 bytes

    Its stack pointer is 0, the first argument points to a string at address 16. *)

#[local] Existing Instance image_syms.

Definition arg_mem : memory := store8 (store8 (store32 demo_mem 0x80302004 16) 0x80302010 104) 0x80302011 105.
Definition arg_shared : sharedData := zero_shared <| sz := 64 |> <| pgdir := 0x80300000 |>.
Definition arg_proc : proc := zero_proc <| state := RUNNING |> <| pid := 1 |> <| sharePtr := 0x80400000 |> <| tf := 0x80500fb4 |>.
Definition arg_kern : kern :=
  boot_kern <| mem := arg_mem |> <| procs ::= insert 0%nat arg_proc |> <| shared := {[ 0x80400000 := arg_shared ]} |>
    <| frames := {[ 0x80500fb4 := zero_tf ]} |>.
Definition arg_view : hwview := (run_view 0) <| hv_cr3 := V2P 0x80300000 |>.
Definition arg_hw : hwstate := (run_hw 0) <| cr3 := V2P 0x80300000 |>.
Definition arg_bytes (a : Z) : Z := default 0 (uload8 arg_mem 0x80300000 a).

Lemma arg_hw_ok : hw_ok arg_hw arg_view.
Proof. exists (boot_cpu <| cproc := Some 0%nat |>). split; try done; set_solver. Qed.

Lemma arg_image : user_image arg_kern arg_view 0 arg_proc arg_shared zero_tf arg_bytes.
Proof.
  split; try done. intros a Ha.
  assert (Forall (λ a, uload8 arg_mem 0x80300000 a = Some (arg_bytes a) ∧ (0 <=? arg_bytes a) && (arg_bytes a <? 256) = true) (seqZ 0 64)) as Hf.
  { apply (bool_decide_unpack _). by vm_compute. }
  rewrite Forall_forall in Hf. destruct (Hf a) as [E1 E2]; [apply elem_of_seqZ; simpl in Ha; lia|].
  split; [exact E1|]. apply andb_true_iff in E2 as [?%Z.leb_le ?%Z.ltb_lt]. done.
Qed.

Lemma argptr_in_bounds_witness :
  (∃ h', argptr 0 4 (at_hw arg_kern arg_hw []) = Ok (Some 16) (at_hw arg_kern h' [])) ∧
  (∃ h', argptr 0 49 (at_hw arg_kern arg_hw []) = Ok None (at_hw arg_kern h' [])).
Proof.
  split.
  - destruct (argptr_in_bounds arg_kern arg_view 0 arg_proc arg_shared zero_tf arg_bytes arg_image 0 4 arg_hw [] ltac:(done) arg_hw_ok)
      as (h' & _ & E & _). exists h'. rewrite E. by vm_compute arg_block.
  - destruct (argptr_in_bounds arg_kern arg_view 0 arg_proc arg_shared zero_tf arg_bytes arg_image 0 49 arg_hw [] ltac:(done) arg_hw_ok)
      as (h' & _ & E & _). exists h'. rewrite E. by vm_compute arg_block.
Defined.

Lemma argstr_reads_string_witness : ∃ h',
  argstr 0 (at_hw arg_kern arg_hw []) = Ok (Some [104; 105]) (at_hw arg_kern h' []).
Proof.
  destruct (argstr_reads_string arg_kern arg_view 0 arg_proc arg_shared zero_tf arg_bytes arg_image 0 arg_hw [] arg_hw_ok)
    as (h' & _ & E). exists h'. rewrite E. by vm_compute arg_string.
Defined.
