(* ===== verification/ConsProps.v ===== *)
(** * The console's line editor: properties of console.c

    The input buffer is a ring whose counters wrap at 2^32.  It stands for a pair of
    byte lists: the lines ready to be read and the line being edited. *)

From S2P Require Import Prelude Layout State Str Spinlock Kalloc Vm Sched Sleeplock Ports Memide Apic Console Bio Log Inode Fs Uaccess Eval SchedProps.

(** ** Output to the screen and the serial line *)

(** The screen reports its cursor for [n] characters: two bytes each. *)
Fixpoint cursor_stream (n : nat) (l : list Z) : Prop :=
  match n with
  | O => True
  | S n' => match l with hi :: lo :: l' => Z.lor (Z.shiftl (u8 hi) 8) (u8 lo) < 25 * 80 ∧ cursor_stream n' l' | _ => False end
  end.
(** The serial line, if there is one, is ready for [n] characters. *)
Definition line_ready (n : nat) (l : list Z) : Prop := ∃ l1 l2, l = l1 ++ l2 ∧ length l1 = n ∧ Forall (λ x, Z.land (u8 x) 0x20 ≠ 0) l1.

Record out_ready (d : devstate) (n : nat) : Prop := mkOutReady {
  or_panicked : panicked d = 0;
  or_cursor : cursor_stream n (port_in d (CRTPORT + 1));
  or_line : uart d ≠ 0 → line_ready (3 * n) (port_in d (COM1 + 5))
}.

(** The same console input. *)
Definition same_input (d d' : devstate) : Prop :=
  in_buf d' = in_buf d ∧ in_r d' = in_r d ∧ in_w d' = in_w d ∧ in_e d' = in_e d.

(** The kernel with other contents of memory and devices. *)
Definition kdev (k : kern) (m : memory) (d : devstate) : kern := k <| mem := m |> <| devs := d |>.

(** The memory of the screen. *)
Definition screen_only (m m' : memory) : Prop := ∀ a, a < crt ∨ crt + 4000 ≤ a → m' a = m a.
#[export] Instance screen_only_preorder : PreOrder screen_only.
Proof. split; [by intros m a|]. intros m1 m2 m3 H1 H2 a Ha. by rewrite H2, H1. Qed.

Section Output.
Context `{KernelSyms}.
Variables (k : kern) (v : hwview).

Lemma kdev_modk m d (f : kern → kern) m' d' :
  (∀ k h, f (k <| hw := h |>) = (f k) <| hw := h |>) → f (kdev k m d) = kdev k m' d' →
  evals (kdev k m d) v (modk f) tt (kdev k m' d') v.
Proof. intros Hf <-. by apply evals_modk. Qed.

Definition take_in (port : Z) (l : list Z) (d : devstate) : devstate :=
  d <| port_in ::= λ f x, if x =? port then l else f x |>.
Definition put_out (port x : Z) (d : devstate) : devstate := d <| port_out ::= cons (port, x) |>.

Lemma evals_inb m d port x l : port_in d port = x :: l →
  evals (kdev k m d) v (inb port) (u8 x) (kdev k m (take_in port l d)) v.
Proof.
  intros Hp. unfold inb, inw, get_dev. epure. change (port_in (devs (kdev k m d)) port) with (port_in d port). rewrite Hp.
  unfold mod_dev. epure. eapply evals_eq; [apply evals_ret|done| |done]. by keq.
Qed.

Lemma evals_outb m d port x : evals (kdev k m d) v (outb port x) tt (kdev k m (put_out port (u8 x) d)) v.
Proof. by apply kdev_modk. Qed.

(** The same console input, and the same serial line. *)
Definition out_only (d d' : devstate) : Prop := same_input d d' ∧ panicked d' = panicked d ∧ uart d' = uart d.
Lemma out_only_trans d1 d2 d3 : out_only d1 d2 → out_only d2 d3 → out_only d1 d3.
Proof. unfold out_only, same_input. intros ((-> & -> & -> & ->) & -> & ->). done. Qed.

Lemma line_ready_cons n l : line_ready (S n) l → ∃ x l', l = x :: l' ∧ Z.land (u8 x) 0x20 ≠ 0 ∧ line_ready n l'.
Proof.
  intros (l1 & l2 & -> & Hn & Hf). destruct l1 as [|x l1]; [done|]. apply Forall_cons in Hf as [Hx Hf].
  exists x, (l1 ++ l2). split_and!; [done|done|]. exists l1, l2. by injection Hn as Hn.
Qed.

Lemma line_ready_le n n' l : (n ≤ n')%nat → line_ready n' l → line_ready n l.
Proof.
  intros Hle (l1 & l2 & -> & Hn & Hf). exists (take n l1), (drop n l1 ++ l2).
  split_and!; [by rewrite app_assoc, take_drop|rewrite length_take; lia|by apply Forall_take].
Qed.

Lemma evals_uartputc m d c n :
  (uart d ≠ 0 → line_ready (S n) (port_in d (COM1 + 5))) →
  ∃ d', evals (kdev k m d) v (uartputc c) tt (kdev k m d') v ∧ out_only d d' ∧
    port_in d' (CRTPORT + 1) = port_in d (CRTPORT + 1) ∧ (uart d' ≠ 0 → line_ready n (port_in d' (COM1 + 5))).
Proof.
  intros Hl. destruct (decide (uart d = 0)) as [E|E].
  - exists d. split_and!; [|done..]. unfold uartputc, get_dev. epure. change (uart (devs (kdev k m d))) with (uart d). rewrite E. apply evals_ret.
  - destruct (line_ready_cons _ _ (Hl E)) as (x & l & Ep & Hx & Hr).
    exists (put_out (COM1 + 0) (u8 c) (take_in (COM1 + 5) l d)). split_and!; [|done|done|done].
    unfold uartputc, get_dev. epure. change (uart (devs (kdev k m d))) with (uart d). rewrite (proj2 (Z.eqb_neq _ _) E).
    change (seq 0 128) with (0%nat :: seq 1 127). cbn [for_find]. estep evals_inb; [exact Ep|].
    unfold truthy. rewrite (proj2 (Z.eqb_neq _ _) Hx). cbn [negb]. epure. apply evals_outb.
Qed.

Lemma evals_cga_put m d c pos : 0 ≤ pos < 25 * 80 →
  ∃ m' q, evals (kdev k m d) v
    (if c =? 10 then mret (pos + (80 - Z.rem pos 80))
     else if c =? BACKSPACE then mret (if 0 <? pos then pos - 1 else pos)
     else _ ← st16 (crt + 2 * pos) (Z.lor (Z.land c 0xff) 0x0700); mret (pos + 1)) q (kdev k m' d) v ∧ 0 ≤ q ≤ 25 * 80 ∧ screen_only m m'.
Proof.
  intros Hp. destruct (c =? 10); [|destruct (c =? BACKSPACE)].
  - exists m, (pos + (80 - Z.rem pos 80)). split_and!; [apply evals_ret|..]; [rewrite Z.rem_mod_nonneg by lia; zl..|done].
  - eexists m, _. split_and!; [apply evals_ret|..]; [destruct (Z.ltb_spec 0 pos); lia..|done].
  - eexists _, (pos + 1). split_and!; [|lia|lia|].
    + unfold st16. epure. eapply evals_eq; [apply evals_ret|done| |done]. by keq.
    + intros a Ha. apply fill_out. lia.
Qed.

Lemma evals_kmemmove m d dst src n : evals (kdev k m d) v (kmemmove dst src n) tt (kdev k (memmove m dst src n) d) v.
Proof. by apply kdev_modk. Qed.
Lemma evals_kmemset m d dst c n : evals (kdev k m d) v (kmemset dst c n) tt (kdev k (memset m dst c n) d) v.
Proof. by apply kdev_modk. Qed.

Lemma evals_cga_scroll m d pos : 0 ≤ pos ≤ 25 * 80 →
  ∃ m' q, evals (kdev k m d) v
    (if 24 <=? pos / 80 then
       _ ← kmemmove crt (crt + 2 * 80) (Z.to_nat (2 * 23 * 80));
       let pos := pos - 80 in
       _ ← kmemset (crt + 2 * pos) 0 (2 * (24 * 80 - pos));
       mret pos
     else mret pos) q (kdev k m' d) v ∧ 0 ≤ q < 25 * 80 ∧ screen_only m m'.
Proof.
  intros Hp. destruct (Z.leb_spec 24 (pos / 80)); [|eexists m, pos; split_and!; [apply evals_ret|lia|zl|done]].
  do 2 eexists. split_and!.
  - eapply evals_bind; [apply evals_kmemmove|]. cbv beta zeta. eapply evals_bind; [apply evals_kmemset|]. apply evals_ret.
  - zl.
  - zl.
  - intros a Ha. rewrite memset_out by zl. apply memmove_out. lia.
Qed.

Lemma evals_cgaputc m d c n :
  cursor_stream (S n) (port_in d (CRTPORT + 1)) →
  ∃ m' d', evals (kdev k m d) v (cgaputc c) tt (kdev k m' d') v ∧ out_only d d' ∧ screen_only m m' ∧
    port_in d' (COM1 + 5) = port_in d (COM1 + 5) ∧ cursor_stream n (port_in d' (CRTPORT + 1)).
Proof.
  destruct (port_in d (CRTPORT + 1)) as [|hi [|lo l]] eqn:Ep; [done..|]. intros [Hpos Hs].
  assert (0 ≤ Z.lor (Z.shiftl (u8 hi) 8) (u8 lo)) as H0.
  { apply Z.lor_nonneg. unfold u8. split; [apply Z.shiftl_nonneg|]; apply Z.mod_pos_bound; lia. }
  set (pos := Z.lor (Z.shiftl (u8 hi) 8) (u8 lo)) in *.
  set (d1 := take_in (CRTPORT + 1) l (put_out CRTPORT (u8 15) (take_in (CRTPORT + 1) (lo :: l) (put_out CRTPORT (u8 14) d)))).
  destruct (evals_cga_put m d1 c pos ltac:(lia)) as (m1 & q & E1 & Hq & Hm1). destruct (evals_cga_scroll m1 d1 q Hq) as (m2 & r & E2 & Hr & Hm2).
  exists (fill m2 (crt + 2 * r) 2 (byte_of (Z.lor 32 0x0700))),
    (put_out (CRTPORT + 1) (u8 r) (put_out CRTPORT (u8 15) (put_out (CRTPORT + 1) (u8 (Z.shiftr r 8)) (put_out CRTPORT (u8 14) d1)))).
  split_and!; [|done| |done|done].
  2:{ transitivity m2; [by transitivity m1|]. intros a Ha. apply fill_out. lia. }
  unfold cgaputc. estep evals_outb. estep evals_inb; [exact Ep|]. estep evals_outb. estep evals_inb; [done|].
  cbv zeta. fold pos. fold d1. estep E1. rewrite (proj2 (Z.ltb_ge q 0)), (proj2 (Z.ltb_ge (25 * 80) q)) by lia. cbn [orb].
  estep E2. estep evals_outb. estep evals_outb. estep evals_outb. estep evals_outb. by apply kdev_modk.
Qed.

Lemma cursor_stream_le n n' l : (n ≤ n')%nat → cursor_stream n' l → cursor_stream n l.
Proof.
  revert n l. induction n' as [|n' IH]; intros [|n] l Hle; try done; [lia|]. destruct l as [|hi [|lo l]]; try done.
  intros [Hp Hs]. split; [done|]. apply IH; [lia|done].
Qed.

Lemma out_ready_le n n' d : (n ≤ n')%nat → out_ready d n' → out_ready d n.
Proof.
  intros Hle [Hp Hc Hl]. split; [done|by eapply cursor_stream_le|]. intros Hu. eapply line_ready_le; [|by apply Hl]. lia.
Qed.

(** With the devices ready, a character goes out and nothing else changes but the screen. *)
Lemma evals_consputc_screen m d c n : out_ready d (S n) →
  ∃ m' d', evals (kdev k m d) v (consputc c) tt (kdev k m' d') v ∧ same_input d d' ∧ out_ready d' n ∧ screen_only m m'.
Proof.
  intros [Hp Hc Hl].
  assert (∃ d1, evals (kdev k m d) v (if c =? BACKSPACE then _ ← uartputc 8; _ ← uartputc 32; uartputc 8 else uartputc c) tt (kdev k m d1) v ∧
    out_only d d1 ∧ port_in d1 (CRTPORT + 1) = port_in d (CRTPORT + 1) ∧ (uart d1 ≠ 0 → line_ready (3 * n) (port_in d1 (COM1 + 5)))) as (d1 & E1 & O1 & C1 & L1).
  { replace (3 * S n)%nat with (S (S (S (3 * n)))) in Hl by lia. destruct (c =? BACKSPACE).
    - destruct (evals_uartputc m d 8 _ Hl) as (d1 & E1 & O1 & C1 & L1). destruct (evals_uartputc m d1 32 _ L1) as (d2 & E2 & O2 & C2 & L2).
      destruct (evals_uartputc m d2 8 _ L2) as (d3 & E3 & O3 & C3 & L3). exists d3. split_and!; [|by eapply out_only_trans; [eapply out_only_trans|]|congruence|done].
      estep E1. estep E2. exact E3.
    - destruct (evals_uartputc m d c _ Hl) as (d1 & E1 & O1 & C1 & L1). exists d1. split_and!; [done..|].
      intros Hu. eapply line_ready_le; [|by apply L1]. lia. }
  rewrite <- C1 in Hc. destruct (evals_cgaputc m d1 c n Hc) as (m' & d2 & E2 & O2 & M2 & P2 & C2). exists m', d2. split_and!.
  - unfold consputc, get_dev. epure. change (panicked (devs (kdev k m d))) with (panicked d). rewrite Hp. cbn [truthy Z.eqb negb]. estep E1. exact E2.
  - by apply (out_only_trans d d1 d2).
  - destruct O1 as (_ & P1 & U1), O2 as (_ & P3 & U2). split; [by rewrite P3, P1|done|]. rewrite P2, U2. apply L1.
  - done.
Qed.

Lemma evals_consputc m d c n : out_ready d (S n) →
  ∃ m' d', evals (kdev k m d) v (consputc c) tt (kdev k m' d') v ∧ same_input d d' ∧ out_ready d' n.
Proof. intros Hr. destruct (evals_consputc_screen m d c n Hr) as (m' & d' & E & S1 & O1 & _). eauto. Qed.
End Output.

(** ** The input buffer *)

Definition ring (buf : list Z) (r n : Z) : list Z := (λ i, nth (Z.to_nat ((r + i) mod INPUT_BUF)) buf 0) <$> seqZ 0 n.

(** The buffer of [d] holds the bytes [rdy], ready to be read, and after them [edit]. *)
Record line_rep (d : devstate) (rdy edit : list Z) : Prop := mkLineRep {
  lr_buf : length (in_buf d) = Z.to_nat INPUT_BUF;
  lr_r : is_u32 (in_r d);
  lr_w : is_u32 (in_w d);
  lr_e : is_u32 (in_e d);
  lr_rdy : u32 (in_w d - in_r d) = Z.of_nat (length rdy);
  lr_len : u32 (in_e d - in_r d) = Z.of_nat (length (rdy ++ edit));
  lr_fit : Z.of_nat (length (rdy ++ edit)) ≤ INPUT_BUF;
  lr_bytes : rdy ++ edit = ring (in_buf d) (in_r d) (Z.of_nat (length (rdy ++ edit)))
}.

Lemma line_rep_same d d' rdy edit : same_input d d' → line_rep d rdy edit → line_rep d' rdy edit.
Proof. intros (E1 & E2 & E3 & E4) []. split; rewrite ?E1, ?E2, ?E3, ?E4; done. Qed.

Lemma edit_empty d rdy edit : line_rep d rdy edit → (in_e d =? in_w d) = bool_decide (edit = []).
Proof.
  intros [Hb Hr Hw He H1 H2 H3 H4]. rewrite length_app in H2, H3. unfold u32, is_u32, two32, INPUT_BUF in *.
  destruct edit as [|x edit]; cbn [length] in *.
  - rewrite bool_decide_true by done. apply Z.eqb_eq. zl.
  - rewrite bool_decide_false by done. apply Z.eqb_neq. intros E. rewrite E in H2. lia.
Qed.

Lemma ring_app buf r n m : 0 ≤ n → 0 ≤ m → ring buf r (n + m) = ring buf r n ++ ring buf (r + n) m.
Proof.
  intros Hn Hm. unfold ring. rewrite seqZ_app, fmap_app by done. f_equal. rewrite Z.add_0_l.
  replace n with (n + 0) at 1 by lia. rewrite <- fmap_add_seqZ, <- list_fmap_compose. apply list_fmap_ext. intros _ i _.
  unfold compose. by rewrite Z.add_assoc.
Qed.

Lemma ring_length buf r n : 0 ≤ n → Z.of_nat (length (ring buf r n)) = n.
Proof. intros Hn. unfold ring. rewrite length_fmap, length_seqZ. lia. Qed.

Lemma ring_mod buf r r' n : r mod INPUT_BUF = r' mod INPUT_BUF → ring buf r n = ring buf r' n.
Proof. intros E. unfold ring. apply list_fmap_ext. intros _ i _. by rewrite Zplus_mod, E, <- Zplus_mod. Qed.

(** The last byte of the line being edited. *)
Lemma edit_last d rdy edit c : line_rep d rdy (edit ++ [c]) → in_at d (u32 (in_e d - 1)) = s8 c.
Proof.
  intros [Hb Hr Hw He H1 H2 H3 H4]. unfold in_at. f_equal. rewrite app_assoc, length_app in H2, H3, H4. cbn [length] in *.
  set (n := length (rdy ++ edit)) in *. rewrite Nat2Z.inj_add, ring_app in H4 by lia.
  apply app_inj_2 in H4 as [_ H4]; [|done]. unfold ring in H4. cbn in H4. injection H4 as ->. f_equal. f_equal.
  rewrite Z.add_0_r. unfold u32, is_u32, two32, INPUT_BUF in *. zl.
Qed.

(** Dropping the last byte. *)
Lemma edit_drop d rdy edit c : line_rep d rdy (edit ++ [c]) → line_rep (d <| in_e ::= λ e, u32 (e - 1) |>) rdy edit.
Proof.
  intros [Hb Hr Hw He H1 H2 H3 H4]. rewrite app_assoc, length_app in H2, H3, H4. cbn [length] in *.
  set (n := length (rdy ++ edit)) in *. split; try done; cbn; fold n.
  - unfold u32, is_u32, two32. zl.
  - unfold u32, is_u32, two32, INPUT_BUF in *. zl.
  - lia.
  - rewrite Nat2Z.inj_add, ring_app in H4 by lia. by apply app_inj_2 in H4 as [H4 _].
Qed.

(** Adding a byte. *)
Definition in_put (c : Z) (d : devstate) : devstate :=
  d <| in_buf ::= insert (Z.to_nat (in_e d mod INPUT_BUF)) c |> <| in_e ::= λ e, u32 (e + 1) |>.

Lemma ring_insert buf r n j c : 0 ≤ n → r + n ≤ j < r + INPUT_BUF →
  ring (insert (Z.to_nat (j mod INPUT_BUF)) c buf) r n = ring buf r n.
Proof.
  intros Hn Hj. unfold ring. apply list_fmap_ext. intros _ i Hi%list_elem_of_lookup_2%elem_of_seqZ.
  rewrite !nth_lookup. rewrite list_lookup_insert_ne; [done|]. intros E. apply Z2Nat.inj in E; unfold INPUT_BUF in *; zl.
Qed.

Lemma edit_put d rdy edit c :
  line_rep d rdy edit → Z.of_nat (length (rdy ++ edit)) < INPUT_BUF → line_rep (in_put c d) rdy (edit ++ [c]).
Proof.
  intros [Hb Hr Hw He H1 H2 H3 H4] Hlt. set (n := length (rdy ++ edit)) in *.
  assert ((length rdy + length edit)%nat = n) as En by (symmetry; apply length_app).
  assert (in_e d mod INPUT_BUF = (in_r d + Z.of_nat n) mod INPUT_BUF) as Ee by (unfold u32, is_u32, two32, INPUT_BUF in *; zl).
  assert (0 ≤ (in_r d + Z.of_nat n) mod INPUT_BUF < INPUT_BUF) as Hm by (unfold INPUT_BUF; zl).
  split; rewrite ?(app_assoc rdy edit [c]), ?length_app, ?En; cbn [length in_put]; try done.
  - cbn. by rewrite length_insert.
  - cbn. unfold u32, is_u32, two32. zl.
  - cbn. unfold u32 in *. rewrite Zminus_mod_idemp_l. replace (in_e d + 1 - in_r d) with (in_e d - in_r d + 1) by lia.
    rewrite <- Zplus_mod_idemp_l, H2, Z.mod_small by (unfold two32, INPUT_BUF in *; lia). lia.
  - lia.
  - cbn. rewrite Ee, Nat2Z.inj_add, ring_app, ring_insert by lia. rewrite <- H4. f_equal. unfold ring. change (seqZ 0 (Z.of_nat 1)) with [0]. cbn [fmap list_fmap]. rewrite Z.add_0_r.
    rewrite nth_lookup, list_lookup_insert_eq; [done|]. rewrite Hb. unfold INPUT_BUF in *. lia.
Qed.

(** The line is complete. *)
Lemma edit_commit d rdy edit : line_rep d rdy edit → line_rep (d <| in_w := in_e d |>) (rdy ++ edit) [].
Proof. intros [Hb Hr Hw He H1 H2 H3 H4]. split; rewrite ?app_nil_r; done. Qed.

(** ** The line editor *)

Definition lines : Type := list Z * list Z.

(** What a character does to the lines ready to be read and the line being edited. *)
Definition line_step (s : lines) (c : Z) : lines :=
  let '(rdy, edit) := s in
  if c =? ctl "P" then s
  else if c =? ctl "U" then (rdy, [])
  else if (c =? ctl "H") || (c =? 0x7f) then (rdy, removelast edit)
  else if negb (c =? 0) && (Z.of_nat (length (rdy ++ edit)) <? INPUT_BUF) then
    let c := if c =? 13 then 10 else c in
    let edit := edit ++ [c] in
    if (c =? 10) || (c =? ctl "D") || (Z.of_nat (length (rdy ++ edit)) =? INPUT_BUF) then (rdy ++ edit, []) else (rdy, edit)
  else s.

(** Bytes, of which none ends a line that is still being edited. *)
Definition is_byte (b : Z) : Prop := 0 ≤ b < 256.
Definition line_ok (s : lines) : Prop := Forall is_byte s.1 ∧ Forall (λ b, is_byte b ∧ b ≠ 10) s.2.

Lemma removelast_snoc (l : list Z) x : removelast (l ++ [x]) = l.
Proof. by rewrite removelast_app, app_nil_r. Qed.

Lemma edit_bytes edit : Forall (λ b, is_byte b ∧ b ≠ 10) edit → Forall is_byte edit.
Proof. intros Hf. eapply Forall_impl; [exact Hf|]. by intros b [? _]. Qed.

Lemma line_step_ok s c : is_byte c → line_ok s → line_ok (line_step s c).
Proof.
  intros Hc [H1 H2]. destruct s as [rdy edit]. unfold line_ok, line_step in *. cbn [fst snd] in *.
  destruct (c =? ctl "P"); [done|]. destruct (c =? ctl "U"); [done|].
  destruct ((c =? ctl "H") || _); [|destruct (negb (c =? 0) && _)]; [|destruct (_ || _ || _) eqn:E|done]; cbn [fst snd].
  - destruct edit as [|x edit _] using rev_ind; [done|]. rewrite removelast_snoc. by apply Forall_app in H2 as [? _].
  - split; [|done]. repeat apply Forall_app_2; [done|by apply edit_bytes|]. constructor; [|done]. unfold is_byte in *. destruct (c =? 13); lia.
  - split; [done|]. apply Forall_app_2; [done|]. constructor; [|done]. unfold is_byte in *. destruct (c =? 13); split; try lia; done.
Qed.

Section Editor.
Context `{KernelSyms}.
Variables (k : kern) (v : hwview).
Hypothesis (Hnp : length (procs k) = NPROCn) (Hp1 : L_ptable ∉ hv_held v) (Hp2 : L_ptable ∉ hv_others v).

Lemma kdev_mod_dev m d f : evals (kdev k m d) v (mod_dev f) tt (kdev k m (f d)) v.
Proof. by apply kdev_modk. Qed.

(** Control-U. *)
Lemma evals_kill_line n rdy edit : ∀ m d fuel,
  line_rep d rdy edit → Forall (λ b, is_byte b ∧ b ≠ 10) edit → out_ready d (length edit + n) → (length edit < fuel)%nat →
  ∃ m' d', evals (kdev k m d) v (kill_line fuel) tt (kdev k m' d') v ∧ line_rep d' rdy [] ∧ out_ready d' n.
Proof.
  induction edit as [|c edit IH] using rev_ind; intros m d [|fuel] Hl Hf Ho Hlt; try (cbn in Hlt; lia).
  - exists m, d. split_and!; [|done|done]. cbn [kill_line]. epure. change (devs (kdev k m d)) with d.
    rewrite (edit_empty d rdy [] Hl). apply evals_ret.
  - apply Forall_app in Hf as [Hf Hc]. apply Forall_cons_1 in Hc as [[Hc1 Hc2] _]. rewrite length_app in Ho, Hlt. cbn [length] in Ho, Hlt.
    pose proof (edit_drop d rdy edit c Hl) as Hl1. set (d1 := d <| in_e ::= λ e, u32 (e - 1) |>) in *.
    destruct (evals_consputc k v m d1 BACKSPACE (length edit + n)) as (m2 & d2 & E2 & S2 & O2).
    { rewrite Nat.add_1_r in Ho. by destruct Ho. }
    destruct (IH m2 d2 fuel) as (m3 & d3 & E3 & L3 & O3); [by eapply line_rep_same|done|done|lia|].
    exists m3, d3. split_and!; [|done|done]. cbn [kill_line]. epure. change (devs (kdev k m d)) with d.
    rewrite (edit_empty d rdy _ Hl), bool_decide_false by (by destruct edit). rewrite (edit_last d rdy edit c Hl).
    rewrite (proj2 (Z.eqb_neq (s8 c) 10)) by (unfold s8, u8, is_byte in *; rewrite Z.mod_small by done; destruct (c <? 128); lia). cbn [negb andb].
    estep kdev_mod_dev. estep E2. exact E3.
Qed.

Lemma kdev_wakeup m d ch : ∃ k', evals (kdev k m d) v (wakeup ch) tt k' v ∧
  k' = kdev (k <| procs := woken ch <$> procs k |>) m d.
Proof. eexists. split; [by apply evals_wakeup|]. by keq. Qed.

(** A character that is stored. *)
Lemma evals_store_char m d rdy edit c n :
  0 ≤ c < 256 → line_rep d rdy edit → Z.of_nat (length (rdy ++ edit)) < INPUT_BUF → out_ready d (S n) →
  let full := (c =? 10) || (c =? ctl "D") || (Z.of_nat (length (rdy ++ edit ++ [c])) =? INPUT_BUF) in
  ∃ ps m' d', evals (kdev k m d) v
    (_ ← mod_dev (λ d, d <| in_buf ::= insert (Z.to_nat (in_e d mod INPUT_BUF)) (u8 c) |>);
     _ ← mod_dev (λ d, d <| in_e ::= λ e, u32 (e + 1) |>);
     _ ← consputc c;
     d ← getk devs;
     _ ← when ((c =? 10) || (c =? ctl "D") || (in_e d =? u32 (in_r d + INPUT_BUF)))
           (_ ← mod_dev (λ d, d <| in_w := in_e d |>); wakeup ch_input);
     mret false) false (kdev (k <| procs := ps |>) m' d') v ∧ length ps = NPROCn ∧ out_ready d' n ∧
    (if full then line_rep d' (rdy ++ edit ++ [c]) [] else line_rep d' rdy (edit ++ [c])).
Proof.
  intros Hc Hl Hlt Ho full. assert (u8 c = c) as Ec by (by apply Z.mod_small).
  pose proof (edit_put d rdy edit c Hl Hlt) as Hl1. set (d1 := in_put c d) in *.
  destruct (evals_consputc k v m d1 c n) as (m2 & d2 & E2 & S2 & O2); [by destruct Ho|].
  pose proof (line_rep_same d1 d2 _ _ S2 Hl1) as Hl2.
  assert ((in_e d2 =? u32 (in_r d2 + INPUT_BUF)) = (Z.of_nat (length (rdy ++ edit ++ [c])) =? INPUT_BUF)) as Ef.
  { destruct Hl2 as [_ Hr _ He _ H2 H3 _]. rewrite <- H2 in *. unfold u32, is_u32, two32, INPUT_BUF in *.
    destruct (Z.eqb_spec (in_e d2) ((in_r d2 + 128) mod 4294967296)) as [->|];
      destruct (Z.eqb_spec ((in_e d2 - in_r d2) mod 4294967296) 128); zl. }
  destruct full eqn:Efull.
  - destruct (kdev_wakeup m2 (d2 <| in_w := in_e d2 |>) ch_input) as (k3 & E3 & ->).
    exists (woken ch_input <$> procs k), m2, (d2 <| in_w := in_e d2 |>). split_and!; [|by rewrite length_fmap|by destruct O2|by apply edit_commit in Hl2].
    estep kdev_mod_dev. estep kdev_mod_dev. rewrite Ec. estep E2. epure. change (devs (kdev k m2 d2)) with d2. rewrite Ef. fold full. rewrite Efull.
    unfold when. estep kdev_mod_dev. estep E3. apply evals_ret.
  - exists (procs k), m2, d2. split_and!; [|done|done|done].
    estep kdev_mod_dev. estep kdev_mod_dev. rewrite Ec. estep E2. epure. change (devs (kdev k m2 d2)) with d2. rewrite Ef. fold full. rewrite Efull.
    unfold when. epure. eapply evals_eq; [apply evals_ret|done| |done]. by keq.
Qed.

(** The character [c] has the effect [line_step] on the input. *)
Definition char_edits m d rdy edit c n : Prop :=
  ∃ ps m' d', evals (kdev k m d) v (console_char c) (c =? ctl "P") (kdev (k <| procs := ps |>) m' d') v ∧
    length ps = NPROCn ∧ out_ready d' n ∧ line_rep d' (line_step (rdy, edit) c).1 (line_step (rdy, edit) c).2.

Lemma kdev_procs m d : kdev (k <| procs := procs k |>) m d = kdev k m d.
Proof. by keq. Qed.

Section Char.
Variables (m : memory) (d : devstate) (rdy edit : list Z) (c : Z) (n : nat).
Hypothesis (Hl : line_rep d rdy edit) (Hok : line_ok (rdy, edit)) (Ho : out_ready d (Z.to_nat INPUT_BUF + n)).

Lemma char_room j : (j ≤ 128)%nat → out_ready d (j + n).
Proof. intros Hj. eapply out_ready_le; [|exact Ho]. change (Z.to_nat INPUT_BUF) with 128%nat. lia. Qed.

Lemma edit_fits : (length edit ≤ 128)%nat.
Proof. pose proof (lr_fit _ _ _ Hl) as Hfit. rewrite length_app in Hfit. unfold INPUT_BUF in Hfit. lia. Qed.

Lemma char_kill : c = ctl "U" → char_edits m d rdy edit c n.
Proof.
  intros ->. destruct (evals_kill_line n rdy edit m d (S (Z.to_nat (u32 (in_e d - in_w d)))) Hl (proj2 Hok)) as (m' & d' & E & L & O).
  - apply char_room, edit_fits.
  - assert (u32 (in_e d - in_w d) = Z.of_nat (length edit)) as ->; [|lia].
    destruct Hl as [_ Hr Hw He H1 H2 H3 _]. rewrite length_app in H2, H3. unfold u32, is_u32, two32, INPUT_BUF in *. zl.
  - exists (procs k), m', d'. rewrite kdev_procs. split_and!; [|done..]. unfold console_char. epure. cbn [Z.eqb]. estep E. apply evals_ret.
Qed.

Lemma char_back : c ≠ ctl "P" → c ≠ ctl "U" → (c =? ctl "H") || (c =? 0x7f) = true → char_edits m d rdy edit c n.
Proof.
  intros HP%Z.eqb_neq HU%Z.eqb_neq EH. unfold char_edits, line_step. rewrite HP, HU, EH. destruct (decide (edit = [])) as [E|E].
  - exists (procs k), m, d. rewrite kdev_procs. split_and!; [|done|by apply (char_room 0); lia|cbn [fst snd]; by replace (removelast edit) with edit by (by rewrite E)]. unfold console_char. epure.
    change (devs (kdev k m d)) with d. rewrite HP, HU, EH, (edit_empty d rdy edit Hl), bool_decide_true by done. unfold when. cbn [negb]. epure. apply evals_ret.
  - destruct (exists_last E) as (edit' & x & E'). pose proof Hl as Hl'. rewrite E' in Hl'.
    pose proof (edit_drop d rdy edit' x Hl') as Hl1. set (d1 := d <| in_e ::= λ e, u32 (e - 1) |>) in *.
    destruct (evals_consputc k v m d1 BACKSPACE n) as (m2 & d2 & E2 & S2 & O2).
    { by destruct (char_room 1 ltac:(lia)). }
    exists (procs k), m2, d2. rewrite kdev_procs. split_and!; [|done|done|cbn [fst snd]; rewrite E', removelast_snoc; by eapply line_rep_same].
    unfold console_char. epure. change (devs (kdev k m d)) with d.
    rewrite HP, HU, EH, (edit_empty d rdy edit Hl), bool_decide_false by done.
    unfold when. cbn [negb]. estep kdev_mod_dev. estep E2. apply evals_ret.
Qed.

Lemma char_store : 0 ≤ c < 256 → c ≠ ctl "P" → c ≠ ctl "U" → (c =? ctl "H") || (c =? 0x7f) = false → char_edits m d rdy edit c n.
Proof.
  intros Hc HP%Z.eqb_neq HU%Z.eqb_neq EH. unfold char_edits, line_step. rewrite HP, HU, EH.
  destruct (negb (c =? 0) && (Z.of_nat (length (rdy ++ edit)) <? INPUT_BUF)) eqn:Eb.
  - apply andb_true_iff in Eb as [Ec Hlt%Z.ltb_lt]. set (c' := if c =? 13 then 10 else c).
    destruct (evals_store_char m d rdy edit c' n) as (ps & m' & d' & E & Hps & O & L); [unfold c'; destruct (c =? 13); lia|done|done|by apply (char_room 1); lia|].
    exists ps, m', d'. split_and!; [|done|done|by destruct (_ || _ || _)].
    unfold console_char. epure. change (devs (kdev k m d)) with d. rewrite HP, HU, EH, Ec, (lr_len _ _ _ Hl), (proj2 (Z.ltb_lt _ _) Hlt). exact E.
  - exists (procs k), m, d. rewrite kdev_procs. split_and!; [|done|by apply (char_room 0); lia|done].
    unfold console_char. epure. change (devs (kdev k m d)) with d. rewrite HP, HU, EH, (lr_len _ _ _ Hl), Eb. apply evals_ret.
Qed.

Lemma char_any : 0 ≤ c < 256 → char_edits m d rdy edit c n.
Proof.
  intros Hc. destruct (decide (c = ctl "P")) as [->|HP].
  { exists (procs k), m, d. rewrite kdev_procs. split_and!; [|done|by apply (char_room 0); lia|done]. unfold console_char. epure. apply evals_ret. }
  destruct (decide (c = ctl "U")) as [E|HU]; [by apply char_kill|].
  destruct ((c =? ctl "H") || (c =? 0x7f)) eqn:EH; [by apply char_back|by apply char_store].
Qed.
End Char.

(** The loop of [consoleintr] over the characters [cs]. *)
Fixpoint type_chars (cs : list Z) : K bool :=
  match cs with
  | [] => mret false
  | c :: cs' => b ← console_char c; b' ← type_chars cs'; mret (b || b')
  end.
End Editor.

Section Lines.
Context `{KernelSyms}.
Variables (v : hwview).
Hypothesis (Hp1 : L_ptable ∉ hv_held v) (Hp2 : L_ptable ∉ hv_others v).

Lemma evals_type_chars cs : Forall is_byte cs → ∀ k m d s,
  length (procs k) = NPROCn → line_rep d s.1 s.2 → line_ok s → out_ready d (length cs * Z.to_nat INPUT_BUF) →
  ∃ b k', evals (kdev k m d) v (type_chars cs) b k' v ∧ line_ok (foldl line_step s cs) ∧
    line_rep (devs k') (foldl line_step s cs).1 (foldl line_step s cs).2.
Proof.
  induction 1 as [|c cs Hc _ IH]; intros k m d s Hn Hl Hok Ho; cbn [type_chars foldl].
  - exists false, (kdev k m d). split_and!; [apply evals_ret|done|done].
  - destruct s as [rdy edit]. destruct (char_any k v Hn Hp1 Hp2 m d rdy edit c _ Hl Hok Ho Hc) as (ps & m1 & d1 & E1 & Hps & O1 & L1).
    destruct (IH (k <| procs := ps |>) m1 d1 (line_step (rdy, edit) c)) as (b & k' & E2 & Hok2 & L2); [done|done|by apply line_step_ok|done|].
    eexists _, k'. split_and!; [|done|done]. estep E1. estep E2. apply evals_ret.
Qed.

(** ** Reading *)

(** [n] bytes wanted: up to the end of a line, or of the input; [None] when there are too
    few and the reader has to wait.  [fst] tells whether nothing has been read yet. *)
Fixpoint read_line (n : nat) (fst : bool) (rdy : list Z) : option (list Z * list Z) :=
  match n with
  | O => Some ([], rdy)
  | S n' =>
      match rdy with
      | [] => None
      | c :: rdy' =>
          if c =? ctl "D" then Some ([], if fst then rdy' else rdy)
          else if c =? 10 then Some ([c], rdy')
          else match read_line n' false rdy' with Some (l, r) => Some (c :: l, r) | None => None end
      end
  end.

Lemma rep_cons d c rdy edit : line_rep d (c :: rdy) edit →
  in_r d ≠ in_w d ∧ in_at d (in_r d) = s8 c ∧ line_rep (d <| in_r ::= λ r, u32 (r + 1) |>) rdy edit.
Proof.
  intros [Hb Hr Hw He H1 H2 H3 H4]. cbn [length app] in *. set (n := length (rdy ++ edit)) in *.
  replace (Z.of_nat (S n)) with (1 + Z.of_nat n) in H4 by lia. rewrite ring_app in H4 by lia. unfold ring in H4 at 1. change (seqZ 0 1) with [0] in H4.
  cbn [fmap list_fmap app] in H4. rewrite Z.add_0_r in H4. injection H4 as Ec H4.
  split_and!; [intros E; by rewrite E, Z.sub_diag in H1|unfold in_at; by rewrite Ec|].
  split; cbn; try done; fold n; try lia.
  - unfold u32, is_u32, two32. zl.
  - unfold u32, is_u32, two32, INPUT_BUF in *. zl.
  - unfold u32, is_u32, two32, INPUT_BUF in *. zl.
  - rewrite H4. apply ring_mod. unfold u32, is_u32, two32, INPUT_BUF in *. zl.
Qed.
Context `{DiskDriver}.
Variables (k : kern) (m : memory).

Lemma evals_wait_input d c rdy edit n : line_rep d (c :: rdy) edit → evals (kdev k m d) v (wait_input (S n)) false (kdev k m d) v.
Proof.
  intros Hl. destruct (rep_cons _ _ _ _ Hl) as (Hne & _ & _). cbn [wait_input]. epure. change (devs (kdev k m d)) with d.
  rewrite (proj2 (Z.eqb_neq _ _) Hne). apply evals_ret.
Qed.

Lemma s8_eqb c x : is_byte c → 0 ≤ x < 128 → (s8 c =? x) = (c =? x).
Proof.
  intros Hc Hx. unfold is_byte, s8, u8 in *. rewrite Z.mod_small by done.
  destruct (Z.ltb_spec c 128); [done|]. rewrite !(proj2 (Z.eqb_neq _ x)) by lia. done.
Qed.
Lemma u8_s8 c : is_byte c → u8 (s8 c) = c.
Proof. intros Hc. unfold is_byte, s8, u8 in *. rewrite (Z.mod_small c) by done. destruct (c <? 128); zl. Qed.

Lemma evals_consoleread_loop edit target : target < two32 → ∀ n rdy d acc fuel l rdy',
  line_rep d rdy edit → Forall is_byte rdy → Z.of_nat n ≤ target → (n < fuel)%nat →
  read_line n (Z.of_nat n =? target) rdy = Some (l, rdy') →
  ∃ d', evals (kdev k m d) v (consoleread_loop fuel (Z.of_nat n) target acc)
    (Some (Z.of_nat n - Z.of_nat (length l)), acc ++ l) (kdev k m d') v ∧ line_rep d' rdy' edit.
Proof.
  intros Ht. induction n as [|n IH]; intros rdy d acc [|fuel] l rdy' Hl Hb Hn Hf Hr; try lia; cbn [read_line] in Hr.
  - injection Hr as <- <-. exists d. split; [|done]. cbn [consoleread_loop]. rewrite app_nil_r. apply evals_ret.
  - destruct rdy as [|c rdy]; [done|]. apply Forall_cons in Hb as [Hc Hb]. destruct (rep_cons _ _ _ _ Hl) as (_ & Hat & Hl1).
    set (d1 := d <| in_r ::= λ r, u32 (r + 1) |>) in *.
    assert (∀ b k' v', evals (kdev k m d1) v
        (if s8 c =? ctl "D" then
           _ ← when (u32 (Z.of_nat (S n)) <? target) (mod_dev (λ d, d <| in_r ::= λ r, u32 (r - 1) |>));
           mret (Some (Z.of_nat (S n)), acc)
         else if s8 c =? 10 then mret (Some (Z.of_nat (S n) - 1), acc ++ [u8 (s8 c)])
              else consoleread_loop fuel (Z.of_nat (S n) - 1) target (acc ++ [u8 (s8 c)])) b k' v' →
      evals (kdev k m d) v (consoleread_loop (S fuel) (Z.of_nat (S n)) target acc) b k' v') as Hgo.
    { intros b k' v' E. cbn [consoleread_loop]. rewrite (proj2 (Z.ltb_lt 0 (Z.of_nat (S n)))) by lia. cbn [negb].
      apply evals_resumes. intros j. estep evals_wait_input; [exact Hl|]. cbv iota. epure. change (devs (kdev k m d)) with d. cbv zeta. rewrite Hat.
      estep kdev_mod_dev. exact E. }
    rewrite s8_eqb, s8_eqb, u8_s8 in Hgo by (done || (unfold ctl; cbn; lia)).
    destruct (c =? ctl "D").
    + rewrite (u32_id (Z.of_nat (S n))) in Hgo by (unfold is_u32; lia).
      destruct (Z.eqb_spec (Z.of_nat (S n)) target) as [E|E]; injection Hr as <- <-; rewrite Z.sub_0_r, app_nil_r.
      * rewrite (proj2 (Z.ltb_ge _ _)) in Hgo by lia. exists d1. split; [|done]. apply Hgo. unfold when. epure. apply evals_ret.
      * rewrite (proj2 (Z.ltb_lt _ _)) in Hgo by lia. exists (d1 <| in_r ::= λ r, u32 (r - 1) |>). split.
        -- apply Hgo. unfold when. estep kdev_mod_dev. apply evals_ret.
        -- eapply line_rep_same; [|exact Hl]. split_and!; try done. cbn. pose proof (lr_r _ _ _ Hl). unfold u32, is_u32, two32 in *. zl.
    + destruct (c =? 10).
      * injection Hr as <- <-. exists d1. split; [|done]. apply Hgo. apply evals_ret.
      * destruct (read_line n false rdy) as [[l' r']|] eqn:Er; [|done]. injection Hr as <- <-.
        destruct (IH rdy d1 (acc ++ [c]) fuel l' r' Hl1 Hb ltac:(lia) ltac:(lia)) as (d' & E & L).
        { by rewrite (proj2 (Z.eqb_neq (Z.of_nat n) target)) by lia. }
        exists d'. split; [|done]. apply Hgo. replace (Z.of_nat (S n) - 1) with (Z.of_nat n) by lia.
        eapply evals_eq; [exact E| |done..]. rewrite <- app_assoc. do 2 f_equal. cbn [length]. lia.
Qed.
End Lines.

(** ** Claims *)

Lemma kdev_self k : kdev k (mem k) (devs k) = k.
Proof. by keq. Qed.

(** C25: the loop of [consoleintr] edits lines: on any sequence of characters the ring buffer,
    whose counters wrap at 2^32, goes through the states of an editor on two byte lists, the
    bytes ready to be read and the line being typed; it never holds more than [INPUT_BUF]
    bytes, and the keys for erasing reach neither a finished line nor before its start. *)
Theorem console_edits_lines `{KernelSyms} k v cs s h rs :
  L_ptable ∉ hv_held v → L_ptable ∉ hv_others v → length (procs k) = NPROCn →
  Forall is_byte cs → line_rep (devs k) s.1 s.2 → line_ok s → out_ready (devs k) (length cs * Z.to_nat INPUT_BUF) → hw_ok h v →
  ∃ b k' h', type_chars cs (at_hw k h rs) = Ok b (at_hw k' h' rs) ∧ hw_ok h' v ∧ line_ok (foldl line_step s cs) ∧
    line_rep (devs k') (foldl line_step s cs).1 (foldl line_step s cs).2.
Proof.
  intros H1 H2 Hn Hcs Hl Hok Ho Hv. destruct (evals_type_chars v H1 H2 cs Hcs k (mem k) (devs k) s Hn Hl Hok Ho) as (b & k' & E & Hok' & Hl').
  rewrite kdev_self in E. destruct (E h rs Hv) as (h' & Hv' & E'). by exists b, k', h'.
Qed.

(** C34: [consoleread] takes from the bytes that are ready up to [n] bytes, no further than
    the end of the line, and stops before Control-D, which is consumed only by a read that
    would otherwise return nothing. *)
Theorem consoleread_takes_line `{KernelSyms} `{DiskDriver} k v n rdy edit l rdy' h rs :
  Z.of_nat n < two32 → line_rep (devs k) rdy edit → Forall is_byte rdy → read_line n true rdy = Some (l, rdy') → hw_ok h v →
  ∃ k' h', consoleread_loop (S n) (Z.of_nat n) (Z.of_nat n) [] (at_hw k h rs) =
      Ok (Some (Z.of_nat n - Z.of_nat (length l)), l) (at_hw k' h' rs) ∧ hw_ok h' v ∧ line_rep (devs k') rdy' edit.
Proof.
  intros Hn Hl Hb Hr Hv. destruct (evals_consoleread_loop v k (mem k) edit (Z.of_nat n) Hn n rdy (devs k) [] (S n) l rdy') as (d' & E & L); [done|done|lia|lia|by rewrite Z.eqb_refl|].
  rewrite kdev_self in E. destruct (E h rs Hv) as (h' & Hv' & E'). by exists (kdev k (mem k) d'), h'.
Qed.

(** ** A line *)

#[local] Existing Instance image_syms.

Definition cons_kern : kern :=
  boot_kern <| devs ::= λ d, d <| port_in := λ p, if p =? CRTPORT + 1 then replicate (2 * 640) 0 else [] |>
    <| in_r := two32 - 2 |> <| in_w := two32 - 2 |> <| in_e := two32 - 2 |> |>.
(** h x erase i return *)
Definition cons_keys : list Z := [104; 120; 8; 105; 13].

Lemma cursor_zeros n j : cursor_stream n (replicate (2 * n + j) 0).
Proof. induction n as [|n IH]; [done|]. replace (2 * S n + j)%nat with (S (S (2 * n + j))) by lia. by split. Qed.

Lemma cons_ready : out_ready (devs cons_kern) (length cons_keys * Z.to_nat INPUT_BUF).
Proof. split; [done| |done]. change (cursor_stream 640 (replicate (2 * 640 + 0) 0)). apply cursor_zeros. Qed.

Lemma console_edits_lines_witness : ∃ b k' h',
  type_chars cons_keys (at_hw cons_kern (lock_hw 0 L_cons) []) = Ok b (at_hw k' h' []) ∧ line_rep (devs k') [104; 105; 10] [].
Proof.
  destruct (console_edits_lines cons_kern (lock_view 0 L_cons) cons_keys ([], []) (lock_hw 0 L_cons) []) as (b & k' & h' & E & _ & _ & L).
  - set_solver.
  - set_solver.
  - done.
  - repeat constructor; done.
  - by split.
  - done.
  - exact cons_ready.
  - apply lock_hw_ok.
  - exists b, k', h'. split; [exact E|exact L].
Defined.

Definition read_kern : kern :=
  boot_kern <| devs ::= λ d, d <| in_buf := [105; 10; 111] ++ replicate 124 0 ++ [104] |>
    <| in_r := two32 - 1 |> <| in_w := 2 |> <| in_e := 3 |> |>.

#[local] Instance console_driver : DiskDriver := Memide.iderw.

Lemma consoleread_takes_line_witness : ∃ k' h',
  consoleread_loop 11 10 10 [] (at_hw read_kern (lock_hw 0 L_cons) []) = Ok (Some 7, [104; 105; 10]) (at_hw k' h' []) ∧
  line_rep (devs k') [] [111].
Proof.
  destruct (consoleread_takes_line read_kern (lock_view 0 L_cons) 10 [104; 105; 10] [111] [104; 105; 10] [] (lock_hw 0 L_cons) [])
    as (k' & h' & E & _ & L).
  - done.
  - by split.
  - repeat constructor; done.
  - done.
  - apply lock_hw_ok.
  - exists k', h'. split; [exact E|exact L].
Defined.
