(* ===== verification/PrintProps.v ===== *)
(** * Numbers on the console: properties of printint *)

From S2P Require Import Prelude Layout State Str Spinlock Kalloc Vm Sched Sleeplock Ports Apic Console.

(** The value of a digit, of a numeral, and of a numeral with a sign. *)
Definition digit_val (c : Z) : Z := Z.of_nat (default 0%nat (fst <$> list_find (λ x, x = c) digits)).
Definition numeral (base : Z) (l : list Z) : Z := foldl (λ a c, base * a + digit_val c) 0 l.
Definition signed_numeral (base : Z) (l : list Z) : Z :=
  match l with c :: l' => if c =? chr "-" then - numeral base l' else numeral base l | [] => 0 end.
(** Digits of the base, with no zero in front of others. *)
Definition canonical (base : Z) (l : list Z) : Prop :=
  Forall (λ c, ∃ i, 0 ≤ i < base ∧ c = nth (Z.to_nat i) digits 0) l ∧ l ≠ [] ∧ (length l ≠ 1%nat → hd 0 l ≠ chr "0").

Lemma digit_val_nth i : 0 ≤ i < 16 → digit_val (nth (Z.to_nat i) digits 0) = i.
Proof.
  intros Hi. assert (Forall (λ i, digit_val (nth (Z.to_nat i) digits 0) = i) (seqZ 0 16)) as Hf by (apply (bool_decide_unpack _); by vm_compute).
  rewrite Forall_forall in Hf. apply Hf, elem_of_seqZ. lia.
Qed.

Lemma numeral_snoc base l c : numeral base (l ++ [c]) = base * numeral base l + digit_val c.
Proof. unfold numeral. by rewrite foldl_app. Qed.

Lemma neg_value xx : s32 xx < 0 → - u32 (- xx) = s32 xx.
Proof.
  unfold s32. pose proof (u32_range xx) as Hx. unfold is_u32, two31, two32 in *. destruct (Z.ltb_spec (u32 xx) 2147483648); [lia|].
  intros _. unfold u32, two32 in *. zl.
Qed.
Lemma pos_value xx : 0 ≤ s32 xx → u32 xx = s32 xx.
Proof.
  unfold s32. pose proof (u32_range xx) as Hx. unfold is_u32, two31, two32 in *. destruct (Z.ltb_spec (u32 xx) 2147483648); lia.
Qed.

Section Digits.
Variables (base : Z).
Hypothesis (Hb : 2 ≤ base ≤ 16).

Lemma digit_loop_value fuel : ∀ x, 0 ≤ x < base ^ Z.of_nat fuel → numeral base (rev (digit_loop fuel x base)) = x.
Proof.
  induction fuel as [|fuel IH]; intros x Hx; [cbn in *; lia|]. cbn [digit_loop rev].
  pose proof (Z.mod_pos_bound x base ltac:(lia)) as Hm. pose proof (Z.div_mod x base ltac:(lia)) as Hd.
  rewrite numeral_snoc, digit_val_nth by lia. destruct (Z.eqb_spec (x / base) 0) as [E|E].
  - cbn. lia.
  - rewrite IH; [lia|]. split; [apply Z.div_pos; lia|]. apply Z.div_lt_upper_bound; [lia|].
    rewrite <- Z.pow_succ_r by lia. rewrite Nat2Z.inj_succ in Hx. lia.
Qed.

Lemma digit_loop_digits fuel : ∀ x, Forall (λ c, ∃ i, 0 ≤ i < base ∧ c = nth (Z.to_nat i) digits 0) (digit_loop fuel x base).
Proof.
  induction fuel as [|fuel IH]; intros x; cbn [digit_loop]; constructor.
  - exists (x mod base). split; [apply Z.mod_pos_bound; lia|done].
  - by destruct (x / base =? 0); [constructor|].
Qed.

(** The digit written last is not zero, unless it is the only one. *)
Lemma digit_loop_last fuel : ∀ x, 0 < x < base ^ Z.of_nat fuel → ∃ l i, digit_loop fuel x base = l ++ [nth (Z.to_nat i) digits 0] ∧ 0 < i < base.
Proof.
  induction fuel as [|fuel IH]; intros x Hx; [cbn in Hx; lia|]. cbn [digit_loop].
  pose proof (Z.mod_pos_bound x base ltac:(lia)) as Hm. pose proof (Z.div_mod x base ltac:(lia)) as Hd.
  destruct (Z.eqb_spec (x / base) 0) as [E|E].
  - exists [], (x mod base). split; [done|]. rewrite E in Hd. lia.
  - destruct (IH (x / base)) as (l & i & -> & Hi).
    + assert (0 ≤ x / base) by (apply Z.div_pos; lia). split; [lia|]. apply Z.div_lt_upper_bound; [lia|].
      rewrite <- Z.pow_succ_r by lia. rewrite Nat2Z.inj_succ in Hx. lia.
    + eexists (_ :: l), i. done.
Qed.

Lemma digit_not i x : 0 ≤ i < 16 → x = chr "-" ∨ (0 < i ∧ x = chr "0") → nth (Z.to_nat i) digits 0 ≠ x.
Proof.
  intros Hi Hx. assert (Forall (λ i, nth (Z.to_nat i) digits 0 ≠ chr "-" ∧ (i = 0 ∨ nth (Z.to_nat i) digits 0 ≠ chr "0")) (seqZ 0 16)) as Hf
    by (apply (bool_decide_unpack _); by vm_compute).
  rewrite Forall_forall in Hf. destruct (Hf i) as [H1 H2]; [apply elem_of_seqZ; lia|]. destruct Hx as [->|[? ->]]; [done|]. destruct H2; [lia|done].
Qed.

Lemma rev_digits_canonical x : 0 ≤ x < base ^ Z.of_nat 32 → canonical base (rev (digit_loop 32 x base)).
Proof.
  intros Hx. split_and!.
  - apply List.Forall_rev, digit_loop_digits.
  - cbn [digit_loop rev]. by destruct (rev _).
  - intros Hl. destruct (decide (x = 0)) as [->|].
    + exfalso. apply Hl. cbn [digit_loop]. by rewrite Z.div_0_l by lia.
    + destruct (digit_loop_last 32 x ltac:(lia)) as (l & i & -> & Hi). rewrite rev_app_distr. cbn [rev app hd].
      apply digit_not; [lia|]. right. lia.
Qed.

Lemma printint_shape xx sign neg :
  truthy sign && (s32 xx <? 0) = neg →
  printint_chars xx base sign = (if neg then [chr "-"] else []) ++ rev (digit_loop 32 (if neg then u32 (- xx) else u32 xx) base).
Proof. intros E. unfold printint_chars. rewrite E. rewrite rev_app_distr. by destruct neg. Qed.

Lemma pow_bound : two32 ≤ base ^ Z.of_nat 32.
Proof. etransitivity; [|apply (Z.pow_le_mono_l 2); lia]. apply Z.leb_le. by vm_compute. Qed.

(** The number that is converted, and its range. *)
Lemma printint_value xx sign neg :
  truthy sign && (s32 xx <? 0) = neg →
  let x := if neg then u32 (- xx) else u32 xx in
  0 ≤ x < base ^ Z.of_nat 32 ∧ (if neg then - x else x) = (if truthy sign then s32 xx else u32 xx).
Proof.
  intros E x. split.
  - assert (is_u32 x) as [Hx1 Hx2] by (unfold x; destruct neg; apply u32_range). split; [done|].
    eapply Z.lt_le_trans; [exact Hx2|apply pow_bound].
  - unfold x. destruct neg.
    + apply andb_true_iff in E as [-> E%Z.ltb_lt]. by apply neg_value.
    + destruct (truthy sign); [|done]. apply pos_value. by apply Z.ltb_ge.
Qed.

Lemma with_sign (neg : bool) l x : numeral base l = x → canonical base l →
  let s := (if neg then [chr "-"] else []) ++ l in
  signed_numeral base s = (if neg then - x else x) ∧ canonical base (if neg then tl s else s).
Proof.
  intros <- Hc s. destruct (id Hc) as (Hc1 & Hc2 & _). unfold s. destruct neg; cbn [app tl]; (split; [|done]).
  - done.
  - destruct l as [|c l]; [done|]. apply Forall_cons in Hc1 as [(i & Hi & ->) _].
    unfold signed_numeral. by rewrite (proj2 (Z.eqb_neq _ _)) by (apply digit_not; [lia|by left]).
Qed.

End Digits.

