(* ===== verification/PathProps.v ===== *)
(** * Path names: properties of skipelem *)

From S2P Require Import Prelude Layout State Str Spinlock Kalloc Vm Sched Sleeplock Ports Apic Console Bio Log Inode Fs.

(** ** The elements of a path *)

(** The parts between slashes, and those that are not empty. *)
Fixpoint split_path (path : list Z) : list (list Z) :=
  match path with
  | [] => [[]]
  | c :: p =>
      if c =? SLASH then [] :: split_path p
      else match split_path p with e :: es => (c :: e) :: es | [] => [[c]] end
  end.
Definition path_elems (path : list Z) : list (list Z) := filter (λ e, e ≠ []) (split_path path).

(** A name as the directory code reads it: up to [DIRSIZ] bytes, fewer when there is a zero. *)
Definition dir_name (name : list Z) : list Z := until_nul (take (Z.to_nat DIRSIZ) name).

(** The names that [skipelem], called as in the loop of [namex], goes through. *)
Fixpoint walk (fuel : nat) (path name : list Z) : option (list (list Z)) :=
  match fuel with
  | O => None
  | S fuel' =>
      match skipelem path name with
      | None => Some []
      | Some (path, name) => cons (dir_name name) <$> walk fuel' path name
      end
  end.

Lemma path_elems_slash p : path_elems (SLASH :: p) = path_elems p.
Proof. done. Qed.

Lemma split_path_cons p : ∃ e es, split_path p = e :: es.
Proof.
  induction p as [|c p (e & es & E)]; [by exists [], []|]. simpl. rewrite E. destruct (c =? SLASH); eauto.
Qed.

Lemma skip_slashes_elems p : path_elems (skip_slashes p) = path_elems p.
Proof. induction p as [|c p IH]; [done|]. cbn [skip_slashes]. destruct (Z.eqb_spec c SLASH) as [->|]; [by rewrite path_elems_slash|done]. Qed.

Lemma skip_slashes_spec p : (length (skip_slashes p) ≤ length p)%nat ∧ suffix (skip_slashes p) p ∧
  match skip_slashes p with c :: _ => c ≠ SLASH | [] => True end.
Proof.
  induction p as [|c p (IH1 & IH2 & IH3)]; [done|]. cbn [skip_slashes]. destruct (Z.eqb_spec c SLASH) as [->|Hc].
  - split_and!; [simpl; lia|by apply suffix_cons_r|done].
  - split_and!; [done|done|done].
Qed.

Lemma span_elem_spec p : let '(s, q) := span_elem p in
  p = s ++ q ∧ Forall (λ c, c ≠ SLASH) s ∧
  match q with [] => split_path p = [s] | c :: q' => c = SLASH ∧ split_path p = s :: split_path q' end.
Proof.
  induction p as [|c p IH]; [by split_and!; [..|done]|]. cbn [span_elem]. destruct (Z.eqb_spec c SLASH) as [->|Hc].
  - split_and!; done.
  - destruct (span_elem p) as [s q]. destruct IH as (-> & Hs & Hq). split_and!; [done|by constructor|].
    cbn [split_path]. rewrite (proj2 (Z.eqb_neq c SLASH) Hc). destruct q as [|c' q']; [by rewrite Hq|]. destruct Hq as [-> ->]. done.
Qed.

Lemma span_elem_elems p s q : span_elem p = (s, q) → s ≠ [] → path_elems p = s :: path_elems q.
Proof.
  intros E Hs. pose proof (span_elem_spec p) as Hp. rewrite E in Hp. destruct Hp as (_ & _ & Hq). unfold path_elems.
  destruct q as [|c q'].
  - rewrite Hq. by rewrite filter_cons_True.
  - destruct Hq as [-> ->]. by rewrite filter_cons_True.
Qed.

(** ** The name buffer *)

Lemma until_nul_none l : Forall (λ c, c ≠ 0) l → until_nul l = l.
Proof. induction 1 as [|c l Hc _ IH]; [done|]. simpl. by rewrite (proj2 (Z.eqb_neq c 0) Hc), IH. Qed.

Lemma until_nul_app l r : Forall (λ c, c ≠ 0) l → until_nul (l ++ 0 :: r) = l.
Proof. induction 1 as [|c l Hc _ IH]; [done|]. simpl. by rewrite (proj2 (Z.eqb_neq c 0) Hc), IH. Qed.

Lemma name_buffer s name : length name = Z.to_nat DIRSIZ → Forall (λ c, c ≠ 0) s →
  let len := Z.of_nat (length s) in
  let name' := if DIRSIZ <=? len then splice name 0 (slice s 0 DIRSIZ) else splice (splice name 0 s) len [0] in
  dir_name name' = take (Z.to_nat DIRSIZ) s ∧ length name' = Z.to_nat DIRSIZ.
Proof.
  intros Hn Hs len name'. unfold name', dir_name, len. assert (Z.to_nat DIRSIZ = 14%nat) as E14 by done. unfold DIRSIZ in *.
  destruct (Z.leb_spec 14 (Z.of_nat (length s))).
  - assert (splice name 0 (slice s 0 14) = take 14 s) as ->.
    { unfold splice, slice. change (Z.to_nat 0) with 0%nat. rewrite take_0, drop_0. cbn [app Nat.add].
      rewrite drop_ge by (rewrite length_take, E14 in *; lia). by rewrite app_nil_r. }
    rewrite take_take, E14, Nat.min_id, length_take. split; [apply until_nul_none; by apply Forall_take|lia].
  - assert (splice (splice name 0 s) (Z.of_nat (length s)) [0] = s ++ 0 :: drop (S (length s)) name) as ->.
    { unfold splice. change (Z.to_nat 0) with 0%nat. rewrite take_0. cbn [app Nat.add length]. rewrite Nat2Z.id, take_app_length.
      f_equal. f_equal. rewrite drop_app_ge by lia. rewrite drop_drop. f_equal. lia. }
    rewrite (take_ge (s ++ _)) by (rewrite length_app; cbn [length]; rewrite length_drop; lia).
    rewrite until_nul_app by done. rewrite take_ge by lia. split; [done|]. rewrite length_app. cbn [length]. rewrite length_drop. lia.
Qed.

Lemma skipelem_elems path name : length name = Z.to_nat DIRSIZ → Forall (λ c, c ≠ 0) path →
  match skipelem path name with
  | None => path_elems path = []
  | Some (path', name') => ∃ e, path_elems path = e :: path_elems path' ∧ dir_name name' = take (Z.to_nat DIRSIZ) e ∧
      length name' = Z.to_nat DIRSIZ ∧ (length path' < length path)%nat ∧ Forall (λ c, c ≠ 0) path' ∧ (path' = [] ↔ path_elems path' = [])
  end.
Proof.
  intros Hn Hz. unfold skipelem. destruct (skip_slashes_spec path) as (L1 & [pre Epre] & Hhd). rewrite <- (skip_slashes_elems path).
  destruct (skip_slashes path) as [|c p]; [done|]. destruct (span_elem (c :: p)) as [s q] eqn:Es.
  pose proof (span_elem_spec (c :: p)) as Hsp. rewrite Es in Hsp. destruct Hsp as (Ep & Hs & Hq).
  assert (s ≠ []) as Hne.
  { intros ->. destruct q as [|c' q']; [done|]. destruct Hq as [-> _]. by injection Ep as -> _. }
  assert (Forall (λ c, c ≠ 0) (s ++ q)) as [Hzs Hzq]%Forall_app.
  { rewrite <- Ep. rewrite Epre in Hz. by apply Forall_app in Hz as [_ ?]. }
  destruct (name_buffer s name Hn Hzs) as [Hd Hln]. destruct (skip_slashes_spec q) as (L2 & [pre2 E2] & Hhd2).
  exists s. rewrite skip_slashes_elems. split_and!; [by apply span_elem_elems|done|done| | |].
  - rewrite Ep, length_app in L1. destruct s; [done|]. cbn [length] in L1. lia.
  - rewrite E2 in Hzq. by apply Forall_app in Hzq as [_ ?].
  - rewrite <- (skip_slashes_elems q). split; [by intros ->|]. destruct (skip_slashes q) as [|x r]; [done|].
    destruct (span_elem (x :: r)) as [s' q'] eqn:Es'. intros E. exfalso. revert E. rewrite (span_elem_elems _ s' q' Es'); [done|].
    cbn [span_elem] in Es'. rewrite (proj2 (Z.eqb_neq x SLASH) Hhd2) in Es'. destruct (span_elem r). by injection Es' as <- _.
Qed.

(** C35: [skipelem], called in turn as [namex] does, goes through the non-empty parts of the
    path between slashes, in order, each cut to [DIRSIZ] bytes, and stops; as many calls as
    the path has bytes are enough, so the fuel of the model of [namex] is never used up. *)
Theorem skipelem_walks_elements path name : length name = Z.to_nat DIRSIZ → Forall (λ c, c ≠ 0) path →
  walk (S (length path)) path name = Some (take (Z.to_nat DIRSIZ) <$> path_elems path).
Proof.
  intros Hn Hz. assert (∀ fuel path name, length name = Z.to_nat DIRSIZ → Forall (λ c, c ≠ 0) path → (length path < fuel)%nat →
    walk fuel path name = Some (take (Z.to_nat DIRSIZ) <$> path_elems path)) as Hgen; [|apply Hgen; [done|done|lia]].
  clear. induction fuel as [|fuel IH]; intros path name Hn Hz Hf; [lia|]. cbn [walk].
  pose proof (skipelem_elems path name Hn Hz) as Hs. destruct (skipelem path name) as [[path' name']|]; [|by rewrite Hs].
  destruct Hs as (e & -> & Hd & Hn' & Hl & Hz' & _). rewrite IH by (done || lia). cbn [fmap option_fmap option_map list_fmap]. by rewrite Hd.
Qed.

Lemma skipelem_walks_elements_witness :
  walk 30 (bytes_of "//usr/a_name_of_18_bytes//bin") (replicate 14 255) =
  Some [bytes_of "usr"; bytes_of "a_name_of_18_b"; bytes_of "bin"].
Proof.
  exact (skipelem_walks_elements (bytes_of "//usr/a_name_of_18_bytes//bin") (replicate 14 255) eq_refl
    ltac:(repeat constructor; done)).
Defined.
