(* ===== verification/SchedLive.v ===== *)
(** * The scheduler reaches every runnable process: liveness of scheduler

    A round of [scheduler] goes once over the process table.  A process that is runnable
    when the round starts is dispatched in this round, after at most as many others as
    there are slots before its own, whatever those do before they switch back. *)

From S2P Require Import Prelude Layout State Str Spinlock Kalloc Vm Sched Uaccess Eval SchedProps.

(** ** Changes of the processor's state *)

Lemma cpu_view n h v f p' :
  hw_view n h v → (∀ c, cproc c = hv_proc v → cproc (f c) = p') →
  (∀ c, apicid (f c) = apicid c ∧ ncli (f c) = ncli c ∧ intena (f c) = intena c) →
  hw_view n (h <| cpus ::= alter f (hv_cpu v) |>) (v <| hv_proc := p' |>).
Proof.
  intros (c & [Hf Hn Hp Hcr Hi Hie Hh Ho Hfr]) Hcp Hs. destruct (Hs c) as (E1 & E2 & E3). exists (f c). split; simpl; try done.
  - by apply (hw_find_alter _ _ _ f Hf).
  - by rewrite E2.
  - by apply Hcp.
  - by rewrite E2.
  - by rewrite E2, E3.
Qed.

Lemma cr3_view n h v x : hw_view n h v → hw_view n (h <| cr3 := x |>) (v <| hv_cr3 := x |>).
Proof. intros (c & []). exists c. by split. Qed.

Section Live.
Context `{KernelSyms}.

Lemma evals_set_cproc k v p' :
  evals k v (mod_cpu (hv_cpu v) (λ c, c <| cproc := p' |>)) tt k (v <| hv_proc := p' |>).
Proof. intros h rs Hv. eexists. split; [by apply (cpu_view 0 h v (λ c, c <| cproc := p' |>) p')|done]. Qed.

Lemma evals_lcr3 k v x : evals k v (lcr3 x) tt k (v <| hv_cr3 := x |>).
Proof. intros h rs Hv. eexists. split; [by apply (cr3_view 0 h v x)|done]. Qed.

Lemma evals_switchkvm k v : evals k v switchkvm tt k (v <| hv_cr3 := V2P (kpgdir k) |>).
Proof. unfold switchkvm. epure. apply evals_lcr3. Qed.

(** A process that [switchuvm] accepts, with its page directory. *)
Definition switchable (k : kern) (p : proc) (pd : Z) : Prop :=
  kstack p ≠ 0 ∧ ∃ s, shared k !! sharePtr p = Some s ∧ pgdir s = pd ∧ pd ≠ 0.

Lemma evals_switchuvm k v i p pd :
  procs k !! i = Some p → switchable k p pd → evals k v (switchuvm (Some i)) tt k (v <| hv_cr3 := V2P pd |>).
Proof.
  intros Hi (Hk & s & Hs & <- & Hpd). unfold switchuvm. epure. estep (@evals_deref proc); [exact Hi|].
  rewrite (proj2 (Z.eqb_neq _ _) Hk). epure. estep (@evals_deref sharedData); [exact Hs|]. rewrite (proj2 (Z.eqb_neq _ _) Hpd).
  intros h rs Hv. destruct (pushcli_spec 0 (at_hw k h rs) v Hv) as (h1 & Hv1 & Hif & E1).
  set (f := λ c : cpu, c <| gdt ::= <[5%nat := (SEG16 STS_T32A (ts_addr (hv_cpu v)) (sizeof_taskstate - 1) 0) <| sd_s := 0 |>]> |>
            <| ts_ss0 := Z.shiftl SEG_KDATA 3 |> <| ts_esp0 := u32 (kstack p + KSTACKSIZE) |> <| ts_iomb := 0xFFFF |>).
  pose proof (cpu_view 1 h1 v f (hv_proc v) Hv1 ltac:(done) ltac:(done)) as Hv2. set (h2 := h1 <| cpus ::= _ |>) in Hv2.
  pose proof (cr3_view 1 h2 _ (V2P (pgdir s)) Hv2) as Hv3. set (h3 := h2 <| cr3 := _ |>) in Hv3.
  destruct (popcli_spec 0 (at_hw k h3 rs) _ Hv3) as (h4 & Hv4 & E4). exists h4. split; [by destruct v|].
  mstep E1. destruct (id Hv1) as (c & Hc). mstep (mycpu_spec (at_hw k h1 rs)); [exact (hw_find _ _ _ _ Hc)|exact Hif|].
  exact E4.
Qed.

Lemma evals_sti k v : hv_held v = ∅ → evals k v sti tt k (v <| hv_ie := true |>).
Proof.
  intros Hh h rs (c & [Hf Hn Hp Hcr Hi Hie Hhe Ho Hfr]). exists (h <| eflags ::= λ e, Z.lor e FL_IF |>). split; [|done].
  assert (ncli c = 0) as E by (rewrite Hn, Hh, size_empty; done).
  exists c. split; simpl; try done.
  - rewrite E, decide_True by done. apply sti_sets.
Qed.

(** ** A round *)

(** What the loop of the scheduler does with slot [i]. *)
Definition turn (c i : nat) : K unit :=
  p ← rd_proc i;
  if negb (bool_decide (state p = RUNNABLE)) then mret tt else
  _ ← mod_cpu c (λ c, c <| cproc := Some i |>);
  _ ← switchuvm (Some i);
  _ ← mod_proc i (λ p, p <| state := RUNNING |>);
  _ ← swtch;
  _ ← switchkvm;
  mod_cpu c (λ c, c <| cproc := None |>).

Lemma round_turns c : scheduler_round c = (_ ← sti; _ ← acquire L_ptable; _ ← for_each (seq 0 NPROCn) (turn c); release L_ptable).
Proof. done. Qed.

(** The scheduler of CPU [c] holds the process table, every runnable process has a stack
    and an address space, and process [j] is runnable. *)
Record waiting (c j : nat) (k : kern) : Prop := mkWaiting {
  wt_procs : length (procs k) = NPROCn;
  wt_ok : ∀ i p, procs k !! i = Some p → state p = RUNNABLE → ∃ pd, switchable k p pd;
  wt_j : ∃ q, procs k !! j = Some q ∧ state q = RUNNABLE;
  wt_hw : ∃ v, hw_ok (hw k) v ∧ hv_cpu v = c ∧ L_ptable ∈ hv_held v
}.

(** A process that runs and switches back leaves a runnable [j] runnable. *)
Definition comes_back (c j : nat) (f : kern → kern) : Prop := ∀ k, waiting c j k → waiting c j (f k).

(** Process [j] is running on CPU [c], in its own address space. *)
Definition dispatched (c j : nat) (k : kern) : Prop :=
  ∃ q pd cp, procs k !! j = Some q ∧ state q = RUNNING ∧ switchable k q pd ∧ cr3 (hw k) = V2P pd ∧
    cpus (hw k) !! c = Some cp ∧ cproc cp = Some j.

(** The turn of a runnable process comes to the switch. *)
Lemma turn_switches c i k p rs :
  procs k !! i = Some p → state p = RUNNABLE → (∃ pd, switchable k p pd) →
  (∃ v, hw_ok (hw k) v ∧ hv_cpu v = c ∧ L_ptable ∈ hv_held v) →
  let k1 := k <| procs ::= alter (λ p, p <| state := RUNNING |>) i |> in
  ∃ h, dispatched c i (k1 <| hw := h |>) ∧ (∃ v, hw_ok h v ∧ hv_cpu v = c ∧ L_ptable ∈ hv_held v) ∧
    turn c i (mkWorld k rs) = (_ ← swtch; _ ← switchkvm; mod_cpu c (λ c, c <| cproc := None |>)) (at_hw k1 h rs).
Proof.
  intros Hi Hst (pd & Hsw) (v & Hv & <- & Hl) k1.
  destruct (evals_set_cproc k v (Some i) (hw k) rs Hv) as (h1 & Hv1 & E1). set (v1 := v <| hv_proc := Some i |>) in *.
  destruct (evals_switchuvm k v1 i p pd Hi Hsw h1 rs Hv1) as (h2 & Hv2 & E2). set (v2 := v1 <| hv_cr3 := V2P pd |>) in *.
  destruct (evals_mod_proc k v2 i (λ p, p <| state := RUNNING |>) h2 rs Hv2) as (h3 & Hv3 & E3).
  exists h3. destruct (id Hv3) as (cp & Hcp). split_and!.
  - exists (p <| state := RUNNING |>), pd, cp. split_and!; try done.
    + simpl. by rewrite list_lookup_alter_eq, Hi.
    + apply (hw_cr3 _ _ _ _ Hcp).
    + simpl. exact (hw_lookup _ _ _ (hw_find _ _ _ _ Hcp)).
    + apply (hw_proc _ _ _ _ Hcp).
  - by exists v2.
  - unfold turn. rewrite (bind_ok _ _ _ _ _ (rd_proc_ok (mkWorld k rs) i p Hi)). rewrite bool_decide_true by done. cbn [negb].
    replace (mkWorld k rs) with (at_hw k (hw k) rs) by (by destruct k).
    mstep E1. mstep E2. mstep E3. done.
Qed.

(** What is left of the turn once the process has switched back. *)
Lemma turn_returns c k rs : (∃ v, hw_ok (hw k) v ∧ hv_cpu v = c ∧ L_ptable ∈ hv_held v) →
  ∃ h, (∃ v, hw_ok h v ∧ hv_cpu v = c ∧ L_ptable ∈ hv_held v) ∧
    (_ ← switchkvm; mod_cpu c (λ c, c <| cproc := None |>)) (mkWorld k rs) = Ok tt (at_hw k h rs).
Proof.
  intros (v & Hv & <- & Hl). destruct (evals_switchkvm k v (hw k) rs Hv) as (h1 & Hv1 & E1).
  set (v1 := v <| hv_cr3 := V2P (kpgdir k) |>) in *. destruct (evals_set_cproc k v1 None h1 rs Hv1) as (h2 & Hv2 & E2).
  exists h2. split; [by exists (v1 <| hv_proc := None |>)|]. replace (mkWorld k rs) with (at_hw k (hw k) rs) by (by destruct k). mstep E1. exact E2.
Qed.

Lemma waiting_hw c j k h : waiting c j k → (∃ v, hw_ok h v ∧ hv_cpu v = c ∧ L_ptable ∈ hv_held v) → waiting c j (k <| hw := h |>).
Proof. intros [] Hh. by split. Qed.

Lemma waiting_running c j k i : waiting c j k → i ≠ j → waiting c j (k <| procs ::= alter (λ p, p <| state := RUNNING |>) i |>).
Proof.
  intros [Hn Hok (q & Hq & Hst) Hh] Hne. split; [by simpl; rewrite length_alter| | |done].
  - intros i' p Hp Hrun. simpl in Hp. destruct (decide (i' = i)) as [->|].
    + rewrite list_lookup_alter_eq in Hp. destruct (procs k !! i); [|done]. by injection Hp as <-.
    + rewrite list_lookup_alter_ne in Hp by done. by apply (Hok i' p).
  - exists q. simpl. by rewrite list_lookup_alter_ne by done.
Qed.

(** The switch to the process, and what follows it in its turn. *)
Definition switch_to (c : nat) : K unit := _ ← swtch; _ ← switchkvm; mod_cpu c (λ c, c <| cproc := None |>).

(** From slot [a] on, [j] is reached after at most [j - a] other processes. *)
Lemma turns_reach c j len : ∀ a rs k, waiting c j k → (a ≤ j < a + len)%nat → Forall (comes_back c j) rs → (j - a ≤ length rs)%nat →
  ∃ n w, (n ≤ j - a)%nat ∧ dispatched c j (ks w) ∧ resumes w = drop n rs ∧
    for_each (seq a len) (turn c) (mkWorld k rs) = (_ ← switch_to c; for_each (seq (S j) (a + len - S j)) (turn c)) w.
Proof.
  induction len as [|len IH]; intros a rs k Hw Hj Hrs Hlen; [lia|]. cbn [seq for_each]. destruct (id Hw) as [Hn Hok (q & Hq & Hst) Hh].
  destruct (decide (a = j)) as [->|Hne].
  - destruct (turn_switches c j k q rs Hq Hst (Hok j q Hq Hst) Hh) as (h & Hd & _ & E).
    set (k1 := k <| procs ::= alter (λ p, p <| state := RUNNING |>) j |>) in *.
    exists 0%nat, (at_hw k1 h rs). split_and!; [lia|exact Hd|done|]. replace (j + S len - S j)%nat with len by lia. by apply bind_cong.
  - destruct (lookup_lt_is_Some_2 (procs k) a) as [p Hp]; [apply lookup_lt_Some in Hq; lia|].
    destruct (decide (state p = RUNNABLE)) as [Hrun|Hnot].
    + destruct rs as [|f rs]; [cbn in Hlen; lia|]. apply Forall_cons in Hrs as [Hf Hrs].
      destruct (turn_switches c a k p (f :: rs) Hp Hrun (Hok a p Hp Hrun) Hh) as (h & _ & Hh1 & E).
      set (k1 := k <| procs ::= alter (λ p, p <| state := RUNNING |>) a |>) in *.
      assert (waiting c j (k1 <| hw := h |>)) as Hw1 by (apply waiting_hw; [by apply waiting_running|done]).
      apply Hf in Hw1. set (k2 := f (k1 <| hw := h |>)) in *.
      destruct (turn_returns c k2 rs (wt_hw _ _ _ Hw1)) as (h2 & Hh2 & E2).
      destruct (IH (S a) rs (k2 <| hw := h2 |>)) as (n & w & Hle & Hd & Hr & E3); [by apply waiting_hw|lia|done|cbn in Hlen; lia|].
      exists (S n), w. split_and!; [lia|done|done|]. replace (a + S len - S j)%nat with (S a + len - S j)%nat by lia. rewrite <- E3.
      assert (turn c a (mkWorld k (f :: rs)) = Ok tt (at_hw k2 h2 rs)) as Et by (rewrite E; exact E2). by rewrite (bind_ok _ _ _ _ _ Et).
    + destruct (IH (S a) rs k) as (n & w & Hle & Hd & Hr & E); [done|lia|done|lia|].
      exists n, w. split_and!; [lia|done|done|]. replace (a + S len - S j)%nat with (S a + len - S j)%nat by lia. rewrite <- E.
      assert (turn c a (mkWorld k rs) = Ok tt (mkWorld k rs)) as Et.
      { unfold turn. rewrite (bind_ok _ _ _ _ _ (rd_proc_ok (mkWorld k rs) a p Hp)). by rewrite bool_decide_false. }
      by rewrite (bind_ok _ _ _ _ _ Et).
Qed.

(** C18: a process that is runnable when a round of the scheduler starts is dispatched in that
    round: the round comes to the switch into it, with the process marked running on this
    CPU and its page table loaded, after at most as many other processes as there are
    slots before its own, provided only that each of those comes back to the scheduler. *)
Theorem scheduler_round_dispatches k v c j q rs h :
  hw_ok h v → hv_cpu v = c → hv_held v = ∅ → hv_others v = ∅ → length (procs k) = NPROCn →
  (∀ i p, procs k !! i = Some p → state p = RUNNABLE → ∃ pd, switchable k p pd) →
  procs k !! j = Some q → state q = RUNNABLE → Forall (comes_back c j) rs → (j ≤ length rs)%nat →
  ∃ n w, (n ≤ j)%nat ∧ dispatched c j (ks w) ∧ resumes w = drop n rs ∧
    scheduler_round c (at_hw k h rs) =
      (_ ← switch_to c; _ ← for_each (seq (S j) (NPROCn - S j)) (turn c); release L_ptable) w.
Proof.
  intros Hv Hc Hh Ho Hn Hok Hq Hst Hrs Hlen.
  destruct (evals_sti k v Hh h rs Hv) as (h1 & Hv1 & E1). set (v1 := v <| hv_ie := true |>) in *.
  destruct (evals_acquire k v1 L_ptable ltac:(simpl; rewrite Hh; set_solver) ltac:(simpl; rewrite Ho; set_solver) h1 rs Hv1) as (h2 & Hv2 & E2).
  assert (waiting c j (k <| hw := h2 |>)) as Hw.
  { split; try done; [by exists q|]. exists (v_hold L_ptable v1). split_and!; [done|done|set_solver]. }
  assert (j < NPROCn)%nat as Hj by (apply lookup_lt_Some in Hq; lia).
  destruct (turns_reach c j NPROCn 0 rs _ Hw) as (n & w & Hle & Hd & Hr & E); [lia|done|lia|].
  exists n, w. split_and!; [lia|done|done|]. rewrite round_turns. mstep E1. mstep E2.
  rewrite (bind_cong _ _ _ _ _ E). by rewrite bind_assoc.
Qed.

End Live.

(** ** Two runnable processes *)

#[local] Existing Instance image_syms.

Definition live_proc : proc := zero_proc <| state := RUNNABLE |> <| kstack := 0x80600000 |> <| sharePtr := 0x80400000 |>.
Definition live_kern : kern :=
  boot_kern <| procs ::= λ ps, <[0%nat := live_proc]> (<[2%nat := live_proc]> ps) |>
    <| shared := {[ 0x80400000 := zero_shared <| pgdir := 0x80300000 |> ]} |>.
(** Process 0 goes to sleep. *)
Definition sleeps (k : kern) : kern := k <| procs ::= alter (λ p, p <| state := SLEEPING |>) 0%nat |>.

Lemma sleeps_comes_back : comes_back 0 2 sleeps.
Proof.
  intros k [Hn Hok (q & Hq & Hst) Hh]. split; [by simpl; rewrite length_alter| | |done].
  - intros i p Hp Hrun. simpl in Hp. destruct (decide (i = 0%nat)) as [->|].
    + rewrite list_lookup_alter_eq in Hp. destruct (procs k !! 0%nat); [|done]. by injection Hp as <-.
    + rewrite list_lookup_alter_ne in Hp by done. by apply (Hok i p).
  - exists q. simpl. by rewrite list_lookup_alter_ne.
Qed.

Lemma scheduler_round_dispatches_witness : ∃ n w, (n ≤ 2)%nat ∧ dispatched 0 2 (ks w) ∧ resumes w = drop n [sleeps; sleeps] ∧
  scheduler_round 0 (at_hw live_kern boot_hw [sleeps; sleeps]) =
    (_ ← switch_to 0; _ ← for_each (seq 3 61) (turn 0); release L_ptable) w.
Proof.
  apply (scheduler_round_dispatches live_kern boot_view 0 2 live_proc [sleeps; sleeps] boot_hw); try done.
  - apply boot_hw_ok.
  - intros i p Hp Hrun. exists 0x80300000. destruct i as [|[|[|i]]]; simpl in Hp; [by injection Hp as <-; split; [|exists (zero_shared <| pgdir := 0x80300000 |>)]..|].
    exfalso. apply list_elem_of_lookup_2 in Hp.
    assert (Forall (λ p, state p ≠ RUNNABLE) (drop 3 (procs live_kern))) as Hf by (apply (bool_decide_unpack _); by vm_compute).
    rewrite Forall_forall in Hf. by apply (Hf p).
  - apply Forall_cons. split; [apply sleeps_comes_back|]. apply Forall_cons. split; [apply sleeps_comes_back|apply Forall_nil_2].
Defined.
