(* ===== verification/GrowProps.v ===== *)
(** * Resizing a process: properties of growproc *)

From S2P Require Import Prelude Layout State Str Spinlock Kalloc Vm VmInv VmSpace VmOps VmAlloc VmCopy VmProps Sched Sleeplock Ports Apic Console Bio Log Inode Fs File Proc Thread Uaccess Eval UserMem SchedProps ProcProps ThreadProps SchedLive.

Section Grow.
Context `{KernelSyms} `{DiskDriver}.

Lemma ends_deallocuvm own k v pd oldsz newsz L :
  kmem_ready k v → kmem_inv k L → as_inv own (mem k) pd L → 0 ≤ newsz < oldsz → oldsz ≤ KERNBASE →
  ends k v (deallocuvm pd oldsz newsz) v (λ r k', r = newsz ∧
    shrunk own pd (PGROUNDUP newsz) oldsz k L (frames_from (leaf (mem k) pd) (PGROUNDUP newsz) (ncovered newsz oldsz)) k').
Proof.
  intros Hr Hk Has Hn Ho h rs Hv.
  eapply post_mono; [apply (deallocuvm_spec own (at_hw k h rs) v pd oldsz newsz L); try done; by apply kmem_inv_hw|].
  intros r k' [-> Hs]. split; [done|]. destruct Hs as [A B C D [E1 E2 E3]]. by split.
Qed.

(** The current process [p], its shared data [s] and its address space. *)
Record grow_pre (own : Z → Prop) (k : kern) (v : hwview) (cur : nat) (p : proc) (s : sharedData) (L : list Z) : Prop := mkGrowPre {
  gp_held : hv_held v = ∅;
  gp_others : L_ptable ∉ hv_others v;
  gp_cur : hv_proc v = Some cur;
  gp_proc : procs k !! cur = Some p;
  gp_kstack : kstack p ≠ 0;
  gp_shared : shared k !! sharePtr p = Some s;
  gp_apart : ¬ own (sharePtr p);
  gp_ready : kmem_ready k v;
  gp_kmem : kmem_inv k L;
  gp_as : as_inv own (mem k) (pgdir s) L;
  gp_sz : 0 ≤ sz s ≤ KERNBASE;
  gp_above : ∀ va, vpage va → PGROUNDUP (sz s) ≤ va < KERNBASE → leaf (mem k) (pgdir s) va = None
}.

Lemma roundup_leb x va : 0 ≤ x ≤ KERNBASE → pg_aligned va → (PGROUNDUP x <=? va) = (x <=? va).
Proof.
  intros Hx Hva. pose proof (PGROUNDUP_bounds x ltac:(kl) ltac:(kl)) as Hb. pose proof (PGROUNDUP_aligned x) as Hal.
  destruct (Z.leb_spec (PGROUNDUP x) va), (Z.leb_spec x va); try done; try lia. unfold pg_aligned in *. zl.
Qed.

Lemma kmem_inv_ext k k' L : mem k' = mem k → freelist k' = freelist k → kmem_inv k L → kmem_inv k' L.
Proof. intros E1 E2 []. split; [by rewrite E1, E2|done..]. Qed.

Section Resize.
Variables (own : Z → Prop) (k : kern) (v : hwview) (cur : nat) (p : proc) (s : sharedData) (L : list Z).
Hypothesis (Hpre : grow_pre own k v cur p s L).
Let pd := pgdir s.
Let v1 := v_hold L_ptable v.

(** What a change of the address space leaves as it is. *)
Lemma grow_kept (P : Z → Prop) k' : kframe P k k' → ¬ P (sharePtr p) →
  procs k' = procs k ∧ shared k' !! sharePtr p = Some s.
Proof.
  intros Hf HP. split.
  - pose proof (kf_non _ _ _ Hf) as Hn. unfold same_but_mm, non_mm in Hn. congruence.
  - assert (page_objs k' (sharePtr p) = page_objs k (sharePtr p)) as [= -> _ _ _] by (by apply (kf_obj _ _ _ Hf)). apply Hpre.
Qed.

Lemma pd_nonzero : pd ≠ 0.
Proof. destruct (pt_pd _ _ _ _ (proj1 (gp_as _ _ _ _ _ _ _ Hpre))) as (Hv%valid_page_pos & _). unfold pd, KERNBASE in *. lia. Qed.

(** Once the pages are there: the new size is recorded, the page table loaded and the
    table of processes unlocked. *)
Lemma leads_resized k' sz' (Q : list (kern → kern) → outcome world Z → Prop) :
  procs k' = procs k → shared k' !! sharePtr p = Some s →
  (∀ h rs, hw_ok h (v <| hv_cr3 := V2P pd |>) → Q rs (Ok 0 (at_hw (k' <| shared ::= alter (λ s, s <| sz := sz' |>) (sharePtr p) |>) h rs))) →
  leads k' v1 (_ ← mod_shared cur (λ s, s <| sz := sz' |>); _ ← switchuvm (Some cur); _ ← release L_ptable; mret 0) Q.
Proof.
  intros Hps Hsh HQ. set (k2 := k' <| shared ::= alter (λ s, s <| sz := sz' |>) (sharePtr p) |>) in *.
  eapply leads_evals; [apply (evals_mod_shared k' v1 cur p s); [rewrite Hps; apply Hpre|done]|]. cbv beta. fold k2.
  eapply leads_evals; [apply (evals_switchuvm k2 v1 cur p pd)|].
  { simpl. rewrite Hps. apply Hpre. }
  { split; [apply Hpre|]. exists (s <| sz := sz' |>). simpl. split_and!; [|done|apply pd_nonzero]. by rewrite lookup_alter_eq, Hsh. }
  cbv beta. replace (v1 <| hv_cr3 := V2P pd |>) with (v_hold L_ptable (v <| hv_cr3 := V2P pd |>)) by done.
  eapply leads_evals; [apply evals_release_hold; simpl; rewrite (gp_held _ _ _ _ _ _ _ Hpre); set_solver|]. cbv beta.
  by apply leads_ret.
Qed.

(** [growproc] returned 0 with the size [sz'] and the user mappings [F], or returned -1 with
    the table of processes still locked, the size as it was and the mappings [G]. *)
Definition resized (sz' : Z) (F G : Z → option Z → Prop) (rs : list (kern → kern)) (o : outcome world Z) : Prop :=
  match o with
  | Ok r w =>
      resumes w = rs ∧ procs (ks w) = procs k ∧
      (∃ L', kmem_inv (ks w) L' ∧ as_inv own (mem (ks w)) pd L') ∧
      ((r = 0 ∧ hw_ok (hw (ks w)) (v <| hv_cr3 := V2P pd |>) ∧ shared (ks w) !! sharePtr p = Some (s <| sz := sz' |>) ∧
        ∀ va, upage va → F va (leaf (mem (ks w)) pd va)) ∨
       (r = -1 ∧ hw_ok (hw (ks w)) v1 ∧ L_ptable ∈ hv_held v1 ∧ shared (ks w) !! sharePtr p = Some s ∧
        ∀ va, upage va → G va (leaf (mem (ks w)) pd va)))
  | _ => False
  end.

Lemma not_page m' L' x : as_inv own m' pd L' → pt_pages m' pd x → own x.
Proof. intros [Hp _] Hx. by destruct (pt_pages_valid _ _ _ _ _ Hp Hx) as (_ & _ & ?). Qed.

Lemma growproc_up n : 0 < n → sz s + n < KERNBASE →
  leads k v (growproc n) (resized (sz s + n)
    (λ va e, if (PGROUNDUP (sz s) <=? va) && (va <? sz s + n) then ∃ f, f ∈ L ∧ e = Some (entry (V2P f) PTE_WU)
             else e = leaf (mem k) pd va)
    (λ va e, e = leaf (mem k) pd va)).
Proof.
  intros Hn Hlt. pose proof (gp_sz _ _ _ _ _ _ _ Hpre) as Hsz. pose proof (gp_as _ _ _ _ _ _ _ Hpre) as Has. fold pd in Has.
  assert (L_ptable ∉ hv_held v) as Hl by (rewrite (gp_held _ _ _ _ _ _ _ Hpre); set_solver).
  unfold growproc. eapply leads_evals; [apply evals_curproc, Hpre|]. cbv beta.
  eapply leads_evals; [apply evals_acquire; [done|apply Hpre]|]. cbv beta. fold v1.
  eapply leads_evals; [apply (evals_rd_shared k v1 cur p s); apply Hpre|]. cbv beta zeta. fold pd.
  rewrite (proj2 (Z.ltb_lt 0 n)) by done. rewrite u32_id by (unfold is_u32, two32, KERNBASE in *; lia).
  apply leads_assoc. eapply leads_ends.
  { apply (ends_allocuvm own k v1 pd (sz s) (sz s + n) L); [apply kmem_ready_hold; [done|apply Hpre]|apply Hpre|done|lia| |lia].
    intros va Hva Hr. apply (gp_above _ _ _ _ _ _ _ Hpre); [done|lia]. }
  intros r k' (L' & Hk' & Has' & Hf & Hcase). cbv beta. lpure.
  destruct (grow_kept _ k' Hf) as [Hps Hsh].
  { intros [Hx|Hx]; apply (gp_apart _ _ _ _ _ _ _ Hpre); [by eapply not_page|by apply (pt_free _ _ _ _ (proj1 Has))]. }
  destruct Hcase as [(-> & Hnew & Hold)|(-> & Hsame)].
  - rewrite (proj2 (Z.eqb_neq (sz s + n) 0)) by lia. eapply leads_resized; [done..|]. intros h rs Hv. split_and!; [done|done|exists L'; split; [by eapply kmem_inv_ext; [..|exact Hk']|done]|].
    left. split_and!; [done|done|simpl; by rewrite lookup_alter_eq, Hsh|]. intros va Hva. simpl.
    destruct (Z.leb_spec (PGROUNDUP (sz s)) va), (Z.ltb_spec va (sz s + n)); cbn [andb]; [by apply Hnew|apply Hold; [auto with kern|lia]..].
  - apply leads_ret. intros h rs Hv. split_and!; [done|done|exists L'; split; [by eapply kmem_inv_ext; [..|exact Hk']|done]|].
    right. split_and!; [done|done|unfold v1; simpl; set_solver|done|]. intros va Hva. simpl. apply Hsame. auto with kern.
Qed.

Lemma growproc_down n : n < 0 → 0 ≤ sz s + n →
  leads k v (growproc n) (resized (sz s + n)
    (λ va e, e = if (sz s + n <=? va) && (va <? sz s) then None else leaf (mem k) pd va)
    (λ va e, sz s + n = 0 ∧ e = if va <? sz s then None else leaf (mem k) pd va)).
Proof.
  intros Hn Hge. pose proof (gp_sz _ _ _ _ _ _ _ Hpre) as Hsz. pose proof (gp_as _ _ _ _ _ _ _ Hpre) as Has. fold pd in Has.
  assert (L_ptable ∉ hv_held v) as Hl by (rewrite (gp_held _ _ _ _ _ _ _ Hpre); set_solver).
  unfold growproc. eapply leads_evals; [apply evals_curproc, Hpre|]. cbv beta.
  eapply leads_evals; [apply evals_acquire; [done|apply Hpre]|]. cbv beta. fold v1.
  eapply leads_evals; [apply (evals_rd_shared k v1 cur p s); apply Hpre|]. cbv beta zeta. fold pd.
  rewrite (proj2 (Z.ltb_ge 0 n)), (proj2 (Z.ltb_lt n 0)) by lia. rewrite u32_id by (unfold is_u32, two32, KERNBASE in *; lia).
  apply leads_assoc. eapply leads_ends.
  { apply (ends_deallocuvm own k v1 pd (sz s) (sz s + n) L); [apply kmem_ready_hold; [done|apply Hpre]|apply Hpre|done|lia..]. }
  intros r k' (-> & [Hk' Has' Ht Hleaf Hf]). cbv beta. lpure. destruct (grow_kept _ k' Hf) as [Hps Hsh].
  { intros [Hx|Hx]; apply (gp_apart _ _ _ _ _ _ _ Hpre); [by apply (not_page (mem k) L)|].
    apply (pt_free _ _ _ _ (proj1 Has')), elem_of_app. left. by apply elem_of_rev. }
  assert (∀ va, upage va → leaf (mem k') pd va = if (sz s + n <=? va) && (va <? sz s) then None else leaf (mem k) pd va) as Hl'.
  { intros va Hva. rewrite Hleaf by auto with kern. rewrite roundup_leb; [done|lia|apply Hva]. }
  destruct (Z.eqb_spec (sz s + n) 0) as [E|E].
  - apply leads_ret. intros h rs Hv. split_and!; [done|done|eexists; split; [by eapply kmem_inv_ext; [..|exact Hk']|exact Has']|].
    right. split_and!; [done|done|unfold v1; simpl; set_solver|done|]. intros va Hva. split; [done|]. simpl. rewrite Hl', E by done.
    by rewrite (proj2 (Z.leb_le 0 va)) by apply Hva.
  - eapply leads_resized; [done..|]. intros h rs Hv. split_and!; [done|done|eexists; split; [by eapply kmem_inv_ext; [..|exact Hk']|exact Has']|].
    left. split_and!; [done|done|simpl; by rewrite lookup_alter_eq, Hsh|]. intros va Hva. simpl. by rewrite Hl'.
Qed.

(** C23: [growproc(n)] resizes the process by [n] bytes, up or down: user-writable pages appear
    exactly above the old size, or those above the new size disappear, the size shared by
    the threads is recorded and the lock released.  When the pages cannot be had, and also
    when the process shrinks to nothing, it returns -1 with the old size on record and
    with [ptable.lock] still held. *)
Theorem growproc_resizes n h rs : hw_ok h v →
  (0 < n → sz s + n < KERNBASE →
    resized (sz s + n)
      (λ va e, if (PGROUNDUP (sz s) <=? va) && (va <? sz s + n) then ∃ f, f ∈ L ∧ e = Some (entry (V2P f) PTE_WU)
               else e = leaf (mem k) pd va)
      (λ va e, e = leaf (mem k) pd va) rs (growproc n (at_hw k h rs))) ∧
  (n < 0 → 0 ≤ sz s + n →
    resized (sz s + n)
      (λ va e, e = if (sz s + n <=? va) && (va <? sz s) then None else leaf (mem k) pd va)
      (λ va e, sz s + n = 0 ∧ e = if va <? sz s then None else leaf (mem k) pd va) rs (growproc n (at_hw k h rs))).
Proof. intros Hv. split; intros H1 H2; [by apply growproc_up|by apply growproc_down]. Qed.
End Resize.
End Grow.

(** ** A process of one page *)

#[local] Existing Instance image_syms.
#[local] Instance grow_driver : DiskDriver := λ _, mret tt.

Definition grow_proc : proc := thread_proc <| kstack := 0x80500000 |>.
Definition grow_kern : kern := (ks thread_world) <| procs ::= insert 0%nat grow_proc |>.

Lemma grow_demo_pre : grow_pre thread_own grow_kern thread_view 0 grow_proc thread_shared demo_pages.
Proof.
  destruct thread_space as [Has Hl]. split; try done.
  - unfold thread_own, demo_own, demo_pages. set_solver by lia.
  - eapply kmem_inv_ext; [..|apply thread_kmem]; done.
  - intros va Hva Hb. simpl. rewrite Hl. apply demo_free; [done|]. change (PGROUNDUP _) with 0x1000 in Hb. lia.
Qed.

Definition result (o : outcome world Z) : Z := match o with Ok r _ => r | _ => 1 end.
Lemma grow_results :
  result (growproc 0x1000 (at_hw grow_kern (hw grow_kern) [])) = 0 ∧ result (growproc (-0x1000) (at_hw grow_kern (hw grow_kern) [])) = -1.
Proof. split; by vm_compute. Qed.

Lemma growproc_resizes_witness :
  (∃ w, growproc 0x1000 (at_hw grow_kern (hw grow_kern) []) = Ok 0 w ∧ sz <$> (shared (ks w) !! 0x80400000) = Some 0x2000) ∧
  (∃ w, growproc (-0x1000) (at_hw grow_kern (hw grow_kern) []) = Ok (-1) w ∧ locked (locks (hw (ks w)) L_ptable) = 1 ∧
     sz <$> (shared (ks w) !! 0x80400000) = Some 0x1000 ∧ leaf (mem (ks w)) 0x80300000 0 = None).
Proof.
  split.
  - destruct (growproc_resizes thread_own grow_kern thread_view 0 grow_proc thread_shared demo_pages grow_demo_pre 0x1000 (hw grow_kern) [] thread_hw_ok)
      as [Hup _]. specialize (Hup eq_refl eq_refl). pose proof (proj1 grow_results) as R. set (o := growproc _ _) in *. clearbody o. destruct o as [r w| | | | |]; try done.
    destruct Hup as (_ & _ & _ & [(-> & _ & Hs & _)|(-> & _)]); [|done]. change (sharePtr grow_proc) with 0x80400000 in Hs. exists w. by rewrite Hs.
  - destruct (growproc_resizes thread_own grow_kern thread_view 0 grow_proc thread_shared demo_pages grow_demo_pre (-0x1000) (hw grow_kern) [] thread_hw_ok)
      as [_ Hdn]. specialize (Hdn eq_refl ltac:(done)). pose proof (proj2 grow_results) as R. set (o := growproc _ _) in *. clearbody o. destruct o as [r w| | | | |]; try done.
    destruct Hdn as (_ & _ & _ & [(-> & _)|(-> & (c & Hc) & Hin & Hs & Hl)]); [done|]. change (sharePtr grow_proc) with 0x80400000 in Hs. exists w. rewrite Hs. split_and!; [done| |done|].
    + by apply (hw_held _ _ _ _ Hc).
    + destruct (Hl 0) as [_ E]; [by split|]. exact E.
Defined.
