(* ===== verification/KbdProps.v ===== *)
(** * The characters that the drivers deliver: properties of kbd.c and uart.c *)

From S2P Require Import Prelude Layout State Str Spinlock Kalloc Vm Sched Sleeplock Ports Memide Apic Console Kbd Bio Log Inode Fs Uaccess Eval SchedProps ConsProps.

(** ** Results of a type *)

(** [m] returns a value that satisfies [P], or waits for a device that does not answer. *)
Definition delivers {A} (P : A → Prop) (m : K A) : Prop :=
  ∀ w, match m w with Ok a _ => P a | Spin => True | _ => False end.

Lemma delivers_ret {A} (P : A → Prop) a : P a → delivers P (mret a).
Proof. by intros Ha w. Qed.

Lemma delivers_bind {A B} (P : A → Prop) (Q : B → Prop) (m : K A) (f : A → K B) :
  delivers P m → (∀ a, P a → delivers Q (f a)) → delivers Q (m ≫= f).
Proof.
  intros Hm Hf w. specialize (Hm w). destruct (m w) as [a w1| | | | |] eqn:E; try done.
  - rewrite (bind_ok _ _ _ _ _ E). by apply Hf.
  - by rewrite (bind_spin _ _ _ E).
Qed.

Lemma delivers_mod_dev f : delivers (λ _, True) (mod_dev f).
Proof. done. Qed.

Lemma delivers_get_dev {A} (f : devstate → A) : delivers (λ _, True) (get_dev f).
Proof. done. Qed.

Lemma delivers_inb port : delivers is_byte (inb port).
Proof.
  unfold inb. eapply (delivers_bind (λ _, True)); [|intros x _; apply delivers_ret; unfold is_byte, u8; apply Z.mod_pos_bound; lia].
  intros w. unfold inw, get_dev. rewrite bind_getk. by destruct (port_in _ _).
Qed.

(** ** The key maps *)

Lemma nth_byte l i : Forall is_byte l → is_byte (nth i l 0).
Proof. intros Hl. rewrite nth_lookup. destruct (l !! i) as [x|] eqn:E; [by apply (Forall_lookup_1 _ _ _ _ Hl E)|done]. Qed.

Lemma keymap_byte low enter dv d : Forall is_byte low → is_byte enter → is_byte dv → is_byte (keymap low enter dv d).
Proof.
  intros Hl He Hd. unfold keymap. destruct (d <? _); [by apply nth_byte|]. unfold keypad. repeat case_match; done.
Qed.

Lemma bytes_check l : forallb (λ b, (0 <=? b) && (b <? 256)) l = true → Forall is_byte l.
Proof.
  intros H. apply Forall_forall. intros b Hb%list_elem_of_In. rewrite forallb_forall in H. specialize (H b Hb).
  apply andb_true_iff in H as [?%Z.leb_le ?%Z.ltb_lt]. done.
Qed.

Lemma charcode_byte i d : is_byte (charcode i d).
Proof. unfold charcode. repeat case_match; (apply keymap_byte; [apply bytes_check; by vm_compute|done|done]). Qed.

(** The letters change case under Caps Lock within the bytes. *)
Lemma caps_byte c : is_byte c → delivers is_byte
  (if (chr "a" <=? c) && (c <=? chr "z") then mret (c + (chr "A" - chr "a"))
   else if (chr "A" <=? c) && (c <=? chr "Z") then mret (c + (chr "a" - chr "A")) else mret c : K Z).
Proof.
  intros Hc. change (chr "a") with 97. change (chr "z") with 122. change (chr "A") with 65. change (chr "Z") with 90.
  destruct (Z.leb_spec 97 c), (Z.leb_spec c 122); cbn [andb]; try (apply delivers_ret; unfold is_byte in *; lia);
    destruct (Z.leb_spec 65 c), (Z.leb_spec c 90); cbn [andb]; apply delivers_ret; unfold is_byte in *; lia.
Qed.

Section Getc.
Context `{KernelSyms}.

(** A character, or nothing. *)
Definition is_char (c : Z) : Prop := c = -1 ∨ is_byte c.

Lemma delivers_char {A} (m : K A) (P Q : A → Prop) : (∀ a, P a → Q a) → delivers P m → delivers Q m.
Proof. intros HPQ Hm w. specialize (Hm w). destruct (m w); auto. Qed.

Lemma byte_char (m : K Z) : delivers is_byte m → delivers is_char m.
Proof. apply delivers_char. intros a Ha. by right. Qed.

End Getc.
