(* ===== verification/ForkProps.v ===== *)
(** * Creating a process: properties of fork

    [fork] called by a process with a well formed address space: the child has an address
    space with the same contents, the same open files and directory, and starts where its
    parent called [fork]; and what is left when memory runs out at any point. *)

From S2P Require Import Prelude Layout State Str Spinlock Kalloc Vm Sched Sleeplock Ports Memide Apic Console Bio Log Inode Fs File Proc VmInv VmOps VmAlloc VmSpace VmProps VmCopy Uaccess Eval SchedProps ProcProps UserMem ThreadProps ConsProps.

(** ** Messages on the console *)

Section Message.
Context `{KernelSyms}.
Variables (k : kern) (v : hwview).

Lemma evals_plain_loop fmt : 37 ∉ fmt → ∀ m d, out_ready d (length fmt) →
  ∃ m' d', evals (kdev k m d) v (cprintf_loop fmt []) tt (kdev k m' d') v ∧ same_input d d' ∧ screen_only m m'.
Proof.
  induction fmt as [|c fmt IH]; intros Hp m d Hr.
  { exists m, d. split_and!; [apply evals_ret|done|done]. }
  apply not_elem_of_cons in Hp as [Hc Hp]. destruct (evals_consputc_screen k v m d c (length fmt) Hr) as (m1 & d1 & E1 & I1 & R1 & S1).
  destruct (IH Hp m1 d1 R1) as (m2 & d2 & E2 & I2 & S2). exists m2, d2. split_and!.
  - cbn [cprintf_loop]. change (chr "%") with 37. rewrite (proj2 (Z.eqb_neq c 37)) by congruence. cbn [negb]. estep E1. exact E2.
  - unfold same_input in *. intuition congruence.
  - by transitivity m1.
Qed.

End Message.

(** A message without conversions changes the screen and the devices only. *)
Lemma evals_message `{KernelSyms} k v fmt : 37 ∉ fmt → out_ready (devs k) (length fmt) → free_locks v [L_cons] →
  ∃ m' d', evals k v (cprintf fmt []) tt (kdev k m' d') v ∧ screen_only (mem k) m'.
Proof.
  intros Hp Hr Hl. destruct (free_locks_in _ _ L_cons Hl) as [Hl1 Hl2]; [by left|].
  set (lk := truthy (cons_locking (devs k))).
  destruct (evals_plain_loop k (if lk then v_hold L_cons v else v) fmt Hp (mem k) (devs k) Hr) as (m' & d' & E & _ & Hs). exists m', d'. split; [|done].
  rewrite kdev_self in E. unfold cprintf, get_dev. epure. fold lk. destruct lk; cbn [when].
  - estep evals_acquire; [done..|]. estep E. by apply evals_release_hold.
  - epure. estep E. apply evals_ret.
Qed.

(** ** Open files *)

Definition bump (x : file) : file := x <| f_ref := f_ref x + 1 |>.
(** The table of files when each of the descriptors [os] has been duplicated. *)
Definition dup_files (ft : list file) (os : list (option nat)) : list file :=
  foldl (λ ft o, match o with Some f => alter bump f ft | None => ft end) ft os.

(** The descriptors [os] refer to files in use, and [n] more references can be counted. *)
Definition files_ok (ft : list file) (os : list (option nat)) (n : nat) : Prop :=
  ∀ f, Some f ∈ os → ∃ x, ft !! f = Some x ∧ 1 ≤ f_ref x ∧ f_ref x + Z.of_nat n < two31.

Lemma evals_filedup k v f x :
  free_locks v [L_ftable] → ftable k !! f = Some x → 1 ≤ f_ref x → f_ref x + 1 < two31 →
  evals k v (filedup f) f (k <| ftable := alter bump f (ftable k) |>) v.
Proof.
  intros Hl Hx H1 H2. destruct (free_locks_in _ _ L_ftable Hl) as [Hl1 Hl2]; [by left|].
  unfold filedup. estep evals_acquire; [done..|]. unfold rd_file. epure. rewrite Hx. cbn [deref]. epure.
  rewrite (proj2 (Z.ltb_ge _ _)) by lia. unfold mod_file. epure. estep evals_release_hold; [done|].
  eapply evals_eq; [apply evals_ret|done| |done]. keq. cbn. apply list_alter_ext; [|done].
  intros y Hy. rewrite Hx in Hy. injection Hy as <-. destruct x as [ty r rd wr pi ip off]. cbn [f_ref] in *.
  transitivity (mkFile ty (s32 (r + 1)) rd wr pi ip off); [done|]. by rewrite s32_id by (unfold two31 in *; lia).
Qed.

Section DupLoop.
Context `{KernelSyms}.
Variables (k : kern) (v : hwview) (cur np : nat) (c q : proc) (s sc : sharedData) (sh : Z).
Variables (ps : list proc) (fr : gmap Z trapframe) (shm : gmap Z sharedData) (m : memory).
Hypotheses (Hl : free_locks v [L_ftable]) (Hc : ps !! cur = Some c) (Hq : ps !! np = Some q).
Hypotheses (Hs : shm !! sharePtr c = Some s) (Hsh : sharePtr q = sh) (Hne : sharePtr c ≠ sh).

Definition dup_state (ft : list file) (os : list (option nat)) : kern :=
  tabs (k <| ftable := ft |>) ps fr (<[sh := sc <| ofile := os |>]> shm) m.

Lemma evals_dup_loop rest : ∀ pre ft, ofile s = pre ++ rest → files_ok ft rest (length rest) →
  evals (dup_state ft (pre ++ replicate (length rest) None)) v
    (for_each (seq (length pre) (length rest)) (λ i,
        s ← rd_shared cur;
        f ← deref (ofile s !! i);
        match f with
        | Some f => f ← filedup f; mod_shared np (λ t, t <| ofile ::= insert i (Some f) |>)
        | None => mret tt
        end)) tt (dup_state (dup_files ft rest) (pre ++ rest)) v.
Proof.
  induction rest as [|o rest IH]; intros pre ft Ho Hf; [apply evals_ret|]. cbn [length seq for_each replicate].
  assert (∀ ft os, evals (dup_state ft os) v (rd_shared cur) s (dup_state ft os) v) as Hrd.
  { intros ft' os. unfold dup_state. apply (tabs_rd_shared _ _ _ _ _ _ _ c); [done|]. by rewrite lookup_insert_ne. }
  assert (ofile s !! length pre = Some o) as Hlo by (by rewrite Ho, lookup_app_r, Nat.sub_diag by done).
  assert (files_ok (dup_files ft [o]) rest (length rest)) as Hf1.
  { intros f Hin. destruct (Hf f) as (x & Hx & H1 & H2); [by right|]. cbn [length] in H2. destruct o as [g|]; cbn; [|exists x; split_and!; [done|done|lia]].
    destruct (decide (g = f)) as [->|Hgf].
    - exists (bump x). rewrite list_lookup_alter_eq, Hx. split_and!; [done|cbn; lia|cbn; lia].
    - exists x. rewrite list_lookup_alter_ne by done. split_and!; [done|done|lia]. }
  epure. estep Hrd. rewrite Hlo. cbn [deref]. epure.
  specialize (IH (pre ++ [o]) (dup_files ft [o])). rewrite <- !app_assoc, length_app in IH. cbn [app length] in IH.
  rewrite Nat.add_1_r in IH. destruct o as [f|].
  - destruct (Hf f) as (x & Hx & H1 & H2); [by left|]. cbn [length] in H2.
    assert (∀ os, evals (dup_state ft os) v (filedup f) f (dup_state (alter bump f ft) os) v) as Hdup.
    { intros os. eapply evals_eq; [apply (evals_filedup _ _ f x); done || lia|done|by keq|done]. }
    estep Hdup. unfold dup_state at 1.
    estep (tabs_mod_shared (k <| ftable := alter bump f ft |>) v ps fr
      (<[sh := sc <| ofile := pre ++ None :: replicate (length rest) None |>]> shm) m np q); [done|rewrite Hsh; apply lookup_insert_eq|].
    rewrite Hsh, insert_insert_eq.
    match goal with |- evals ?k0 _ _ _ _ _ => replace k0 with (dup_state (dup_files ft [Some f]) (pre ++ Some f :: replicate (length rest) None)) end.
    { apply IH; [done|exact Hf1]. }
    unfold dup_state. f_equal. f_equal. unfold set. cbn. f_equal. rewrite insert_app_r_alt, Nat.sub_diag by done. done.
  - apply IH; [done|exact Hf1].
Qed.
End DupLoop.

Definition bump_inode (x : inode) : inode := x <| ip_ref ::= λ r, s32 (r + 1) |>.

Lemma evals_idup k v ip x : free_locks v [L_icache] → icache k !! ip = Some x →
  evals k v (idup ip) ip (k <| icache ::= alter bump_inode ip |>) v.
Proof.
  intros Hl Hx. destruct (free_locks_in _ _ L_icache Hl) as [Hl1 Hl2]; [by left|].
  unfold idup. estep evals_acquire; [done..|]. unfold rd_inode. epure. rewrite Hx. cbn [deref]. epure.
  unfold mod_inode. epure. estep evals_release_hold; [done|]. apply evals_ret.
Qed.

(** ** The new process *)

(** The slot of the child. *)
Definition child (cur : nat) (sh : Z) (c p : proc) : proc :=
  p <| sharePtr := sh |> <| parent := Some cur |> <| pname := copy_name (pname p) (pname c) |>
    <| orderOfThread := 0 |> <| imMaster := 1 |> <| state := RUNNABLE |>.
(** The data that the threads of the child share: it is the only thread. *)
Definition child_shared (np : nat) (d : Z) (s : sharedData) : sharedData :=
  mkShared (sz s) d (ofile s) (cwd s) 1 (Some np :: replicate 5 None) (1 :: replicate 5 0).

Section Copy.
Context `{KernelSyms}.
Variables (k : kern) (v : hwview) (cur np ip : nat) (c p : proc) (s : sharedData) (t : trapframe) (sh d : Z) (xi : inode).
Variables (ps : list proc) (fr : gmap Z trapframe) (shm : gmap Z sharedData) (m : memory).
Hypotheses (Hl : free_locks v [L_ptable; L_ftable; L_icache]) (Hc : ps !! cur = Some c) (Hp : ps !! np = Some p) (Hcn : cur ≠ np).
Hypotheses (Hs : shm !! sharePtr c = Some s) (Hsh : sharePtr p = sh) (Hne : sharePtr c ≠ sh).
Hypotheses (Hz : shm !! sh = Some (zero_shared <| pgdir := d |>)) (Ht : fr !! tf c = Some t).
Hypotheses (Hlen : length (ofile s) = 16%nat) (Hfiles : files_ok (ftable k) (ofile s) 16).
Hypotheses (Hcwd : cwd s = Some ip) (Hi : icache k !! ip = Some xi).

(** The kernel after [fork_copy]. *)
Definition copied_kern : kern :=
  tabs (k <| ftable := dup_files (ftable k) (ofile s) |> <| icache ::= alter bump_inode ip |>)
    (<[np := p <| parent := Some cur |> <| pname := copy_name (pname p) (pname c) |>]> ps)
    (<[tf p := t <| tf_eax := 0 |>]> fr)
    (<[sh := mkShared (sz s) d (ofile s) (cwd s) 0 (replicate 6 None) (replicate 6 0)]> shm) m.

Lemma evals_fork_copy : evals (tabs k ps fr shm m) v (fork_copy cur np) tt copied_kern v.
Proof.
  assert (free_locks v [L_ftable] ∧ free_locks v [L_icache]) as [Hlf Hli] by (unfold free_locks in *; rewrite !Forall_cons in *; tauto).
  unfold fork_copy. estep tabs_rd_shared; [done|done|].
  estep (tabs_mod_shared k v ps fr shm m np p); [done|by rewrite Hsh|]. rewrite Hsh.
  estep tabs_mod_proc; [done|]. set (ps1 := <[np := _]> ps).
  assert (ps1 !! cur = Some c) as Hc1 by (unfold ps1; by rewrite list_lookup_insert_ne).
  assert (ps1 !! np = Some (p <| parent := Some cur |>)) as Hp1 by (apply list_lookup_insert_eq; by eapply lookup_lt_Some).
  estep tabs_rd_tf; [done|done|]. estep tabs_wr_tf; [done|]. change (tf (p <| parent := Some cur |>)) with (tf p).
  set (fr1 := <[tf p := _]> fr). change (Z.to_nat NOFILE) with 16%nat.
  pose proof (evals_dup_loop k v cur np c _ s (zero_shared <| pgdir := d |> <| sz := sz s |>) sh ps1 fr1 shm m Hlf Hc1 Hp1 Hs Hsh Hne (ofile s) [] (ftable k) eq_refl) as Hd.
  rewrite Hlen in Hd. specialize (Hd Hfiles). cbn [length app] in Hd. unfold dup_state in Hd.
  match type of Hd with evals ?k0 _ _ _ _ _ => match goal with |- evals ?k1 _ _ _ _ _ => replace k1 with k0 by (by destruct k) end end.
  estep Hd. clear Hd. set (sc1 := _ <| ofile := ofile s |>). set (k1 := k <| ftable := _ |>).
  estep (tabs_rd_shared k1 v ps1 fr1 (<[sh := sc1]> shm) m cur c s); [done|by rewrite lookup_insert_ne|].
  rewrite Hcwd. cbn [deref]. epure.
  estep (evals_idup (tabs k1 ps1 fr1 (<[sh := sc1]> shm) m) v ip xi); [done|done|].
  change ((tabs k1 ps1 fr1 (<[sh := sc1]> shm) m) <| icache ::= alter bump_inode ip |>)
    with (tabs (k1 <| icache ::= alter bump_inode ip |>) ps1 fr1 (<[sh := sc1]> shm) m).
  assert (sharePtr (p <| parent := Some cur |>) = sh) as Hsh1 by done.
  estep tabs_mod_shared; [exact Hp1|rewrite Hsh1; apply lookup_insert_eq|]. rewrite Hsh1, insert_insert_eq.
  estep tabs_rd_proc; [done|]. eapply evals_eq; [by apply tabs_mod_proc|done| |done].
  unfold copied_kern, ps1. rewrite list_insert_insert_eq. unfold sc1. rewrite <- Hcwd. by destruct p.
Qed.
End Copy.

Lemma evals_fork_publish `{KernelSyms} k v np q sh a d os w ps fr shm m :
  free_locks v [L_ptable] → ps !! np = Some q → sharePtr q = sh →
  shm !! sh = Some (mkShared a d os w 0 (replicate 6 None) (replicate 6 0)) →
  evals (tabs k ps fr shm m) v (fork_publish np) tt
    (tabs k (<[np := q <| orderOfThread := 0 |> <| imMaster := 1 |> <| state := RUNNABLE |>]> ps) fr
       (<[sh := mkShared a d os w 1 (Some np :: replicate 5 None) (1 :: replicate 5 0)]> shm) m) v.
Proof.
  intros Hl Hq Hsh Hs. destruct (free_locks_in _ _ L_ptable Hl) as [Hl1 Hl2]; [by left|]. pose proof (lookup_lt_Some _ _ _ Hq) as Hlt.
  assert (∀ S S' f, f S = S' → evals (tabs k ps fr (<[sh := S]> shm) m) (v_hold L_ptable v) (mod_shared np f) tt (tabs k ps fr (<[sh := S']> shm) m) (v_hold L_ptable v)) as Hm.
  { intros S S' f <-. eapply evals_eq; [eapply (tabs_mod_shared _ _ _ _ _ _ _ q); [done|rewrite Hsh; apply lookup_insert_eq]|done| |done].
    by rewrite Hsh, insert_insert_eq. }
  rewrite <- (insert_id _ _ _ Hs) at 1. unfold fork_publish. estep evals_acquire; [done..|]. estep Hm; [done|].
  cbn [seq for_each]. do 5 (estep Hm; [done|]). epure. clear Hm.
  estep tabs_mod_proc; [done|].
  assert (∀ S S' f q', sharePtr q' = sh → f S = S' → evals (tabs k (<[np := q']> ps) fr (<[sh := S]> shm) m) (v_hold L_ptable v) (mod_shared np f) tt
    (tabs k (<[np := q']> ps) fr (<[sh := S']> shm) m) (v_hold L_ptable v)) as Hm.
  { intros S S' f q' Hq' <-. eapply evals_eq; [eapply (tabs_mod_shared _ _ _ _ _ _ _ q'); [by apply list_lookup_insert_eq|rewrite Hq'; apply lookup_insert_eq]|done| |done].
    by rewrite Hq', insert_insert_eq. }
  estep Hm; [done|done|]. estep Hm; [done|done|]. estep tabs_mod_proc; [by apply list_lookup_insert_eq|]. rewrite list_insert_insert_eq.
  estep tabs_mod_proc; [by apply list_lookup_insert_eq|]. rewrite list_insert_insert_eq.
  eapply evals_eq; [by apply evals_release_hold|done| |done]. done.
Qed.

(** ** Memory *)

Section ForkProps.
Context `{KernelSyms}.

Lemma crt_page : pg_aligned crt ∧ ∀ x, valid_page x → x ≠ crt.
Proof.
  split; [done|]. intros x (_ & Hx & _). pose proof sym_data_range. pose proof sym_end_range. change crt with 0x800b8000. change KERNLINK with 0x80100000 in *. lia.
Qed.

Lemma screen_frame m m' : screen_only m m' → mem_frame (λ x, x = crt) m m'.
Proof. intros Hs a Ha. apply Hs. specialize (Ha crt eq_refl). unfold in_page, PGSIZE in Ha. lia. Qed.

(** Neither changes of free pages nor those of the screen touch an address space. *)
Lemma space_kept own m0 m pgdir L :
  as_inv own m0 pgdir L → Forall valid_page L → mem_frame (λ x, x ∈ L ∨ x = crt) m0 m → same_space m0 m pgdir.
Proof.
  intros Has HvL Hm. rewrite Forall_forall in HvL. destruct crt_page as [Hca Hcv].
  assert (∀ y, y ∈ L ∨ y = crt → pg_aligned y) as Hal by (intros y [Hy| ->]; [by destruct (HvL y Hy)|done]).
  destruct (as_inv_frame own m0 m pgdir L (λ x, x ∈ L ∨ x = crt)) as (_ & Ht & Hl); [done|done| |done|].
  - intros x Hx. destruct (pt_pages_valid _ _ _ _ _ (proj1 Has) Hx) as (Hv & Hn & _). intros [?|?]; [done|by eapply Hcv].
  - split_and!; [done..|]. intros va e x Hva He Hx. destruct (fr_page _ _ _ _ (proj2 Has) va e Hva He) as (Hv & Hn & _).
    eapply (mem_frame_page (λ x, x ∈ L ∨ x = crt)); [exact Hal|apply Hv| |exact Hm|exact Hx]. intros [?|?]; [done|by eapply Hcv].
Qed.

Lemma kmem_screen k k' L : freelist k' = freelist k → screen_only (mem k) (mem k') → kmem_inv k L → kmem_inv k' L.
Proof.
  intros Hf Hs Hk. eapply kmem_inv_frame; [exact Hf| |exact Hk]. intros x a Hx Ha. apply (screen_frame _ _ Hs). intros ? -> Hc.
  pose proof (km_valid _ _ Hk) as Hv. rewrite Forall_forall in Hv. destruct crt_page as [Hca Hcv]. apply (Hcv x (Hv x Hx)).
  apply (pages_disjoint x crt a); [by destruct (Hv x Hx)|done..].
Qed.

Lemma ends_message {B} (f : unit → K B) k v fmt v' Q :
  37 ∉ fmt → out_ready (devs k) (length fmt) → free_locks v [L_cons] →
  (∀ m d, screen_only (mem k) m → ends (kdev k m d) v (f tt) v' Q) → ends k v (cprintf fmt [] ≫= f) v' Q.
Proof.
  intros Hp Hr Hl Hrest. destruct (evals_message k v fmt Hp Hr Hl) as (m & d & E & Hs). eapply ends_evals; [exact E|]. by apply Hrest.
Qed.

Lemma ends_copyuvm own k v pd a L :
  kmem_ready k v → kmem_inv k L → as_inv own (mem k) pd L → 0 ≤ a ≤ KERNBASE →
  (∀ va, upage va → va < a → ∃ e, leaf (mem k) pd va = Some e) →
  ends k v (copyuvm pd a) v (λ d k', kframe (λ x, x ∈ L) k k' ∧
    ((d = 0 ∧ ∃ L', kmem_inv k' L' ∧ L' ≡ₚ L) ∨
     (d ≠ 0 ∧ ∃ L', kmem_inv k' L' ∧ as_inv (λ x, x ∈ L) (mem k') d L' ∧ ∀ va, upage va →
        (va < a → ∃ e f, leaf (mem k) pd va = Some e ∧ leaf (mem k') d va = Some (entry (V2P f) (PTE_FLAGS e)) ∧ f ∈ L ∧
           ∀ x, 0 ≤ x < PGSIZE → mem k' (f + x) = mem k (frame_of e + x)) ∧
        (a ≤ va → leaf (mem k') d va = None)))).
Proof.
  intros Hr Hk Has Ha Hall h rs Hv.
  eapply post_mono; [apply (copyuvm_spec own (at_hw k h rs) v pd a L); try done; by apply kmem_inv_hw|].
  intros d k' ([] & _ & Hc). split; [by split|exact Hc].
Qed.

(** ** fork *)

(** The state in which the process [cur] with the slot [c] calls [fork]: [np] is the first
    unused slot, and [L] are the free pages. *)
Record fork_pre (own : Z → Prop) (k : kern) (v : hwview) (cur np ip : nat) (c p : proc)
    (s : sharedData) (t : trapframe) (L : list Z) : Prop := mkForkPre {
  fk_len : length (procs k) = NPROCn;
  fk_proc : hv_proc v = Some cur;
  fk_cur : procs k !! cur = Some c ∧ state c ≠ UNUSED;
  fk_slot : procs k !! np = Some p ∧ state p = UNUSED;
  fk_first : ∀ j q, (j < np)%nat → procs k !! j = Some q → state q ≠ UNUSED;
  fk_locks : free_locks v [L_ptable; L_ftable; L_icache; L_cons];
  fk_ready : kmem_ready k v;
  fk_kmem : kmem_inv k L;
  fk_space : as_inv own (mem k) (pgdir s) L;
  fk_shared : shared k !! sharePtr c = Some s;
  fk_apart : sharePtr c ∉ L ∧ kstack c ∉ L;
  fk_tf : tf c = stack_tf (kstack c) ∧ frames k !! tf c = Some t;
  fk_sz : 0 ≤ sz s ≤ KERNBASE;
  fk_pages : ∀ va, upage va → va < sz s → ∃ e, leaf (mem k) (pgdir s) va = Some e;
  fk_files : length (ofile s) = 16%nat ∧ files_ok (ftable k) (ofile s) 16;
  fk_cwd : cwd s = Some ip ∧ ∃ x, icache k !! ip = Some x;
  fk_cons : out_ready (devs k) 20
}.

(** How often the descriptors [os] refer to the file [f]. *)
Definition refs (f : nat) (os : list (option nat)) : Z := Z.of_nat (length (filter (λ o, o = Some f) os)).

(** The child [np] on the kernel stack [st], with the shared data in the page [sh] and the
    page directory [d], made from the free pages [L]; [L'] are the pages that are left. *)
Record forked (k : kern) (cur np ip : nat) (c p : proc) (s : sharedData) (t : trapframe)
    (st sh : Z) (L : list Z) (d : Z) (k' : kern) (L' : list Z) : Prop := mkForked {
  fd_procs : procs k' = <[np := child cur sh c (embryo (nextpid k) st p)]> (procs k);
  fd_child : shared k' !! sh = Some (child_shared np d s);
  fd_tf : frames k' !! stack_tf st = Some (t <| tf_eax := 0 |>);
  fd_ctx : ctxs k' !! stack_ctx st = Some (zero_context <| c_eip := sym_forkret |>);
  fd_ret : load32 (mem k') (stack_ret st) = u32 sym_trapret;
  fd_files : ∀ f x, ftable k !! f = Some x → ftable k' !! f = Some (x <| f_ref := f_ref x + refs f (ofile s) |>);
  fd_cwd : icache k' = alter bump_inode ip (icache k);
  fd_pages : ∀ va, upage va →
    (va < sz s → ∃ e f, leaf (mem k) (pgdir s) va = Some e ∧ leaf (mem k') d va = Some (entry (V2P f) (PTE_FLAGS e)) ∧ f ∈ L ∧
       ∀ x, 0 ≤ x < PGSIZE → mem k' (f + x) = mem k (frame_of e + x)) ∧
    (sz s ≤ va → leaf (mem k') d va = None);
  fd_space : as_inv (λ x, x ∈ L) (mem k') d L';
  fd_kmem : kmem_inv k' L';
  fd_parent : shared k' !! sharePtr c = Some s ∧ frames k' !! tf c = Some t ∧ same_space (mem k) (mem k') (pgdir s)
}.

(** No child: the slot is unused, the parent as before, and at most one page is lost. *)
Record unforked (k : kern) (np : nat) (c : proc) (s : sharedData) (L : list Z) (k' : kern) (L' : list Z) : Prop := mkUnforked {
  uf_procs : ∃ q, procs k' = <[np := q]> (procs k) ∧ state q = UNUSED;
  uf_files : ftable k' = ftable k ∧ icache k' = icache k;
  uf_kmem : kmem_inv k' L' ∧ ∃ lost, L ≡ₚ lost ++ L' ∧ (length lost ≤ 1)%nat;
  uf_parent : shared k' !! sharePtr c = Some s ∧ same_space (mem k) (mem k') (pgdir s)
}.

Lemma dup_files_ref os : ∀ ft f x, ft !! f = Some x → dup_files ft os !! f = Some (x <| f_ref := f_ref x + refs f os |>).
Proof.
  unfold refs. induction os as [|o os IH]; intros ft f x Hx.
  { cbn. rewrite Hx, Z.add_0_r. by destruct x. }
  cbn [dup_files foldl]. fold (dup_files (match o with Some g => alter bump g ft | None => ft end) os).
  destruct o as [g|]; [|by rewrite filter_cons_False by done; apply IH]. destruct (decide (g = f)) as [->|Hne].
  - rewrite filter_cons_True by done. rewrite (IH _ _ (bump x)) by (by rewrite list_lookup_alter_eq, Hx).
    f_equal. destruct x as [ty r rd wr pi ij off]. unfold bump, set. cbn. f_equal. lia.
  - rewrite filter_cons_False by congruence. apply IH. by rewrite list_lookup_alter_ne.
Qed.

Lemma kern_updates (k : kern) a f g :
  k <| freelist := a |> <| shared ::= g |> <| procs ::= f |> = k <| freelist := a |> <| procs := f (procs k) |> <| shared := g (shared k) |>.
Proof. by destruct k. Qed.

Definition fork_messages : list (list Z) :=
  [bytes_of "allocproc Failed!" ++ [10]; bytes_of "kalloc Failed!" ++ [10]; bytes_of "copyuvm Failed!" ++ [10]].

Lemma fork_message k v cur np ip own c p s t L fmt : fork_pre own k v cur np ip c p s t L → fmt ∈ fork_messages →
  37 ∉ fmt ∧ out_ready (devs k) (length fmt) ∧ free_locks v [L_cons].
Proof.
  intros Hpre Hf. assert (37 ∉ fmt ∧ (length fmt ≤ 20)%nat) as [H1 H2].
  { revert fmt Hf. apply Forall_forall. repeat constructor; try (apply Nat.leb_le; reflexivity);
      apply (bool_decide_eq_true_1 (37 ∉ _)); vm_compute; reflexivity. }
  split_and!; [done|eapply out_ready_le; [exact H2|apply (fk_cons _ _ _ _ _ _ _ _ _ _ _ Hpre)]|].
  pose proof (fk_locks _ _ _ _ _ _ _ _ _ _ _ Hpre) as Hl. unfold free_locks in *. rewrite !Forall_cons in *. tauto.
Qed.

Lemma fork_np own k v cur np ip c p s t L : fork_pre own k v cur np ip c p s t L →
  (np < length (procs k))%nat ∧ cur ≠ np ∧ find_slot_of is_unused (procs k) = Some np.
Proof.
  intros Hpre. destruct (fk_slot _ _ _ _ _ _ _ _ _ _ _ Hpre) as [Hp Hs], (fk_cur _ _ _ _ _ _ _ _ _ _ _ Hpre) as [Hc Hn].
  split_and!; [by eapply lookup_lt_Some|intros ->; congruence|]. apply find_slot_of_Some. exists p.
  split_and!; [done|by apply bool_decide_eq_true|]. intros j q Hj Hq. by eapply bool_decide_eq_false, (fk_first _ _ _ _ _ _ _ _ _ _ _ Hpre j).
Qed.

Section Child.
Variables (own : Z → Prop) (k : kern) (v : hwview) (cur np ip : nat) (c p : proc) (s : sharedData)
  (t : trapframe) (st sh : Z) (L : list Z).
Hypothesis (Hpre : fork_pre own k v cur np ip c p s t (st :: sh :: L)).

Let pd := pgdir s.
Let q0 : proc := (embryo (nextpid k) st p) <| sharePtr := sh |>.
(** The kernel with a kernel stack and a page of shared data for the child. *)
Let kB : kern :=
  (alloc_kern np st k) <| freelist := load32 (mem (alloc_kern np st k)) sh |>
    <| procs := <[np := q0]> (procs k) |> <| shared := <[sh := zero_shared]> (shared k) |>.

Lemma fork_pages_ok : NoDup (st :: sh :: L) ∧ Forall valid_page (st :: sh :: L) ∧ sharePtr c ≠ sh ∧ st ≠ sh ∧ st ∉ L ∧ sh ∉ L ∧ sh ≠ 0.
Proof.
  destruct (fk_kmem _ _ _ _ _ _ _ _ _ _ _ Hpre) as [_ Hnd Hv]. destruct (fk_apart _ _ _ _ _ _ _ _ _ _ _ Hpre) as [Ha _].
  apply NoDup_cons in Hnd as H1. destruct H1 as [H1 H2]. apply NoDup_cons in H2 as [H2 _].
  split_and!; [done|done|set_solver..|]. apply Forall_cons in Hv as [_ Hv]. apply Forall_cons in Hv as [Hv _].
  pose proof (valid_page_pos _ Hv). change KERNBASE with 0x80000000 in *. lia.
Qed.

Lemma fork_start : kmem_inv kB L ∧ (∃ own', as_inv own' (mem kB) pd L) ∧ mem_frame (λ x, x = st) (mem k) (mem kB) ∧
  (∀ va, leaf (mem kB) pd va = leaf (mem k) pd va).
Proof.
  pose proof (fk_kmem _ _ _ _ _ _ _ _ _ _ _ Hpre) as Hk. pose proof (fk_space _ _ _ _ _ _ _ _ _ _ _ Hpre) as Has.
  destruct (alloc_kern_kmem np st k (sh :: L) Hk) as [Hk1 Hf]. pose proof (kalloc_inv _ _ _ Hk1) as Hk2.
  pose proof (as_inv_apart _ _ _ _ _ (km_nodup _ _ Hk) Has) as Ha1. pose proof (as_inv_apart _ _ _ _ _ (km_nodup _ _ Hk1) Ha1) as Ha2.
  destruct (as_inv_tail _ _ _ _ _ Has) as [_ [Hu _]]. destruct fork_pages_ok as (_ & Hv & _). apply Forall_cons in Hv as [[Hst _] _].
  destruct (as_inv_frame _ (mem k) (mem kB) pd L (λ x, x = st) Ha2) as (Ha & _ & Hl); [by intros y ->|by intros x Hx ->|exact Hf|].
  split_and!; [|by eexists|exact Hf|exact Hl]. by eapply kmem_inv_frame; [..|exact Hk2].
Qed.

Lemma fork_kept kC : kframe (λ x, x ∈ L) kB kC →
  procs kC = <[np := q0]> (procs k) ∧ shared kC !! sharePtr c = Some s ∧ shared kC !! sh = Some zero_shared ∧
  frames kC !! tf c = Some t ∧ ctxs kC !! stack_ctx st = Some (zero_context <| c_eip := sym_forkret |>) ∧
  load32 (mem kC) (stack_ret st) = u32 sym_trapret ∧ ftable kC = ftable k ∧ icache kC = icache k ∧ devs kC = devs k.
Proof.
  intros [Hn Hm Ho]. destruct fork_pages_ok as (_ & Hv & H1 & H2 & H3 & H4 & _). destruct (fk_apart _ _ _ _ _ _ _ _ _ _ _ Hpre) as [Ha1 Ha2].
  assert (sharePtr c ∉ L ∧ kstack c ∉ L) as [Hx1 Hx2] by set_solver.
  unfold same_but_mm, non_mm in Hn. injection Hn as _ _ Hps _ _ _ _ Hft Hic _ _ _ _ Hdv.
  pose proof (Ho _ Hx1) as [= Hs1 _ _ _]. pose proof (Ho _ H4) as [= Hs2 _ _ _]. pose proof (Ho _ Hx2) as [= _ _ Ht1 _]. pose proof (Ho _ H3) as [= _ _ _ Hc1].
  destruct (fk_tf _ _ _ _ _ _ _ _ _ _ _ Hpre) as [Htf Ht]. split_and!; try done.
  - rewrite Hs1. cbn. rewrite lookup_insert_ne by done. apply (fk_shared _ _ _ _ _ _ _ _ _ _ _ Hpre).
  - rewrite Hs2. cbn. by rewrite lookup_insert_eq.
  - rewrite Htf. unfold stack_tf. rewrite Ht1. rewrite <- Ht, Htf. done.
  - unfold stack_ctx, stack_ret, stack_tf. rewrite Hc1. apply lookup_insert_eq.
  - etransitivity; [|apply (load32_store32 (mem k) (stack_ret st))]. apply load32_ext. intros a Ha. apply Hm. intros x Hx Hin. apply H3.
    rewrite Forall_forall in Hv. assert (x = st) as <-; [|done]. apply (pages_disjoint x st a); [apply (Hv x); set_solver|apply (Hv st); set_solver|done|].
    unfold in_page, stack_ret, stack_tf, sizeof_trapframe in *. kl.
Qed.

(** Memory outside the free pages and the screen is that of the parent. *)
Lemma fork_space kC m : kframe (λ x, x ∈ L) kB kC → mem_frame (λ x, x ∈ st :: sh :: L ∨ x = crt) (mem kC) m → same_space (mem k) m pd.
Proof.
  intros Hf Hs. destruct fork_start as (_ & _ & Hm & _). destruct fork_pages_ok as (_ & Hv & _).
  eapply space_kept; [apply (fk_space _ _ _ _ _ _ _ _ _ _ _ Hpre)|done|]. etransitivity; [|etransitivity].
  - eapply mem_frame_mono; [|exact Hm]. intros x ->. left. by left.
  - eapply mem_frame_mono; [|apply (kf_mem _ _ _ Hf)]. intros x Hx. left. by do 2 right.
  - exact Hs.
Qed.

Lemma fork_made kC LC d :
  kframe (λ x, x ∈ L) kB kC → kmem_inv kC LC → as_inv (λ x, x ∈ L) (mem kC) d LC →
  (∀ va, upage va →
    (va < sz s → ∃ e f, leaf (mem kB) pd va = Some e ∧ leaf (mem kC) d va = Some (entry (V2P f) (PTE_FLAGS e)) ∧ f ∈ L ∧
       ∀ x, 0 ≤ x < PGSIZE → mem kC (f + x) = mem kB (frame_of e + x)) ∧
    (sz s ≤ va → leaf (mem kC) d va = None)) →
  ∀ h, forked k cur np ip c p s t st sh L d
    ((tabs (kC <| ftable := dup_files (ftable k) (ofile s) |> <| icache := alter bump_inode ip (icache k) |>)
       (<[np := child cur sh c (embryo (nextpid k) st p)]> (procs k)) (<[stack_tf st := t <| tf_eax := 0 |>]> (frames kC))
       (<[sh := child_shared np d s]> (shared kC)) (mem kC)) <| hw := h |>) LC.
Proof.
  intros Hf Hk Has Hpg h. destruct (fork_kept kC Hf) as (_ & Hs & _ & Ht & Hc & Hr & _). destruct fork_pages_ok as (_ & Hv & H1 & _).
  destruct fork_start as (_ & _ & Hm & Hl). pose proof (fork_space kC (mem kC) Hf ltac:(done)) as Hsp.
  destruct (fk_apart _ _ _ _ _ _ _ _ _ _ _ Hpre) as [_ Ha]. destruct (fk_tf _ _ _ _ _ _ _ _ _ _ _ Hpre) as [Htf _].
  split; cbn; try done.
  - apply lookup_insert_eq.
  - apply lookup_insert_eq.
  - intros f x Hx. by apply dup_files_ref.
  - intros va Hva. destruct (Hpg va Hva) as [P1 P2]. split; [|done]. intros Hlt. destruct (P1 Hlt) as (e & f & E1 & E2 & E3 & E4).
    exists e, f. rewrite Hl in E1. split_and!; [done..|]. intros x Hx. rewrite E4 by done.
    apply Hm. intros ? -> Hin. destruct (fr_page _ _ _ _ (proj2 (fk_space _ _ _ _ _ _ _ _ _ _ _ Hpre)) va e Hva E1) as ((Hal & _) & Hn & _).
    apply Hn. assert (frame_of e = st) as ->; [|by left].
    apply (pages_disjoint (frame_of e) st (frame_of e + x)); [done|by apply Forall_cons in Hv as [[? _] _]| |done]. unfold in_page. lia.
  - by eapply kmem_inv_frame; [..|exact Hk].
  - rewrite lookup_insert_ne by done. split_and!; [done| |done]. rewrite lookup_insert_ne; [done|]. rewrite Htf. unfold stack_tf. intros E. apply Ha. assert (kstack c = st) as -> by lia. by left.
Qed.

(** After [copyuvm] has failed. *)
Lemma ends_no_space kC LC (Q : Z → kern → Prop) :
  kframe (λ x, x ∈ L) kB kC → kmem_inv kC LC → LC ≡ₚ L →
  (∀ k' L', unforked k np c s (st :: sh :: L) k' L' → Q (-1) k') →
  ends (kC <| shared := <[sh := zero_shared]> (shared kC) |>) v
    (_ ← cprintf (bytes_of "copyuvm Failed!" ++ [10]) [];
     pr ← rd_proc np;
     _ ← kfree (kstack pr);
     _ ← mod_proc np (λ p, p <| kstack := 0 |>);
     _ ← mod_proc np (λ p, p <| state := UNUSED |>);
     mret (-1)) v Q.
Proof.
  intros Hf Hk HP HQ. destruct (fork_kept kC Hf) as (Hps & Hs & Hz & _ & _ & _ & Hft & Hic & Hdv).
  destruct fork_pages_ok as (_ & Hv & H1 & _ & H3 & _). destruct (fork_np _ _ _ _ _ _ _ _ _ _ _ Hpre) as (Hlt & _ & _).
  destruct (fork_message _ _ _ _ _ _ _ _ _ _ _ (bytes_of "copyuvm Failed!" ++ [10]) Hpre) as (M1 & M2 & M3); [set_solver|].
  eapply ends_message; [exact M1|cbn -[bytes_of]; by rewrite Hdv|exact M3|].
  intros m d Hsc. cbn in Hsc. nstep evals_rd_proc; [cbn; rewrite Hps; by apply list_lookup_insert_eq|]. change (kstack q0) with st.
  apply Forall_cons in Hv as HvS. destruct HvS as [Hst _].
  nstep evals_kfree; [change (kmem_ready kC v); eapply kframe_ready; [exact Hf|apply (fk_ready _ _ _ _ _ _ _ _ _ _ _ Hpre)]|done|].
  nstep evals_mod_proc. nstep evals_mod_proc. npure. apply ends_ret. intros h. apply (HQ _ (st :: LC)). split.
  - exists (q0 <| kstack := 0 |> <| state := UNUSED |>). split; [|done]. cbn. rewrite Hps.
    rewrite (list_alter_insert _ (<[np := q0]> (procs k)) _ q0) by (by apply list_lookup_insert_eq). rewrite list_insert_insert_eq.
    erewrite list_alter_insert by (by apply list_lookup_insert_eq). by rewrite list_insert_insert_eq.
  - by cbn.
  - split; [|exists [sh]; split; [rewrite HP; constructor|done]].
    apply (kmem_inv_frame (kfree_result st (kdev kC m d))); [done|done|]. apply kfree_inv; [|done|by rewrite HP]. by apply (kmem_screen kC).
  - destruct (fk_apart _ _ _ _ _ _ _ _ _ _ _ Hpre) as [Ha _]. assert (st ≠ sharePtr c) as Hne by (intros E; apply Ha; rewrite <- E; by left).
    split; [cbn; by rewrite lookup_delete_ne, lookup_insert_ne by done|].
    eapply fork_space; [exact Hf|]. transitivity m.
    + eapply mem_frame_mono; [|apply (screen_frame _ _ Hsc)]. intros x ->. by right.
    + eapply mem_frame_mono; [|apply (kf_mem _ _ _ (kfree_kframe st (kdev kC m d)))]. intros x ->. left. by left.
Qed.


(** After [copyuvm] has made the address space [d]. *)
Lemma ends_with_space kC d (Q : Z → kern → Prop) :
  kframe (λ x, x ∈ L) kB kC → (∀ h, Q (nextpid k) ((tabs (kC <| ftable := dup_files (ftable k) (ofile s) |> <| icache := alter bump_inode ip (icache k) |>)
       (<[np := child cur sh c (embryo (nextpid k) st p)]> (procs k)) (<[stack_tf st := t <| tf_eax := 0 |>]> (frames kC))
       (<[sh := child_shared np d s]> (shared kC)) (mem kC)) <| hw := h |>)) →
  ends (kC <| shared := <[sh := zero_shared <| pgdir := d |>]> (shared kC) |>) v
    (_ ← fork_copy cur np; pr ← rd_proc np; let pid := pid pr in _ ← fork_publish np; mret pid) v Q.
Proof.
  intros Hf HQ. destruct (fork_kept kC Hf) as (Hps & Hs & Hz & Ht & _ & _ & Hft & Hic & Hdv).
  destruct fork_pages_ok as (_ & _ & H1 & _). destruct (fork_np _ _ _ _ _ _ _ _ _ _ _ Hpre) as (Hlt & Hcn & _).
  destruct (fk_files _ _ _ _ _ _ _ _ _ _ _ Hpre) as [Hlen Hfiles]. destruct (fk_cwd _ _ _ _ _ _ _ _ _ _ _ Hpre) as [Hcwd [xi Hxi]].
  destruct (fk_cur _ _ _ _ _ _ _ _ _ _ _ Hpre) as [Hc _]. pose proof (fk_locks _ _ _ _ _ _ _ _ _ _ _ Hpre) as Hl.
  assert (free_locks v [L_ptable; L_ftable; L_icache] ∧ free_locks v [L_ptable]) as [Hl1 Hl2] by (unfold free_locks in *; rewrite !Forall_cons in *; tauto).
  replace (kC <| shared := <[sh := zero_shared <| pgdir := d |>]> (shared kC) |>)
    with (tabs kC (<[np := q0]> (procs k)) (frames kC) (<[sh := zero_shared <| pgdir := d |>]> (shared kC)) (mem kC)) by (rewrite <- Hps; by destruct kC).
  pose proof (evals_fork_copy kC v cur np ip c q0 s t sh d xi (<[np := q0]> (procs k)) (frames kC) (<[sh := zero_shared <| pgdir := d |>]> (shared kC)) (mem kC) Hl1) as Hcp.
  nstep Hcp; [by rewrite list_lookup_insert_ne|by apply list_lookup_insert_eq|done|by rewrite lookup_insert_ne|done|done|by rewrite lookup_insert_eq|done|done|by rewrite Hft|done|by rewrite Hic|].
  unfold copied_kern. rewrite list_insert_insert_eq, insert_insert_eq. clear Hcp.
  nstep tabs_rd_proc; [by apply list_lookup_insert_eq|]. cbv zeta.
  nstep evals_fork_publish; [done|by apply list_lookup_insert_eq|done|apply lookup_insert_eq|]. npure. rewrite list_insert_insert_eq, insert_insert_eq.
  apply ends_ret. intros h. eapply eq_ind; [apply (HQ h)|]. rewrite <- Hft, <- Hic. by destruct kC, p.
Qed.

Lemma ends_fork_pages : ends k v fork v (λ r k',
  (r = nextpid k ∧ ∃ d L', d ≠ 0 ∧ forked k cur np ip c p s t st sh L d k' L') ∨
  (r = -1 ∧ ∃ L', unforked k np c s (st :: sh :: L) k' L')).
Proof.
  destruct (fork_np _ _ _ _ _ _ _ _ _ _ _ Hpre) as (Hlt & Hcn & Hslot). destruct fork_pages_ok as (_ & _ & H1 & _ & _ & _ & H0).
  destruct (fk_slot _ _ _ _ _ _ _ _ _ _ _ Hpre) as [Hp _]. destruct (fk_cur _ _ _ _ _ _ _ _ _ _ _ Hpre) as [Hc _].
  pose proof (fk_kmem _ _ _ _ _ _ _ _ _ _ _ Hpre) as Hk. pose proof (fk_ready _ _ _ _ _ _ _ _ _ _ _ Hpre) as Hr.
  pose proof (fk_locks _ _ _ _ _ _ _ _ _ _ _ Hpre) as Hl. destruct (free_locks_in _ _ L_ptable Hl) as [Hl1 Hl2]; [by left|].
  pose proof (evals_allocproc k v _ (fk_len _ _ _ _ _ _ _ _ _ _ _ Hpre) Hl1 Hl2 Hr Hk) as Ha. unfold allocproc_outcome in Ha. rewrite Hslot in Ha. cbn [fst snd] in Ha.
  unfold fork. nstep evals_curproc; [apply (fk_proc _ _ _ _ _ _ _ _ _ _ _ Hpre)|]. nstep Ha. cbv iota. clear Ha.
  destruct (alloc_kern_kmem np st k (sh :: L) Hk) as [Hk1 _].
  nstep (evals_kalloc (alloc_kern np st k) v (sh :: L)); [done|done|]. cbn [hd]. rewrite (proj2 (Z.eqb_neq sh 0)) by done.
  npure. nstep evals_mod_proc.
  assert (alter (λ p, p <| sharePtr := sh |>) np (alter (embryo (nextpid k) st) np (procs k)) = <[np := q0]> (procs k)) as Ep.
  { rewrite (list_alter_insert _ (procs k) _ p) by done. erewrite list_alter_insert by (by apply list_lookup_insert_eq). by rewrite list_insert_insert_eq. }
  rewrite kern_updates. change (procs (alloc_kern np st k)) with (alter (embryo (nextpid k) st) np (procs k)). rewrite Ep. clear Ep.
  change (shared (alloc_kern np st k)) with (shared k). fold q0. fold kB.
  destruct fork_start as (HkB & [own' HasB] & _ & HlB).
  nstep (evals_rd_shared kB v cur c s); [cbn; by rewrite list_lookup_insert_ne|cbn; rewrite lookup_insert_ne by done; apply (fk_shared _ _ _ _ _ _ _ _ _ _ _ Hpre)|].
  eapply ends_bind.
  { apply (ends_copyuvm own' kB v pd (sz s) L); [exact Hr|exact HkB|exact HasB|apply (fk_sz _ _ _ _ _ _ _ _ _ _ _ Hpre)|].
    intros va Hva Hb. rewrite HlB. by apply (fk_pages _ _ _ _ _ _ _ _ _ _ _ Hpre). }
  intros d kC (Hf & Hcase). destruct (fork_kept kC Hf) as (Hps & _ & Hz & _).
  nstep (evals_mod_shared kC v np q0); [rewrite Hps; by apply list_lookup_insert_eq|exact Hz|]. change (sharePtr q0) with sh.
  assert (alter (λ t, t <| pgdir := d |>) sh (shared kC) = <[sh := zero_shared <| pgdir := d |>]> (shared kC)) as Es by (by apply map_alter_insert).
  replace (kC <| shared ::= alter (λ t, t <| pgdir := d |>) sh |>) with (kC <| shared := <[sh := zero_shared <| pgdir := d |>]> (shared kC) |>) by (rewrite <- Es; by destruct kC).
  destruct Hcase as [(-> & L' & HkC & HP)|(Hd & L' & HkC & HasC & Hpg)].
  - rewrite Z.eqb_refl. apply (ends_no_space kC L'); [done..|]. intros k' L2 Hu. right. eauto.
  - rewrite (proj2 (Z.eqb_neq d 0)) by done. apply ends_with_space; [done|]. intros h. left. split; [done|]. exists d, L'. split; [done|]. by apply fork_made.
Qed.
End Child.

(** Without a page for the kernel stack, or for the shared data. *)
Lemma ends_fork_short own k v cur np ip c p s t L : (length L ≤ 1)%nat → fork_pre own k v cur np ip c p s t L →
  ends k v fork v (λ r k', r = -1 ∧ ∃ L', unforked k np c s L k' L').
Proof.
  intros Hshort Hpre. destruct (fork_np _ _ _ _ _ _ _ _ _ _ _ Hpre) as (Hlt & Hcn & Hslot).
  destruct (fk_slot _ _ _ _ _ _ _ _ _ _ _ Hpre) as [Hp _]. pose proof (fk_kmem _ _ _ _ _ _ _ _ _ _ _ Hpre) as Hk. pose proof (fk_ready _ _ _ _ _ _ _ _ _ _ _ Hpre) as Hr.
  pose proof (fk_locks _ _ _ _ _ _ _ _ _ _ _ Hpre) as Hl. destruct (free_locks_in _ _ L_ptable Hl) as [Hl1 Hl2]; [by left|].
  pose proof (evals_allocproc k v _ (fk_len _ _ _ _ _ _ _ _ _ _ _ Hpre) Hl1 Hl2 Hr Hk) as Ha. unfold allocproc_outcome in Ha. rewrite Hslot in Ha.
  pose proof (fk_shared _ _ _ _ _ _ _ _ _ _ _ Hpre) as Hs. pose proof (fk_space _ _ _ _ _ _ _ _ _ _ _ Hpre) as Has. pose proof (km_valid _ _ Hk) as Hv.
  unfold fork. nstep evals_curproc; [apply (fk_proc _ _ _ _ _ _ _ _ _ _ _ Hpre)|]. destruct L as [|st [|? ?]]; [..|cbn in Hshort; lia]; cbn [fst snd] in Ha; nstep Ha; cbv iota; clear Ha.
  - destruct (fork_message _ _ _ _ _ _ _ _ _ _ _ (bytes_of "allocproc Failed!" ++ [10]) Hpre) as (M1 & M2 & M3); [set_solver|].
    eapply ends_message; [exact M1|exact M2|exact M3|]. intros m d Hsc. apply ends_ret. intros h. split; [done|]. exists []. split.
    + eexists. split; [cbn; by rewrite (list_alter_insert _ (procs k) _ p) by done|done].
    + done.
    + split; [by apply (kmem_screen k)|]. by exists [].
    + split; [done|]. eapply space_kept; [exact Has|done|]. eapply mem_frame_mono; [|apply (screen_frame _ _ Hsc)]. intros x ->. by right.
  - destruct (fork_message _ _ _ _ _ _ _ _ _ _ _ (bytes_of "kalloc Failed!" ++ [10]) Hpre) as (M1 & M2 & M3); [set_solver|].
    destruct (alloc_kern_kmem np st k [] Hk) as [Hk1 Hm1]. nstep (evals_kalloc (alloc_kern np st k) v []); [done|done|]. cbn [hd]. rewrite Z.eqb_refl.
    eapply ends_message; [exact M1|exact M2|exact M3|]. intros m d Hsc. nstep evals_mod_proc. npure. apply ends_ret. intros h. split; [done|]. exists []. split.
    + eexists. split; [|shelve]. cbn. rewrite (list_alter_insert _ (procs k) _ p) by done.
      erewrite list_alter_insert by (by apply list_lookup_insert_eq). by rewrite list_insert_insert_eq.
      Unshelve. done.
    + done.
    + split; [by apply (kmem_screen (alloc_kern np st k))|]. by exists [st].
    + split; [done|]. eapply space_kept; [exact Has|done|]. transitivity (mem (alloc_kern np st k)).
      * eapply mem_frame_mono; [|exact Hm1]. intros x ->. left. by left.
      * eapply mem_frame_mono; [|apply (screen_frame _ _ Hsc)]. intros x ->. by right.
Qed.

(** Cx: [fork] called by a process whose table, address space, files and allocator are well
    formed, with the locks it needs free.  Either it returns the new pid: the first unused slot
    is [RUNNABLE], with the caller as its parent and its name, alone in its process; it resumes
    from the caller's system call with 0 as the result, starting at [forkret]; below the size of
    the process every page is mapped to a new frame with the same bytes and permissions, and no
    page above; it has the same open files, whose counts grow by the number of descriptors, and
    the same directory; the caller is untouched.  Or it returns -1: the slot is unused, files and
    the caller are untouched, and at most one of the free pages is lost: the kernel stack when
    there is no page for the shared data, and the page of the shared data when the address space
    cannot be copied. *)
Theorem fork_makes_child (own : Z → Prop) (w : world) (v : hwview) (cur np ip : nat) (c p : proc)
    (s : sharedData) (t : trapframe) (L : list Z) :
  hw_ok (hw (ks w)) v → fork_pre own (ks w) v cur np ip c p s t L →
  post fork w v (λ r k',
    (r = nextpid (ks w) ∧ ∃ st sh L0 d L', L = st :: sh :: L0 ∧ d ≠ 0 ∧ forked (ks w) cur np ip c p s t st sh L0 d k' L') ∨
    (r = -1 ∧ ∃ L', unforked (ks w) np c s L k' L')).
Proof.
  intros Hv Hpre. eapply ends_post; [|done]. destruct (decide (length L ≤ 1)%nat) as [Hs|Hs].
  - eapply ends_mono; [by eapply ends_fork_short|]. intros r k' Hu. by right.
  - destruct L as [|st [|sh L]]; [cbn in Hs; lia..|]. eapply ends_mono; [by eapply ends_fork_pages|].
    intros r k' [(Hr & d & L' & Hd & Hf)|Hu]; [left|by right]. split; [done|]. exists st, sh, L, d, L'. done.
Qed.

End ForkProps.

(** ** Witness

    The process of [thread_world] with a current directory and three free pages: one is the
    kernel stack, one the shared data, and there is none for the page tables of the child. *)

#[local] Existing Instance image_syms.

Definition fork_proc : proc := thread_proc <| kstack := 0x80500000 |>.
Definition fork_shared : sharedData := thread_shared <| cwd := Some 0%nat |>.
Definition fork_world : world :=
  mkWorld ((ks thread_world) <| procs ::= insert 0%nat fork_proc |> <| shared := {[ 0x80400000 := fork_shared ]} |>
    <| devs := devs cons_kern |>) [].

Lemma fork_demo_pre : fork_pre thread_own (ks fork_world) thread_view 0 1 0 fork_proc zero_proc fork_shared zero_tf demo_pages.
Proof.
  destruct thread_space as [Has Hl]. destruct thread_kmem as [K1 K2 K3]. split; try done.
  - intros j q Hj. destruct j; [|lia]. by intros [= <-].
  - repeat constructor; set_solver.
  - unfold demo_pages. split; set_solver by lia.
  - intros va [Hva1 Hva2] Hlt. exists (entry (V2P 0x80302000) PTE_WU). simpl (mem _). rewrite Hl. cbn in Hlt.
    replace va with 0 by (unfold pg_aligned in Hva1; zl). apply demo_leaf_0.
  - split; [done|]. intros f Hf. apply elem_of_replicate in Hf as [? _]. done.
  - split; [done|]. by eexists.
Qed.

Lemma fork_returns : match fork fork_world with Ok r _ => r | _ => 0 end = -1.
Proof. by vm_compute. Qed.

Lemma fork_makes_child_witness : ∃ w' q, fork fork_world = Ok (-1) w' ∧
  procs (ks w') !! 1%nat = Some q ∧ state q = UNUSED ∧ shared (ks w') !! 0x80400000 = Some fork_shared.
Proof.
  destruct (fork_makes_child thread_own fork_world thread_view 0 1 0 fork_proc zero_proc fork_shared zero_tf demo_pages)
    as (r & w' & Hrun & _ & _ & Hcase).
  - exists (boot_cpu <| cproc := Some 0%nat |>). split; try done; set_solver.
  - exact fork_demo_pre.
  - pose proof fork_returns as H0. rewrite Hrun in H0. subst r. exists w'. destruct Hcase as [[Hn _]|(_ & L' & [(q & Hq1 & Hq2) _ _ [Hs _]])]; [discriminate Hn|].
    exists q. split_and!; [exact Hrun| |exact Hq2|exact Hs]. rewrite Hq1. reflexivity.
Defined.
