(* ===== verification/BallocProps.v ===== *)
(** * Allocation of disk blocks: properties of balloc

    The bitmap on the disk, seen through the cache and the log: inside a transaction,
    [balloc] takes the free block with the lowest number, marks it and zeroes it. *)

From S2P Require Import Prelude Layout State Str Spinlock Kalloc Vm Sched Sleeplock Ports Memide Bio Log Apic Console Inode Uaccess Eval SchedProps BufList BioProps LogProps TransProps.

(** ** Bits *)

Lemma bit_free_testbit d bi : bit_free d bi = negb (Z.testbit (byte_at d (bi / 8)) (bi mod 8)).
Proof.
  unfold bit_free. pose proof (Z.mod_pos_bound bi 8 ltac:(lia)) as Hm. rewrite Z.shiftl_1_l, land_flag_bit by lia.
  destruct (Z.testbit _ _); cbn [Z.b2z negb]; [apply Z.eqb_neq; lia|apply Z.eqb_eq; lia].
Qed.

Lemma byte_at_insert d i x j : 0 ≤ i < Z.of_nat (length d) → 0 ≤ j →
  byte_at (<[Z.to_nat i := x]> d) j = if j =? i then u8 x else byte_at d j.
Proof.
  intros Hi Hj. unfold byte_at. rewrite !nth_lookup. destruct (Z.eqb_spec j i) as [->|Hne].
  - rewrite list_lookup_insert_eq by lia. done.
  - rewrite list_lookup_insert_ne by lia. done.
Qed.

(** Marking a block changes no other bit. *)
Lemma set_bit_free d bi bj : 0 ≤ bi < 8 * Z.of_nat (length d) → 0 ≤ bj →
  bit_free (set_bit d bi) bj = bit_free d bj && negb (bj =? bi).
Proof.
  intros Hi Hj. rewrite !bit_free_testbit. unfold set_bit. assert (0 ≤ bi / 8 < Z.of_nat (length d)) by zl.
  rewrite byte_at_insert by (done || zl). pose proof (Z.mod_pos_bound bj 8 ltac:(lia)). pose proof (Z.mod_pos_bound bi 8 ltac:(lia)).
  destruct (Z.eqb_spec (bj / 8) (bi / 8)) as [E|E].
  - unfold u8. change 256 with (2 ^ 8). rewrite Z.mod_pow2_bits_low by lia. rewrite Z.lor_spec, Z.shiftl_1_l, Z.pow2_bits_eqb by lia. rewrite E, negb_orb.
    f_equal. f_equal. destruct (Z.eqb_spec (bi mod 8) (bj mod 8)), (Z.eqb_spec bj bi); try done; exfalso; zl.
  - destruct (Z.eqb_spec bj bi) as [->|]; [done|]. by rewrite andb_true_r.
Qed.

Lemma scan_bits_spec n : ∀ d b bi size,
  match scan_bits n d b bi size with
  | Some r => bi ≤ r < bi + Z.of_nat n ∧ b + r < size ∧ bit_free d r = true ∧ ∀ j, bi ≤ j < r → bit_free d j = false
  | None => ∀ j, bi ≤ j < bi + Z.of_nat n → b + j < size → bit_free d j = false
  end.
Proof.
  induction n as [|n IH]; intros d b bi size; cbn [scan_bits]; [intros; lia|].
  destruct (Z.ltb_spec (b + bi) size); [|intros; lia]. destruct (bit_free d bi) eqn:E; [split_and!; [lia..|done|intros; lia]|].
  specialize (IH d b (bi + 1) size). destruct (scan_bits n d b (bi + 1) size) as [r|].
  - destruct IH as (H1 & H2 & H3 & H4). split_and!; [lia|lia|done|done|]. intros j Hj. destruct (decide (j = bi)) as [->|]; [done|]. apply H4. lia.
  - intros j Hj Hs. destruct (decide (j = bi)) as [->|]; [done|]. apply IH; lia.
Qed.

(** ** The bitmap *)

(** Block [x] is free on the disk [d]. *)
Definition block_free (s : superblock) (d : Z → list Z) (x : Z) : bool := bit_free (d (BBLOCK x s)) (x mod BPB).

(** [x] is the free block with the lowest number. *)
Definition first_free_block (s : superblock) (d : Z → list Z) (x : Z) : Prop :=
  0 ≤ x < sb_size s ∧ block_free s d x = true ∧ ∀ y, 0 ≤ y < x → block_free s d y = false.

Definition zeros : list Z := replicate (Z.to_nat BSIZE) 0.
(** The changes that [balloc] makes. *)
Definition alloc_writes (s : superblock) (d : Z → list Z) (x : Z) : list (Z * list Z) :=
  [(BBLOCK x s, set_bit (d (BBLOCK x s)) (x mod BPB)); (x, zeros)].

(** The bitmap is on the disk, outside the log, and its blocks are numbered without overflow. *)
Record bitmap_ok (k : kern) (d : Z → list Z) : Prop := mkBitmapOk {
  bo_size : 0 ≤ sb_size (sb k) < two31;
  bo_start : 0 ≤ sb_bmapstart (sb k) ∧ sb_bmapstart (sb k) + sb_size (sb k) < two31;
  bo_block : ∀ y data, 0 ≤ y < sb_size (sb k) → may_write (disksize (devs k)) (klog k) (BBLOCK y (sb k), data);
  bo_len : ∀ y, 0 ≤ y < sb_size (sb k) → length (d (BBLOCK y (sb k))) = Z.to_nat BSIZE
}.

(** On [d'], block [x] is taken and zeroed; nothing else has changed but the log [l]. *)
Record allocated (s : superblock) (l : log) (d : Z → list Z) (x : Z) (d' : Z → list Z) : Prop := mkAllocated {
  al_taken : block_free s d' x = false;
  al_zero : d' x = zeros;
  al_others : ∀ y, 0 ≤ y < sb_size s → y ≠ x → block_free s d' y = block_free s d y;
  al_rest : ∀ b, b ≠ x → b ≠ BBLOCK x s → ¬ in_log l b → d' b = d b
}.

Lemma bitmap_block k d y : bitmap_ok k d → 0 ≤ y < sb_size (sb k) → BBLOCK y (sb k) = y / BPB + sb_bmapstart (sb k).
Proof.
  intros [H1 H2 _ _] Hy. unfold BBLOCK. assert (0 ≤ y / BPB ≤ y) by (split; [apply Z.div_pos; [lia|done]|apply Z.div_le_upper_bound; [done|unfold BPB, BSIZE; lia]]).
  apply u32_id. unfold is_u32, two31, two32 in *. lia.
Qed.

Lemma after_alloc k d x d' :
  bitmap_ok k d → 0 ≤ x < sb_size (sb k) → may_write (disksize (devs k)) (klog k) (x, zeros) → (∀ y, 0 ≤ y < sb_size (sb k) → BBLOCK y (sb k) ≠ x) →
  (∀ b, ¬ in_log (klog k) b → d' b = after d (alloc_writes (sb k) d x) b) → allocated (sb k) (klog k) d x d'.
Proof.
  intros Hb Hx Hw Hne Hd. assert (∀ y, 0 ≤ y < sb_size (sb k) → ¬ in_log (klog k) (BBLOCK y (sb k))) as Hnl by (intros y Hy; apply (bo_block _ _ Hb y [] Hy)).
  assert (∀ y, 0 ≤ y < sb_size (sb k) → block_free (sb k) d' y = block_free (sb k) d y && negb (y =? x)) as Hf.
  { intros y Hy. unfold block_free. rewrite Hd by (by apply Hnl). unfold after, alloc_writes, upd_disk. cbn [foldl fst snd].
    rewrite (proj2 (Z.eqb_neq _ x)) by (by apply Hne). pose proof (Z.mod_pos_bound y BPB ltac:(done)). pose proof (Z.mod_pos_bound x BPB ltac:(done)).
    pose proof (Z.div_mod y BPB ltac:(done)). pose proof (Z.div_mod x BPB ltac:(done)).
    rewrite !(bitmap_block k d) by done. destruct (Z.eqb_spec (y / BPB + sb_bmapstart (sb k)) (x / BPB + sb_bmapstart (sb k))) as [E|E].
    - rewrite <- (bitmap_block k d x) by done. rewrite set_bit_free; [|rewrite (bo_len _ _ Hb) by done; by rewrite Z2Nat.id by done|lia].
      rewrite (bitmap_block k d), E by done. f_equal. f_equal. apply eq_true_iff_eq. rewrite !Z.eqb_eq. split; [|by intros ->].
      intros Em. assert (y / BPB = x / BPB) as Ed by lia. rewrite Ed in *. lia.
    - rewrite (proj2 (Z.eqb_neq y x)), andb_true_r by (by intros ->). done. }
  split.
  - rewrite Hf, Z.eqb_refl by done. apply andb_false_r.
  - rewrite Hd by apply Hw. unfold after, alloc_writes, upd_disk. cbn [foldl fst snd]. by rewrite Z.eqb_refl.
  - intros y Hy Hyx. rewrite Hf, (proj2 (Z.eqb_neq y x)) by done. apply andb_true_r.
  - intros b B1 B2 B3. rewrite Hd by done. unfold after, alloc_writes, upd_disk. cbn [foldl fst snd].
    rewrite (proj2 (Z.eqb_neq b x)) by done. by rewrite (proj2 (Z.eqb_neq b (BBLOCK x (sb k)))).
Qed.

Section Balloc.
Context `{KernelSyms} (stop : kern → nat → bool).
#[local] Instance balloc_driver : DiskDriver := crash_rw stop.
Variables (v : hwview) (cur : nat) (c : proc).
Hypothesis (Hcl : caller v cur c).
Variables (k0 : kern) (d : Z → list Z).
Hypothesis (Hq : quiet cur c k0 d).
Let L1 := (klog k0) <| log_outstanding := 1 |>.
Let s := sb k0.
Abbreviation op_state := (in_trans cur c k0 d L1).

Hypothesis (Hbm : bitmap_ok k0 d).

Lemma op_sb l o h k : cst cur c (k0 <| klog := l |>) d o h k → sb k = s.
Proof. by intros (? & ? & ? & -> & _). Qed.

Lemma survives_bzero ws l o k x :
  op_state ws l o k → may_write (disksize (devs k0)) (klog k0) (x, zeros) → (length ws < Z.to_nat MAXOPBLOCKS)%nat → x < two31 →
  survives k v (bzero 1 x) v (λ _ k', ∃ l' o', op_state (ws ++ [(x, zeros)]) l' o' k') (λ d', d' = d).
Proof.
  intros Hit Hw Hlen Hx. unfold bzero. change (u32 1) with 1. rewrite u32_id by (destruct Hw as [Hw _]; unfold is_u32, two31, two32 in *; cbn in Hw; lia).
  by apply (trans_modify stop v cur c Hcl k0 d Hq ws l o k x (λ _, zeros)).
Qed.

Lemma survives_unassoc {A B D} (m : K A) (f : A → K B) (g : B → K D) k w w' Q C :
  survives k w ((m ≫= f) ≫= g) w' Q C → survives k w (m ≫= λ a, f a ≫= g) w' Q C.
Proof. intros Hs h rs Hh. specialize (Hs h rs Hh). by rewrite bind_assoc in Hs. Qed.

Lemma BBLOCK_same b bi : b mod BPB = 0 → 0 ≤ bi < BPB → BBLOCK (b + bi) s = BBLOCK b s ∧ (b + bi) mod BPB = bi.
Proof.
  intros Hb Hi. assert (b = BPB * (b / BPB)) as E by (pose proof (Z.div_mod b BPB ltac:(done)); lia).
  assert ((b + bi) / BPB = b / BPB) as Ed by (rewrite E at 1; rewrite Z.mul_comm, Z.div_add_l by done; rewrite (Z.div_small bi) by done; lia).
  split; [unfold BBLOCK; by rewrite Ed|]. rewrite Z.add_mod, Hb, Z.add_0_l, Z.mod_mod by done. by apply Z.mod_small.
Qed.

Lemma survives_balloc_loop ws l o x fuel : (length ws + 1 < Z.to_nat MAXOPBLOCKS)%nat → first_free_block s (after d ws) x →
  may_write (disksize (devs k0)) (klog k0) (x, zeros) →
  ∀ b k, op_state ws l o k → b mod BPB = 0 → 0 ≤ b ≤ x → x - b < BPB * Z.of_nat fuel →
  survives k v (balloc_loop fuel 1 b) v
    (λ r k', r = x ∧ ∃ l' o', op_state (ws ++ alloc_writes s (after d ws) x) l' o' k') (λ d', d' = d).
Proof.
  intros Hlen (Hx1 & Hx2 & Hx3) Hwx. destruct Hbm as [Hsz _ Hmap _]. fold s in Hsz, Hmap.
  induction fuel as [|fuel IH]; intros b k Hit Hb Hbx Hf; [lia|]. cbn [balloc_loop].
  pose proof (op_sb l o ∅ k (it_cache _ _ _ _ _ _ _ _ _ Hit)) as Es. spure. rewrite Es, (proj2 (Z.ltb_lt b (sb_size s))) by lia. cbn [negb].
  eapply (trans_bread stop v cur c Hcl k0 d ws l o k); [done|apply (Hmap b []); lia|lia|]. intros i k1 Hc1.
  sstep (cst_rd_data v cur c (k0 <| klog := l |>) k1); [exact Hc1|apply lookup_insert_eq|]. spure. rewrite (op_sb l o _ k1 Hc1).
  pose proof (scan_bits_spec (Z.to_nat BPB) (after d ws (BBLOCK b s)) b 0 (sb_size s)) as Hscan.
  rewrite Z2Nat.id in Hscan by done. destruct (scan_bits _ _ _ _ _) as [bi|].
  - destruct Hscan as (S1 & S2 & S3 & S4). destruct (BBLOCK_same b bi Hb ltac:(lia)) as [Eb Em].
    assert (b + bi = x) as <-.
    { destruct (Z.lt_trichotomy (b + bi) x) as [Hlt|[->|Hgt]]; [|done|].
      - specialize (Hx3 (b + bi) ltac:(lia)). unfold block_free in Hx3. by rewrite Eb, Em, S3 in Hx3.
      - destruct (BBLOCK_same b (x - b) Hb ltac:(lia)) as [Eb' Em']. replace (b + (x - b)) with x in Eb', Em' by lia.
        unfold block_free in Hx2. rewrite Eb', Em', S4 in Hx2 by lia. done. }
    eapply (go_mod_data v cur c); [exact Hc1|apply lookup_insert_eq|]. intros k2 Hc2. rewrite insert_singleton_eq in Hc2.
    apply survives_unassoc. eapply survives_bind; [eapply (trans_log stop v cur c Hcl k0 d Hq ws l o k k2 i); [exact Hit|exact Hc2|apply Hmap; lia|lia]| ].
    intros [] k3 (l3 & o3 & Hit3). eapply survives_bind; [eapply (survives_bzero _ l3 o3); [exact Hit3|done|rewrite length_app; cbn [length]; lia|lia]| ].
    intros [] k4 (l4 & o4 & Hit4). apply survives_ret. intros h. split; [done|]. exists l4, o4. apply in_trans_hw.
    rewrite <- app_assoc in Hit4. unfold alloc_writes. rewrite Eb, Em. exact Hit4.
  - eapply (go_brelse stop v cur c Hcl); [exact Hc1|rewrite <- (it_block _ _ _ _ _ _ _ _ _ Hit); apply lookup_insert_eq|].
    intros k2 Hc2. rewrite delete_singleton_eq in Hc2. assert (b + BPB ≤ x).
    { destruct (Z.le_gt_cases (b + BPB) x) as [|Hgt]; [done|]. destruct (BBLOCK_same b (x - b) Hb ltac:(lia)) as [Eb' Em'].
      replace (b + (x - b)) with x in Eb', Em' by lia. unfold block_free in Hx2. rewrite Eb', Em', Hscan in Hx2 by lia. done. }
    assert (BPB = 4096) as EP by done. rewrite EP in *. apply IH; [destruct Hit; by split| |lia|lia]. rewrite Z.add_mod, Hb by done. done.
Qed.

Lemma survives_balloc l k x :
  op_state [] l ∅ k → first_free_block s d x → may_write (disksize (devs k0)) (klog k0) (x, zeros) →
  survives k v (balloc 1) v (λ r k', r = x ∧ ∃ l' o', op_state (alloc_writes s d x) l' o' k') (λ d', d' = d).
Proof.
  intros Hit Hx Hw. unfold balloc. spure. pose proof (op_sb l ∅ ∅ k (it_cache _ _ _ _ _ _ _ _ _ Hit)) as Es. rewrite Es.
  apply (survives_balloc_loop [] l ∅ x); [unfold MAXOPBLOCKS; simpl; lia|done|done|done|done|destruct Hx; lia|].
  destruct Hx as [Hx _]. pose proof (Z.div_mod (sb_size s) BPB ltac:(done)). pose proof (Z.mod_pos_bound (sb_size s) BPB ltac:(done)).
  assert (0 ≤ sb_size s / BPB) by (apply Z.div_pos; [lia|done]). assert (BPB = 4096) as EP by done. rewrite EP in *. lia.
Qed.

(** An operation that allocates a block. *)
Definition alloc_block : K Z :=
  _ ← begin_op;
  x ← balloc 1;
  _ ← end_op;
  mret x.

Lemma survives_alloc_block x : first_free_block s d x → may_write (disksize (devs k0)) (klog k0) (x, zeros) →
  survives k0 v alloc_block v (λ r k', r = x ∧ quiet cur c k' (disk k') ∧ complete k0 d (alloc_writes s d x) (disk k'))
    (old_or_new k0 d (alloc_writes s d x)).
Proof.
  intros Hx Hw. unfold alloc_block. eapply survives_bind.
  { eapply survives_mono; [by apply (survives_begin_op v cur c Hcl k0 d Hq k0), (qu_cache _ _ _ _ Hq)|intros a k' HQ; exact HQ|].
    intros d' ->. by eapply old_now. }
  intros [] k1 (l1 & Hit1). cbv beta. eapply survives_bind.
  { eapply survives_mono; [by apply (survives_balloc l1 k1 x Hit1)|intros a k' HQ; exact HQ|]. intros d' ->. by eapply old_now. }
  intros y k2 (-> & l2 & o2 & Hit2). cbv beta. eapply survives_bind.
  { eapply (survives_end_op stop v cur c Hcl k0 d Hq _ l2 o2 k2); [|unfold MAXOPBLOCKS; simpl; lia|exact Hit2].
    apply Forall_cons_2; [apply (bo_block _ _ Hbm), Hx|]. by apply Forall_cons_2. }
  intros [] k3 (d3 & Hq3 & Hc3 & _). cbv beta. apply survives_ret. intros h. split; [done|].
  destruct (cst_klog _ _ _ _ _ _ _ (qu_cache _ _ _ _ Hq3)) as [_ E3]. change (disk (k3 <| hw := h |>)) with (disk k3). rewrite E3. split; [|done].
  by apply quiet_hw.
Qed.
End Balloc.

(** ** Claim *)

(** C11: allocation of a disk block is correct and atomic.  Between [begin_op] and [end_op],
    [balloc] returns the free block with the lowest number: afterwards its bit in the bitmap
    is set, it is zeroed, every other block is free or taken as before, and no other block
    has changed.  If the power fails in the operation, then after recovery either nothing has
    happened or the whole allocation has: a block is never marked without being zeroed. *)
Theorem balloc_allocates `{KernelSyms} stop v cur c k d x h rs :
  caller v cur c → quiet cur c k d → bitmap_ok k d → first_free_block (sb k) d x →
  may_write (disksize (devs k)) (klog k) (x, zeros) → (∀ y, 0 ≤ y < sb_size (sb k) → BBLOCK y (sb k) ≠ x) → hw_ok h v →
  match alloc_block stop (at_hw k h rs) with
  | Ok r w => r = x ∧ quiet cur c (ks w) (disk (ks w)) ∧ allocated (sb k) (klog k) d x (disk (ks w))
  | Switched w => ∀ d', recovery (disksize (devs k)) (disk (ks w)) d' →
      (∀ b, ¬ in_log (klog k) b → d' b = d b) ∨ allocated (sb k) (klog k) d x d'
  | _ => False
  end.
Proof.
  intros Hcl Hq Hbm Hx Hw Hne Hh. pose proof (survives_alloc_block stop v cur c Hcl k d Hq Hbm x Hx Hw h rs Hh) as Hs.
  destruct (alloc_block stop (at_hw k h rs)) as [r w| | | |w|]; try done.
  - destruct Hs as (_ & _ & -> & Hq' & Hc & _). split_and!; [done|done|]. apply after_alloc; [done|apply Hx|done|done|exact Hc].
  - destruct Hs as (Hok & Esb & Hor). intros d' Hr. assert (∀ b, ¬ in_log (klog k) b → d' b = recovered (log_start (klog k)) (disk (ks w)) b) as Hd'.
    { intros b Hb. rewrite (recovery_recovers _ _ _ Hr Hok), Esb; [done|]. unfold outside. by rewrite Esb. }
    destruct Hor as [Hor|Hor]; [left|right; apply after_alloc; [done|apply Hx|done|done|]]; intros b Hb; by rewrite Hd', Hor.
Qed.

(** ** A disk of 1000 blocks, of which the first 60 are in use *)

#[local] Existing Instance image_syms.

Definition map_disk (b : Z) : list Z :=
  if b =? 50 then put32 (put32 zero_block 0 0xFFFFFFFF) 4 0x0FFFFFFF else demo_disk b.
Definition map_kern : kern :=
  (disk_kern map_disk) <| klog := mkLog 2 30 0 0 1 0 (replicate 30 0) |> <| sb := mkSb 1000 940 200 30 2 33 50 |>.

Lemma map_quiet : quiet 0 disk_proc map_kern map_disk.
Proof.
  split; try done.
  - exists (hw map_kern), (procs map_kern), fresh_bcache. split_and!; [done|done|apply fresh_cache].
  - split; try done; simpl; intros; lia.
Qed.

Lemma map_block y : 0 ≤ y < 1000 → BBLOCK y (sb map_kern) = 50.
Proof. intros Hy. unfold BBLOCK. by rewrite (Z.div_small y BPB) by (change BPB with 4096; lia). Qed.

Lemma map_bitmap : bitmap_ok map_kern map_disk.
Proof.
  split; [done..| |].
  - intros y data Hy. unfold may_write, in_log. cbn [fst]. rewrite (map_block y Hy). unfold LOGSIZE, MAXOPBLOCKS. simpl. lia.
  - intros y Hy. by rewrite (map_block y Hy).
Qed.

Lemma map_first_free : first_free_block (sb map_kern) map_disk 60.
Proof.
  split_and!; [done..|]. intros y Hy.
  assert (forallb (λ y, negb (block_free (sb map_kern) map_disk y)) (seqZ 0 60) = true) as Hall by (by vm_compute).
  rewrite forallb_forall in Hall. specialize (Hall y). rewrite negb_true_iff in Hall. apply Hall, list_elem_of_In, elem_of_seqZ. lia.
Qed.

Lemma map_alloc_returns : returns (alloc_block (λ _ _, false) (at_hw map_kern (run_hw 0) [])) = true.
Proof. by vm_compute. Qed.

Lemma balloc_allocates_witness :
  ∃ w, alloc_block (λ _ _, false) (at_hw map_kern (run_hw 0) []) = Ok 60 w ∧ block_free (sb map_kern) (disk (ks w)) 60 = false ∧
    disk (ks w) 60 = zeros ∧ block_free (sb map_kern) (disk (ks w)) 61 = true.
Proof.
  pose proof (balloc_allocates (λ _ _, false) (run_view 0) 0 disk_proc map_kern map_disk 60 (run_hw 0) []
    disk_caller map_quiet map_bitmap map_first_free ltac:(unfold may_write, in_log, LOGSIZE, MAXOPBLOCKS; simpl; lia)
    ltac:(intros y Hy; rewrite (map_block y Hy); lia) (run_hw_ok 0)) as Hw.
  pose proof map_alloc_returns as Hr. destruct (alloc_block _ _) as [r w| | | |w|]; try done. destruct Hw as (-> & _ & Ha).
  exists w. split_and!; [done|apply (al_taken _ _ _ _ _ Ha)|apply (al_zero _ _ _ _ _ Ha)|].
  rewrite (al_others _ _ _ _ _ Ha) by (done || lia). by vm_compute.
Defined.
