(* ===== verification/Bakery.v ===== *)
(** * pthread_lock_linux.c: the bakery lock

    Ten threads enter a critical section in turn, in the order of tickets that they draw
    from a shared array, the lower thread number first when two tickets are equal.  The
    arrays are [volatile]: every access that the program text has is an action of its own,
    and the actions of the threads interleave in any order.  The threads run over a memory
    in which a store is seen at once ([sc_step]), or over the memory of an x86, where
    stores wait in a buffer of their processor ([tso_step]). *)

From S2P Require Import Prelude Layout.

(** ** The program *)

Definition NUM_ITERS : nat := 10.
Definition NUM_THREADS : nat := 10.

(** The shared variables. *)
Inductive loc := Number (i : nat) | Choosing (i : nat) | Shared.
#[export] Instance loc_eq_dec : EqDecision loc.
Proof. solve_decision. Defined.

(** Where a thread is, with the local variables that are live there. *)
Inductive pc :=
  | LockStart                                (* choosing[tid] = 1 *)
  | MaxFirst                                 (* max_value = array[0] *)
  | MaxTest (i : nat) (max_value : Z)        (* array[i] > max_value *)
  | MaxTake (i : nat)                        (* max_value = array[i] *)
  | DrawTicket (max_value : Z)               (* number[tid] = 1 + max *)
  | EndChoosing                              (* choosing[tid] = 0 *)
  | WaitChoosing (j : nat)                   (* while (choosing[j]) *)
  | WaitNumber (j : nat)                     (* number[j] != 0 *)
  | LessLeft (j : nat)                       (* number[j] < number[tid] *)
  | LessRight (j : nat) (x : Z)
  | EqLeft (j : nat)                         (* number[j] == number[tid] *)
  | EqRight (j : nat) (x : Z)
  | IncLoad (i : nat)                        (* shared_resource++ *)
  | IncStore (i : nat) (x : Z)
  | Unlock                                   (* number[tid] = 0 *)
  | Exited.                                  (* pthread_exit *)

(** The next access to a shared variable, and how the thread goes on. *)
Inductive action := Load (a : loc) (next : Z → pc) | Store (a : loc) (x : Z) (next : pc) | Stop.

Definition max_next (i : nat) (m : Z) : pc := if (i <? NUM_THREADS)%nat then MaxTest i m else DrawTicket m.
Definition wait_next (j : nat) : pc := if (S j <? NUM_THREADS)%nat then WaitChoosing (S j) else IncLoad 0.
Definition iter_next (i : nat) : pc := if (S i <? NUM_ITERS)%nat then IncLoad (S i) else Unlock.

Definition thread_func (tid : nat) (p : pc) : action :=
  match p with
  | LockStart => Store (Choosing tid) 1 MaxFirst
  | MaxFirst => Load (Number 0) (λ x, max_next 1 x)
  | MaxTest i m => Load (Number i) (λ x, if m <? x then MaxTake i else max_next (S i) m)
  | MaxTake i => Load (Number i) (λ x, max_next (S i) x)
  | DrawTicket m => Store (Number tid) (s32 (1 + m)) EndChoosing
  | EndChoosing => Store (Choosing tid) 0 (WaitChoosing 0)
  | WaitChoosing j => Load (Choosing j) (λ x, if truthy x then WaitChoosing j else WaitNumber j)
  | WaitNumber j => Load (Number j) (λ x, if negb (x =? 0) then LessLeft j else wait_next j)
  | LessLeft j => Load (Number j) (λ x, LessRight j x)
  | LessRight j x => Load (Number tid) (λ y, if x <? y then WaitNumber j else EqLeft j)
  | EqLeft j => Load (Number j) (λ x, EqRight j x)
  | EqRight j x => Load (Number tid) (λ y, if (x =? y) && (j <? tid)%nat then WaitNumber j else wait_next j)
  | IncLoad i => Load Shared (λ x, IncStore i x)
  | IncStore i x => Store Shared (s32 (x + 1)) (iter_next i)
  | Unlock => Store (Number tid) 0 Exited
  | Exited => Stop
  end.

(** ** Memory *)

Record shared_vars := mkSharedVars { number : list Z; choosing : list Z; shared_resource : Z }.
#[export] Instance eta_shared_vars : Settable shared_vars := λ r, mkSharedVars (number r) (choosing r) (shared_resource r).

Definition load (m : shared_vars) (a : loc) : Z :=
  match a with Number i => nth i (number m) 0 | Choosing i => nth i (choosing m) 0 | Shared => shared_resource m end.
Definition store (m : shared_vars) (a : loc) (x : Z) : shared_vars :=
  match a with
  | Number i => m <| number ::= insert i x |>
  | Choosing i => m <| choosing ::= insert i x |>
  | Shared => m <| shared_resource := x |>
  end.

(** Static variables are zero when [main] starts the threads. *)
Definition start_memory : shared_vars := mkSharedVars (replicate NUM_THREADS 0) (replicate NUM_THREADS 0) 0.

(** *** Stores that are seen at once *)

Record sc_state := mkSc { sc_mem : shared_vars; sc_pcs : list pc }.

Definition sc_step (t : nat) (s : sc_state) : option sc_state :=
  match thread_func t <$> sc_pcs s !! t with
  | Some (Load a next) => Some (mkSc (sc_mem s) (<[t := next (load (sc_mem s) a)]> (sc_pcs s)))
  | Some (Store a x next) => Some (mkSc (store (sc_mem s) a x) (<[t := next]> (sc_pcs s)))
  | _ => None
  end.

Definition sc_start : sc_state := mkSc start_memory (replicate NUM_THREADS LockStart).

(** The states of the executions, and the execution that a list of threads describes. *)
Inductive sc_reachable : sc_state → Prop :=
  | sc_initial : sc_reachable sc_start
  | sc_next t s s' : sc_reachable s → sc_step t s = Some s' → sc_reachable s'.

Fixpoint sc_run (ts : list nat) (s : sc_state) : option sc_state :=
  match ts with [] => Some s | t :: ts' => match sc_step t s with Some s' => sc_run ts' s' | None => None end end.

(** *** Stores that wait in a buffer *)

(** The oldest store of a buffer comes first. *)
Record tso_state := mkTso { tso_mem : shared_vars; tso_pcs : list pc; tso_buf : list (list (loc * Z)) }.

(** A processor sees its own stores. *)
Definition forwarded (b : list (loc * Z)) (a : loc) : option Z :=
  snd <$> last (filter (λ e, e.1 = a) b).

(** A thread acts, or ([flush]) its oldest store reaches memory. *)
Definition tso_step (flush : bool) (t : nat) (s : tso_state) : option tso_state :=
  let b := default [] (tso_buf s !! t) in
  if flush then
    match b with
    | (a, x) :: b' => Some (mkTso (store (tso_mem s) a x) (tso_pcs s) (<[t := b']> (tso_buf s)))
    | [] => None
    end
  else
    match thread_func t <$> tso_pcs s !! t with
    | Some (Load a next) => Some (mkTso (tso_mem s) (<[t := next (default (load (tso_mem s) a) (forwarded b a))]> (tso_pcs s)) (tso_buf s))
    | Some (Store a x next) => Some (mkTso (tso_mem s) (<[t := next]> (tso_pcs s)) (<[t := b ++ [(a, x)]]> (tso_buf s)))
    | _ => None
    end.

Definition tso_start : tso_state := mkTso start_memory (replicate NUM_THREADS LockStart) (replicate NUM_THREADS []).
Inductive tso_reachable : tso_state → Prop :=
  | tso_initial : tso_reachable tso_start
  | tso_next f t s s' : tso_reachable s → tso_step f t s = Some s' → tso_reachable s'.

(** ** The critical section *)

Definition critical (p : pc) : bool :=
  match p with IncLoad _ | IncStore _ _ | Unlock => true | _ => false end.

(** ** The invariant

    [n] is the array of tickets.  Thread [i] is [ahead] of [j] when [j] has no ticket or a
    later one.  Once [i], with its ticket, has [seen] that [j] is not choosing, a ticket that
    [j] draws afterwards is later than that of [i]; once it has [passed] [j], it is ahead. *)

Definition has_ticket (p : pc) : bool :=
  match p with LockStart | MaxFirst | MaxTest _ _ | MaxTake _ | DrawTicket _ | Exited => false | _ => true end.
Definition is_choosing (p : pc) : bool :=
  match p with MaxFirst | MaxTest _ _ | MaxTake _ | DrawTicket _ | EndChoosing => true | _ => false end.

Definition seen (p : pc) (j : nat) : Prop :=
  match p with
  | WaitChoosing k => (j < k)%nat
  | WaitNumber k | LessLeft k | LessRight k _ | EqLeft k | EqRight k _ => (j ≤ k)%nat
  | IncLoad _ | IncStore _ _ | Unlock => True
  | _ => False
  end.
Definition passed (p : pc) (j : nat) : Prop :=
  match p with
  | WaitChoosing k | WaitNumber k | LessLeft k | LessRight k _ | EqLeft k | EqRight k _ => (j < k)%nat
  | IncLoad _ | IncStore _ _ | Unlock => True
  | _ => False
  end.

Definition not_before (n : nat → Z) (i j : nat) : Prop := n j = 0 ∨ n i ≤ n j.
Definition ahead (n : nat → Z) (i j : nat) : Prop := n j = 0 ∨ n i < n j ∨ (n i = n j ∧ (i < j)%nat).

(** The ticket that [j] is about to draw will be later than that of [i]. *)
Definition draws_later (n : nat → Z) (i : nat) (q : pc) : Prop :=
  match q with
  | MaxTest k m => (i < k)%nat → n i ≤ m
  | MaxTake k => (i < k)%nat → n i ≤ n k
  | DrawTicket m => n i ≤ m
  | _ => True
  end.
(** What thread [i] knows while it compares tickets with [j]. *)
Definition comparing (n : nat → Z) (i : nat) (p : pc) (j : nat) : Prop :=
  match p with
  | LessRight k x => k = j → n i ≤ x → not_before n i j
  | EqLeft k => k = j → not_before n i j
  | EqRight k x => k = j → not_before n i j ∧ (x ≠ n i ∨ (i < j)%nat → ahead n i j)
  | _ => True
  end.

Definition pair_ok (n : nat → Z) (i j : nat) (p q : pc) : Prop :=
  (seen p j → draws_later n i q) ∧ comparing n i p j ∧ (passed p j → ahead n i j).

Definition valid (p : pc) : Prop :=
  match p with
  | MaxTest k m => (k < NUM_THREADS)%nat ∧ 0 ≤ m
  | MaxTake k | WaitChoosing k | WaitNumber k | LessLeft k | LessRight k _ | EqLeft k | EqRight k _ => (k < NUM_THREADS)%nat
  | DrawTicket m => 0 ≤ m
  | IncLoad i | IncStore i _ => (i < NUM_ITERS)%nat
  | _ => True
  end.
Definition own_ok (n c : nat → Z) (i : nat) (p : pc) : Prop :=
  valid p ∧ (if has_ticket p then 0 < n i else n i = 0) ∧ c i = if is_choosing p then 1 else 0.

Record ticket_inv (n c : nat → Z) (P : nat → pc) : Prop := mkTicketInv {
  ti_own : ∀ i, (i < NUM_THREADS)%nat → own_ok n c i (P i);
  ti_pair : ∀ i j, (i < NUM_THREADS)%nat → (j < NUM_THREADS)%nat → i ≠ j → pair_ok n i j (P i) (P j)
}.

Lemma nth_insert {A} (l : list A) i j x d : (i < length l)%nat → nth j (<[i := x]> l) d = if decide (j = i) then x else nth j l d.
Proof.
  intros Hi. rewrite !nth_lookup. destruct (decide (j = i)) as [->|]; [by rewrite list_lookup_insert_eq|by rewrite list_lookup_insert_ne by done].
Qed.

(** A thread that has seen another not choosing has a ticket. *)
Lemma seen_ticket n c i p j : own_ok n c i p → seen p j → 0 < n i.
Proof. intros (_ & Hn & _). by destruct p. Qed.

(** The case analysis of one action. *)
Ltac split_tests :=
  unfold max_next, wait_next, iter_next in *;
  repeat match goal with
  | |- context [if (?x <? ?y)%nat then _ else _] => destruct (Nat.ltb_spec x y)
  | |- context [if ?x <? ?y then _ else _] => destruct (Z.ltb_spec x y)
  | |- context [if negb (?x =? ?y) then _ else _] => destruct (Z.eqb_spec x y); cbn [negb]
  | |- context [if (?x =? ?y) && (?i <? ?j)%nat then _ else _] => destruct (Z.eqb_spec x y), (Nat.ltb_spec i j); cbn [andb]
  | |- context [if truthy ?x then _ else _] => let E := fresh "E" in destruct (truthy x) eqn:E
  end.

(** What a load of [a] returns. *)
Definition value (n c : nat → Z) (sh : Z) (a : loc) : Z :=
  match a with Number k => n k | Choosing k => c k | Shared => sh end.

Ltac pc_simpl := cbn [valid has_ticket is_choosing seen passed draws_later comparing value] in *.
Ltac load_cases E p := destruct p; try discriminate; injection E as <- <-; pc_simpl; split_tests; pc_simpl.

(** A load leaves the arrays alone. *)
Lemma load_own n c sh t p a next : own_ok n c t p → (∀ k, 0 ≤ n k) → thread_func t p = Load a next → own_ok n c t (next (value n c sh a)).
Proof.
  unfold own_ok. intros (Hv & Hn & Hc) Hpos E. load_cases E p; repeat split; try done; try apply Hpos; unfold NUM_THREADS, NUM_ITERS in *; lia.
Qed.

Lemma load_pair_own n c sh t j p q a next : t ≠ j → (j < NUM_THREADS)%nat → pair_ok n t j p q → own_ok n c t p → own_ok n c j q →
  thread_func t p = Load a next → pair_ok n t j (next (value n c sh a)) q.
Proof.
  unfold pair_ok, own_ok. intros Hne Hj (H1 & H2 & H3) (_ & Hn & _) (_ & Hnj & Hcj) E.
  load_cases E p; unfold not_before, ahead in *; (split_and!; [intros Hs|try done; try (intros; lia)|intros Hs]); try done; try (apply H1; lia).
  all: try match goal with k : nat |- _ => destruct (decide (j = k)) as [->|] end; try lia; try (apply H1; lia).
  all: unfold NUM_THREADS in *; try lia. rewrite Hcj in E. by destruct q.
Qed.

Lemma load_pair_other n c sh t i p q a next : (i < NUM_THREADS)%nat → pair_ok n i t q p → thread_func t p = Load a next → pair_ok n i t q (next (value n c sh a)).
Proof.
  unfold pair_ok. intros Hi (H1 & H2 & H3) E. split_and!; [|done..]. intros Hs. specialize (H1 Hs). clear H2 H3.
  load_cases E p; try done; intros.
  all: try (assert (i = 0%nat) as -> by lia; lia).
  all: try match goal with k : nat |- _ => destruct (decide (i = k)) as [->|] end; try lia. all: unfold NUM_THREADS in *; lia.
Qed.

(** Thread [t] writes [x] to its element of an array. *)
Definition put (f : nat → Z) (t : nat) (x : Z) : nat → Z := λ k, if decide (k = t) then x else f k.
Lemma put_eq f t x : put f t x t = x.
Proof. unfold put. by rewrite decide_True. Qed.
Lemma put_ne f t x k : k ≠ t → put f t x k = f k.
Proof. intros. unfold put. by rewrite decide_False. Qed.

(** Two threads that do not move keep what they know while [t] draws or returns its ticket. *)
Lemma store_pair_rest n c t x i j p q r : i ≠ t → j ≠ t → pair_ok n i j q r → pair_ok n t i p q → own_ok n c t p → own_ok n c i q →
  (has_ticket p = false ∨ p = Unlock) → pair_ok (put n t x) i j q r.
Proof.
  unfold pair_ok. intros Hi Hj (H1 & H2 & H3) (_ & _ & H4) (_ & Hn & _) Hq Hp. split_and!.
  - intros Hs. specialize (H1 Hs). pose proof (seen_ticket _ _ _ _ _ Hq Hs) as Hni. destruct r; pc_simpl; rewrite ?(put_ne n t x i) by done; try done.
    destruct (decide (i0 = t)) as [->|]; [|by rewrite put_ne]. intros Hlt. specialize (H1 Hlt). destruct Hp as [Hp| ->]; [rewrite Hp in Hn; lia|].
    destruct (H4 I) as [?|[?|[? ?]]]; lia.
  - unfold comparing, ahead, not_before in *. by rewrite !put_ne by done.
  - unfold ahead in *. by rewrite !put_ne by done.
Qed.

(** A ticket drawn by [t] is later than those of the threads that have seen it not choosing. *)
Lemma draw_pair_other n t m i q : i ≠ t → 0 ≤ m → pair_ok n i t q (DrawTicket m) → pair_ok (put n t (1 + m)) i t q EndChoosing.
Proof.
  unfold pair_ok. intros Hi Hm (H1 & H2 & H3). pc_simpl.
  assert (seen q t → n i < put n t (1 + m) t) as Hl by (rewrite put_eq; intros Hs; specialize (H1 Hs); lia).
  assert (put n t (1 + m) i = n i) as Ei by (by apply put_ne). split_and!; [done|..].
  - destruct q; try done; intros ->; pc_simpl; unfold not_before, ahead; rewrite Ei; lia.
  - intros Hp. unfold ahead. rewrite Ei. right; left. apply Hl. destruct q; pc_simpl; try done; lia.
Qed.

Lemma unlock_pair_other n t i q r : pair_ok n i t q r → pair_ok (put n t 0) i t q Exited.
Proof.
  unfold pair_ok. intros (H1 & H2 & H3). assert (put n t 0 t = 0) as E by apply put_eq.
  split_and!; [done| |intros _; by left]. destruct q; try done; intros ->; unfold not_before, ahead; rewrite E; intros; auto.
Qed.

(** ** One step *)

Section Step.
Variables (n c : nat → Z) (sh : Z) (P : nat → pc) (t : nat).
Hypothesis (Hinv : ticket_inv n c P) (Ht : (t < NUM_THREADS)%nat).

Let move (p : pc) : nat → pc := λ k, if decide (k = t) then p else P k.
Lemma move_eq p : move p t = p.
Proof. unfold move. by rewrite decide_True. Qed.
Lemma move_ne p k : k ≠ t → move p k = P k.
Proof. intros. unfold move. by rewrite decide_False. Qed.

Lemma tickets_pos k : (k < NUM_THREADS)%nat → 0 ≤ n k.
Proof. intros Hk. destruct (ti_own _ _ _ Hinv k Hk) as (_ & H & _). destruct (has_ticket _); lia. Qed.

(** The invariant is a matter of [t] itself, of [t] and the others, and of the others. *)
Lemma step_inv n' c' p : (∀ k, k ≠ t → n' k = n k ∧ c' k = c k) → own_ok n' c' t p →
  (∀ j, (j < NUM_THREADS)%nat → j ≠ t → pair_ok n' t j p (P j) ∧ pair_ok n' j t (P j) p) →
  (∀ i j, (i < NUM_THREADS)%nat → (j < NUM_THREADS)%nat → i ≠ j → i ≠ t → j ≠ t → pair_ok n' i j (P i) (P j)) →
  ticket_inv n' c' (move p).
Proof.
  intros Hr Ho Hp Hq. split.
  - intros i Hi. destruct (decide (i = t)) as [->|Hne]; [by rewrite move_eq|]. rewrite move_ne by done. destruct (Hr i Hne) as [E1 E2].
    unfold own_ok. rewrite E1, E2. by apply (ti_own _ _ _ Hinv).
  - intros i j Hi Hj Hij. destruct (decide (i = t)) as [->|Hne], (decide (j = t)) as [->|Hne']; try done; rewrite ?move_eq, ?move_ne by done.
    + by apply Hp.
    + by apply Hp.
    + by apply Hq.
Qed.

Lemma load_inv a next : (∀ k, 0 ≤ n k) → thread_func t (P t) = Load a next → ticket_inv n c (move (next (value n c sh a))).
Proof.
  intros Hpos E. pose proof (ti_own _ _ _ Hinv t Ht) as Ho. apply step_inv; [done|by eapply load_own| |intros; by apply (ti_pair _ _ _ Hinv)].
  intros j Hj Hne. split.
  - eapply load_pair_own; [done|done|by apply (ti_pair _ _ _ Hinv)|done|by apply (ti_own _ _ _ Hinv)|done].
  - eapply load_pair_other; [done|by apply (ti_pair _ _ _ Hinv)|done].
Qed.

Lemma store_inv a x next : thread_func t (P t) = Store a x next → (∀ m, P t = DrawTicket m → s32 (1 + m) = 1 + m) →
  ticket_inv (match a with Number k => put n k x | _ => n end) (match a with Choosing k => put c k x | _ => c end) (move next).
Proof.
  intros E Hm. pose proof (ti_own _ _ _ Hinv t Ht) as (Hv & Hn & Hc). pose proof (ti_pair _ _ _ Hinv t) as Hp. pose proof (λ i Hi, ti_pair _ _ _ Hinv i t Hi Ht) as Hp'.
  assert (∀ p j, (has_ticket p = false ∨ p = EndChoosing ∨ p = WaitChoosing 0) → pair_ok n t j p (P j)) as Hfresh.
  { intros p j Hp0. unfold pair_ok. destruct p; try (by destruct Hp0 as [?|[?|?]]); cbn; try (by split_and!); destruct Hp0 as [?|[?|[= ->]]]; try done. split_and!; intros; try done; lia. }
  destruct (P t) eqn:Ep; try discriminate; injection E as <- <- <-; pc_simpl.
  - apply step_inv; [intros; by rewrite put_ne|unfold own_ok; by rewrite put_eq| |intros; by apply (ti_pair _ _ _ Hinv)].
    intros j Hj Hne. split; [apply Hfresh; auto|]. destruct (Hp' j Hj Hne) as (_ & H2 & H3). by split_and!.
  - rewrite Hm by done. apply step_inv; [intros; by rewrite put_ne|unfold own_ok; rewrite put_eq; cbn; split_and!; [done|lia|done]| |].
    + intros j Hj Hne. split; [split_and!; by intros|]. apply draw_pair_other; [done|done|by apply Hp'].
    + intros i j Hi Hj Hij Hit Hjt. eapply (store_pair_rest n c t _ i j (DrawTicket max_value));
        [done|done|by apply (ti_pair _ _ _ Hinv)|by apply Hp|by rewrite <- Ep; apply (ti_own _ _ _ Hinv)|by apply (ti_own _ _ _ Hinv)|by left].
  - apply step_inv; [intros; by rewrite put_ne|unfold own_ok; rewrite put_eq; cbn; split_and!; [unfold NUM_THREADS; lia|done|done]| |intros; by apply (ti_pair _ _ _ Hinv)].
    intros j Hj Hne. split; [apply Hfresh; auto|]. destruct (Hp' j Hj Hne) as (_ & H2 & H3). by split_and!.
  - assert (∀ j, valid (iter_next i) ∧ has_ticket (iter_next i) = true ∧ is_choosing (iter_next i) = false ∧ seen (iter_next i) j ∧ passed (iter_next i) j) as Hi.
    { intros j. split_tests; pc_simpl; split_and!; done. }
    apply step_inv; [done| |..|intros; by apply (ti_pair _ _ _ Hinv)].
    + destruct (Hi 0%nat) as (I1 & I2 & I3 & _). unfold own_ok. by rewrite I2, I3.
    + intros j Hj Hne. destruct (Hp j Ht Hj ltac:(done)) as (H1 & H2 & H3), (Hp' j Hj Hne) as (H4 & H5 & H6). split; split_and!; try done; try (split_tests; done); intros; auto.
  - apply step_inv; [intros; by rewrite put_ne|unfold own_ok; by rewrite put_eq| |].
    + intros j Hj Hne. split; [split_and!; by intros|]. eapply unlock_pair_other. by apply Hp'.
    + intros i j Hi Hj Hij Hit Hjt. eapply (store_pair_rest n c t _ i j Unlock);
        [done|done|by apply (ti_pair _ _ _ Hinv)|by apply Hp|by rewrite <- Ep; apply (ti_own _ _ _ Hinv)|by apply (ti_own _ _ _ Hinv)|by right].
Qed.
End Step.

Lemma ahead_both n c P i j : ticket_inv n c P → (i < NUM_THREADS)%nat → (j < NUM_THREADS)%nat → critical (P i) = true → critical (P j) = true → i = j.
Proof.
  intros Hinv Hi Hj Ci Cj. destruct (decide (i = j)) as [|Hne]; [done|exfalso].
  destruct (ti_own _ _ _ Hinv i Hi) as (_ & Ni & _), (ti_own _ _ _ Hinv j Hj) as (_ & Nj & _).
  destruct (ti_pair _ _ _ Hinv i j Hi Hj Hne) as (_ & _ & Hij), (ti_pair _ _ _ Hinv j i Hj Hi ltac:(done)) as (_ & _ & Hji).
  assert (has_ticket (P i) = true ∧ passed (P i) j) as [E1 E2] by (by destruct (P i)).
  assert (has_ticket (P j) = true ∧ passed (P j) i) as [E3 E4] by (by destruct (P j)). rewrite E1 in Ni. rewrite E3 in Nj.
  specialize (Hij E2). specialize (Hji E4). unfold ahead in *. lia.
Qed.

(** ** Tickets stay small, and increments are counted *)

Definition drawn (p : pc) : nat :=
  match p with LockStart | MaxFirst | MaxTest _ _ | MaxTake _ | DrawTicket _ => 0 | _ => 1 end.
Definition increments (p : pc) : nat :=
  match p with IncLoad i | IncStore i _ => i | Unlock | Exited => NUM_ITERS | _ => 0 end.

Definition small (T : Z) (p : pc) : Prop := match p with MaxTest _ m | DrawTicket m => m ≤ T | _ => True end.
Definition loaded (sh : Z) (p : pc) : Prop := match p with IncStore _ x => x = sh | _ => True end.

Definition tickets_drawn (ps : list pc) : Z := Z.of_nat (sum_list_with drawn ps).
Definition increments_done (ps : list pc) : Z := Z.of_nat (sum_list_with increments ps).

Lemma sum_insert (f : pc → nat) l t p p' : l !! t = Some p → (sum_list_with f (<[t := p']> l) + f p = sum_list_with f l + f p')%nat.
Proof.
  revert t. induction l as [|q l IH]; intros [|t] E; try done; simpl in *; [injection E as ->; lia|]. specialize (IH t E). lia.
Qed.
Lemma sum_at_most (f : pc → nat) b l : Forall (λ p, f p ≤ b)%nat l → (sum_list_with f l ≤ b * length l)%nat.
Proof. induction 1; simpl; lia. Qed.
Lemma drawn_insert l t p p' : l !! t = Some p → tickets_drawn (<[t := p']> l) = tickets_drawn l + Z.of_nat (drawn p') - Z.of_nat (drawn p).
Proof. intros E. unfold tickets_drawn. pose proof (sum_insert drawn l t p p' E). lia. Qed.
Lemma increments_insert l t p p' : l !! t = Some p →
  increments_done (<[t := p']> l) = increments_done l + Z.of_nat (increments p') - Z.of_nat (increments p).
Proof. intros E. unfold increments_done. pose proof (sum_insert increments l t p p' E). lia. Qed.

Definition tickets (s : sc_state) : nat → Z := λ k, nth k (number (sc_mem s)) 0.
Definition flags (s : sc_state) : nat → Z := λ k, nth k (choosing (sc_mem s)) 0.
Definition at_pc (s : sc_state) : nat → pc := λ k, nth k (sc_pcs s) Exited.

Record sc_inv (s : sc_state) : Prop := mkScInv {
  si_len : length (number (sc_mem s)) = NUM_THREADS ∧ length (choosing (sc_mem s)) = NUM_THREADS ∧ length (sc_pcs s) = NUM_THREADS;
  si_tickets : ticket_inv (tickets s) (flags s) (at_pc s);
  si_small : ∀ k, 0 ≤ tickets s k ≤ tickets_drawn (sc_pcs s) ∧ small (tickets_drawn (sc_pcs s)) (at_pc s k);
  si_shared : shared_resource (sc_mem s) = increments_done (sc_pcs s);
  si_loaded : ∀ k, loaded (shared_resource (sc_mem s)) (at_pc s k)
}.

Lemma tickets_few s : sc_inv s → tickets_drawn (sc_pcs s) ≤ 10 ∧ 0 ≤ increments_done (sc_pcs s) ≤ 100.
Proof.
  intros [(_ & _ & Hl) Ht _ _ _]. unfold tickets_drawn, increments_done.
  pose proof (sum_at_most drawn 1 (sc_pcs s) ltac:(apply Forall_forall; intros p _; destruct p; simpl; lia)).
  assert (Forall (λ p, increments p ≤ 10)%nat (sc_pcs s)) as Hf.
  { apply Forall_lookup. intros i p Hp. assert (at_pc s i = p) as <- by (unfold at_pc; by apply nth_lookup_Some).
    destruct (ti_own _ _ _ Ht i ltac:(rewrite <- Hl; by eapply lookup_lt_Some)) as (Hv & _). destruct (at_pc s i); unfold NUM_ITERS in *; cbn in *; unfold NUM_ITERS in *; lia. }
  pose proof (sum_at_most increments 10 (sc_pcs s) Hf). rewrite Hl in *. unfold NUM_THREADS in *. lia.
Qed.

Lemma ticket_inv_ext n c P n' c' P' : (∀ k, n' k = n k) → (∀ k, c' k = c k) → (∀ k, P' k = P k) → ticket_inv n c P → ticket_inv n' c' P'.
Proof.
  intros En Ec EP [Ho Hp]. split.
  - intros i Hi. unfold own_ok. rewrite En, Ec, EP. by apply Ho.
  - intros i j Hi Hj Hij. specialize (Hp i j Hi Hj Hij). rewrite !EP. destruct (P i), (P j); unfold pair_ok, comparing, draws_later, ahead, not_before in *; by rewrite !En.
Qed.

Lemma nth_Some {A} (l : list A) i x d : l !! i = Some x → nth i l d = x.
Proof. intros E. by rewrite nth_lookup, E. Qed.

Lemma sc_load_inv t s p a next : sc_inv s → sc_pcs s !! t = Some p → thread_func t p = Load a next →
  sc_inv (mkSc (sc_mem s) (<[t := next (load (sc_mem s) a)]> (sc_pcs s))).
Proof.
  intros Hinv Hp E. destruct (id Hinv) as [(L1 & L2 & L3) Ht Hs Hsh Hld]. pose proof (lookup_lt_Some _ _ _ Hp) as Hlt.
  assert (at_pc s t = p) as Ep by (by apply nth_Some). assert (load (sc_mem s) a = value (tickets s) (flags s) (shared_resource (sc_mem s)) a) as Ev by (by destruct a).
  set (p' := next (load (sc_mem s) a)).
  assert (drawn p' = drawn p ∧ increments p' = increments p ∧ small (tickets_drawn (sc_pcs s)) p' ∧ loaded (shared_resource (sc_mem s)) p') as (D1 & D2 & D3 & D4).
  { pose proof (proj2 (Hs t)) as Hst. rewrite Ep in Hst. unfold p'. rewrite Ev. clear Hld Hsh.
    load_cases E p; cbn [drawn increments small loaded] in *; split_and!; try done; try (apply Hs); lia. }
  assert (tickets_drawn (<[t := p']> (sc_pcs s)) = tickets_drawn (sc_pcs s) ∧ increments_done (<[t := p']> (sc_pcs s)) = increments_done (sc_pcs s)) as [T1 T2].
  { rewrite (drawn_insert _ _ _ _ Hp), (increments_insert _ _ _ _ Hp), D1, D2. lia. }
  assert (∀ k, at_pc (mkSc (sc_mem s) (<[t := p']> (sc_pcs s))) k = if decide (k = t) then p' else at_pc s k) as Ea by (intros k; by apply nth_insert).
  split; cbn [sc_mem sc_pcs].
  - by rewrite length_insert.
  - eapply ticket_inv_ext; [done|done|exact Ea|]. unfold p'. rewrite Ev. apply load_inv; [done|by rewrite <- L3|intros; apply Hs|by rewrite Ep].
  - intros k. rewrite T1, Ea. split; [apply Hs|]. destruct (decide (k = t)); [done|apply Hs].
  - by rewrite T2.
  - intros k. rewrite Ea. by destruct (decide (k = t)).
Qed.

Lemma sc_store_inv t s p a x next : sc_inv s → sc_pcs s !! t = Some p → thread_func t p = Store a x next →
  sc_inv (mkSc (store (sc_mem s) a x) (<[t := next]> (sc_pcs s))).
Proof.
  intros Hinv Hp E. destruct (tickets_few s Hinv) as [B1 B2]. destruct (id Hinv) as [(L1 & L2 & L3) Ht Hs Hsh Hld]. pose proof (lookup_lt_Some _ _ _ Hp) as Hlt.
  assert (at_pc s t = p) as Ep by (by apply nth_Some). rewrite L3 in Hlt.
  assert (∀ m, p = DrawTicket m → s32 (1 + m) = 1 + m) as Hm.
  { intros m ->. apply s32_id. pose proof (proj2 (Hs t)) as H1. destruct (ti_own _ _ _ Ht t Hlt) as (H2 & _). rewrite Ep in H1, H2. cbn in H1, H2. unfold two31. lia. }
  assert (∀ k, at_pc (mkSc (store (sc_mem s) a x) (<[t := next]> (sc_pcs s))) k = if decide (k = t) then next else at_pc s k) as Ea by (intros k; apply nth_insert; lia).
  split; cbn [sc_mem sc_pcs].
  - rewrite length_insert. destruct a; cbn; rewrite ?length_insert; done.
  - eapply ticket_inv_ext; [..|exact Ea|apply (store_inv _ _ _ t Ht Hlt a x next); rewrite Ep; done].
    + intros k. destruct p; try discriminate; injection E as <- <- <-; try done; unfold tickets; cbn; apply nth_insert; lia.
    + intros k. destruct p; try discriminate; injection E as <- <- <-; try done; unfold flags; cbn; apply nth_insert; lia.
  - intros k. rewrite (drawn_insert _ _ _ _ Hp), Ea. pose proof (Hs k) as [H1 H2]. pose proof (proj2 (Hs t)) as H3. rewrite Ep in H3.
    assert (Z.of_nat (drawn p) ≤ Z.of_nat (drawn next)) as Hd by (destruct p; try discriminate; injection E as <- <- <-; split_tests; cbn; lia). split.
    + destruct (decide (a = Number t)) as [->|Hna].
      * unfold tickets; cbn. rewrite nth_insert by lia. destruct (decide (k = t)) as [->|]; [|unfold tickets in H1; lia].
        destruct p; try discriminate; injection E as <- <-; [|cbn; lia]. rewrite Hm by done. cbn in H3 |- *.
        destruct (ti_own _ _ _ Ht t Hlt) as (H4 & _). rewrite Ep in H4. cbn in H4. lia.
      * assert (number (store (sc_mem s) a x) = number (sc_mem s)) as En by (destruct p; try discriminate; injection E as <- <- <-; done).
        unfold tickets in *. cbn. rewrite En. lia.
    + destruct (decide (k = t)) as [->|]; [destruct p; try discriminate; injection E as <- <- <-; split_tests; done|].
      destruct (at_pc s k); cbn in *; try done; lia.
  - rewrite (increments_insert _ _ _ _ Hp). destruct (ti_own _ _ _ Ht t Hlt) as (Hv & _). rewrite Ep in Hv. pose proof (Hld t) as Hl. rewrite Ep in Hl.
    destruct p; try discriminate; injection E as <- <- <-; cbn; try lia. cbn in Hl, Hv. rewrite Hl, Hsh, s32_id by (unfold two31; lia). split_tests; cbn; unfold NUM_ITERS in *; lia.
  - intros k. rewrite Ea. destruct (decide (k = t)) as [->|Hne]; [destruct p; try discriminate; injection E as <- <- <-; split_tests; done|].
    specialize (Hld k). destruct a; try done. assert (critical p = true) as Hc by (destruct p; try discriminate; done).
    destruct (at_pc s k) eqn:Ek; try done. exfalso. apply Hne. rewrite <- Ep in Hc.
    assert (k < NUM_THREADS)%nat as Hk. { rewrite <- L3. destruct (Nat.lt_ge_cases k (length (sc_pcs s))) as [|Hge]; [done|]. unfold at_pc in Ek. by rewrite nth_overflow in Ek. }
    eapply ahead_both; [exact Ht|done|done|by rewrite Ek|done].
Qed.

Lemma sc_start_at k : tickets sc_start k = 0 ∧ flags sc_start k = 0 ∧ at_pc sc_start k = if decide (k < NUM_THREADS)%nat then LockStart else Exited.
Proof.
  unfold tickets, flags, at_pc, sc_start, start_memory. cbn [sc_mem sc_pcs number choosing]. rewrite !nth_lookup.
  destruct (decide (k < NUM_THREADS)%nat); [rewrite !lookup_replicate_2 by done; done|rewrite !lookup_ge_None_2 by (rewrite length_replicate; lia); done].
Qed.

Lemma sc_start_inv : sc_inv sc_start.
Proof.
  split; [done|..|done|].
  - split.
    + intros i Hi. destruct (sc_start_at i) as (E1 & E2 & E3). rewrite E3, decide_True by done. by split_and!.
    + intros i j Hi Hj _. destruct (sc_start_at i) as (_ & _ & E3), (sc_start_at j) as (_ & _ & E4). rewrite E3, E4, !decide_True by done. split_and!; by intros.
  - intros k. destruct (sc_start_at k) as (E1 & _ & E3). rewrite E1, E3. split; [done|]. by destruct (decide _).
  - intros k. destruct (sc_start_at k) as (_ & _ & E3). rewrite E3. by destruct (decide _).
Qed.

Lemma sc_step_inv t s s' : sc_inv s → sc_step t s = Some s' → sc_inv s'.
Proof.
  unfold sc_step. intros Hinv E. destruct (sc_pcs s !! t) as [p|] eqn:Hp; [|done]. cbn [fmap option_fmap option_map] in E.
  destruct (thread_func t p) as [a next|a x next|] eqn:Ea; [| |done].
  - injection E as <-. by eapply sc_load_inv.
  - injection E as <-. by eapply sc_store_inv.
Qed.

Lemma sc_reachable_inv s : sc_reachable s → sc_inv s.
Proof. induction 1; [apply sc_start_inv|by eapply sc_step_inv]. Qed.

Lemma sc_run_reachable ts s s' : sc_reachable s → sc_run ts s = Some s' → sc_reachable s'.
Proof.
  revert s. induction ts as [|t ts IH]; intros s Hs; cbn [sc_run]; [by intros [= <-]|].
  destruct (sc_step t s) as [s1|] eqn:E; [|done]. apply IH. by eapply sc_next.
Qed.

(** All threads have exited. *)
Definition finished (s : sc_state) : Prop := Forall (λ p, p = Exited) (sc_pcs s).

Lemma finished_count s : sc_inv s → finished s → shared_resource (sc_mem s) = Z.of_nat (NUM_THREADS * NUM_ITERS).
Proof.
  intros [(_ & _ & L3) _ _ -> _] Hd. unfold increments_done. f_equal. rewrite <- L3. clear - Hd. unfold finished in Hd.
  induction Hd as [|p l -> _ IH]; [done|]. cbn. cbn in IH. lia.
Qed.

(** ** Progress *)

Definition sc_runs (s s' : sc_state) : Prop := ∃ ts, sc_run ts s = Some s'.

Lemma sc_runs_refl s : sc_runs s s.
Proof. by exists []. Qed.
Lemma sc_runs_step t s s1 s2 : sc_step t s = Some s1 → sc_runs s1 s2 → sc_runs s s2.
Proof. intros E [ts Hts]. exists (t :: ts). cbn [sc_run]. by rewrite E. Qed.
Lemma sc_runs_trans s1 s2 s3 : sc_runs s1 s2 → sc_runs s2 s3 → sc_runs s1 s3.
Proof.
  intros [ts Hts] H23. revert s1 Hts. induction ts as [|t ts IH]; intros s1; cbn [sc_run]; [by intros [= ->]|].
  destruct (sc_step t s1) as [s|] eqn:E; [|done]. intros Hr. eapply sc_runs_step; [exact E|by apply IH].
Qed.

(** Before a thread waits, nothing can stop it. *)
Definition door_rank (p : pc) : nat :=
  match p with
  | LockStart => 40 | MaxFirst => 39
  | MaxTest i _ => 2 * (NUM_THREADS - i) + 5 | MaxTake i => 2 * (NUM_THREADS - i) + 4
  | DrawTicket _ => 2 | EndChoosing => 1
  | _ => 0
  end.
Definition doors (s : sc_state) : nat := sum_list_with door_rank (sc_pcs s).

Lemma door_step s t : sc_inv s → door_rank (at_pc s t) ≠ 0%nat → ∃ s', sc_step t s = Some s' ∧ (doors s' < doors s)%nat.
Proof.
  intros Hinv Hd. destruct (sc_pcs s !! t) as [p|] eqn:Hp; [|unfold at_pc in Hd; by rewrite nth_lookup, Hp in Hd].
  assert (at_pc s t = p) as Ep by (by apply nth_Some). rewrite Ep in Hd. destruct (si_len _ Hinv) as (_ & _ & Hl).
  destruct (ti_own _ _ _ (si_tickets _ Hinv) t ltac:(rewrite <- Hl; by eapply lookup_lt_Some)) as (Hv & _). rewrite Ep in Hv.
  unfold sc_step, doors. rewrite Hp. cbn [fmap option_fmap option_map].
  assert (∀ m p', (door_rank p' < door_rank p)%nat → ∃ s', Some (mkSc m (<[t := p']> (sc_pcs s))) = Some s' ∧ (sum_list_with door_rank (sc_pcs s') < sum_list_with door_rank (sc_pcs s))%nat) as Hgo.
  { intros m p' Hlt. eexists. split; [done|]. cbn [sc_pcs]. pose proof (sum_insert door_rank (sc_pcs s) t p p' Hp). lia. }
  destruct p; cbn [thread_func]; try done; apply Hgo; pc_simpl; split_tests; cbn [door_rank]; unfold NUM_THREADS in *; lia.
Qed.

Lemma doors_close s : sc_inv s → ∃ s', sc_runs s s' ∧ sc_inv s' ∧ ∀ k, door_rank (at_pc s' k) = 0%nat.
Proof.
  remember (doors s) as d eqn:Ed. revert s Ed. induction (lt_wf d) as [d _ IH]. intros s -> Hinv.
  destruct (decide (Forall (λ p, door_rank p = 0%nat) (sc_pcs s))) as [Hall|Hex].
  - exists s. split_and!; [apply sc_runs_refl|done|]. intros k. unfold at_pc. rewrite nth_lookup. destruct (sc_pcs s !! k) as [p|] eqn:E; [|done]. by eapply Forall_lookup_1 in Hall.
  - apply not_Forall_Exists in Hex; [|apply _]. apply Exists_exists in Hex as (p & Hin & Hne). apply list_elem_of_lookup in Hin as [t Hp].
    destruct (door_step s t Hinv) as (s1 & E1 & Hlt); [unfold at_pc; by rewrite nth_lookup, Hp|].
    destruct (IH (doors s1) Hlt s1 eq_refl) as (s2 & R & I2 & D); [by eapply sc_step_inv|]. exists s2. split_and!; [by eapply sc_runs_step|done|done].
Qed.

(** When no thread is choosing, the thread that is ahead of the others goes through. *)
Definition wait_rank (j : nat) : nat := 30 + 12 * (NUM_THREADS - j).
Definition solo_rank (n : nat → Z) (i : nat) (p : pc) : nat :=
  match p with
  | WaitChoosing j => wait_rank j + 10
  | WaitNumber j => wait_rank j + (if n j =? 0 then 1 else 6)
  | LessLeft j => wait_rank j + (if n j =? 0 then 8 else 5)
  | LessRight j x => wait_rank j + (if x <? n i then 7 else 4)
  | EqLeft j => wait_rank j + 3
  | EqRight j x => wait_rank j + (if (x =? n i) && (j <? i)%nat then 7 else 2)
  | IncLoad k => 2 + 2 * (NUM_ITERS - k)
  | IncStore k _ => 1 + 2 * (NUM_ITERS - k)
  | _ => 1
  end.

Lemma solo_load n c sh i p a next : valid p → 0 < n i → (∀ j, c j = 0) → (∀ j, (j < NUM_THREADS)%nat → n j = 0 ∨ n i < n j ∨ (n i = n j ∧ (i ≤ j)%nat)) →
  has_ticket p = true → thread_func i p = Load a next →
  (solo_rank n i (next (value n c sh a)) < solo_rank n i p)%nat ∧ has_ticket (next (value n c sh a)) = true ∧ door_rank (next (value n c sh a)) = 0%nat.
Proof.
  intros Hv Hni Hc Hah Ht E. destruct p; try discriminate; injection E as <- <-; pc_simpl; try specialize (Hah j Hv); try rewrite Hc;
    split_tests; cbn [solo_rank has_ticket door_rank]; split_and!; try done; unfold wait_rank, NUM_ITERS, NUM_THREADS in *;
    repeat match goal with
    | |- context [if ?x =? ?y then _ else _] => destruct (Z.eqb_spec x y)
    | |- context [if ?x <? ?y then _ else _] => destruct (Z.ltb_spec x y)
    | |- context [if (?x =? ?y) && (?k <? ?l)%nat then _ else _] => destruct (Z.eqb_spec x y), (Nat.ltb_spec k l); cbn [andb]
    end; try lia; done.
Qed.

Definition frontmost (s : sc_state) (i : nat) : Prop :=
  (i < NUM_THREADS)%nat ∧ has_ticket (at_pc s i) = true ∧ ∀ j, (j < NUM_THREADS)%nat → j ≠ i → ahead (tickets s) i j.
Definition no_doors (s : sc_state) : Prop := ∀ k, door_rank (at_pc s k) = 0%nat.

Lemma at_pc_insert m s t p k : (t < length (sc_pcs s))%nat → at_pc (mkSc m (<[t := p]> (sc_pcs s))) k = if decide (k = t) then p else at_pc s k.
Proof. intros. by apply nth_insert. Qed.

Lemma no_doors_flags s : sc_inv s → no_doors s → ∀ k, flags s k = 0.
Proof.
  intros Hinv Hd k. destruct (si_len _ Hinv) as (_ & Hl & _). destruct (Nat.lt_ge_cases k NUM_THREADS) as [Hk|Hk]; [|unfold flags; apply nth_overflow; lia].
  destruct (ti_own _ _ _ (si_tickets _ Hinv) k Hk) as (_ & _ & ->). specialize (Hd k). destruct (at_pc s k); cbn [door_rank is_choosing] in *; done || lia.
Qed.

Lemma solo_step s i : sc_inv s → no_doors s → frontmost s i →
  ∃ s', sc_step i s = Some s' ∧ no_doors s' ∧ sc_pcs s' = <[i := at_pc s' i]> (sc_pcs s) ∧
    (at_pc s' i = Exited ∨ (solo_rank (tickets s') i (at_pc s' i) < solo_rank (tickets s) i (at_pc s i))%nat ∧ frontmost s' i).
Proof.
  intros Hinv Hd (Hi & Hti & Hah). pose proof (no_doors_flags s Hinv Hd) as Hc. destruct (si_len _ Hinv) as (L1 & L2 & L3).
  destruct (ti_own _ _ _ (si_tickets _ Hinv) i Hi) as (Hv & Hni & _). rewrite Hti in Hni.
  destruct (lookup_lt_is_Some_2 (sc_pcs s) i ltac:(lia)) as [p Hp]. assert (at_pc s i = p) as Ep by (by apply nth_Some).
  assert (∀ m p', door_rank p' = 0%nat → no_doors (mkSc m (<[i := p']> (sc_pcs s))) ∧ at_pc (mkSc m (<[i := p']> (sc_pcs s))) i = p') as Hmove.
  { intros m p' Hp'. split; [intros k|]; rewrite at_pc_insert by lia; [destruct (decide _); [done|apply Hd]|by rewrite decide_True]. }
  unfold sc_step. rewrite Hp, Ep in *. cbn [fmap option_fmap option_map]. destruct (thread_func i p) as [a next|a x next|] eqn:E.
  - assert (load (sc_mem s) a = value (tickets s) (flags s) (shared_resource (sc_mem s)) a) as Ev by (by destruct a).
    destruct (solo_load (tickets s) (flags s) (shared_resource (sc_mem s)) i p a next Hv Hni Hc) as (R1 & R2 & R3); [|done|done|].
    { intros j Hj. destruct (decide (j = i)) as [->|Hne]; [right; right; split; [done|lia]|]. destruct (Hah j Hj Hne) as [?|[?|[? ?]]]; [auto|auto|]. right; right; split; [done|lia]. }
    rewrite <- Ev in *. destruct (Hmove (sc_mem s) _ R3) as (M1 & M3). eexists. split_and!; [done|done|by rewrite M3|]. right. rewrite M3. split; [done|].
    split_and!; [done|by rewrite M3|done].
  - specialize (Hd i). rewrite Ep in Hd. destruct p; try discriminate; injection E as <- <- <-.
    + assert (door_rank (iter_next i0) = 0%nat ∧ has_ticket (iter_next i0) = true) as [D1 D2] by (split_tests; done).
      destruct (Hmove (store (sc_mem s) Shared (s32 (x0 + 1))) _ D1) as (M1 & M3). eexists. split_and!; [done|done|by rewrite M3|]. right. rewrite M3.
      split; [pc_simpl; split_tests; cbn [solo_rank]; unfold NUM_ITERS in *; lia|]. split_and!; [done|by rewrite M3|done].
    + destruct (Hmove (store (sc_mem s) (Number i) 0) Exited eq_refl) as (M1 & M3). eexists. split_and!; [done|done|by rewrite M3|]. by left.
  - by destruct p.
Qed.

Lemma solo_exits s i : sc_inv s → no_doors s → frontmost s i →
  ∃ s', sc_runs s s' ∧ sc_inv s' ∧ no_doors s' ∧ sc_pcs s' = <[i := Exited]> (sc_pcs s).
Proof.
  remember (solo_rank (tickets s) i (at_pc s i)) as r eqn:Er. revert s Er. induction (lt_wf r) as [r _ IH]. intros s -> Hinv Hd Hf.
  destruct (solo_step s i Hinv Hd Hf) as (s1 & E1 & D1 & K1 & Hor). pose proof (sc_step_inv _ _ _ Hinv E1) as I1. destruct Hor as [Hx|[Hlt Hf1]].
  - exists s1. split_and!; [eapply sc_runs_step; [exact E1|apply sc_runs_refl]|done|done|by rewrite <- Hx].
  - destruct (IH _ Hlt s1 eq_refl I1 D1 Hf1) as (s2 & R & I2 & D2 & K2). exists s2. split_and!; [by eapply sc_runs_step|done|done|].
    by rewrite K2, K1, list_insert_insert_eq.
Qed.

Lemma min_ticket n l : (∀ k, k ∈ l → 0 < n k) → l ≠ [] → ∃ i, i ∈ l ∧ ∀ j, j ∈ l → j ≠ i → ahead n i j.
Proof.
  induction l as [|a l IH]; intros Hpos Hne; [done|]. destruct l as [|b l]; [exists a; split; [left|intros j Hj]; by apply list_elem_of_singleton in Hj|].
  destruct IH as (i & Hi & Hmin); [intros k Hk; apply Hpos; by right|done|]. pose proof (Hpos a ltac:(left)). pose proof (Hpos i ltac:(by right)).
  destruct (decide (n a < n i ∨ (n a = n i ∧ (a < i)%nat))) as [Ha|Ha].
  - exists a. split; [left|]. intros j Hj Hja. apply elem_of_cons in Hj as [->|Hj]; [done|]. pose proof (Hpos j ltac:(by right)).
    destruct (decide (j = i)) as [->|Hji]; [unfold ahead; lia|]. specialize (Hmin j Hj Hji). unfold ahead in *. lia.
  - exists i. split; [by right|]. intros j Hj Hji. apply elem_of_cons in Hj as [->|Hj]; [unfold ahead; lia|by apply Hmin].
Qed.

Lemma frontmost_exists s : sc_inv s → no_doors s → ¬ finished s → ∃ i, frontmost s i.
Proof.
  intros Hinv Hd Hnf. destruct (si_len _ Hinv) as (_ & _ & L3). set (l := filter (λ k, has_ticket (at_pc s k) = true) (seq 0 NUM_THREADS)).
  assert (∀ k, k ∈ l ↔ has_ticket (at_pc s k) = true ∧ (k < NUM_THREADS)%nat) as Hl by (intros k; unfold l; rewrite list_elem_of_filter, elem_of_seq; intuition lia).
  destruct (min_ticket (tickets s) l) as (i & Hi & Hmin).
  - intros k [Hk Hlt]%Hl. destruct (ti_own _ _ _ (si_tickets _ Hinv) k Hlt) as (_ & Hn & _). by rewrite Hk in Hn.
  - intros El. apply Hnf. unfold finished. apply Forall_lookup. intros k p Hp. pose proof (nth_Some _ _ _ Exited Hp) as Ep. pose proof (lookup_lt_Some _ _ _ Hp) as Hlt.
    destruct (has_ticket p) eqn:Et; [exfalso; assert (k ∈ l) as Hkl by (apply Hl; unfold at_pc; rewrite Ep; split; [done|lia]); rewrite El in Hkl; by apply elem_of_nil in Hkl|].
    specialize (Hd k). unfold at_pc in Hd. rewrite Ep in Hd. destruct p; cbn [door_rank has_ticket] in *; done || lia.
  - exists i. apply Hl in Hi as [Hi1 Hi2]. split_and!; [done|done|]. intros j Hj Hji. destruct (has_ticket (at_pc s j)) eqn:Et; [by apply Hmin; [apply Hl|]|].
    left. destruct (ti_own _ _ _ (si_tickets _ Hinv) j Hj) as (_ & Hn & _). by rewrite Et in Hn.
Qed.

Definition staying (p : pc) : nat := if has_ticket p then 1 else 0.

Lemma all_exit s : sc_inv s → no_doors s → ∃ s', sc_runs s s' ∧ finished s'.
Proof.
  remember (sum_list_with staying (sc_pcs s)) as r eqn:Er. revert s Er. induction (lt_wf r) as [r _ IH]. intros s -> Hinv Hd.
  destruct (decide (Forall (λ p, has_ticket p = false) (sc_pcs s))) as [Hall|Hex].
  { exists s. split; [apply sc_runs_refl|]. apply Forall_lookup. intros k p Hp. pose proof (Hd k) as Hk. unfold at_pc in Hk. rewrite (nth_Some _ _ _ Exited Hp) in Hk.
    eapply Forall_lookup_1 in Hall; [|exact Hp]. destruct p; cbn [door_rank has_ticket] in *; done || lia. }
  destruct (frontmost_exists s Hinv Hd) as [i Hf]; [intros Hfin; apply Hex; eapply Forall_impl; [exact Hfin|]; by intros p ->|].
  destruct (solo_exits s i Hinv Hd Hf) as (s1 & R1 & I1 & D1 & K1). destruct Hf as (Hi & Hti & _). destruct (si_len _ Hinv) as (_ & _ & L3).
  destruct (lookup_lt_is_Some_2 (sc_pcs s) i ltac:(lia)) as [p Hp]. unfold at_pc in Hti. rewrite (nth_Some _ _ _ Exited Hp) in Hti.
  destruct (IH (sum_list_with staying (sc_pcs s1))) with (s := s1) as (s2 & R2 & F2); [|done|done|done|].
  { pose proof (sum_insert staying (sc_pcs s) i p Exited Hp) as Hs. rewrite K1. unfold staying at 2 4 in Hs. rewrite Hti in Hs. cbn in Hs. lia. }
  exists s2. split; [by eapply sc_runs_trans|done].
Qed.

(** ** Two threads whose stores wait *)

Fixpoint tso_run (ts : list (bool * nat)) (s : tso_state) : option tso_state :=
  match ts with [] => Some s | (f, t) :: ts' => match tso_step f t s with Some s' => tso_run ts' s' | None => None end end.

Lemma tso_run_reachable ts s s' : tso_reachable s → tso_run ts s = Some s' → tso_reachable s'.
Proof.
  revert s. induction ts as [|[f t] ts IH]; intros s Hs; cbn [tso_run]; [by intros [= <-]|].
  destruct (tso_step f t s) as [s1|] eqn:E; [|done]. apply IH. by eapply tso_next.
Qed.

(** Both threads run up to the critical section, and no store reaches memory. *)
Definition overlap : list (bool * nat) := replicate 37 (false, 0%nat) ++ replicate 37 (false, 1%nat).

(** ** Claims *)

(** C12: the bakery lock over a memory in which stores are seen at once: in every state that
    any interleaving of the ten threads reaches, at most one thread is in the critical
    section, no ticket exceeds the number of threads, so that none overflows, and when all
    threads have exited the shared counter is the number of all increments.  The two reads
    of an element in [max], between which the element may change, do no harm. *)
Theorem bakery_excludes s : sc_reachable s →
  (∀ i j p q, sc_pcs s !! i = Some p → sc_pcs s !! j = Some q → critical p = true → critical q = true → i = j) ∧
  Forall (λ x, 0 ≤ x ≤ Z.of_nat NUM_THREADS) (number (sc_mem s)) ∧
  (finished s → shared_resource (sc_mem s) = Z.of_nat (NUM_THREADS * NUM_ITERS)).
Proof.
  intros Hr. pose proof (sc_reachable_inv s Hr) as Hinv. destruct (tickets_few s Hinv) as [Hf _]. destruct Hinv as [(L1 & L2 & L3) Ht Hs Hsh _]. split_and!.
  - intros i j p q Hi Hj Ci Cj. apply (nth_Some _ _ _ Exited) in Hi as Ei. apply (nth_Some _ _ _ Exited) in Hj as Ej.
    apply lookup_lt_Some in Hi, Hj. eapply ahead_both; [exact Ht|lia|lia|by unfold at_pc; rewrite Ei|by unfold at_pc; rewrite Ej].
  - apply Forall_lookup. intros i x Hx. apply (nth_Some _ _ _ 0) in Hx as <-. destruct (Hs i) as [Hb _]. unfold tickets in Hb. unfold NUM_THREADS. lia.
  - intros Hd. apply finished_count; [|done]. by apply sc_reachable_inv.
Qed.

(** C29: the bakery lock cannot deadlock: from every state that an interleaving reaches there
    is a continuation after which all threads have exited, with all increments counted. *)
Theorem bakery_completes s : sc_reachable s →
  ∃ ts s', sc_run ts s = Some s' ∧ finished s' ∧ shared_resource (sc_mem s') = Z.of_nat (NUM_THREADS * NUM_ITERS).
Proof.
  intros Hr. destruct (doors_close s (sc_reachable_inv s Hr)) as (s1 & R1 & I1 & D1). destruct (all_exit s1 I1 D1) as (s2 & R2 & F2).
  destruct (sc_runs_trans _ _ _ R1 R2) as [ts Hts]. exists ts, s2. split_and!; [done|done|].
  apply finished_count; [|done]. apply sc_reachable_inv. by eapply sc_run_reachable.
Qed.


(** ** Round robin *)

(** Thread [t] takes a step if it has one. *)
Definition sc_try (s : sc_state) (t : nat) : sc_state := default s (sc_step t s).
Definition round_robin (rounds : nat) : sc_state := foldl sc_try sc_start (concat (replicate rounds (seq 0 NUM_THREADS))).

Lemma sc_tries_reachable ts s : sc_reachable s → sc_reachable (foldl sc_try s ts).
Proof.
  revert s. induction ts as [|t ts IH]; intros s Hs; [done|]. cbn [foldl]. apply IH. unfold sc_try. destruct (sc_step t s) eqn:E; [by eapply sc_next|done].
Qed.

Lemma round_robin_reachable n : sc_reachable (round_robin n).
Proof. apply sc_tries_reachable, sc_initial. Qed.

Lemma round_robin_pcs : sc_pcs (round_robin 600) = replicate 10 Exited.
Proof. by vm_compute. Qed.
Lemma round_robin_tickets : number (sc_mem (round_robin 20)) = replicate 10 1.
Proof. by vm_compute. Qed.

Lemma bakery_excludes_witness : sc_reachable (round_robin 600) ∧ finished (round_robin 600) ∧ shared_resource (sc_mem (round_robin 600)) = 100.
Proof.
  destruct (bakery_excludes _ (round_robin_reachable 600)) as (_ & _ & Hc). assert (finished (round_robin 600)) as Hf.
  { unfold finished. rewrite round_robin_pcs. by apply Forall_replicate. }
  split; [apply round_robin_reachable|]. split; [exact Hf|exact (Hc Hf)].
Defined.

(** All threads hold a ticket. *)
Lemma bakery_completes_witness : number (sc_mem (round_robin 20)) = replicate 10 1 ∧ ∃ ts s', sc_run ts (round_robin 20) = Some s' ∧ shared_resource (sc_mem s') = 100.
Proof.
  split; [exact round_robin_tickets|]. destruct (bakery_completes _ (round_robin_reachable 20)) as (ts & s' & H1 & _ & H3). exists ts, s'. split; [exact H1|exact H3].
Defined.
