(* ===== verification/Umalloc.v ===== *)
(** * umalloc.c: the allocator of user programs

    The allocator of Kernighan and Ritchie.  The free blocks are linked in a circle in order
    of address, by headers that hold the address of the next block and the size in units of
    a header; the static header [base] is a block of size 0.  A free block is merged with its
    neighbours; a request is taken from the first block that is large enough. *)

From S2P Require Import Prelude Layout State.

(** [union header]: [s.ptr] at offset 0, [s.size] at offset 4. *)
Definition sizeof_Header : Z := 8.

(** The memory of the process, the allocator's variable, and the end of the process.
    [grants] says what the calls of [sbrk] to come will do: fail, or grow the process
    after others have grown it by some amount. *)
Record uheap := mkUheap { um : memory; freep : Z; ubrk : Z; grants : list (option Z) }.
#[export] Instance eta_uheap : Settable uheap := λ r, mkUheap (um r) (freep r) (ubrk r) (grants r).

Definition ld_ptr (p : Z) : M uheap Z := gets (λ s, load32 (um s) p).
Definition ld_size (p : Z) : M uheap Z := gets (λ s, load32 (um s) (p + 4)).
Definition st_ptr (p v : Z) : M uheap unit := modify (λ s, s <| um ::= λ m, store32 m p v |>).
Definition st_size (p v : Z) : M uheap unit := modify (λ s, s <| um ::= λ m, store32 m (p + 4) v |>).

(** [p + n] for a pointer to headers. *)
Definition hdr_add (p n : Z) : Z := u32 (p + sizeof_Header * n).

(** The system call: the old end of the process, or -1. *)
Definition sbrk (n : Z) : M uheap Z := λ s,
  match grants s with
  | Some gap :: gs => Ok (ubrk s + gap) (s <| ubrk := ubrk s + gap + s32 n |> <| grants := gs |>)
  | None :: gs => Ok (u32 (-1)) (s <| grants := gs |>)
  | [] => Ok (u32 (-1)) s
  end.

(** The block after which [bp] belongs. *)
Fixpoint free_search (fuel : nat) (bp p : Z) : M uheap Z :=
  match fuel with
  | O => out_of_fuel
  | S fuel' =>
      next ← ld_ptr p;
      if (p <? bp) && (bp <? next) then mret p else
      if (next <=? p) && ((p <? bp) || (bp <? next)) then mret p else
      free_search fuel' bp next
  end.

Definition free (fuel : nat) (ap : Z) : M uheap unit :=
  let bp := hdr_add ap (-1) in
  p ← gets freep;
  p ← free_search fuel bp p;
  size ← ld_size bp;
  next ← ld_ptr p;
  _ ← (if hdr_add bp size =? next then
         nsize ← ld_size next;
         _ ← st_size bp (u32 (size + nsize));
         next2 ← ld_ptr next;
         st_ptr bp next2
       else st_ptr bp next);
  psize ← ld_size p;
  _ ← (if hdr_add p psize =? bp then
         bsize ← ld_size bp;
         _ ← st_size p (u32 (psize + bsize));
         bnext ← ld_ptr bp;
         st_ptr p bnext
       else st_ptr p bp);
  modify (λ s, s <| freep := p |>).

Definition morecore (fuel : nat) (nu : Z) : M uheap Z :=
  let nu := if nu <? 4096 then 4096 else nu in
  p ← sbrk (u32 (nu * sizeof_Header));
  if p =? u32 (-1) then mret 0 else
  _ ← st_size p nu;
  _ ← free fuel (hdr_add p 1);
  gets freep.

(** The block at [p], after [prevp], is large enough. *)
Definition take_block (nunits prevp p size : Z) : M uheap Z :=
  p ← (if size =? nunits then
         next ← ld_ptr p;
         _ ← st_ptr prevp next;
         mret p
       else
         _ ← st_size p (u32 (size - nunits));
         size ← ld_size p;
         let p := hdr_add p size in
         _ ← st_size p nunits;
         mret p);
  _ ← modify (λ s, s <| freep := prevp |>);
  mret (hdr_add p 1).

Fixpoint malloc_loop (fuel : nat) (nunits prevp p : Z) : M uheap Z :=
  match fuel with
  | O => out_of_fuel
  | S fuel' =>
      size ← ld_size p;
      if nunits <=? size then take_block nunits prevp p size else
      f ← gets freep;
      if p =? f then
        p ← morecore fuel' nunits;
        if p =? 0 then mret 0 else
        next ← ld_ptr p;
        malloc_loop fuel' nunits p next
      else
        next ← ld_ptr p;
        malloc_loop fuel' nunits p next
  end.

(** [base] is the address of the static header. *)
Definition malloc (fuel : nat) (base nbytes : Z) : M uheap Z :=
  let nunits := u32 (u32 (nbytes + sizeof_Header - 1) / sizeof_Header + 1) in
  f ← gets freep;
  prevp ← (if f =? 0 then
             _ ← st_ptr base base;
             _ ← modify (λ s, s <| freep := base |>);
             _ ← st_size base 0;
             mret base
           else mret f);
  p ← ld_ptr prevp;
  malloc_loop fuel nunits prevp p.
