(* ===== verification/UmallocProps.v ===== *)
(** * The allocator of user programs: properties of umalloc.c

    [heap_rep] relates the memory to the list of free blocks in order of address, no two of
    them adjacent, and to the blocks that are in use; blocks never overlap.  [malloc] and
    [free] are correct operations on it, and a program sees independent arrays. *)

From Stdlib Require Import Sorted.
From S2P Require Import Prelude Layout State Str Umalloc.

(** ** Blocks *)

Abbreviation block := (Z * Z)%type.

(** Address [x] is in block [b]: its header or what follows it. *)
Definition in_block (b : block) (x : Z) : Prop := b.1 ≤ x < b.1 + 8 * b.2.
Definition apart (b c : block) : Prop := b.1 + 8 * b.2 ≤ c.1 ∨ c.1 + 8 * c.2 ≤ b.1.
(** [b] is before [c] and does not touch it. *)
Definition before (b c : block) : Prop := b.1 + 8 * b.2 < c.1.

Definition hd_addr (F : list block) (e : Z) : Z := match F with [] => e | b :: _ => b.1 end.

(** The blocks [F] are linked one to the next, the last one to [e]. *)
Fixpoint links (m : memory) (F : list block) (e : Z) : Prop :=
  match F with
  | [] => True
  | b :: F' => load32 m b.1 = hd_addr F' e ∧ load32 m (b.1 + 4) = b.2 ∧ links m F' e
  end.

Lemma hd_addr_app F1 F2 e : hd_addr (F1 ++ F2) e = hd_addr F1 (hd_addr F2 e).
Proof. by destruct F1. Qed.

Lemma links_app m F1 F2 e : links m (F1 ++ F2) e ↔ links m F1 (hd_addr F2 e) ∧ links m F2 e.
Proof. induction F1 as [|b F1 IH]; cbn; [tauto|]. rewrite IH, hd_addr_app. tauto. Qed.

(** A store away from the headers. *)
Lemma links_ext m m' F e : (∀ b x, b ∈ F → b.1 ≤ x < b.1 + 8 → m' x = m x) → links m F e → links m' F e.
Proof.
  induction F as [|b F IH]; intros Hm; cbn; [done|]. intros (H1 & H2 & H3). split_and!.
  - rewrite <- H1. apply load32_ext. intros i Hi. apply (Hm b); [left|lia].
  - rewrite <- H2. apply load32_ext. intros i Hi. apply (Hm b); [left|lia].
  - apply IH; [|done]. intros c i Hc. apply Hm. by right.
Qed.

Lemma store32_out m a v x : x < a ∨ a + 4 ≤ x → store32 m a v x = m x.
Proof. intros Hx. apply fill_out. lia. Qed.

Lemma links_store m F e a v : (∀ b, b ∈ F → b.1 + 8 ≤ a ∨ a + 4 ≤ b.1) → links m F e → links (store32 m a v) F e.
Proof. intros Ha. apply links_ext. intros b x Hb Hx. apply store32_out. specialize (Ha b Hb). lia. Qed.

(** The link or the size of one block is changed. *)
Lemma links_change m F1 (b : block) F2 e a v : (∀ c, c ∈ F1 ++ F2 → c.1 + 8 ≤ b.1 ∨ b.1 + 8 ≤ c.1) → a = b.1 ∨ a = b.1 + 4 →
  links m F1 b.1 → links m F2 e → links (store32 m a v) F1 b.1 ∧ links (store32 m a v) F2 e.
Proof.
  intros Hc Ha H1 H2. split; apply links_store; try done; intros c Hin; specialize (Hc c ltac:(rewrite elem_of_app; auto)); lia.
Qed.

(** ** Order *)

Definition ordered (F : list block) : Prop := StronglySorted before F.

Lemma ordered_app F1 F2 : ordered (F1 ++ F2) ↔ ordered F1 ∧ ordered F2 ∧ ∀ b c, b ∈ F1 → c ∈ F2 → before b c.
Proof.
  unfold ordered. induction F1 as [|x F1 IH]; cbn.
  - split; [intros; split_and!; [constructor|done|by intros ?? ?%elem_of_nil]|tauto].
  - split.
    + intros [Hs Hx]%StronglySorted_inv. apply IH in Hs as (H1 & H2 & H3). rewrite Forall_app in Hx. destruct Hx as [Hx1 Hx2]. split_and!; [by constructor|done|].
      intros b c [->|Hb]%elem_of_cons Hc; [by eapply Forall_forall in Hx2|by apply H3].
    + intros ([H1 Hx]%StronglySorted_inv & H2 & H3). constructor; [apply IH; split_and!; [done|done|intros; apply H3; [by right|done]]|].
      apply Forall_app. split; [done|]. apply Forall_forall. intros c Hc. apply H3; [left|done].
Qed.

Lemma ordered_cons b F : ordered (b :: F) ↔ (∀ c, c ∈ F → before b c) ∧ ordered F.
Proof. unfold ordered. split; [intros [H1 H2]%StronglySorted_inv; rewrite Forall_forall in H2; done|]. intros [H1 H2]. constructor; [done|by apply Forall_forall]. Qed.

(** The place of [bp] in a list of blocks. *)
Lemma place_exists bp F : ∀ b : block, ordered (b :: F) → (∀ g, g ∈ F → 0 ≤ g.2 ∧ g.1 ≠ bp) → b.1 < bp →
  ∃ F1 p F2, b :: F = F1 ++ p :: F2 ∧ p.1 < bp ∧ ∀ c, c ∈ F2 → bp < c.1.
Proof.
  induction F as [|g F IH]; intros b Ho Hp Hb; [by exists [], b, []; split_and!; [done|done|intros c Hc%elem_of_nil]|].
  apply ordered_cons in Ho as [H1 H2]. destruct (Z.lt_trichotomy g.1 bp) as [Hlt|[Heq|Hgt]].
  - destruct (IH g H2) as (F1 & p & F2 & E & Hp1 & Hp2); [intros x Hx; apply Hp; by right|done|]. exists (b :: F1), p, F2. by rewrite E.
  - exfalso. by apply (Hp g); [left|].
  - exists [], b, (g :: F). split_and!; [done|done|]. apply ordered_cons in H2 as [H2 _]. intros c [->|Hc]%elem_of_cons; [done|].
    specialize (H2 c Hc). destruct (Hp g ltac:(left)). unfold before in H2. lia.
Qed.

(** ** The search of [free] *)

Section Search.
Variables (s : uheap) (base bp : Z).

(** From a block at or before the place, the search goes up to it. *)
Lemma search_up F2 (p : block) : ∀ F1 fuel, links (um s) (F1 ++ p :: F2) base → ordered (F1 ++ p :: F2) → (∀ b, b ∈ F1 ++ p :: F2 → 0 ≤ b.2 ∧ base ≤ b.1) →
  p.1 < bp → (∀ c, c ∈ F2 → bp < c.1) → (length F1 < fuel)%nat →
  free_search fuel bp (hd_addr (F1 ++ p :: F2) base) s = Ok p.1 s.
Proof.
  intros F1. induction F1 as [|q F1 IH]; intros fuel Hl Ho Hb Hp HF2 Hf; (destruct fuel as [|fuel]; [simpl in Hf; lia|]); cbn [free_search app hd_addr].
  - destruct Hl as (Hl & _). unfold ld_ptr. rewrite bind_gets, Hl. destruct F2 as [|c F2]; cbn [hd_addr].
    + destruct (Hb p ltac:(left)) as [_ Hbp]. rewrite (proj2 (Z.ltb_lt p.1 bp)) by done. rewrite (proj2 (Z.leb_le base p.1)) by done. cbn [andb orb]. by destruct (bp <? base).
    + specialize (HF2 c ltac:(left)). rewrite (proj2 (Z.ltb_lt p.1 bp)), (proj2 (Z.ltb_lt bp c.1)) by done. done.
  - destruct Hl as (Hl & _ & Hl'). apply ordered_cons in Ho as [Hq Ho]. unfold ld_ptr. rewrite bind_gets, Hl.
    assert (∃ r, hd_addr (F1 ++ p :: F2) base = r.1 ∧ r ∈ F1 ++ p :: F2 ∧ r.1 ≤ p.1) as (r & Er & Hr & Hrp).
    { destruct F1 as [|r F1]; [exists p; split_and!; [done|left|lia]|]. exists r. split_and!; [done|left|]. apply ordered_cons in Ho as [Ho _].
      specialize (Ho p ltac:(rewrite elem_of_app; right; left)). destruct (Hb r ltac:(right; left)). unfold before in Ho. lia. }
    specialize (Hq r Hr). destruct (Hb q ltac:(left)). unfold before in Hq. rewrite Er.
    rewrite (proj2 (Z.ltb_ge bp r.1)), andb_false_r, (proj2 (Z.leb_gt r.1 q.1)) by lia. cbn [andb].
    rewrite <- Er. apply IH; [done|done|intros b Hin; apply Hb; by right|done|done|simpl in Hf; lia].
Qed.

(** From a block after the place, the search goes around. *)
Lemma search_round F p F2 : F = (base, 0) :: F2 → links (um s) F base → ordered F → (∀ b, b ∈ F → 0 ≤ b.2 ∧ base ≤ b.1) →
  base < bp → ∀ F4 F3 (q : block) fuel, F = F3 ++ q :: F4 → bp < q.1 →
  (∀ fuel', (length F < fuel')%nat → free_search fuel' bp base s = Ok p s) → (length F + length F4 + 1 < fuel)%nat →
  free_search fuel bp q.1 s = Ok p s.
Proof.
  intros EF Hl Ho Hb Hbase F4. induction F4 as [|r F4 IH]; intros F3 q fuel E Hq Hup Hf; (destruct fuel as [|fuel]; [lia|]); cbn [free_search].
  - rewrite E in Hl. apply links_app in Hl as (_ & Hl & _). unfold ld_ptr. rewrite bind_gets, Hl. cbn [hd_addr].
    rewrite (proj2 (Z.ltb_ge q.1 bp)), (proj2 (Z.ltb_ge bp base)) by lia. cbn [andb orb]. rewrite andb_false_r. apply Hup. simpl in Hf. lia.
  - rewrite E in Hl, Ho. apply links_app in Hl as (_ & Hl & _). apply ordered_app in Ho as (_ & Ho & _). apply ordered_cons in Ho as [Ho _].
    specialize (Ho r ltac:(left)). destruct (Hb q) as [Hq2 _]; [rewrite E, elem_of_app; right; left|]. unfold before in Ho.
    unfold ld_ptr. rewrite bind_gets, Hl. cbn [hd_addr]. rewrite (proj2 (Z.ltb_ge q.1 bp)), (proj2 (Z.leb_gt r.1 q.1)) by lia. cbn [andb].
    apply (IH (F3 ++ [q])); [by rewrite <- app_assoc|lia|done|simpl in Hf; lia].
Qed.
End Search.

(** ** The heap *)

Section Heap.
Variable (base : Z).

Definition in_heap (s : uheap) (b : block) : Prop := 0 < b.2 ∧ base + 8 ≤ b.1 ∧ b.1 + 8 * b.2 ≤ ubrk s.

(** [G] are the free blocks, [L] the sizes of those in use, by address of the header. *)
Record heap_rep (s : uheap) (G : list block) (L : gmap Z Z) : Prop := mkHeapRep {
  hr_base : 0 < base ∧ base + 8 ≤ ubrk s ∧ ubrk s ≤ two31;
  hr_links : links (um s) ((base, 0) :: G) base;
  hr_ordered : ordered ((base, 0) :: G);
  hr_free : ∀ g, g ∈ G → in_heap s g;
  hr_freep : ∃ b, b ∈ (base, 0) :: G ∧ freep s = b.1;
  hr_live : ∀ a n, L !! a = Some n → in_heap s (a, n) ∧ load32 (um s) (a + 4) = n ∧ ∀ g, g ∈ G → apart (a, n) g;
  hr_apart : ∀ a n a' n', L !! a = Some n → L !! a' = Some n' → a ≠ a' → apart (a, n) (a', n')
}.

(** Nothing in a block in use has changed. *)
Definition keeps (L : gmap Z Z) (m m' : memory) : Prop := ∀ a n x, L !! a = Some n → in_block (a, n) x → m' x = m x.

Section Rep.
Variables (s : uheap) (G : list block) (L : gmap Z Z).
Hypothesis (Hrep : heap_rep s G L).
Let F := (base, 0) :: G.

Lemma rep_block b : b ∈ F → 0 ≤ b.2 ∧ base ≤ b.1 ∧ b.1 + 8 ≤ ubrk s ∧ b.1 + 8 * b.2 ≤ ubrk s.
Proof.
  destruct Hrep as [(B1 & B2 & _) _ _ Hf _ _ _]. intros [->|Hb]%elem_of_cons; [cbn; lia|]. destruct (Hf b Hb) as (? & ? & ?). lia.
Qed.

(** Headers of different free blocks do not overlap. *)
Lemma rep_headers F1 p F2 : F = F1 ++ p :: F2 → (∀ b, b ∈ F1 → b.1 + 8 ≤ p.1) ∧ (∀ c, c ∈ F2 → p.1 + 8 ≤ c.1).
Proof.
  intros E. destruct Hrep as [(B1 & B2 & _) _ Ho Hf _ _ _]. fold F in Ho. rewrite E in Ho. apply ordered_app in Ho as (_ & Ho & Hc). apply ordered_cons in Ho as [Hp _].
  assert (∀ b c, b ∈ F → c ∈ G → before b c → b.1 + 8 ≤ c.1) as Hbc.
  { intros b c [->|Hb]%elem_of_cons Hcg Hbe; [destruct (Hf c Hcg) as (_ & ? & _); cbn; lia|]. destruct (Hf b Hb) as (? & _). unfold before in Hbe. lia. }
  assert (∀ c F0, F = F0 ++ c → F0 ≠ [] → ∀ x, x ∈ c → x ∈ G) as Htail.
  { intros c [|f0 F0] E0 Hne x Hx; [done|]. injection E0 as _ ->. apply elem_of_app. by right. }
  split.
  - intros b Hb. apply Hbc; [rewrite E; apply elem_of_app; by left| |by apply Hc; [|left]]. apply (Htail (p :: F2) F1 E); [by intros ->; apply elem_of_nil in Hb|left].
  - intros c Hc2. apply Hbc; [rewrite E; apply elem_of_app; right; left| |by apply Hp].
    apply (Htail F2 (F1 ++ [p])); [by rewrite <- app_assoc|by destruct F1|done].
Qed.

(** A block in use is away from the free ones. *)
Lemma rep_apart a n b : L !! a = Some n → b ∈ F → (b.1 + 8 ≤ a ∧ b.1 + 8 * b.2 ≤ a) ∨ a + 8 * n ≤ b.1.
Proof.
  destruct Hrep as [(B1 & B2 & _) _ _ Hf _ Hl _]. intros Ha. destruct (Hl a n Ha) as ((H1 & H2 & H3) & _ & Hap). cbn in H1, H2, H3.
  intros [->|Hb]%elem_of_cons; [left; cbn; lia|]. specialize (Hap b Hb). destruct (Hf b Hb) as (H4 & _). unfold apart in Hap. cbn in Hap. lia.
Qed.

(** The search finds the place of a block in use. *)
Lemma rep_search fuel bp n : L !! bp = Some n → (2 * length F + 2 < fuel)%nat →
  ∃ F1 p F2, F = F1 ++ p :: F2 ∧ p.1 + 8 * p.2 ≤ bp ∧ p.1 + 8 ≤ bp ∧ (∀ c, c ∈ F2 → bp + 8 * n ≤ c.1) ∧ free_search fuel bp (freep s) s = Ok p.1 s.
Proof.
  intros Hbp Hfuel. destruct (hr_live _ _ _ Hrep bp n Hbp) as ((H1 & H2 & H3) & _ & _). cbn in H1, H2, H3.
  assert (∀ b, b ∈ F → 0 ≤ b.2 ∧ base ≤ b.1) as Hb by (intros b Hb; destruct (rep_block b Hb) as (? & ? & _); done).
  destruct (place_exists bp G (base, 0)) as (F1 & p & F2 & E & Hp & HF2); [apply (hr_ordered _ _ _ Hrep)| |cbn; lia|].
  { intros g Hg. split; [apply Hb; by right|]. intros <-. destruct (rep_apart _ _ g Hbp ltac:(by right)); [lia|]. lia. }
  fold F in E. assert (∀ fuel', (length F < fuel')%nat → free_search fuel' bp base s = Ok p.1 s) as Hup.
  { intros fuel' Hf'. pose proof (search_up s base bp F2 p F1 fuel') as Hs. rewrite <- E in Hs.
    apply Hs; [apply (hr_links _ _ _ Hrep)|apply (hr_ordered _ _ _ Hrep)|done|done|done|rewrite E, length_app in Hf'; simpl in Hf'; lia]. }
  exists F1, p, F2. split_and!; [done|..].
  - destruct (rep_apart _ _ p Hbp ltac:(rewrite E, elem_of_app; right; left)); lia.
  - destruct (rep_apart _ _ p Hbp ltac:(rewrite E, elem_of_app; right; left)); lia.
  - intros c Hc. specialize (HF2 c Hc). destruct (rep_apart _ _ c Hbp ltac:(rewrite E, elem_of_app; right; by right)); lia.
  - destruct (hr_freep _ _ _ Hrep) as (f & Hf & ->). fold F in Hf. rewrite E in Hf. apply elem_of_app in Hf as [Hf|[->|Hf]%elem_of_cons].
    + apply list_elem_of_split in Hf as (F0 & F1' & ->). rewrite <- app_assoc in E. cbn [app] in E.
      pose proof (search_up s base bp F2 p (f :: F1') fuel) as Hs. cbn [app hd_addr] in Hs. pose proof (hr_links _ _ _ Hrep) as Hl. pose proof (hr_ordered _ _ _ Hrep) as Ho.
      fold F in Hl, Ho. rewrite E in Hl, Ho. apply links_app in Hl as [_ Hl]. apply ordered_app in Ho as (_ & Ho & _).
      apply Hs; [done|done| |done|done|rewrite E, length_app in Hfuel; simpl in *; rewrite length_app in Hfuel; simpl in Hfuel; lia].
      intros b Hin. apply Hb. rewrite E. apply elem_of_app. by right.
    + pose proof (search_up s base bp F2 p [] fuel) as Hs. cbn [app hd_addr] in Hs. pose proof (hr_links _ _ _ Hrep) as Hl. pose proof (hr_ordered _ _ _ Hrep) as Ho.
      fold F in Hl, Ho. rewrite E in Hl, Ho. apply links_app in Hl as [_ Hl]. apply ordered_app in Ho as (_ & Ho & _).
      apply Hs; [done|done| |done|done|simpl; lia]. intros b Hin. apply Hb. rewrite E. apply elem_of_app. by right.
    + pose proof (HF2 f Hf) as Hfb. apply list_elem_of_split in Hf as (F3 & F4 & ->).
      apply (search_round s base bp F p.1 G eq_refl (hr_links _ _ _ Hrep) (hr_ordered _ _ _ Hrep) Hb ltac:(lia) F4 (F1 ++ p :: F3) f fuel); [by rewrite E, <- app_assoc|done|done|].
      rewrite E, length_app in Hfuel |- *. simpl in *. rewrite length_app in *. simpl in *. lia.
Qed.

(** *** Joining a block that is given back *)

Section Join.
Variables (bp n : Z) (F1 : list block) (p : block) (F2 : list block).
Hypothesis (Hbp : L !! bp = Some n) (EF : F = F1 ++ p :: F2) (Hp : p.1 + 8 * p.2 ≤ bp ∧ p.1 + 8 ≤ bp) (HF2 : ∀ c, c ∈ F2 → bp + 8 * n ≤ c.1).

Definition join_next : M uheap unit :=
  size ← ld_size bp;
  next ← ld_ptr p.1;
  if hdr_add bp size =? next then
    nsize ← ld_size next;
    _ ← st_size bp (u32 (size + nsize));
    next2 ← ld_ptr next;
    st_ptr bp next2
  else st_ptr bp next.

(** [bp] has been joined to what follows: it has size [nb] and is followed by [F2']. *)
Definition joined_next (nb : Z) (F2' : list block) : Prop :=
  (F2' = F2 ∧ nb = n ∧ ∀ c, c ∈ F2 → bp + 8 * n < c.1) ∨ ∃ c, F2 = c :: F2' ∧ nb = n + c.2 ∧ bp + 8 * n = c.1.

Lemma bp_bounds : 0 < n ∧ base + 8 ≤ bp ∧ bp + 8 * n ≤ ubrk s ∧ ubrk s ≤ two31 ∧ 0 < base ∧ load32 (um s) (bp + 4) = n.
Proof. destruct (hr_live _ _ _ Hrep bp n Hbp) as ((H1 & H2 & H3) & H4 & _). destruct (hr_base _ _ _ Hrep) as (B1 & _ & B3). done. Qed.

Lemma hdr_add_small a k : 0 ≤ a + 8 * k < two32 → hdr_add a k = a + 8 * k.
Proof. intros. unfold hdr_add, sizeof_Header. by apply u32_id. Qed.

Lemma join_next_spec : ∃ m nb F2', join_next s = Ok tt (s <| um := m |>) ∧ joined_next nb F2' ∧
  (∀ x, x < bp ∨ bp + 8 ≤ x → m x = um s x) ∧ load32 m bp = hd_addr F2' base ∧ load32 m (bp + 4) = nb.
Proof.
  destruct bp_bounds as (H1 & H2 & H3 & H4 & H5 & H6). pose proof (hr_links _ _ _ Hrep) as Hl. fold F in Hl. rewrite EF in Hl. apply links_app in Hl as (_ & Hl1 & Hl2 & Hl).
  unfold two31 in *. assert (u32 (hd_addr F2 base) = hd_addr F2 base) as Eu.
  { apply u32_id. unfold is_u32, two32. destruct F2 as [|c F3]; cbn [hd_addr]; [lia|]. destruct (rep_block c) as (_ & ? & ? & _); [rewrite EF, elem_of_app; right; right; left|]. lia. }
  unfold join_next, ld_size, ld_ptr, st_size, st_ptr. rewrite !bind_gets, H6, Hl1, hdr_add_small by (unfold two32; lia).
  destruct (Z.eqb_spec (bp + 8 * n) (hd_addr F2 base)) as [E|E].
  - unfold joined_next. destruct F2 as [|c F3] eqn:E2; cbn [hd_addr] in E |- *; [lia|]. destruct Hl as (Hc1 & Hc2 & Hl). destruct (rep_block c) as (C1 & C2 & C3 & C4); [rewrite EF, elem_of_app; right; right; left|].
    rewrite bind_gets, Hc2, bind_modify, bind_gets. cbn [um].
    set (m1 := store32 (um s) (bp + 4) (u32 (n + c.2))). set (v := load32 _ _).
    assert (v = hd_addr F3 base) as Ev. { unfold v. rewrite <- Hc1. apply load32_store32_ne. lia. }
    assert (u32 v = v) as Evu. { apply u32_id. apply load32_range. }
    exists (store32 m1 bp v), (n + c.2), F3. split_and!; [done|right; by exists c|..].
    + intros x Hx. unfold m1. rewrite !store32_out by lia. done.
    + by rewrite load32_store32, Evu.
    + rewrite load32_store32_ne by lia. unfold m1. rewrite load32_store32, u32_idemp. apply u32_id. unfold is_u32, two32. lia.
  - exists (store32 (um s) bp (hd_addr F2 base)), n, F2. split_and!; [done|..].
    + left. split_and!; [done|done|]. intros c Hc. pose proof (HF2 c Hc). destruct F2 as [|c0 F3]; [by apply elem_of_nil in Hc|]. cbn [hd_addr] in E. apply elem_of_cons in Hc as [->|Hc]; [lia|].
      pose proof (hr_ordered _ _ _ Hrep) as Ho. fold F in Ho. rewrite EF in Ho. apply ordered_app in Ho as (_ & Ho & _). apply ordered_cons in Ho as [_ Ho]. apply ordered_cons in Ho as [Ho _].
      specialize (Ho c Hc). destruct (rep_block c0) as (C1 & _); [rewrite EF, elem_of_app; right; right; left|]. pose proof (HF2 c0 ltac:(left)). unfold before in Ho. lia.
    + intros x Hx. by rewrite store32_out by lia.
    + by rewrite load32_store32.
    + by rewrite load32_store32_ne by lia.
Qed.

Definition join_prev : M uheap unit :=
  psize ← ld_size p.1;
  if hdr_add p.1 psize =? bp then
    bsize ← ld_size bp;
    _ ← st_size p.1 (u32 (psize + bsize));
    bnext ← ld_ptr bp;
    st_ptr p.1 bnext
  else st_ptr p.1 bp.

(** The free list afterwards. *)
Definition joined (nb : Z) (F2' : list block) : list block :=
  if p.1 + 8 * p.2 =? bp then F1 ++ (p.1, p.2 + nb) :: F2' else F1 ++ p :: (bp, nb) :: F2'.

Lemma joined_next_facts nb F2' : joined_next nb F2' →
  n ≤ nb ∧ bp + 8 * nb ≤ ubrk s ∧ (∀ c, c ∈ F2' → c ∈ F2 ∧ bp + 8 * nb < c.1) ∧ ordered F2' ∧ links (um s) F2' base.
Proof.
  destruct bp_bounds as (H1 & H2 & H3 & H4 & H5 & H6). pose proof (hr_links _ _ _ Hrep) as Hl. pose proof (hr_ordered _ _ _ Hrep) as Ho. fold F in Hl, Ho. rewrite EF in Hl, Ho.
  apply links_app in Hl as (_ & _ & _ & Hl). apply ordered_app in Ho as (_ & Ho & _). apply ordered_cons in Ho as [_ Ho]. intros [(-> & -> & Hc)|(c & E & -> & Hc)].
  - split_and!; [lia|done| |done|done]. intros c Hin. auto.
  - assert (c ∈ F2) as Hin by (rewrite E; left). destruct (rep_block c) as (C1 & C2 & C3 & C4); [rewrite EF, elem_of_app; right; by right|]. rewrite E in Ho, Hl. apply ordered_cons in Ho as [Ho1 Ho2].
    destruct Hl as (_ & _ & Hl). split_and!; [lia|lia| |done|done]. intros d Hd. rewrite E. split; [by right|]. specialize (Ho1 d Hd). unfold before in Ho1. lia.
Qed.

Lemma join_prev_spec m nb F2' : joined_next nb F2' → (∀ x, x < bp ∨ bp + 8 ≤ x → m x = um s x) → load32 m bp = hd_addr F2' base → load32 m (bp + 4) = nb →
  ∃ m', join_prev (s <| um := m |>) = Ok tt (s <| um := m' |>) ∧ links m' (joined nb F2') base ∧ ∀ x, x < p.1 ∨ p.1 + 8 ≤ x → m' x = m x.
Proof.
  intros Hj Hm Hb1 Hb2. destruct (joined_next_facts nb F2' Hj) as (J1 & J2 & J3 & J4 & J5). destruct bp_bounds as (H1 & H2 & H3 & H4 & H5 & H6).
  destruct (rep_block p) as (P1 & P2 & P3 & P4); [rewrite EF, elem_of_app; right; left|]. destruct (rep_headers F1 p F2 EF) as [Hh1 Hh2]. unfold two31 in *.
  pose proof (hr_links _ _ _ Hrep) as Hl. fold F in Hl. rewrite EF in Hl. apply links_app in Hl as (HlF1 & _ & Hp2 & _). cbn [hd_addr] in HlF1.
  assert (links m F1 p.1 ∧ links m F2' base) as [HmF1 HmF2].
  { split; [eapply links_ext; [|exact HlF1]|eapply links_ext; [|exact J5]]; intros b x Hb Hx; apply Hm; [specialize (Hh1 b Hb); lia|]. destruct (J3 b Hb). lia. }
  assert (load32 m (p.1 + 4) = p.2) as Hmp by (rewrite <- Hp2; apply load32_ext; intros x Hx; apply Hm; lia).
  unfold join_prev, ld_size, ld_ptr, st_size, st_ptr, joined. rewrite bind_gets. cbn [um]. change (um (s <| um := m |>)) with m. rewrite Hmp, hdr_add_small by (unfold two32; lia).
  assert (∀ c, c ∈ F1 ++ F2' → c.1 + 8 ≤ p.1 ∨ p.1 + 8 ≤ c.1) as Hapart.
  { intros c [Hc|Hc]%elem_of_app; [left; by apply Hh1|right; apply Hh2; by apply J3]. }
  destruct (Z.eqb_spec (p.1 + 8 * p.2) bp) as [E|E].
  - rewrite bind_gets. change (um (s <| um := m |>)) with m. rewrite Hb2, bind_modify, bind_gets.
    set (m1 := store32 m (p.1 + 4) (u32 (p.2 + nb))). set (v := load32 _ _). assert (v = hd_addr F2' base) as Ev by (unfold v; rewrite <- Hb1; apply load32_store32_ne; lia).
    assert (u32 v = v) as Evu by (apply u32_id, load32_range). exists (store32 m1 p.1 v). split_and!; [done|..].
    + apply links_app. cbn [hd_addr links fst snd]. destruct (links_change m F1 p F2' base (p.1 + 4) (u32 (p.2 + nb)) Hapart ltac:(auto) HmF1 HmF2) as [L1 L2].
      destruct (links_change m1 F1 p F2' base p.1 v Hapart ltac:(auto) L1 L2) as [L3 L4]. split_and!; [done| |..|done].
      * by rewrite load32_store32, Evu.
      * rewrite load32_store32_ne by lia. unfold m1. rewrite load32_store32, u32_idemp. apply u32_id. unfold is_u32, two32. lia.
    + intros x Hx. unfold m1. by rewrite !store32_out by lia.
  - exists (store32 m p.1 bp). split_and!; [done|..].
    + apply links_app. cbn [hd_addr links fst snd]. destruct (links_change m F1 p F2' base p.1 bp Hapart ltac:(auto) HmF1 HmF2) as [L1 L2]. split_and!; [done| |..|done].
      * rewrite load32_store32. apply u32_id. unfold is_u32, two32. lia.
      * by rewrite load32_store32_ne by lia.
      * by rewrite load32_store32_ne by lia.
      * by rewrite load32_store32_ne by lia.
    + intros x Hx. by rewrite store32_out by lia.
Qed.

(** The list is ordered again, and covers what it did and [bp]. *)
Lemma joined_ordered nb F2' : joined_next nb F2' → ordered (joined nb F2').
Proof.
  intros Hj. destruct (joined_next_facts nb F2' Hj) as (J1 & J2 & J3 & J4 & J5). destruct bp_bounds as (H1 & _).
  pose proof (hr_ordered _ _ _ Hrep) as Ho. fold F in Ho. rewrite EF in Ho. apply ordered_app in Ho as (Ho1 & Ho & Ho3). apply ordered_cons in Ho as [Ho2 _].
  pose proof (λ b, Ho3 b p) as Hp1. unfold joined. unfold before in *. destruct (Z.eqb_spec (p.1 + 8 * p.2) bp) as [E|E].
  - apply ordered_app. split_and!; [done|apply ordered_cons; split; [|done]; intros c Hc; destruct (J3 c Hc); unfold before; cbn; lia|].
    intros b c Hb [->|Hc]%elem_of_cons; unfold before; [cbn; apply Hp1; [done|left]|]. apply Ho3; [done|right; by apply J3].
  - apply ordered_app. split_and!; [done|apply ordered_cons; split; [|apply ordered_cons; split; [|done]]|].
    + intros c [->|Hc]%elem_of_cons; unfold before; [cbn; lia|]. apply Ho2. by apply J3.
    + intros c Hc. unfold before. cbn. by apply J3.
    + intros b c Hb [->|[->|Hc]%elem_of_cons]%elem_of_cons; unfold before; [by apply Hp1; [|left]| |by apply Ho3; [|right; apply J3]].
      specialize (Hp1 b Hb ltac:(left)). destruct (rep_block p) as (P1 & _); [rewrite EF, elem_of_app; right; left|]. cbn. lia.
Qed.

Lemma joined_base nb F2' : ∃ G', joined nb F2' = (base, 0) :: G'.
Proof.
  destruct bp_bounds as (_ & H2 & _). unfold joined. destruct F1 as [|f F1']; cbn [app] in *; injection EF as E1 E2.
  - rewrite <- E1. cbn [fst snd]. rewrite (proj2 (Z.eqb_neq _ bp)) by lia. by eexists.
  - rewrite <- E1. destruct (_ =? bp); by eexists.
Qed.

(** Every block of the new list is an old one, or holds [bp] and its neighbours. *)
Lemma joined_block nb F2' g : joined_next nb F2' → g ∈ joined nb F2' →
  g ∈ F ∨ (g.1 = bp ∨ g.1 = p.1 ∧ p.1 + 8 * p.2 = bp) ∧ n ≤ g.2 ∧
          (g.1 + 8 * g.2 = bp + 8 * n ∨ ∃ c, c ∈ F ∧ c.1 = bp + 8 * n ∧ g.1 + 8 * g.2 = c.1 + 8 * c.2).
Proof.
  intros Hj Hg. destruct (joined_next_facts nb F2' Hj) as (J1 & _ & J3 & _).
  assert (g ∈ F1 ++ p :: F2' ∨ g.1 + 8 * g.2 = bp + 8 * nb ∧ n ≤ g.2 ∧ (g.1 = bp ∨ g.1 = p.1 ∧ p.1 + 8 * p.2 = bp)) as Hcases.
  { unfold joined in Hg. destruct (rep_block p) as (P1 & _); [rewrite EF, elem_of_app; right; left|]. destruct (Z.eqb_spec (p.1 + 8 * p.2) bp) as [E|E].
    - rewrite elem_of_app, elem_of_cons in Hg. destruct Hg as [Hg|[->|Hg]]; [left; rewrite elem_of_app; auto| |left; rewrite elem_of_app, elem_of_cons; auto].
      right. cbn. split_and!; [lia|lia|auto].
    - rewrite elem_of_app, !elem_of_cons in Hg. destruct Hg as [Hg|[->|[->|Hg]]]; [left; rewrite elem_of_app; auto|left; rewrite elem_of_app, elem_of_cons; auto| |left; rewrite elem_of_app, elem_of_cons; auto].
      right. cbn. split_and!; [lia|lia|auto]. }
  destruct Hcases as [Hin|(E & Hn & Hg1)].
  - left. rewrite EF. rewrite elem_of_app, elem_of_cons in Hin |- *. destruct Hin as [?|[?|Hc]]; [auto|auto|]. right; right. by apply J3.
  - right. split_and!; [done|done|]. destruct Hj as [(-> & -> & _)|(c & Ec & -> & Hc)]; [by left|right]. exists c. split_and!; [rewrite EF, Ec, elem_of_app; right; right; left|done|lia].
Qed.

Lemma joined_covers nb F2' x : joined_next nb F2' → in_block (bp, n) x ∨ (∃ g, g ∈ F ∧ in_block g x) → ∃ g, g ∈ joined nb F2' ∧ in_block g x.
Proof.
  intros Hj Hx. destruct (joined_next_facts nb F2' Hj) as (J1 & _ & J3 & _). destruct bp_bounds as (H1 & _).
  destruct (rep_block p) as (P1 & _); [rewrite EF, elem_of_app; right; left|].
  assert (∀ g, g ∈ F1 ++ F2' → g ∈ joined nb F2') as Hother by (intros g; unfold joined; destruct (_ =? bp); rewrite !elem_of_app, !elem_of_cons; tauto).
  assert (bp ≤ x < bp + 8 * nb ∨ in_block p x → ∃ g, g ∈ joined nb F2' ∧ in_block g x) as Hnew.
  { unfold joined, in_block. intros Hb. destruct (Z.eqb_spec (p.1 + 8 * p.2) bp) as [E|E]; [exists (p.1, p.2 + nb); rewrite elem_of_app, elem_of_cons; cbn; split; [auto|lia]|].
    destruct Hb as [Hb|Hb]; [exists (bp, nb)|exists p]; rewrite elem_of_app, !elem_of_cons; cbn; (split; [auto|lia]). }
  destruct Hx as [Hx|(g & Hg & Hx)]; [apply Hnew; left; unfold in_block in Hx; cbn in Hx; lia|].
  rewrite EF, elem_of_app, elem_of_cons in Hg. destruct Hg as [Hg|[->|Hg]]; [exists g; split; [apply Hother, elem_of_app; auto|done]|apply Hnew; auto|].
  destruct Hj as [(-> & -> & _)|(c & Ec & -> & Hc)]; [exists g; split; [apply Hother, elem_of_app; auto|done]|].
  rewrite Ec in Hg. apply elem_of_cons in Hg as [->|Hg]; [apply Hnew; left; unfold in_block in Hx; lia|exists g; split; [apply Hother, elem_of_app; auto|done]].
Qed.

(** The blocks still in use are away from the headers that change. *)
Lemma join_keeps a k x : L !! a = Some k → a ≠ bp → in_block (a, k) x → (x < bp ∨ bp + 8 ≤ x) ∧ (x < p.1 ∨ p.1 + 8 ≤ x).
Proof.
  intros Ha Hne [Hx1 Hx2]. cbn in Hx1, Hx2. destruct bp_bounds as (H1 & _). destruct (hr_apart _ _ _ Hrep a k bp n Ha Hbp Hne) as [H|H]; cbn in H.
  - destruct (rep_apart a k p Ha ltac:(rewrite EF, elem_of_app; right; left)); lia.
  - destruct (rep_apart a k p Ha ltac:(rewrite EF, elem_of_app; right; left)); lia.
Qed.

Lemma joined_rep m nb F2' : joined_next nb F2' → links m (joined nb F2') base → (∀ x, (x < bp ∨ bp + 8 ≤ x) → (x < p.1 ∨ p.1 + 8 ≤ x) → m x = um s x) →
  ∃ G', joined nb F2' = (base, 0) :: G' ∧ heap_rep (s <| um := m |> <| freep := p.1 |>) G' (delete bp L).
Proof.
  intros Hj Hl Hm. destruct (joined_base nb F2') as [G' EG]. exists G'. split; [done|]. destruct bp_bounds as (H1 & H2 & H3 & H4 & H5 & H6).
  assert (∀ g, g ∈ G' → g.1 ≠ base) as Hnb.
  { intros g Hg. pose proof (joined_ordered nb F2' Hj) as Ho. rewrite EG in Ho. apply ordered_cons in Ho as [Ho _]. specialize (Ho g Hg). unfold before in Ho. cbn in Ho. lia. }
  assert (∀ g, g ∈ G' → g ∈ joined nb F2') as Hin by (intros g Hg; rewrite EG; by right).
  assert (∀ g, g ∈ G' → g ∈ F → g ∈ G) as HG by (intros g Hg [->|?]%elem_of_cons; [by apply Hnb in Hg|done]).
  split.
  - apply (hr_base _ _ _ Hrep).
  - cbn [um]. by rewrite <- EG.
  - rewrite <- EG. by apply joined_ordered.
  - intros g Hg. destruct (joined_block nb F2' g Hj (Hin g Hg)) as [Hold|(Hg1 & Hg2 & Hg3)]; [by apply (hr_free _ _ _ Hrep), HG|].
    assert (base + 8 ≤ g.1) as Hlow.
    { destruct Hg1 as [->|[Hg1 Hg1']]; [done|]. rewrite Hg1. assert (p ∈ F) as Hp' by (rewrite EF, elem_of_app; right; left).
      apply elem_of_cons in Hp' as [Ep|Hp']; [exfalso; apply (Hnb g Hg); by rewrite Hg1, Ep|]. by apply (hr_free _ _ _ Hrep). }
    unfold in_heap. cbn [ubrk]. change (ubrk (s <| um := m |> <| freep := p.1 |>)) with (ubrk s). split_and!; [lia|done|].
    destruct Hg3 as [->|(c & Hc & E1 & ->)]; [done|]. by apply rep_block.
  - exists (if p.1 + 8 * p.2 =? bp then (p.1, p.2 + nb) else p). rewrite <- EG. unfold joined. destruct (_ =? bp); rewrite elem_of_app, elem_of_cons; auto.
  - intros a k [Hne Ha]%lookup_delete_Some. destruct (hr_live _ _ _ Hrep a k Ha) as (Hh & Hs & Hap). split_and!; [done| |].
    + rewrite <- Hs. apply load32_ext. intros x Hx. change (um (s <| um := m |> <| freep := p.1 |>)) with m.
      destruct (join_keeps a k x Ha ltac:(done)) as [K1 K2]; [destruct Hh as (? & _); unfold in_block; cbn in *; lia|]. by apply Hm.
    + intros g Hg. destruct (joined_block nb F2' g Hj (Hin g Hg)) as [Hold|(Hg1 & Hg2 & Hg3)]; [by apply Hap, HG|].
      pose proof (hr_apart _ _ _ Hrep a k bp n Ha Hbp ltac:(done)) as A1. pose proof (rep_apart a k p Ha ltac:(rewrite EF, elem_of_app; right; left)) as A2.
      destruct Hh as (A3 & _). unfold apart in *. cbn [fst snd] in *.
      destruct Hg3 as [E|(c & Hc & E1 & E)]; [lia|]. pose proof (rep_apart a k c Ha Hc) as A4. destruct (rep_block c Hc) as (A5 & _). lia.
  - intros a k a' k' [_ Ha]%lookup_delete_Some [_ Ha']%lookup_delete_Some. by apply (hr_apart _ _ _ Hrep).
Qed.
End Join.

(** [free] of a block in use. *)
Lemma free_spec fuel bp n : L !! bp = Some n → (2 * length F + 2 < fuel)%nat →
  ∃ s' G', free fuel (bp + 8) s = Ok tt s' ∧ heap_rep s' G' (delete bp L) ∧ ubrk s' = ubrk s ∧ grants s' = grants s ∧ keeps (delete bp L) (um s) (um s') ∧
    (∀ x, in_block (bp, n) x ∨ (∃ g, g ∈ G ∧ in_block g x) → ∃ g, g ∈ G' ∧ in_block g x) ∧ (length G' ≤ S (length G))%nat ∧ ∃ g, g ∈ G' ∧ n ≤ g.2.
Proof.
  intros Hbp Hfuel. destruct (rep_search fuel bp n Hbp Hfuel) as (F1 & p & F2 & EF & Hp1 & Hp2 & HF2 & Hs).
  destruct (bp_bounds bp n Hbp) as (H1 & H2 & H3 & H4 & H5 & H6).
  destruct (join_next_spec bp n F1 p F2 Hbp EF HF2) as (m1 & nb & F2' & R1 & Hj & Hm1 & Hb1 & Hb2).
  destruct (join_prev_spec bp n F1 p F2 Hbp EF (conj Hp1 Hp2) m1 nb F2' Hj Hm1 Hb1 Hb2) as (m2 & R2 & Hl2 & Hm2).
  assert (free fuel (bp + 8) s = Ok tt (s <| um := m2 |> <| freep := p.1 |>)) as Hfree.
  { unfold free. replace (hdr_add (bp + 8) (-1)) with bp by (rewrite hdr_add_small by (unfold two31, two32 in *; lia); lia).
    rewrite bind_gets, (bind_ok _ _ _ _ _ Hs). transitivity ((join_next bp p ≫= λ _, join_prev bp p ≫= λ _, modify (λ s, s <| freep := p.1 |>)) s).
    - unfold join_next, ld_size, ld_ptr. rewrite bind_assoc, !bind_gets, bind_assoc, bind_gets. apply bind_ext. intros [] s1.
      unfold join_prev, ld_size, ld_ptr. by rewrite bind_assoc, !bind_gets.
    - rewrite (bind_ok _ _ _ _ _ R1), (bind_ok _ _ _ _ _ R2). done. }
  assert (∀ x, (x < bp ∨ bp + 8 ≤ x) → (x < p.1 ∨ p.1 + 8 ≤ x) → m2 x = um s x) as Hm by (intros x X1 X2; by rewrite Hm2, Hm1).
  destruct (joined_rep bp n F1 p F2 Hbp EF (conj Hp1 Hp2) m2 nb F2' Hj Hl2 Hm) as (G' & EG & Hrep').
  exists (s <| um := m2 |> <| freep := p.1 |>), G'. split_and!; [done|done|done|done|..].
  - intros a k x [Hne Ha]%lookup_delete_Some Hx. destruct (join_keeps bp n F1 p F2 Hbp EF (conj Hp1 Hp2) a k x Ha ltac:(done) Hx). by apply Hm.
  - intros x Hx. destruct (joined_covers bp n F1 p F2 Hbp EF (conj Hp1 Hp2) nb F2' x Hj) as (g & Hg & Hgx).
    { destruct Hx as [|(g & Hg & Hgx)]; [by left|right]. exists g. split; [by right|done]. }
    rewrite EG in Hg. apply elem_of_cons in Hg as [->|Hg]; [unfold in_block in Hgx; cbn in Hgx; lia|by exists g].
  - assert (length (joined bp F1 p nb F2') ≤ S (length F))%nat as Hlen; [|rewrite EG in Hlen; simpl in Hlen; lia]. rewrite EF. unfold joined.
    assert (length F2' ≤ length F2)%nat as HlF by (destruct Hj as [(-> & _)|(c & -> & _)]; simpl; lia). destruct (_ =? bp); rewrite !length_app; simpl; lia.
  - destruct (joined_next_facts bp n F1 p F2 Hbp EF nb F2' Hj) as (J1 & _). destruct (rep_block p) as (P1 & _); [rewrite EF, elem_of_app; right; left|].
    assert (∃ g, g ∈ joined bp F1 p nb F2' ∧ n ≤ g.2) as (g & Hg & Hgn).
    { unfold joined. destruct (_ =? bp); [exists (p.1, p.2 + nb)|exists (bp, nb)]; rewrite elem_of_app, !elem_of_cons; cbn; (split; [auto|lia]). }
    rewrite EG in Hg. apply elem_of_cons in Hg as [->|Hg]; [cbn in Hgn; lia|by exists g].
Qed.

(** *** Taking a block *)

Definition inside (b c : block) : Prop := c.1 ≤ b.1 ∧ b.1 + 8 * b.2 ≤ c.1 + 8 * c.2.

Lemma live_apart a n b r : L !! a = Some n → b ∈ G → inside r b → apart (a, n) r.
Proof. intros Ha Hb [H1 H2]. destruct (hr_live _ _ _ Hrep a n Ha) as (_ & _ & Hap). specialize (Hap b Hb). unfold apart in *. lia. Qed.

(** A part [(r, nu)] of a free block [b] is taken, and [F'] are the free blocks left. *)
Lemma taken_rep m f b r nu G' : b ∈ G → inside (r, nu) b → 0 < nu → links m ((base, 0) :: G') base → ordered ((base, 0) :: G') →
  (∀ g, g ∈ G' → 0 < g.2 ∧ (∃ c, c ∈ G ∧ inside g c) ∧ apart (r, nu) g) → (∃ c, c ∈ (base, 0) :: G' ∧ f = c.1) →
  load32 m (r + 4) = nu → keeps L (um s) m → heap_rep (s <| um := m |> <| freep := f |>) G' (<[r := nu]> L) ∧ L !! r = None.
Proof.
  intros Hb Hin Hnu Hl Ho Hg Hf Hr Hk. assert (∀ a n, L !! a = Some n → apart (a, n) (r, nu)) as Hap by (intros; by eapply live_apart).
  assert (L !! r = None) as Hnone.
  { destruct (L !! r) as [k|] eqn:E; [|done]. specialize (Hap r k E). destruct (hr_live _ _ _ Hrep r k E) as ((H1 & _) & _). unfold apart in Hap. cbn in *. lia. }
  split; [|done]. split; try done.
  - apply (hr_base _ _ _ Hrep).
  - intros g Hgin. destruct (Hg g Hgin) as (G1 & (c & Hc & [I1 I2]) & _). destruct (hr_free _ _ _ Hrep c Hc) as (C1 & C2 & C3). split_and!; [done|lia|].
    change (ubrk (s <| um := m |> <| freep := f |>)) with (ubrk s). lia.
  - intros a n [[<- <-]|[Hne Ha]]%lookup_insert_Some.
    + destruct Hin as [I1 I2]. cbn in I1, I2. destruct (hr_free _ _ _ Hrep b Hb) as (C1 & C2 & C3). split_and!; [split_and!; cbn; [done|lia|lia]|done|]. intros g Hgin. by apply Hg.
    + destruct (hr_live _ _ _ Hrep a n Ha) as (Hh & Hs & _). split_and!; [done| |].
      * rewrite <- Hs. apply load32_ext. intros x Hx. apply (Hk a n x Ha). destruct Hh as (? & _). unfold in_block. cbn in *. lia.
      * intros g Hgin. destruct (Hg g Hgin) as (_ & (c & Hc & Hi) & _). by eapply live_apart.
  - intros a n a' n' [[<- <-]|[Hne Ha]]%lookup_insert_Some [[<- <-]|[Hne' Ha']]%lookup_insert_Some Hna; [done| | |by apply (hr_apart _ _ _ Hrep)].
    + specialize (Hap a' n' Ha'). unfold apart in *. lia.
    + by apply Hap.
Qed.

Lemma keeps_store m v a : (∀ b n x, L !! b = Some n → in_block (b, n) x → x < a ∨ a + 4 ≤ x) → keeps L (um s) m → keeps L (um s) (store32 m a v).
Proof. intros Ha Hk b n x Hb Hx. rewrite store32_out by (by eapply Ha). by eapply Hk. Qed.

(** Headers of free blocks are away from the blocks in use. *)
Lemma header_away b i : b ∈ F → i = 0 ∨ i = 4 → ∀ a n x, L !! a = Some n → in_block (a, n) x → x < b.1 + i ∨ b.1 + i + 4 ≤ x.
Proof.
  intros Hb Hi a n x Ha [Hx1 Hx2]. cbn in Hx1, Hx2. destruct (rep_apart a n b Ha Hb); lia.
Qed.

Lemma new_list F1 pv W W' : F = F1 ++ pv :: W → ∃ G', F1 ++ pv :: W' = (base, 0) :: G' ∧ (∀ g, g ∈ G' → (g ∈ F1 ++ [pv] ∧ g ∈ G) ∨ g ∈ W') ∧ (∀ g, g ∈ W' → g ∈ G') ∧
  ∀ g, g ∈ G → g ∈ F1 ++ [pv] → g ∈ G'.
Proof.
  intros E. unfold F in E. destruct F1 as [|f F1']; injection E as E1 E2.
  - exists W'. rewrite <- E1. split_and!; [done|auto|done|]. intros g Hg ->%list_elem_of_singleton. destruct (hr_free _ _ _ Hrep _ Hg) as (? & _). cbn in *. lia.
  - exists (F1' ++ pv :: W'). rewrite <- E1. split_and!; [done|..].
    + intros g. rewrite E2. rewrite !elem_of_app, !elem_of_cons. intros [?|[?|?]]; [left|left|by right]; cbn [app]; rewrite ?elem_of_cons, ?elem_of_app, ?list_elem_of_singleton; auto.
    + intros g Hg. rewrite elem_of_app, elem_of_cons. auto.
    + intros g Hg. cbn [app]. rewrite elem_of_cons, !elem_of_app, list_elem_of_singleton, elem_of_cons. intros [->|[?|?]]; [|auto|auto].
      destruct (hr_free _ _ _ Hrep _ Hg) as (? & _). cbn in *. lia.
Qed.

Section Take.
Variables (F1 : list block) (pv b : block) (F2 : list block) (nu : Z).
Hypothesis (E : F = F1 ++ pv :: b :: F2) (Hnu : 0 < nu ≤ b.2).

Definition taken (r : Z) (s' : uheap) : Prop := ∃ G', heap_rep s' G' (<[r := nu]> L) ∧ L !! r = None ∧ keeps L (um s) (um s') ∧
  ubrk s' = ubrk s ∧ grants s' = grants s ∧ ∀ x, (∃ g, g ∈ G ∧ in_block g x) → in_block (r, nu) x ∨ ∃ g, g ∈ G' ∧ in_block g x.

Lemma take_facts : b ∈ G ∧ pv ∈ F ∧ (∀ g, g ∈ F1 ++ [pv] → before g b) ∧ (∀ g, g ∈ F2 → before b g ∧ g ∈ G) ∧ ordered (F1 ++ [pv]) ∧ ordered F2 ∧
  (∀ g h, g ∈ F1 ++ [pv] → h ∈ F2 → before g h) ∧ load32 (um s) b.1 = hd_addr F2 base ∧ load32 (um s) (b.1 + 4) = b.2 ∧
  load32 (um s) pv.1 = b.1 ∧ load32 (um s) (pv.1 + 4) = pv.2 ∧ links (um s) F1 pv.1 ∧ links (um s) F2 base.
Proof.
  pose proof (hr_links _ _ _ Hrep) as Hl. pose proof (hr_ordered _ _ _ Hrep) as Ho. fold F in Hl, Ho.
  assert (∀ g, g ∈ b :: F2 → g ∈ G) as HG. { intros g Hg. pose proof E as E0. unfold F in E0. destruct F1 as [|f F1']; injection E0 as _ ->; [done|]. rewrite elem_of_app, elem_of_cons. auto. }
  rewrite E in Hl. apply links_app in Hl as (Hl1 & Hl2 & Hl3 & Hl4 & Hl5 & Hl6). cbn [hd_addr] in Hl1, Hl2.
  replace F with ((F1 ++ [pv]) ++ b :: F2) in Ho by (by rewrite E, <- app_assoc). apply ordered_app in Ho as (Ho1 & Ho2 & Ho3). apply ordered_cons in Ho2 as [Ho2 Ho4].
  split_and!; try done; [apply HG; left|rewrite E, elem_of_app; right; left|intros g Hg; apply Ho3; [done|left]|intros g Hg; split; [by apply Ho2|apply HG; by right]|].
  intros g h Hg Hh. apply Ho3; [done|by right].
Qed.

Lemma take_exact : b.2 = nu → taken b.1 (s <| um := store32 (um s) pv.1 (hd_addr F2 base) |> <| freep := pv.1 |>).
Proof.
  intros En. destruct take_facts as (T1 & T2 & T3 & T4 & T5 & T6 & T7 & T8 & T9 & T10 & T11 & T12 & T13).
  destruct (rep_headers F1 pv (b :: F2) E) as [Hh1 Hh2]. destruct (new_list F1 pv (b :: F2) F2 E) as (G' & EG & N1 & N2 & N3). exists G'.
  assert (keeps L (um s) (store32 (um s) pv.1 (hd_addr F2 base))) as Hk. { apply keeps_store; [|by intros ?]. rewrite <- (Z.add_0_r pv.1). apply header_away; auto. }
  destruct (links_change (um s) F1 pv F2 base pv.1 (hd_addr F2 base)) as [L1 L2]; [|auto|done|done|].
  { intros c [Hc|Hc]%elem_of_app; [left; by apply Hh1|right; apply Hh2; by right]. }
  destruct (taken_rep (store32 (um s) pv.1 (hd_addr F2 base)) pv.1 b b.1 nu G') as [R1 R2]; try done.
  - unfold inside. cbn. lia.
  - lia.
  - rewrite <- EG. apply links_app. cbn [hd_addr links]. split_and!; [done| | |done].
    + rewrite load32_store32. apply u32_id. rewrite <- T8. apply load32_range.
    + rewrite load32_store32_ne by lia. done.
  - rewrite <- EG. replace (F1 ++ pv :: F2) with ((F1 ++ [pv]) ++ F2) by (by rewrite <- app_assoc). by apply ordered_app.
  - intros g Hg. destruct (N1 g Hg) as [[Hg1 Hg2]|Hg2].
    + split_and!; [by apply (hr_free _ _ _ Hrep)|exists g; split; [done|unfold inside; lia]|]. specialize (T3 g Hg1). unfold before in T3. unfold apart. cbn. lia.
    + destruct (T4 g Hg2) as [Hb Hg3]. split_and!; [by apply (hr_free _ _ _ Hrep)|exists g; split; [done|unfold inside; lia]|]. unfold before in Hb. unfold apart. cbn. lia.
  - exists pv. split; [rewrite <- EG, elem_of_app; right; left|done].
  - cbn. rewrite load32_store32_ne; [lia|]. specialize (Hh2 b ltac:(left)). lia.
  - split_and!; try done. intros x (g & Hg & Hx). assert (g ∈ F) as HgF by (by right). rewrite E in HgF. rewrite elem_of_app, !elem_of_cons in HgF. destruct HgF as [H|[->|[->|H]]].
    + right. exists g. split; [apply N3; [done|rewrite elem_of_app; auto]|done].
    + right. exists pv. split; [apply N3; [done|rewrite elem_of_app; right; left]|done].
    + left. unfold in_block in *. cbn. lia.
    + right. exists g. split; [by apply N2|done].
Qed.

Lemma take_part k : b.2 = nu + k → 0 < k →
  taken (b.1 + 8 * k) (s <| um := store32 (store32 (um s) (b.1 + 4) k) (b.1 + 8 * k + 4) nu |> <| freep := pv.1 |>).
Proof.
  intros En Hk0. destruct take_facts as (T1 & T2 & T3 & T4 & T5 & T6 & T7 & T8 & T9 & T10 & T11 & T12 & T13). destruct (hr_free _ _ _ Hrep b T1) as (B1 & B2 & B3).
  assert (F = (F1 ++ [pv]) ++ b :: F2) as E' by (by rewrite E, <- app_assoc). destruct (rep_headers (F1 ++ [pv]) b F2 E') as [Hh1 Hh2]. destruct (hr_base _ _ _ Hrep) as (B4 & B5 & B6). unfold two31 in *.
  destruct (new_list F1 pv (b :: F2) ((b.1, k) :: F2) E) as (G' & EG & N1 & N2 & N3). exists G'. set (m1 := store32 (um s) (b.1 + 4) k). set (m2 := store32 m1 (b.1 + 8 * k + 4) nu).
  assert (keeps L (um s) m2) as Hk.
  { apply keeps_store; [|apply keeps_store; [|by intros ?]]; intros a n x Ha Hx; pose proof (rep_apart a n b Ha ltac:(by right)); unfold in_block in Hx; cbn in Hx; lia. }
  assert (∀ G0 e, (∀ c, c ∈ G0 → c.1 + 8 ≤ b.1 ∨ b.1 + 8 * b.2 ≤ c.1) → links (um s) G0 e → links m2 G0 e) as Hlinks.
  { intros G0 e HG0 Hl0. apply links_store; [|apply links_store; [|done]]; intros c Hc; specialize (HG0 c Hc); lia. }
  destruct (taken_rep m2 pv.1 b (b.1 + 8 * k) nu G') as [R1 R2]; try done.
  - unfold inside. cbn. lia.
  - lia.
  - rewrite <- EG. replace (F1 ++ pv :: (b.1, k) :: F2) with ((F1 ++ [pv]) ++ (b.1, k) :: F2) by (by rewrite <- app_assoc). apply links_app. cbn [hd_addr links fst snd]. split_and!.
    + apply Hlinks; [intros c Hc; left; by apply Hh1|]. apply links_app. cbn [hd_addr links]. by split_and!.
    + unfold m2, m1. rewrite !load32_store32_ne by lia. done.
    + unfold m2, m1. rewrite load32_store32_ne by lia. rewrite load32_store32. apply u32_id. unfold is_u32, two32. lia.
    + apply Hlinks; [|done]. intros c Hc. right. destruct (T4 c Hc) as [Hb _]. unfold before in Hb. lia.
  - rewrite <- EG. replace (F1 ++ pv :: (b.1, k) :: F2) with ((F1 ++ [pv]) ++ (b.1, k) :: F2) by (by rewrite <- app_assoc). apply ordered_app. split_and!; [done| |].
    + apply ordered_cons. split; [|done]. intros c Hc. destruct (T4 c Hc) as [Hb _]. unfold before in *. cbn. lia.
    + intros g c Hg [->|Hc]%elem_of_cons; [apply (T3 g Hg)|by apply T7].
  - intros g Hg. destruct (N1 g Hg) as [[Hg1 Hg2]|[->|Hg2]%elem_of_cons].
    + split_and!; [by apply (hr_free _ _ _ Hrep)|exists g; split; [done|unfold inside; lia]|]. specialize (T3 g Hg1). unfold before in T3. unfold apart. cbn. lia.
    + split_and!; [done|exists b; split; [done|unfold inside; cbn; lia]|]. unfold apart. cbn. lia.
    + destruct (T4 g Hg2) as [Hb Hg3]. split_and!; [by apply (hr_free _ _ _ Hrep)|exists g; split; [done|unfold inside; lia]|]. unfold before in Hb. unfold apart. cbn. lia.
  - exists pv. split; [rewrite <- EG, elem_of_app; right; left|done].
  - unfold m2. rewrite load32_store32. apply u32_id. unfold is_u32, two32. lia.
  - split_and!; try done. intros x (g & Hg & Hx). assert (g ∈ F) as HgF by (by right). rewrite E in HgF. rewrite elem_of_app, !elem_of_cons in HgF. destruct HgF as [H|[->|[->|H]]].
    + right. exists g. split; [apply N3; [done|rewrite elem_of_app; auto]|done].
    + right. exists pv. split; [apply N3; [done|rewrite elem_of_app; right; left]|done].
    + unfold in_block in *. cbn. destruct (Z.lt_ge_cases x (b.1 + 8 * k)); [right; exists (b.1, k); split; [apply N2; left|cbn; lia]|left; lia].
    + right. exists g. split; [apply N2; by right|done].
Qed.

Lemma take_spec : ∃ r s', take_block nu pv.1 b.1 b.2 s = Ok (r + 8) s' ∧ taken r s'.
Proof.
  destruct take_facts as (T1 & T2 & T3 & T4 & T5 & T6 & T7 & T8 & T9 & T10 & T11 & T12 & T13). destruct (hr_free _ _ _ Hrep b T1) as (B1 & B2 & B3). destruct (hr_base _ _ _ Hrep) as (B4 & B5 & B6).
  unfold two31 in *. unfold take_block, ld_ptr, st_ptr, ld_size, st_size. destruct (Z.eqb_spec b.2 nu) as [En|En].
  - exists b.1. eexists. split; [|by apply take_exact]. rewrite bind_assoc, bind_gets, bind_assoc, bind_modify, bind_ret, bind_modify, T8. rewrite hdr_add_small by (unfold two32; lia). done.
  - exists (b.1 + 8 * (b.2 - nu)). eexists. split; [|apply (take_part (b.2 - nu)); lia]. rewrite bind_assoc, bind_modify, bind_assoc, bind_gets.
    assert (u32 (b.2 - nu) = b.2 - nu) as Eu by (apply u32_id; unfold is_u32, two32; lia). rewrite Eu.
    change (um (s <| um ::= λ m, store32 m (b.1 + 4) (b.2 - nu) |>)) with (store32 (um s) (b.1 + 4) (b.2 - nu)). rewrite load32_store32, Eu, hdr_add_small by (unfold two32; lia).
    rewrite bind_assoc, bind_modify, bind_ret, bind_modify, hdr_add_small by (unfold two32; lia). done.
Qed.
End Take.

(** *** The search of [malloc] *)

Definition found (nu : Z) (o : outcome uheap Z) : Prop := ∃ r s', o = Ok (r + 8) s' ∧ taken nu r s'.

Lemma at_header b : b ∈ F → ∃ X Y, F = X ++ b :: Y ∧ load32 (um s) b.1 = hd_addr Y base ∧ load32 (um s) (b.1 + 4) = b.2.
Proof.
  intros Hb. apply list_elem_of_split in Hb as (X & Y & E). exists X, Y. pose proof (hr_links _ _ _ Hrep) as Hl. fold F in Hl. rewrite E in Hl. apply links_app in Hl as (_ & H1 & H2 & _). done.
Qed.

Lemma header_at X b Y : F = X ++ b :: Y → load32 (um s) b.1 = hd_addr Y base ∧ load32 (um s) (b.1 + 4) = b.2.
Proof. intros E. pose proof (hr_links _ _ _ Hrep) as Hl. fold F in Hl. rewrite E in Hl. apply links_app in Hl as (_ & H1 & H2 & _). done. Qed.

(** A part [W] of the list without [freep], from the block after [pv]. *)
Lemma scan_part nu fuel : 0 < nu → ∀ W X pv Z', F = X ++ pv :: W ++ Z' → (∀ b, b ∈ W → b.1 ≠ freep s) →
  found nu (malloc_loop (length W + fuel) nu pv.1 (hd_addr (W ++ Z') base) s) ∨
  (∀ b, b ∈ W → b.2 < nu) ∧ ∃ X' pv', F = X' ++ pv' :: Z' ∧
    malloc_loop (length W + fuel) nu pv.1 (hd_addr (W ++ Z') base) s = malloc_loop fuel nu pv'.1 (hd_addr Z' base) s.
Proof.
  intros Hnu W. induction W as [|b W IH]; intros X pv Z' E Hf.
  - right. split; [intros b Hb; by apply elem_of_nil in Hb|]. by exists X, pv.
  - assert (F = (X ++ [pv]) ++ b :: W ++ Z') as E' by (by rewrite E, <- app_assoc). destruct (header_at _ _ _ E') as [H1 H2].
    cbn [length app hd_addr Nat.add malloc_loop]. unfold ld_size, ld_ptr. rewrite bind_gets, H2. destruct (Z.leb_spec nu b.2) as [Hle|Hgt].
    + left. apply (take_spec X pv b (W ++ Z') nu E). lia.
    + rewrite bind_gets, (proj2 (Z.eqb_neq b.1 (freep s))) by (by apply Hf; left). rewrite bind_gets, H1.
      destruct (IH (X ++ [pv]) b Z' E') as [Hfound|(Hsm & Hmiss)]; [intros c Hc; apply Hf; by right|by left|right].
      split; [|done]. intros c [->|Hc]%elem_of_cons; [done|by apply Hsm].
Qed.

(** Once around, from the block after [freep]. *)
Lemma scan_round nu fuel : 0 < nu →
  found nu (malloc_loop (length F + fuel) nu (freep s) (load32 (um s) (freep s)) s) ∨
  (∀ b, b ∈ F → b.2 < nu) ∧ ∃ q, malloc_loop (length F + fuel) nu (freep s) (load32 (um s) (freep s)) s = malloc_loop (S fuel) nu q (freep s) s.
Proof.
  intros Hnu. destruct (hr_freep _ _ _ Hrep) as (f & Hf & Ef). fold F in Hf. rewrite Ef. pose proof (hr_ordered _ _ _ Hrep) as Ho.
  assert (∀ b, b ∈ G → b.1 ≠ base) as Hnb. { intros b Hb Eb. destruct (hr_free _ _ _ Hrep b Hb) as (_ & ? & _). lia. }
  apply elem_of_cons in Hf as [->|Hf].
  - cbn [fst] in *. destruct (header_at [] (base, 0) G eq_refl) as [H1 _]. cbn [fst] in H1. rewrite H1. replace (length F + fuel)%nat with (length G + S fuel)%nat by (unfold F; simpl; lia).
    destruct (scan_part nu (S fuel) Hnu G [] (base, 0) [] ltac:(by rewrite app_nil_r)) as [Hfound|(Hsm & X' & pv' & _ & Hmiss)]; rewrite ?app_nil_r in *.
    + intros b Hb. rewrite Ef. by apply Hnb.
    + by left.
    + right. split; [intros b [->|Hb]%elem_of_cons; [done|by apply Hsm]|]. by exists pv'.1.
  - apply list_elem_of_split in Hf as (G1 & G2 & EG). assert (F = ((base, 0) :: G1) ++ f :: G2) as E by (unfold F; by rewrite EG). destruct (header_at _ _ _ E) as [H1 H2]. rewrite H1.
    assert ((∀ b, b ∈ G2 → b.1 ≠ f.1) ∧ ∀ b, b ∈ (base, 0) :: G1 → b.1 ≠ f.1) as [Hne2 Hne1].
    { fold F in Ho. rewrite E in Ho. apply ordered_app in Ho as (_ & Ho & Hc). apply ordered_cons in Ho as [Ho _]. split; intros b Hb Eb.
      - specialize (Ho b Hb). destruct (rep_block f) as (? & _); [rewrite E, elem_of_app; right; left|]. unfold before in Ho. lia.
      - specialize (Hc b f Hb ltac:(left)). destruct (rep_block b) as (? & _); [rewrite E, elem_of_app; by left|]. unfold before in Hc. lia. }
    replace (length F + fuel)%nat with (length G2 + S (length G1 + S fuel))%nat by (rewrite E, length_app; simpl; lia).
    destruct (scan_part nu (S (length G1 + S fuel)) Hnu G2 ((base, 0) :: G1) f [] ltac:(by rewrite app_nil_r)) as [Hfound|(Hsm & X' & pv' & EX & Hmiss)]; rewrite ?app_nil_r in *.
    { intros b Hb. rewrite Ef. by apply Hne2. } { by left. }
    rewrite Hmiss. cbn [hd_addr malloc_loop]. destruct (header_at [] (base, 0) G eq_refl) as [B1 B2]. cbn [fst snd] in B1, B2. unfold ld_size, ld_ptr. rewrite bind_gets, B2, (proj2 (Z.leb_gt nu 0)) by lia.
    rewrite bind_gets, Ef, (proj2 (Z.eqb_neq base f.1)) by (apply (Hne1 (base, 0)); left). rewrite bind_gets, B1, EG.
    destruct (scan_part nu (S fuel) Hnu G1 [] (base, 0) (f :: G2)) as [Hfound|(Hsm1 & X1 & pv1 & EX1 & Hmiss1)]; [by rewrite E|intros b Hb; rewrite Ef; apply Hne1; by right|by left|].
    cbn [fst] in Hmiss1. rewrite Hmiss1. cbn [hd_addr]. destruct (Z.le_gt_cases nu f.2) as [Hle|Hgt].
    + left. cbn [malloc_loop]. unfold ld_size. rewrite bind_gets, H2, (proj2 (Z.leb_le nu f.2)) by done. by apply (take_spec X1 pv1 f G2 nu EX1).
    + right. split; [|by exists pv1.1]. intros b Hb. rewrite E, elem_of_app, !elem_of_cons in Hb. destruct Hb as [[->|Hb]|[->|Hb]]; [done|by apply Hsm1|done|by apply Hsm].
Qed.
End Rep.

(** *** More memory *)

Definition core_units (nu : Z) : Z := if nu <? 4096 then 4096 else nu.

(** What [sbrk] does next: the process stays below the kernel. *)
Definition grant_ok (s : uheap) (nu : Z) : Prop := ∀ gap gs, grants s = Some gap :: gs → 0 ≤ gap ∧ ubrk s + gap + 8 * core_units nu < two31.

Lemma core_rep s G L gap gs n : heap_rep s G L → 0 < n → 0 ≤ gap → ubrk s + gap + 8 * n < two31 → let hp := ubrk s + gap in
  heap_rep (s <| ubrk := hp + 8 * n |> <| grants := gs |> <| um := store32 (um s) (hp + 4) n |>) G (<[hp := n]> L) ∧ L !! hp = None ∧ keeps L (um s) (store32 (um s) (hp + 4) n).
Proof.
  intros Hrep Hn Hgap Hb hp. destruct (id Hrep) as [(B1 & B2 & B3) Hl Ho Hf Hfp Hlive Hap].
  assert (∀ a k, L !! a = Some k → a + 8 * k ≤ ubrk s ∧ 0 < k) as Htop by (intros a k Ha; destruct (Hlive a k Ha) as ((? & ? & ?) & _); done).
  assert (L !! hp = None) as Hnone. { destruct (L !! hp) as [k|] eqn:E; [|done]. destruct (Htop hp k E). unfold hp in *. lia. }
  assert (keeps L (um s) (store32 (um s) (hp + 4) n)) as Hk. { intros a k x Ha [Hx1 Hx2]. cbn in *. destruct (Htop a k Ha). apply store32_out. unfold hp. lia. }
  split_and!; [|done|done]. split; cbn [ubrk um freep].
  - unfold set; cbn. lia.
  - apply links_store; [|done]. intros b Hb'. destruct (rep_block s G L Hrep b Hb') as (_ & _ & ? & _). unfold hp. lia.
  - done.
  - intros g Hg. destruct (Hf g Hg) as (? & ? & ?). unfold in_heap, set; cbn. lia.
  - done.
  - intros a k [[<- <-]|[Hne Ha]]%lookup_insert_Some.
    + split_and!; [unfold in_heap, set; cbn; lia| |].
      * change (um _) with (store32 (um s) (hp + 4) n). rewrite load32_store32. apply u32_id. unfold is_u32, two31, two32 in *. lia.
      * intros g Hg. destruct (Hf g Hg) as (? & ? & ?). right. cbn. lia.
    + destruct (Hlive a k Ha) as (Hh & Hs & Hg). split_and!; [destruct Hh as (? & ? & ?); unfold in_heap, set; cbn in *; lia| |done].
      change (um _) with (store32 (um s) (hp + 4) n). rewrite <- Hs. apply load32_ext. intros x Hx. apply (Hk a k x Ha). destruct (Htop a k Ha). unfold in_block; cbn. lia.
  - intros a k a' k' [[<- <-]|[Hne Ha]]%lookup_insert_Some [[<- <-]|[Hne' Ha']]%lookup_insert_Some Hna; [done| | |by apply Hap].
    + destruct (Htop a' k' Ha'). right. cbn. unfold hp. lia.
    + destruct (Htop a k Ha). left. cbn. unfold hp. lia.
Qed.

Lemma morecore_spec s G L fuel nu : heap_rep s G L → 0 < nu → 8 * nu < two31 → grant_ok s nu → (2 * length G + 4 < fuel)%nat →
  (∃ s', morecore fuel nu s = Ok 0 s' ∧ heap_rep s' G L ∧ um s' = um s ∧ ubrk s' = ubrk s ∧ ∀ gap gs, grants s ≠ Some gap :: gs) ∨
  ∃ s' G', morecore fuel nu s = Ok (freep s') s' ∧ freep s' ≠ 0 ∧ heap_rep s' G' L ∧ keeps L (um s) (um s') ∧ ubrk s ≤ ubrk s' ∧ (length G' ≤ S (length G))%nat ∧
    (∀ x, (∃ g, g ∈ G ∧ in_block g x) → ∃ g, g ∈ G' ∧ in_block g x) ∧ ∃ g, g ∈ G' ∧ nu ≤ g.2.
Proof.
  intros Hrep Hnu Hsmall Hgr Hfuel. unfold morecore. fold (core_units nu). assert (nu ≤ core_units nu ∧ 0 < core_units nu ∧ 8 * core_units nu < two31) as (C1 & C2 & C3).
  { unfold core_units, two31 in *. destruct (Z.ltb_spec nu 4096); lia. }
  unfold two31 in *. destruct (hr_base _ _ _ Hrep) as (B1 & B2 & _).
  assert ((∀ gap gs, grants s ≠ Some gap :: gs) → ∃ s', sbrk (u32 (core_units nu * sizeof_Header)) s = Ok (u32 (-1)) s' ∧ heap_rep s' G L ∧ um s' = um s ∧ ubrk s' = ubrk s) as Hfail.
  { intros Hno. unfold sbrk. destruct (grants s) as [|[gap|] gs] eqn:Eg; [exists s; done|by edestruct Hno|]. eexists. split; [done|]. split; [|done]. destruct Hrep. by split. }
  destruct (grants s) as [|[gap|] gs] eqn:Eg; [left|right|left].
  - destruct Hfail as (s' & E & Hr & Hm1 & Hm2); [done|]. exists s'. rewrite (bind_ok _ _ _ _ _ E). by split_and!.
  - destruct (Hgr gap gs Eg) as [Hgap Htop]. unfold two31 in *. set (hp := ubrk s + gap) in *. set (n := core_units nu) in *.
    assert (s32 (u32 (n * sizeof_Header)) = 8 * n) as Es. { unfold sizeof_Header. rewrite u32_id by (unfold is_u32, two32; lia). rewrite s32_id by (unfold two31; lia). lia. }
    destruct (core_rep s G L gap gs n Hrep C2 Hgap ltac:(unfold two31; lia)) as (Hr1 & Hnone & Hk1). fold hp in Hr1, Hnone, Hk1. set (s1 := s <| ubrk := hp + 8 * n |> <| grants := gs |> <| um := _ |>) in *.
    destruct (free_spec s1 G _ Hr1 fuel hp n) as (s' & G' & Efree & Hr' & Hu & Hg & Hk & Hcov & Hlen & Hbig); [apply lookup_insert_eq|simpl; lia|].
    rewrite delete_insert_id in Hr', Hk by done. exists s', G'.
    assert (sbrk (u32 (n * sizeof_Header)) s = Ok hp (s <| ubrk := hp + 8 * n |> <| grants := gs |>)) as E by (unfold sbrk; rewrite Eg, Es; done).
    destruct (hr_freep _ _ _ Hr') as (fb & Hfb & Efb). destruct (rep_block s' G' L Hr' fb Hfb) as (_ & Hfb2 & _). split_and!; try done.
    + rewrite (bind_ok _ _ _ _ _ E), (proj2 (Z.eqb_neq hp (u32 (-1)))) by (unfold u32, two32; change ((-1) mod 4294967296) with 4294967295; lia).
      unfold st_size. rewrite bind_modify. fold s1. change (s <| ubrk := hp + 8 * n |> <| grants := gs |> <| um ::= λ m, store32 m (hp + 4) n |>) with s1.
      rewrite hdr_add_small by (unfold two32; lia). replace (hp + 8 * 1) with (hp + 8) by lia. rewrite (bind_ok _ _ _ _ _ Efree). done.
    + lia.
    + intros a k x Ha Hx. rewrite (Hk a k x Ha Hx). by apply Hk1 with a k.
    + rewrite Hu. unfold s1, set; cbn. lia.
    + intros x Hx. apply Hcov. by right.
    + destruct Hbig as (g & Hg1 & Hg2). exists g. split; [done|lia].
  - destruct Hfail as (s' & E & Hr & Hm1 & Hm2); [done|]. exists s'. rewrite (bind_ok _ _ _ _ _ E). by split_and!.
Qed.

(** *** [malloc] *)

(** The units of a request: its bytes and a header. *)
Definition units (nbytes : Z) : Z := (nbytes + 7) / 8 + 1.

Lemma units_bounds nbytes : 0 ≤ nbytes ≤ two31 - 32 → 0 < units nbytes ∧ nbytes ≤ 8 * units nbytes - 8 ∧ 8 * units nbytes < two31.
Proof. intros H. unfold units, two31 in *. pose proof (Z.div_mod (nbytes + 7) 8 ltac:(done)). pose proof (Z.mod_pos_bound (nbytes + 7) 8 ltac:(lia)). lia. Qed.

(** The outcome of a request of [nu] units in the heap [s], [G], [L]. *)
Definition allocates (s : uheap) (G : list block) (L : gmap Z Z) (nu : Z) (o : outcome uheap Z) : Prop :=
  (∃ s', o = Ok 0 s' ∧ heap_rep s' G L ∧ um s' = um s ∧ ubrk s' = ubrk s ∧ ∀ gap gs, grants s ≠ Some gap :: gs) ∨
  ∃ r s' G', o = Ok (r + 8) s' ∧ heap_rep s' G' (<[r := nu]> L) ∧ L !! r = None ∧ keeps L (um s) (um s') ∧ ubrk s ≤ ubrk s' ∧
    ∀ x, (∃ g, g ∈ G ∧ in_block g x) → in_block (r, nu) x ∨ ∃ g, g ∈ G' ∧ in_block g x.

Lemma found_allocates s G L nu o : found s G L nu o → allocates s G L nu o.
Proof. intros (r & s' & -> & G' & H1 & H2 & H3 & H4 & H5 & H6). right. exists r, s', G'. split_and!; try done. lia. Qed.

Lemma loop_spec s G L nu fuel : heap_rep s G L → 0 < nu → 8 * nu < two31 → grant_ok s nu → (4 * length G + 12 < fuel)%nat →
  allocates s G L nu (malloc_loop fuel nu (freep s) (load32 (um s) (freep s)) s).
Proof.
  intros Hrep Hnu Hsmall Hgr Hfuel. set (F := (base, 0) :: G). replace fuel with (length F + (fuel - length F))%nat by (unfold F; simpl; lia). set (k := (fuel - length F)%nat).
  destruct (scan_round s G L Hrep nu k Hnu) as [Hf|(Hsm & q & Hmiss)]; [by apply found_allocates|]. fold F in Hsm, Hmiss. rewrite Hmiss. cbn [malloc_loop].
  destruct (hr_freep _ _ _ Hrep) as (f & Hf & Ef). destruct (at_header s G L Hrep f Hf) as (X & Y & _ & _ & Hsz). unfold ld_size, ld_ptr. rewrite bind_gets, Ef, Hsz.
  rewrite (proj2 (Z.leb_gt nu f.2)) by (by apply Hsm). rewrite bind_gets, Ef, Z.eqb_refl.
  destruct (morecore_spec s G L k nu Hrep Hnu Hsmall Hgr) as [(s' & E & Hr & Hm & Hu & Hno)|(s' & G' & E & Hnz & Hr & Hk & Hu & Hlen & Hcov & Hbig)]; [unfold k, F; simpl; lia|..].
  - left. exists s'. rewrite (bind_ok _ _ _ _ _ E). done.
  - rewrite (bind_ok _ _ _ _ _ E), (proj2 (Z.eqb_neq (freep s') 0)) by done. rewrite bind_gets. set (F' := (base, 0) :: G').
    replace k with (length F' + (k - length F'))%nat by (unfold k, F, F'; simpl; lia).
    destruct (scan_round s' G' L Hr nu (k - length F') Hnu) as [Hf'|(Hsm' & _)].
    + right. destruct Hf' as (r & s2 & E2 & G2 & H1 & H2 & H3 & H4 & H5 & H6). exists r, s2, G2. split_and!; try done; [|lia|].
      * intros a n x Ha Hx. rewrite (H3 a n x Ha Hx). by eapply Hk.
      * intros x Hx. apply H6. by apply Hcov.
    + exfalso. destruct Hbig as (g & Hg & Hg2). specialize (Hsm' g ltac:(by right)). lia.
Qed.

(** Before the first call. *)
Definition fresh_heap (s : uheap) : Prop := freep s = 0 ∧ 0 < base ∧ base + 8 ≤ ubrk s ∧ ubrk s ≤ two31.

Lemma init_rep s : fresh_heap s → heap_rep (s <| um := store32 (store32 (um s) base base) (base + 4) 0 |> <| freep := base |>) [] ∅.
Proof.
  intros (_ & B1 & B2 & B3). assert (u32 base = base) as Eb by (apply u32_id; unfold is_u32, two31, two32 in *; lia). split; cbn [um ubrk freep]; try done.
  - cbn [links hd_addr fst snd]. change (um _) with (store32 (store32 (um s) base base) (base + 4) 0). split_and!; [|by rewrite load32_store32|done]. rewrite load32_store32_ne by lia. by rewrite load32_store32.
  - apply ordered_cons. split; [intros c Hc; by apply elem_of_nil in Hc|constructor].
  - intros g Hg. by apply elem_of_nil in Hg.
  - exists (base, 0). split; [left|done].
Qed.

(** The heap before or after the first call. *)
Definition heap (s : uheap) (G : list block) (L : gmap Z Z) : Prop := heap_rep s G L ∨ fresh_heap s ∧ G = [] ∧ L = ∅.

Lemma malloc_spec s G L nbytes fuel : heap s G L → 0 ≤ nbytes ≤ two31 - 32 → grant_ok s (units nbytes) → (4 * length G + 12 < fuel)%nat →
  (∃ s', malloc fuel base nbytes s = Ok 0 s' ∧ heap_rep s' G L ∧ keeps L (um s) (um s') ∧ ∀ gap gs, grants s ≠ Some gap :: gs) ∨
  ∃ r s' G', malloc fuel base nbytes s = Ok (r + 8) s' ∧ heap_rep s' G' (<[r := units nbytes]> L) ∧ L !! r = None ∧ keeps L (um s) (um s') ∧
    ∀ x, (∃ g, g ∈ G ∧ in_block g x) → in_block (r, units nbytes) x ∨ ∃ g, g ∈ G' ∧ in_block g x.
Proof.
  intros Hheap Hn Hgr Hfuel. destruct (units_bounds nbytes Hn) as (U1 & U2 & U3). unfold malloc.
  assert (u32 (u32 (nbytes + sizeof_Header - 1) / sizeof_Header + 1) = units nbytes) as Eu.
  { unfold sizeof_Header. rewrite (u32_id (nbytes + 8 - 1)) by (unfold is_u32, two31, two32 in *; lia). replace (nbytes + 8 - 1) with (nbytes + 7) by lia. apply u32_id. fold (units nbytes). unfold is_u32, two31, two32 in *. lia. }
  rewrite Eu, bind_gets. destruct Hheap as [Hrep|(Hfresh & -> & ->)].
  - destruct (hr_freep _ _ _ Hrep) as (f & Hf & Ef). destruct (rep_block s G L Hrep f Hf) as (_ & Hfb & _). destruct (hr_base _ _ _ Hrep) as (B1 & _).
    rewrite (proj2 (Z.eqb_neq (freep s) 0)) by lia. rewrite bind_ret. unfold ld_ptr. rewrite bind_gets.
    destruct (loop_spec s G L (units nbytes) fuel Hrep U1 U3 Hgr Hfuel) as [(s' & E & H1 & H2 & _ & H3)|(r & s' & G' & E & H1 & H2 & H3 & _ & H4)].
    + left. exists s'. split_and!; [done|done| |done]. intros a n x _ _. by rewrite H2.
    + right. by exists r, s', G'.
  - pose proof (init_rep s Hfresh) as Hrep. destruct Hfresh as (-> & _). cbn [Z.eqb]. set (s1 := s <| um := _ |> <| freep := base |>) in *.
    assert ((_ ← st_ptr base base; _ ← modify (λ s, s <| freep := base |>); _ ← st_size base 0; mret base) s = Ok base s1) as E1 by (unfold st_ptr, st_size; rewrite !bind_modify; done).
    rewrite (bind_ok _ _ _ _ _ E1). unfold ld_ptr. rewrite bind_gets.
    destruct (loop_spec s1 [] ∅ (units nbytes) fuel Hrep U1 U3 Hgr Hfuel) as [(s' & E & H1 & H2 & _ & H3)|(r & s' & G' & E & H1 & H2 & H3 & _ & H4)].
    + left. exists s'. split_and!; [done|done| |done]. intros a n x Ha. by rewrite lookup_empty in Ha.
    + right. exists r, s', G'. split_and!; [done|done|done| |done]. intros a n x Ha. by rewrite lookup_empty in Ha.
Qed.

(** ** What a program sees *)

(** A write of the program inside a block in use. *)
Lemma write_rep s G L a n x v : heap_rep s G L → L !! a = Some n → a + 8 ≤ x < a + 8 * n → heap_rep (s <| um ::= λ m, store8 m x v |>) G L.
Proof.
  intros Hrep Ha Hx. destruct (id Hrep) as [Hb Hl Ho Hf Hfp Hlive Hap]. assert (∀ y, y ≠ x → store8 (um s) x v y = um s y) as Hst by (intros y Hy; by apply store8_ne). split; try done.
  - change (um _) with (store8 (um s) x v). eapply links_ext; [|exact Hl]. intros b y Hin Hy. apply Hst. destruct (rep_apart s G L Hrep a n b Ha Hin); lia.
  - intros a' n' Ha'. destruct (Hlive a' n' Ha') as (Hh & Hs & Hg). split_and!; [done| |done]. change (um _) with (store8 (um s) x v). rewrite <- Hs. apply load32_ext. intros y Hy. apply Hst.
    destruct (decide (a' = a)) as [->|Hne]; [lia|]. destruct (Hap a' n' a n Ha' Ha Hne) as [H|H]; cbn in H; [destruct Hh as (? & _); cbn in *; lia|lia].
Qed.

(** The calls of a program and its writes to the memory it was given. *)
Inductive uop := UMalloc (nbytes : Z) | UFree (p : Z) | UWrite (p : Z) (i : nat) (b : Z).

Definition do_uop (fuel : nat) (op : uop) : M uheap Z :=
  match op with
  | UMalloc nbytes => malloc fuel base nbytes
  | UFree p => _ ← free fuel p; mret 0
  | UWrite p i b => _ ← modify (λ s, s <| um ::= λ m, store8 m (p + Z.of_nat i) (u8 b) |>); mret 0
  end.

(** The specification: a set of arrays of bytes, by address. *)
Definition arrays : Type := gmap Z (list Z).

Inductive spec_op : uop → arrays → Z → arrays → Prop :=
  | spec_refused n A : spec_op (UMalloc n) A 0 A
  | spec_malloc n A r bs : r ≠ 0 → A !! r = None → length bs = Z.to_nat n →
      (∀ q cs, A !! q = Some cs → r + n ≤ q ∨ q + Z.of_nat (length cs) ≤ r) → spec_op (UMalloc n) A r (<[r := bs]> A)
  | spec_free p A : is_Some (A !! p) → spec_op (UFree p) A 0 (delete p A)
  | spec_write p i b A bs : A !! p = Some bs → (i < length bs)%nat → spec_op (UWrite p i b) A 0 (<[p := <[i := u8 b]> bs]> A).

(** A correct program frees and writes only what it has. *)
Definition allowed (s : uheap) (A : arrays) (op : uop) : Prop :=
  match op with
  | UMalloc n => 0 ≤ n ≤ two31 - 32 ∧ grant_ok s (units n)
  | UFree p => is_Some (A !! p)
  | UWrite p i _ => ∃ bs, A !! p = Some bs ∧ (i < length bs)%nat
  end.

Definition holds (L : gmap Z Z) (m : memory) (A : arrays) : Prop := ∀ p bs, A !! p = Some bs →
  ∃ k, L !! (p - 8) = Some k ∧ Z.of_nat (length bs) ≤ 8 * k - 8 ∧ ∀ i b, bs !! i = Some b → m (p + Z.of_nat i) = b.

Definition represents (s : uheap) (A : arrays) : Prop := ∃ G L, heap s G L ∧ holds L (um s) A.

Lemma holds_keeps L m m' A : holds L m A → keeps L m m' → holds L m' A.
Proof.
  intros Hh Hk p bs Hp. destruct (Hh p bs Hp) as (k & H1 & H2 & H3). exists k. split_and!; [done|done|]. intros i b Hb. rewrite (Hk _ _ _ H1); [by apply H3|].
  apply lookup_lt_Some in Hb. unfold in_block. cbn. lia.
Qed.

Lemma holds_mono L L' m A : holds L m A → (∀ p bs k, A !! p = Some bs → L !! (p - 8) = Some k → L' !! (p - 8) = Some k) → holds L' m A.
Proof. intros Hh HL p bs Hp. destruct (Hh p bs Hp) as (k & H1 & H2 & H3). exists k. split_and!; [by eapply HL|done|done]. Qed.

Lemma malloc_arrays s G L A nbytes fuel : heap s G L → holds L (um s) A → 0 ≤ nbytes ≤ two31 - 32 → grant_ok s (units nbytes) → (4 * length G + 12 < fuel)%nat →
  ∃ r s' A', malloc fuel base nbytes s = Ok r s' ∧ spec_op (UMalloc nbytes) A r A' ∧ represents s' A' ∧ (r = 0 → ∀ gap gs, grants s ≠ Some gap :: gs).
Proof.
  intros Hheap Hh Hn Hgr Hfuel. destruct (units_bounds nbytes Hn) as (U1 & U2 & U3).
  destruct (malloc_spec s G L nbytes fuel Hheap Hn Hgr Hfuel) as [(s' & E & Hr & Hk & Hno)|(r & s' & G' & E & Hr & Hnone & Hk & _)].
  - exists 0, s', A. split_and!; [done|constructor|exists G, L; split; [by left|by eapply holds_keeps]|done].
  - destruct (hr_live _ _ _ Hr r (units nbytes) (lookup_insert_eq _ _ _)) as ((_ & R1 & _) & _). destruct (hr_base _ _ _ Hr) as (B1 & _). cbn in R1.
    set (bs := (λ i, um s' (r + 8 + Z.of_nat i)) <$> seq 0 (Z.to_nat nbytes)). assert (length bs = Z.to_nat nbytes) as Hlen by (unfold bs; by rewrite length_fmap, length_seq).
    assert (A !! (r + 8) = None) as HA. { destruct (A !! (r + 8)) as [cs|] eqn:EA; [|done]. destruct (Hh _ _ EA) as (k & Hk1 & _). replace (r + 8 - 8) with r in Hk1 by lia. by rewrite Hnone in Hk1. }
    exists (r + 8), s', (<[r + 8 := bs]> A). split_and!; [done| |exists G', (<[r := units nbytes]> L); split; [by left|]|lia].
    + constructor; [lia|done|done|]. intros q cs Hq. destruct (Hh q cs Hq) as (k & Hk1 & Hk2 & _). assert (q - 8 ≠ r) as Hne by (intros <-; by rewrite Hnone in Hk1).
      destruct (hr_apart _ _ _ Hr r (units nbytes) (q - 8) k) as [H|H]; [apply lookup_insert_eq|by rewrite lookup_insert_ne|done|cbn in H; lia|cbn in H; lia].
    + intros p cs [[<- <-]|[Hne Hp]]%lookup_insert_Some.
      * exists (units nbytes). replace (r + 8 - 8) with r by lia. split_and!; [apply lookup_insert_eq|rewrite Hlen; lia|]. intros i b Hb. unfold bs in Hb. apply list_lookup_fmap_Some in Hb as (j & -> & [-> _]%lookup_seq). done.
      * destruct (holds_keeps _ _ _ _ Hh Hk p cs Hp) as (k & H1 & H2 & H3). exists k. split_and!; [|done|done]. rewrite lookup_insert_ne; [done|]. intros ->. by rewrite Hnone in H1.
Qed.

Lemma free_arrays s G L A p fuel : heap s G L → holds L (um s) A → is_Some (A !! p) → (2 * length G + 4 < fuel)%nat →
  ∃ s', free fuel p s = Ok tt s' ∧ represents s' (delete p A).
Proof.
  intros Hheap Hh [bs Hp] Hfuel. destruct (Hh p bs Hp) as (k & Hk1 & Hk2 & _). destruct Hheap as [Hrep|(_ & _ & ->)]; [|by rewrite lookup_empty in Hk1].
  destruct (free_spec s G L Hrep fuel (p - 8) k Hk1 ltac:(simpl; lia)) as (s' & G' & E & Hr & _ & _ & Hk & _). replace (p - 8 + 8) with p in E by lia.
  exists s'. split; [done|]. exists G', (delete (p - 8) L). split; [by left|]. eapply holds_keeps; [|exact Hk]. eapply holds_mono; [intros q cs [_ Hq]%lookup_delete_Some; by apply Hh|].
  intros q cs j [Hne Hq]%lookup_delete_Some Hj. rewrite lookup_delete_ne by lia. done.
Qed.

Lemma write_arrays s G L A p bs i b : heap s G L → holds L (um s) A → A !! p = Some bs → (i < length bs)%nat →
  represents (s <| um ::= λ m, store8 m (p + Z.of_nat i) (u8 b) |>) (<[p := <[i := u8 b]> bs]> A).
Proof.
  intros Hheap Hh Hp Hi. destruct (Hh p bs Hp) as (k & Hk1 & Hk2 & Hk3). destruct Hheap as [Hrep|(_ & _ & ->)]; [|by rewrite lookup_empty in Hk1].
  exists G, L. split; [left; eapply write_rep; [done|exact Hk1|lia]|]. intros q cs [[<- <-]|[Hne Hq]]%lookup_insert_Some.
  - exists k. rewrite length_insert. split_and!; [done|done|]. intros j c Hj. change (um _) with (store8 (um s) (p + Z.of_nat i) (u8 b)).
    apply list_lookup_insert_Some in Hj as [(-> & <- & _)|[Hne Hj]]; [by rewrite store8_eq|]. rewrite store8_ne by lia. by apply Hk3.
  - destruct (Hh q cs Hq) as (j & Hj1 & Hj2 & Hj3). exists j. split_and!; [done|done|]. intros i' c Hc. change (um _) with (store8 (um s) (p + Z.of_nat i) (u8 b)). rewrite store8_ne; [by apply Hj3|].
    apply lookup_lt_Some in Hc. destruct (hr_apart _ _ _ Hrep (q - 8) j (p - 8) k Hj1 Hk1 ltac:(lia)) as [H|H]; cbn in H; lia.
Qed.

(** ** Claim *)

(** C13: the allocator implements independent arrays.  In any state of the heap that calls of
    [malloc] and [free] lead to, a call returns, and [malloc] gives a block of the bytes that
    were asked for, which overlaps no array that the program has, or 0 when [sbrk] refuses
    memory; [free] gives one back; and every array keeps the bytes that were written to it. *)
Theorem malloc_free_arrays s A op : represents s A → allowed s A op →
  ∃ fuel0, ∀ fuel, (fuel0 ≤ fuel)%nat → ∃ r s' A', do_uop fuel op s = Ok r s' ∧ spec_op op A r A' ∧ represents s' A' ∧
    (r = 0 → ∀ n, op = UMalloc n → ∀ gap gs, grants s ≠ Some gap :: gs).
Proof.
  intros (G & L & Hheap & Hh) Hop. exists (4 * length G + 13)%nat. intros fuel Hfuel. destruct op as [n|p|p i b]; cbn [allowed do_uop] in *.
  - destruct Hop as [Hn Hgr]. destruct (malloc_arrays s G L A n fuel Hheap Hh Hn Hgr ltac:(lia)) as (r & s' & A' & E & Hs & Hr & Hz). exists r, s', A'. split_and!; [done|done|done|]. by intros Er _ _; apply Hz.
  - destruct (free_arrays s G L A p fuel Hheap Hh Hop ltac:(lia)) as (s' & E & Hr). exists 0, s', (delete p A). rewrite (bind_ok _ _ _ _ _ E). split_and!; [done|by constructor|done|done].
  - destruct Hop as (bs & Hp & Hi). eexists 0, _, _. rewrite bind_modify. split_and!; [done|by constructor|by eapply write_arrays|done].
Qed.
End Heap.

(** ** The first call of a program *)

Definition first_heap : uheap := mkUheap (λ _, 0) 0 0x5000 [Some 0].

(** [malloc(100)] on a process of five pages: the block is not empty. *)
Lemma malloc_free_arrays_witness : ∃ fuel r s' bs, malloc fuel 0x1000 100 first_heap = Ok r s' ∧ r ≠ 0 ∧ length bs = 100%nat ∧ represents 0x1000 s' {[ r := bs ]}.
Proof.
  assert (represents 0x1000 first_heap ∅) as Hr by (exists [], ∅; split; [by right|by intros p bs Hp]).
  destruct (malloc_free_arrays 0x1000 first_heap ∅ (UMalloc 100) Hr) as (f0 & Hf); [split; [done|]; by intros gap gs [= <- <-]|].
  destruct (Hf f0 (le_n f0)) as (r & s' & A' & E & Hs & Hrep & Hz). inversion Hs as [n A E1 E2 E3|n A r' bs Hnz HA Hlen Hap E1 E2 E3 E4| |]; subst.
  - exfalso. by apply (Hz eq_refl 100 eq_refl 0 []).
  - exists f0, r, s', bs. split; [exact E|]. split; [exact Hnz|]. split; [exact Hlen|exact Hrep].
Defined.

(** A request of almost 4 gigabytes wraps around and is treated as one of no bytes. *)
Lemma malloc_wraps fuel base nbytes s : two32 - 7 ≤ nbytes < two32 → malloc fuel base nbytes s = malloc fuel base 0 s.
Proof.
  intros Hn. unfold malloc, sizeof_Header. assert (u32 (nbytes + 8 - 1) = nbytes + 7 - two32) as ->.
  { unfold u32. replace (nbytes + 8 - 1) with (nbytes + 7 - two32 + 1 * two32) by lia. rewrite Z.mod_add by done. apply Z.mod_small. unfold two32 in *. lia. }
  rewrite (Z.div_small (nbytes + 7 - two32) 8) by (unfold two32 in *; lia). done.
Qed.
