(* ===== verification/Ulib.v ===== *)
(** * ulib.c and printf.c: the library of the user programs

    The string routines work on the memory of the process; [printf] interprets its format
    character by character and fetches its arguments from the stack. *)

From S2P Require Import Prelude Layout State Str Ports Console.

(** ** ulib.c *)

(** The loops over strings run until a zero byte; [fuel] bounds the length of the string. *)
Fixpoint strcpy (fuel : nat) (m : memory) (s t : Z) : option memory :=
  match fuel with
  | O => None
  | S fuel' =>
      let c := m t in
      let m' := store8 m s c in
      if truthy c then strcpy fuel' m' (s + 1) (t + 1) else Some m'
  end.

Fixpoint strcmp (fuel : nat) (m : memory) (p q : Z) : option Z :=
  match fuel with
  | O => None
  | S fuel' =>
      if truthy (m p) && (m p =? m q) then strcmp fuel' m (p + 1) (q + 1)
      else Some (u8 (m p) - u8 (m q))
  end.

(** [ulib.c] has the loop of the kernel's [strlen]. *)
Definition ustrlen (fuel : nat) (m : memory) (s : Z) : option Z := strlen_loop fuel m s 0.

Definition umemset (m : memory) (dst c n : Z) : memory := stosb m dst c n.

Fixpoint strchr (fuel : nat) (m : memory) (s c : Z) : option Z :=
  match fuel with
  | O => None
  | S fuel' =>
      if truthy (m s) then if m s =? c then Some s else strchr fuel' m (s + 1) c
      else Some 0
  end.

(** The loop of [gets] with room for [n] more characters; [inp] is what is left to read. *)
Fixpoint gets_loop (n : nat) (m : memory) (buf i : Z) (inp : list Z) : memory * list Z :=
  match n, inp with
  | S n', c :: inp' =>
      let m' := store8 m (buf + i) c in
      if (c =? 10) || (c =? 13) then (store8 m' (buf + i + 1) 0, inp')
      else gets_loop n' m' buf (i + 1) inp'
  | _, _ => (store8 m (buf + i) 0, inp)
  end.
Definition ugets (m : memory) (buf max : Z) (inp : list Z) : memory * list Z :=
  gets_loop (Z.to_nat (max - 1)) m buf 0 inp.

(** [n] is an [int]: [n*10 + *s++ - '0'] wraps around. *)
Fixpoint atoi_loop (fuel : nat) (m : memory) (s n : Z) : option Z :=
  match fuel with
  | O => None
  | S fuel' =>
      if (chr "0" <=? m s) && (m s <=? chr "9")
      then atoi_loop fuel' m (s + 1) (s32 (n * 10 + m s - chr "0"))
      else Some n
  end.
Definition atoi (fuel : nat) (m : memory) (s : Z) : option Z := atoi_loop fuel m s 0.

(** [while(n-- > 0) *dst++ = *src++], upwards whatever the two ranges are. *)
Definition umemmove (m : memory) (dst src n : Z) : memory := copy_up m dst src (Z.to_nat n).

(** ** printf.c *)

Definition udigits : list Z := bytes_of "0123456789ABCDEF".

(** The digits of [x] in [buf], last one first. *)
Fixpoint udigit_loop (fuel : nat) (x base : Z) : list Z :=
  match fuel with
  | O => []
  | S fuel' =>
      nth (Z.to_nat (x mod base)) udigits 0 ::
        (if x / base =? 0 then [] else udigit_loop fuel' (x / base) base)
  end.

(** What [printint] puts into [buf], and what it writes. *)
Definition uprintint_buf (xx base sgn : Z) : list Z :=
  let neg := truthy sgn && (s32 xx <? 0) in
  let x := if neg then u32 (- xx) else u32 xx in
  udigit_loop 32 x base ++ (if neg then [chr "-"] else []).
Definition uprintint (xx base sgn : Z) : list Z := rev (uprintint_buf xx base sgn).

(** [while( *s != 0) putc(fd, *s++)]. *)
Fixpoint put_string (fuel : nat) (m : memory) (s : Z) : option (list Z) :=
  match fuel with
  | O => None
  | S fuel' => if truthy (m s) then (m s ::.) <$> put_string fuel' m (s + 1) else Some []
  end.

Definition null_string : list Z := bytes_of "(null)".

(** The loop of [printf]: [state] is 0 or the percent sign, [ap] points to the next argument;
    the result is what is written. *)
Fixpoint printf_loop (fuel : nat) (m : memory) (fmt i state ap : Z) : option (list Z) :=
  match fuel with
  | O => None
  | S fuel' =>
      if negb (truthy (m (fmt + i))) then Some []
      else
        let c := Z.land (m (fmt + i)) 0xff in
        let go := printf_loop fuel' m fmt (i + 1) in
        if state =? 0 then
          if c =? chr "%" then go (chr "%") ap
          else (app [c]) <$> go 0 ap
        else if state =? chr "%" then
          if c =? chr "d" then (app (uprintint (load32 m ap) 10 1)) <$> go 0 (ap + 4)
          else if (c =? chr "x") || (c =? chr "p") then
            (app (uprintint (load32 m ap) 16 0)) <$> go 0 (ap + 4)
          else if c =? chr "s" then
            let s := load32 m ap in
            str ← (if s =? 0 then Some null_string else put_string fuel' m s);
            (app str) <$> go 0 (ap + 4)
          else if c =? chr "c" then (app [u8 (load32 m ap)]) <$> go 0 (ap + 4)
          else if c =? chr "%" then (app [c]) <$> go 0 ap
          else (app [chr "%"; c]) <$> go 0 ap
        else go state ap
  end.

(** [printf(fd, fmt, ...)]: the arguments are the words at [ap]. *)
Definition printf (fuel : nat) (m : memory) (fmt ap : Z) : option (list Z) :=
  printf_loop fuel m fmt 0 0 ap.
