(* ===== verification/UlibProps.v ===== *)
(** * Properties of the user library

    [printf] writes what its format describes; numbers are numerals that fit its buffer and
    that [atoi] reads back; [gets] reads a line; the string routines on strings in memory. *)

From S2P Require Import Prelude Layout State Str Ports Console PrintProps Ulib.

(** ** Strings in memory *)

(** The characters [l] and a zero byte at [s]. *)
Fixpoint string_at (m : memory) (s : Z) (l : list Z) : Prop :=
  match l with
  | [] => m s = 0
  | c :: l' => m s = c ∧ c ≠ 0 ∧ string_at m (s + 1) l'
  end.

Lemma string_at_ext m m' s l :
  (∀ x, s ≤ x ≤ s + Z.of_nat (length l) → m' x = m x) → string_at m s l → string_at m' s l.
Proof.
  revert s. induction l as [|c l IH]; intros s Hx; simpl in *.
  - by rewrite Hx by lia.
  - rewrite Hx by lia. intros (? & ? & ?). split_and!; [done..|]. apply IH; [|done]. intros. apply Hx. lia.
Qed.

Lemma put_string_at m s l fuel :
  string_at m s l → (length l < fuel)%nat → put_string fuel m s = Some l.
Proof.
  revert s fuel. induction l as [|c l IH]; intros s [|fuel] Hs Hf; simpl in *; try lia.
  - by rewrite Hs.
  - destruct Hs as (-> & Hc & Hs). apply truthy_spec in Hc. by rewrite Hc, IH by (done || lia).
Qed.

Lemma strlen_at m s l n fuel :
  string_at m (s + n) l → (length l < fuel)%nat →
  strlen_loop fuel m s n = Some (n + Z.of_nat (length l)).
Proof.
  revert n fuel. induction l as [|c l IH]; intros n [|fuel] Hs Hf; simpl in *; try lia.
  - rewrite Hs. simpl. f_equal. lia.
  - destruct Hs as (-> & Hc & Hs). apply truthy_spec in Hc. rewrite Hc, IH; [f_equal; lia| |lia].
    by rewrite Z.add_assoc.
Qed.

(** ** printf *)

(** What a format writes with a list of arguments; [None] if the arguments do not fit the
    directives. *)
Fixpoint format (fmt : list Z) (args : list carg) : option (list Z) :=
  match fmt with
  | [] => Some []
  | c :: fmt' =>
      if negb (c =? chr "%") then (app [c]) <$> format fmt' args
      else
        match fmt' with
        | [] => Some []
        | d :: fmt'' =>
            if d =? chr "d" then
              match args with AInt z :: args' => (app (uprintint z 10 1)) <$> format fmt'' args' | _ => None end
            else if (d =? chr "x") || (d =? chr "p") then
              match args with AInt z :: args' => (app (uprintint z 16 0)) <$> format fmt'' args' | _ => None end
            else if d =? chr "s" then
              match args with
              | AStr s :: args' => (app s) <$> format fmt'' args'
              | ANull :: args' => (app null_string) <$> format fmt'' args'
              | _ => None
              end
            else if d =? chr "c" then
              match args with AInt z :: args' => (app [u8 z]) <$> format fmt'' args' | _ => None end
            else if d =? chr "%" then (app [d]) <$> format fmt'' args
            else (app [chr "%"; d]) <$> format fmt'' args
        end
  end.

(** The word at [a] is the argument. *)
Definition arg_at (m : memory) (a : Z) (x : carg) : Prop :=
  match x with
  | AInt z => load32 m a = u32 z
  | AStr s => load32 m a ≠ 0 ∧ string_at m (load32 m a) s
  | ANull => load32 m a = 0
  end.
Fixpoint args_at (m : memory) (ap : Z) (args : list carg) : Prop :=
  match args with
  | [] => True
  | x :: args' => arg_at m ap x ∧ args_at m (ap + 4) args'
  end.

Definition arg_len (x : carg) : nat := match x with AStr s => length s | _ => 0 end.

Lemma u32_idem x : u32 (u32 x) = u32 x.
Proof. unfold u32. by rewrite Z.mod_mod by done. Qed.

Lemma uprintint_u32 x base sgn : uprintint (u32 x) base sgn = uprintint x base sgn.
Proof.
  unfold uprintint, uprintint_buf.
  assert (s32 (u32 x) = s32 x) as -> by (unfold s32; by rewrite u32_idem).
  assert (u32 (- u32 x) = u32 (- x)) as ->; [|by rewrite u32_idem].
  unfold u32. by rewrite <- !(Z.sub_0_l), Zminus_mod_idemp_r.
Qed.

Lemma land_char c : 0 < c < 256 → Z.land c 0xff = c.
Proof. intros. change 0xff with (Z.ones 8). rewrite Z.land_ones by lia. apply Z.mod_small. lia. Qed.

Lemma u8_u32 x : u8 (u32 x) = u8 x.
Proof. unfold u8, u32, two32. zl. Qed.

Lemma format_pct d fmt args :
  format (chr "%" :: d :: fmt) args =
  (if d =? chr "d" then
     match args with AInt z :: args' => (app (uprintint z 10 1)) <$> format fmt args' | _ => None end
   else if (d =? chr "x") || (d =? chr "p") then
     match args with AInt z :: args' => (app (uprintint z 16 0)) <$> format fmt args' | _ => None end
   else if d =? chr "s" then
     match args with
     | AStr s :: args' => (app s) <$> format fmt args'
     | ANull :: args' => (app null_string) <$> format fmt args'
     | _ => None
     end
   else if d =? chr "c" then
     match args with AInt z :: args' => (app [u8 z]) <$> format fmt args' | _ => None end
   else if d =? chr "%" then (app [d]) <$> format fmt args
   else (app [chr "%"; d]) <$> format fmt args).
Proof. done. Qed.

Section Printf.
Context (m : memory) (fmt : Z).

(** There is fuel for the format and for the strings. *)
Definition enough (fuel : nat) (F : list Z) (args : list carg) : Prop :=
  (length F < fuel)%nat ∧ Forall (λ x, length F + arg_len x < fuel)%nat args.

Lemma enough_arg fuel c F x args : enough (S fuel) (c :: F) (x :: args) → enough fuel F args.
Proof.
  intros [H1 [_ H2]%Forall_cons]. split; [simpl in *; lia|]. eapply Forall_impl; [done|]. simpl. lia.
Qed.
Lemma enough_char fuel c F args : enough (S fuel) (c :: F) args → enough fuel F args.
Proof.
  intros [H1 H2]. split; [simpl in *; lia|]. eapply Forall_impl; [done|]. simpl. lia.
Qed.

(** Output of a directive, then the rest of the format. *)
Lemma fmap_app_some (pre : list Z) (o o' : option (list Z)) out :
  app pre <$> o = Some out → (∀ out', o = Some out' → o' = Some out') → app pre <$> o' = Some out.
Proof. intros (out' & -> & ->)%fmap_Some H. by rewrite (H out'). Qed.

(** The directives that take an argument. *)
Lemma int_directive F z args ap fuel out (f : Z → list Z) (go : Z → option (list Z)) c :
  (∀ x, f (u32 x) = f x) → args_at m ap (AInt z :: args) → enough (S fuel) (c :: F) (AInt z :: args) →
  (args_at m (ap + 4) args → enough fuel F args → ∀ out', format F args = Some out' → go (ap + 4) = Some out') →
  app (f z) <$> format F args = Some out → app (f (load32 m ap)) <$> go (ap + 4) = Some out.
Proof.
  intros Hf [Hz Ha] He Hgo Ho. simpl in Hz. rewrite Hz, Hf.
  eapply fmap_app_some; [done|]. apply Hgo; [done|]. by eapply enough_arg.
Qed.

Lemma str_directive F x args ap fuel out (go : Z → option (list Z)) c :
  args_at m ap (x :: args) → enough (S fuel) (c :: F) (x :: args) →
  (args_at m (ap + 4) args → enough fuel F args → ∀ out', format F args = Some out' → go (ap + 4) = Some out') →
  match x with
  | AStr s => app s <$> format F args
  | ANull => app null_string <$> format F args
  | _ => None
  end = Some out →
  (str ← (if load32 m ap =? 0 then Some null_string else put_string fuel m (load32 m ap));
   app str <$> go (ap + 4)) = Some out.
Proof.
  intros [Hx Ha] He Hgo Ho. specialize (Hgo Ha (enough_arg _ _ _ _ _ He)).
  destruct x as [z|str|]; [done| |]; simpl in Hx.
  - destruct Hx as [Hne Hstr]. rewrite (proj2 (Z.eqb_neq _ _) Hne), (put_string_at _ _ str); [|done|].
    + by eapply fmap_app_some.
    + destruct He as [_ [He _]%Forall_cons]. simpl in He. lia.
  - rewrite Hx. by eapply fmap_app_some.
Qed.

Lemma printf_loop_format F :
  Forall (λ c, 0 < c < 256) F → ∀ args i ap fuel out,
  string_at m (fmt + i) F → args_at m ap args → enough fuel F args →
  (format F args = Some out → printf_loop fuel m fmt i 0 ap = Some out) ∧
  (format (chr "%" :: F) args = Some out → printf_loop fuel m fmt i (chr "%") ap = Some out).
Proof.
  induction 1 as [|c F Hc _ IH]; intros args i ap [|fuel] out Hs Ha Hf; try by destruct Hf; lia.
  { cbn [string_at] in Hs. cbn [printf_loop]. rewrite Hs. done. }
  destruct Hs as (Hm & H0 & Hs). rewrite <- Z.add_assoc in Hs.
  assert (∀ args ap, args_at m ap args → enough fuel F args → ∀ out',
    format F args = Some out' → printf_loop fuel m fmt (i + 1) 0 ap = Some out') as IH0.
  { intros args' ap' ? ? out'. by apply IH. }
  cbn [printf_loop]. rewrite Hm, (proj2 (truthy_spec c)), land_char by done.
  cbn [negb]. cbv zeta. split.
  - rewrite Z.eqb_refl. cbn [format]. destruct (c =? chr "%") eqn:E; cbn [negb].
    + intros Ho. eapply IH; [done..|by eapply enough_char|]. cbn [format]. exact Ho.
    + intros Ho. eapply fmap_app_some; [done|]. by apply IH0; [|eapply enough_char].
  - rewrite format_pct. change (chr "%" =? 0) with false. rewrite Z.eqb_refl.
    destruct (c =? chr "d").
    { destruct args as [|[z| |] args]; try done. eapply (int_directive _ _ _ _ _ _ (λ x, uprintint x 10 1) _ c); [|done..|by apply IH0].
      intros. apply uprintint_u32. }
    destruct ((c =? chr "x") || (c =? chr "p")).
    { destruct args as [|[z| |] args]; try done. eapply (int_directive _ _ _ _ _ _ (λ x, uprintint x 16 0) _ c); [|done..|by apply IH0].
      intros. apply uprintint_u32. }
    destruct (c =? chr "s").
    { destruct args as [|x args]; [done|]. intros Ho. eapply (str_directive _ x _ _ _ _ _ c); [done..|by apply IH0|].
      by destruct x. }
    destruct (c =? chr "c").
    { destruct args as [|[z| |] args]; try done. eapply (int_directive _ _ _ _ _ _ (λ x, [u8 x]) _ c); [|done..|by apply IH0].
      intros. by rewrite u8_u32. }
    destruct (c =? chr "%"); intros Ho; (eapply fmap_app_some; [done|]); by apply IH0; [|eapply enough_char].
Qed.


End Printf.

(** The format [%d:%s] and a newline with the arguments -7 and [ab], in memory. *)
Definition example_mem : memory := λ a,
  if (1000 <=? a) && (a <? 1006) then nth (Z.to_nat (a - 1000)) (bytes_of "%d:%s") 0
  else if (2000 <=? a) && (a <? 2008) then nth (Z.to_nat (a - 2000)) [249; 255; 255; 255; 184; 11; 0; 0] 0
  else if (3000 <=? a) && (a <? 3002) then nth (Z.to_nat (a - 3000)) (bytes_of "ab") 0
  else 0.


(** ** Numbers *)

(** The upper-case digit. *)
Definition upper (c : Z) : Z := if (97 <=? c) && (c <=? 102) then c - 32 else c.

Lemma udigit_upper i : 0 ≤ i < 16 → nth (Z.to_nat i) udigits 0 = upper (nth (Z.to_nat i) digits 0).
Proof.
  intros Hi. assert (Forall (λ i, nth (Z.to_nat i) udigits 0 = upper (nth (Z.to_nat i) digits 0)) (seqZ 0 16)) as Hf
    by (apply (bool_decide_unpack _); by vm_compute).
  rewrite Forall_forall in Hf. apply Hf, elem_of_seqZ. lia.
Qed.

Lemma udigit_loop_upper base fuel x :
  2 ≤ base ≤ 16 → udigit_loop fuel x base = upper <$> digit_loop fuel x base.
Proof.
  intros Hb. revert x. induction fuel as [|fuel IH]; intros x; [done|].
  cbn [udigit_loop digit_loop fmap list_fmap]. rewrite udigit_upper.
  - f_equal. by destruct (x / base =? 0).
  - pose proof (Z.mod_pos_bound x base ltac:(lia)). lia.
Qed.

Lemma udigit_length base fuel k x :
  2 ≤ base → 0 ≤ x < base ^ Z.of_nat (S k) → (length (udigit_loop fuel x base) ≤ S k)%nat.
Proof.
  intros Hb. revert fuel x. induction k as [|k IH]; intros [|fuel] x Hx; cbn [udigit_loop length]; try lia.
  - rewrite (proj2 (Z.eqb_eq _ _)); [simpl; lia|]. apply Z.div_small. change (Z.of_nat 1) with 1 in Hx. lia.
  - destruct (x / base =? 0); [simpl; lia|]. apply le_n_S, IH. split; [apply Z.div_pos; lia|].
    apply Z.div_lt_upper_bound; [lia|]. rewrite <- Z.pow_succ_r by lia. rewrite Nat2Z.inj_succ in Hx. lia.
Qed.

(** User-level [printint], for the bases 10 and 16 that [printf] passes: the digits and the
    sign fit into its buffer of 16 bytes for every 32-bit number, and what it writes is the
    kernel's numeral of the number, with the letters in upper case. *)
Lemma uprintint_fits xx base sgn :
  base = 10 ∨ base = 16 →
  (length (uprintint_buf xx base sgn) ≤ 16)%nat ∧
  uprintint xx base sgn = upper <$> printint_chars xx base sgn.
Proof.
  intros Hb. assert (2 ≤ base ≤ 16) as Hb' by (destruct Hb; lia).
  unfold uprintint, uprintint_buf, printint_chars. set (neg := truthy sgn && (s32 xx <? 0)).
  set (x := if neg then u32 (- xx) else u32 xx). split.
  - rewrite length_app. assert (is_u32 x) as Hx by (unfold x; destruct neg; apply u32_range).
    assert (length (udigit_loop 32 x base) ≤ 10)%nat.
    { apply udigit_length; [lia|]. unfold is_u32, two32 in Hx.
      destruct Hb as [->| ->]; (split; [lia|]); [change (10 ^ Z.of_nat 10) with 10000000000
        |change (16 ^ Z.of_nat 10) with 1099511627776]; lia. }
    destruct neg; cbn [length]; lia.
  - rewrite udigit_loop_upper by done. rewrite !rev_app_distr, fmap_app.
    f_equal; [by destruct neg|]. symmetry. apply List.map_rev.
Qed.

(** *** Reading numbers *)

(** [numeral] goes on from the value [n]. *)
Definition numeral_from (n : Z) (l : list Z) : Z := foldl (λ a c, 10 * a + digit_val c) n l.

Definition decimal_digit (c : Z) : Prop := ∃ i, 0 ≤ i < 10 ∧ c = nth (Z.to_nat i) digits 0.

Lemma decimal_digit_spec c : decimal_digit c → chr "0" ≤ c ≤ chr "9" ∧ digit_val c = c - chr "0".
Proof.
  intros (i & Hi & ->). rewrite digit_val_nth by lia.
  assert (Forall (λ i, nth (Z.to_nat i) digits 0 = i + chr "0") (seqZ 0 10)) as Hf
    by (apply (bool_decide_unpack _); by vm_compute).
  rewrite Forall_forall in Hf. rewrite Hf by (apply elem_of_seqZ; lia).
  change (chr "0") with 48. change (chr "9") with 57. lia.
Qed.

Lemma numeral_from_ge n l : 0 ≤ n → Forall decimal_digit l → n ≤ numeral_from n l.
Proof.
  intros Hn Hl. revert n Hn. induction Hl as [|c l Hc _ IH]; intros n Hn; [simpl; lia|].
  apply decimal_digit_spec in Hc as [Hc Hv]. unfold numeral_from in *. cbn [foldl].
  specialize (IH (10 * n + digit_val c)). lia.
Qed.

Lemma s32_nonneg x : 0 ≤ x < two31 → s32 x = x.
Proof. intros Hx. unfold s32, u32. rewrite Z.mod_small by (unfold two31, two32 in *; lia). by destruct (Z.ltb_spec x two31); [|lia]. Qed.

Lemma atoi_loop_numeral m l s n fuel :
  string_at m s l → Forall decimal_digit l → 0 ≤ n → numeral_from n l < two31 → (length l < fuel)%nat →
  atoi_loop fuel m s n = Some (numeral_from n l).
Proof.
  intros Hs Hl. revert s n fuel Hs. induction Hl as [|c l Hc Hl IH]; intros s n [|fuel] Hs Hn Hv Hf; simpl in Hf; try lia.
  - simpl in Hs. cbn [atoi_loop]. by rewrite Hs.
  - destruct Hs as (Hm & _ & Hs). apply decimal_digit_spec in Hc as [Hc Hd]. cbn [atoi_loop].
    rewrite Hm, (proj2 (Z.leb_le _ _)), (proj2 (Z.leb_le _ _)) by lia. cbn [andb].
    unfold numeral_from in Hv |- *. cbn [foldl] in Hv |- *.
    replace (n * 10 + c - chr "0") with (10 * n + digit_val c) by lia.
    pose proof (numeral_from_ge (10 * n + digit_val c) l ltac:(lia) Hl) as Hge. unfold numeral_from in Hge.
    rewrite s32_nonneg by lia. apply IH; [done|lia|exact Hv|lia].
Qed.

Lemma upper_decimal c : decimal_digit c → upper c = c.
Proof.
  intros [Hc _]%decimal_digit_spec. unfold upper. change (chr "9") with 57 in Hc.
  by destruct (Z.leb_spec 97 c); [lia|].
Qed.

(** C37: [atoi] reads back what [printf]'s [%d] writes: for every nonnegative [int], the
    decimal numeral of it in memory is read as the number. *)
Theorem atoi_printint_roundtrip m s x fuel :
  0 ≤ x < two31 → string_at m s (uprintint x 10 1) → (16 < fuel)%nat → atoi fuel m s = Some x.
Proof.
  intros Hx Hs Hf. assert (truthy 1 && (s32 x <? 0) = false) as Hneg.
  { rewrite s32_nonneg by done. simpl. apply Z.ltb_ge. lia. }
  assert (u32 x = x) as Hu by (unfold u32; apply Z.mod_small; unfold two31, two32 in *; lia).
  assert (uprintint x 10 1 = rev (udigit_loop 32 x 10)) as E.
  { unfold uprintint, uprintint_buf. rewrite Hneg, Hu. by rewrite app_nil_r. }
  pose proof (digit_loop_digits 10 ltac:(lia) 32 x) as Hd.
  assert (udigit_loop 32 x 10 = digit_loop 32 x 10) as E'.
  { rewrite udigit_loop_upper by lia. rewrite <- (list_fmap_id (digit_loop 32 x 10)) at 2.
    apply list_fmap_ext. intros i c Hc. apply upper_decimal. by eapply Forall_lookup_1 in Hc. }
  rewrite E, E' in Hs.
  assert (numeral_from 0 (rev (digit_loop 32 x 10)) = x) as Hv.
  { apply (digit_loop_value 10); [lia|]. split; [lia|]. eapply Z.lt_trans; [apply Hx|]. by vm_compute. }
  rewrite <- Hv at 1. apply atoi_loop_numeral; [done|by apply List.Forall_rev|lia|by rewrite Hv; lia|].
  rewrite length_rev, <- E'. pose proof (udigit_length 10 32 9 x) as Hlen.
  enough (length (udigit_loop 32 x 10) ≤ 10)%nat by lia. apply Hlen; [lia|]. split; [lia|].
  eapply Z.lt_trans; [apply Hx|]. by vm_compute.
Qed.

Lemma atoi_printint_roundtrip_witness :
  atoi 17 (λ a, nth (Z.to_nat a) (bytes_of "4711") 0) 0 = Some 4711.
Proof. apply atoi_printint_roundtrip; [by split|by vm_compute|lia]. Defined.

(** ** Lines and strings *)

(** The first line of the input, with its newline or carriage return, cut after [n]
    characters. *)
Fixpoint first_line (n : nat) (inp : list Z) : list Z :=
  match n, inp with
  | S n', c :: inp' => c :: (if (c =? 10) || (c =? 13) then [] else first_line n' inp')
  | _, _ => []
  end.

Lemma string_at_store m s l a v : a < s ∨ s + Z.of_nat (length l) < a → string_at m s l → string_at (store8 m a v) s l.
Proof. intros Ha. apply string_at_ext. intros x Hx. apply store8_ne. lia. Qed.

Lemma gets_loop_reads n inp m buf i :
  0 ∉ inp →
  let '(m', rest) := gets_loop n m buf i inp in
  inp = first_line n inp ++ rest ∧ string_at m' (buf + i) (first_line n inp) ∧
  (∀ x, x < buf + i ∨ buf + i + Z.of_nat (length (first_line n inp)) < x → m' x = m x).
Proof.
  revert inp m i. induction n as [|n IH]; intros inp m i H0.
  { cbn [gets_loop first_line]. split_and!; [done|apply store8_eq|]. intros x Hx. apply store8_ne. simpl in Hx. lia. }
  destruct inp as [|c inp]; cbn [gets_loop first_line].
  { split_and!; [done|apply store8_eq|]. intros x Hx. apply store8_ne. simpl in Hx. lia. }
  apply not_elem_of_cons in H0 as [Hc H0].
  destruct ((c =? 10) || (c =? 13)).
  - split_and!; [done| |].
    + cbn [string_at]. rewrite store8_eq. split_and!; [by rewrite store8_ne, store8_eq by lia|done..].
    + intros x Hx. simpl in Hx. by rewrite !store8_ne by lia.
  - specialize (IH inp (store8 m (buf + i) c) (i + 1) H0).
    destruct (gets_loop n (store8 m (buf + i) c) buf (i + 1) inp) as [m' rest].
    destruct IH as (Hin & Hs & Hm). rewrite Z.add_assoc in Hs, Hm. split_and!.
    + by rewrite <- app_comm_cons, <- Hin.
    + cbn [string_at]. split_and!; [|done..]. by rewrite Hm, store8_eq by lia.
    + intros x Hx. cbn [length] in Hx. rewrite Hm by lia. apply store8_ne. lia.
Qed.

Lemma first_line_length n inp : (length (first_line n inp) ≤ n)%nat.
Proof.
  revert inp. induction n as [|n IH]; intros [|c inp]; simpl; try lia.
  destruct (_ || _); simpl; [lia|]. specialize (IH inp). lia.
Qed.

(** [gets] reads a line.  It takes from the input its first line, with the newline, or the
    first [max-1] characters of a longer one, and puts it into [buf] as a string that fits in
    [max] bytes; it writes nowhere else. *)
Theorem gets_reads_line m buf max inp :
  1 ≤ max → 0 ∉ inp →
  let '(m', rest) := ugets m buf max inp in
  let line := first_line (Z.to_nat (max - 1)) inp in
  inp = line ++ rest ∧ string_at m' buf line ∧ Z.of_nat (length line) < max ∧
  (∀ x, x < buf ∨ buf + max ≤ x → m' x = m x).
Proof.
  intros Hmax H0. pose proof (gets_loop_reads (Z.to_nat (max - 1)) inp m buf 0 H0) as H. unfold ugets.
  destruct (gets_loop _ m buf 0 inp) as [m' rest]. destruct H as (Hin & Hs & Hm).
  rewrite Z.add_0_r in Hs, Hm. pose proof (first_line_length (Z.to_nat (max - 1)) inp).
  split_and!; [done..|lia|]. intros x Hx. apply Hm. lia.
Qed.


Lemma strcpy_loop_copies l m s t fuel :
  string_at m t l → (length l < fuel)%nat → s ≠ t →
  (t + Z.of_nat (length l) < s ∨ s < t) →
  ∃ m', strcpy fuel m s t = Some m' ∧ string_at m' s l ∧
        (∀ x, x < s ∨ s + Z.of_nat (length l) < x → m' x = m x).
Proof.
  revert m s t fuel. induction l as [|c l IH]; intros m s t [|fuel] Ht Hf Hne Hst; simpl in Hf; try lia; cbn [strcpy].
  - simpl in Ht. rewrite Ht. eexists. split_and!; [done|apply store8_eq|]. intros x Hx. apply store8_ne. simpl in Hx. lia.
  - destruct Ht as (Hm & Hc & Ht). rewrite Hm, (proj2 (truthy_spec c)) by done. cbn [length] in *.
    destruct (IH (store8 m s c) (s + 1) (t + 1) fuel) as (m' & Hrun & Hs & Hk); [|lia..|].
    { apply string_at_store; [lia|done]. }
    exists m'. split_and!; [done| |].
    + cbn [string_at]. split_and!; [|done..]. by rewrite Hk, store8_eq by lia.
    + intros x Hx. rewrite Hk by lia. apply store8_ne. lia.
Qed.

(** [strcmp] is 0 exactly on equal strings. *)
Lemma strcmp_zero l1 l2 m p q fuel :
  string_at m p l1 → string_at m q l2 → Forall (λ c, 0 < c < 256) l1 → Forall (λ c, 0 < c < 256) l2 →
  (length l1 < fuel)%nat → ∃ r, strcmp fuel m p q = Some r ∧ (r = 0 ↔ l1 = l2).
Proof.
  revert l2 p q fuel. induction l1 as [|c l1 IH]; intros l2 p q [|fuel] Hp Hq H1 H2 Hf; simpl in Hf; try lia; cbn [strcmp].
  - simpl in Hp. rewrite Hp. simpl. eexists. split; [done|]. destruct l2 as [|d l2]; simpl in Hq.
    + by rewrite Hq.
    + destruct Hq as (-> & _ & _). apply Forall_cons in H2 as [Hd _].
      unfold u8. rewrite (Z.mod_small d) by lia. change (0 mod 256) with 0. split; [lia|done].
  - destruct Hp as (Hm & Hc & Hp). apply Forall_cons in H1 as [Hc1 H1].
    rewrite Hm, (proj2 (truthy_spec c)) by done. cbn [andb]. destruct l2 as [|d l2]; simpl in Hq.
    + rewrite Hq, (proj2 (Z.eqb_neq c 0)) by done. eexists. split; [done|].
      unfold u8. rewrite (Z.mod_small c) by lia. change (0 mod 256) with 0. split; [lia|done].
    + destruct Hq as (Hmq & Hd & Hq). apply Forall_cons in H2 as [Hd1 H2]. rewrite Hmq.
      destruct (Z.eqb_spec c d) as [->|Hne].
      * destruct (IH l2 (p + 1) (q + 1) fuel) as (r & -> & Hr); [done..|lia|].
        exists r. split; [done|]. naive_solver.
      * eexists. split; [done|]. unfold u8. rewrite !Z.mod_small by lia. split; [lia|congruence].
Qed.

(** The string routines of the library: [strlen] is the length, [strcmp] is zero exactly on
    equal strings, and [strcpy] makes a copy of a string that it does not overlap and leaves
    the rest of memory alone. *)
Lemma ulib_strings m p q l1 l2 fuel :
  string_at m p l1 → string_at m q l2 → Forall (λ c, 0 < c < 256) l1 → Forall (λ c, 0 < c < 256) l2 →
  (length l1 < fuel)%nat →
  ustrlen fuel m p = Some (Z.of_nat (length l1)) ∧
  (∃ r, strcmp fuel m p q = Some r ∧ (r = 0 ↔ l1 = l2)) ∧
  (∀ s, p + Z.of_nat (length l1) < s ∨ s < p →
     ∃ m', strcpy fuel m s p = Some m' ∧ string_at m' s l1 ∧
           (∀ x, x < s ∨ s + Z.of_nat (length l1) < x → m' x = m x)).
Proof.
  intros Hp Hq H1 H2 Hf. split_and!.
  - unfold ustrlen. rewrite (strlen_at m p l1 0); [done|by rewrite Z.add_0_r|done].
  - by apply strcmp_zero with (l2 := l2).
  - intros s Hs. apply strcpy_loop_copies; [done..|lia|done].
Qed.

(** [memmove] copies where the destination lies below the source or apart from it, as in its
    uses; where it begins inside the source it does not, though the kernel's does. *)
Lemma umemmove_copies m dst src n x :
  0 ≤ n → dst ≤ src ∨ src + n ≤ dst → umemmove m dst src n x = memmove m dst src (Z.to_nat n) x.
Proof. intros Hn Hd. unfold umemmove. rewrite copy_up_closed, memmove_closed by lia. done. Qed.

Lemma umemmove_overlap :
  let m : memory := λ a, nth (Z.to_nat a) [1; 2; 3] 0 in
  umemmove m 1 0 2 2 = 1 ∧ memmove m 1 0 2 2 = 2.
Proof. by vm_compute. Qed.
