(* ===== verification/User.v ===== *)
(** * User programs

    A user program is a tree of system calls: at each call the kernel's reply selects how the
    program goes on.  Strings are lists of characters without their zero byte, and what a call
    reads or writes in the memory of the process is part of the call and of its reply. *)

From S2P Require Import Prelude Layout State Str Ports Console Ulib UlibProps.

(** The system calls of user.h that the programs make. *)
Inductive scall :=
  | SFork
  | SWait
  | SPipe
  | SRead (fd n : Z)
  | SWrite (fd : Z) (s : list Z)
  | SClose (fd : Z)
  | SKill (pid : Z)
  | SExec (path : list Z) (argv : list (list Z))
  | SOpen (path : list Z) (mode : Z)
  | SMknod (path : list Z) (major minor : Z)
  | SUnlink (path : list Z)
  | SFstat (fd : Z)
  | SLink (old new : list Z)
  | SMkdir (path : list Z)
  | SChdir (path : list Z)
  | SDup (fd : Z)
  | SSleep (n : Z).

(** What the call returns, and what it stored for the caller: the bytes read, the two
    descriptors of a pipe, or the fields [type, dev, ino, nlink, size] of a [struct stat]. *)
Record reply := mkReply { ret : Z; stored : list Z }.

Inductive prog (A : Type) : Type :=
  | Ret (a : A)
  | Exit
  | Sys (c : scall) (k : reply → prog A)
  | Diverge.   (* the fuel of a loop is used up *)
Arguments Ret {A} a.
Arguments Exit {A}.
Arguments Sys {A} c k.
Arguments Diverge {A}.

#[export] Instance prog_ret : MRet prog := @Ret.
#[export] Instance prog_bind : MBind prog := λ A B f,
  fix bind (p : prog A) : prog B :=
    match p with
    | Ret a => f a
    | Exit => Exit
    | Sys c k => Sys c (λ r, bind (k r))
    | Diverge => Diverge
    end.

Definition sys (c : scall) : prog reply := Sys c Ret.
(** A call of which only the value matters. *)
Definition call (c : scall) : prog Z := Sys c (λ r, Ret (ret r)).
Definition do_ (c : scall) : prog unit := Sys c (λ _, Ret tt).

(** printf.c writes its characters one at a time. *)
Fixpoint puts (fd : Z) (s : list Z) : prog unit :=
  match s with [] => Ret tt | c :: s' => _ ← do_ (SWrite fd [c]); puts fd s' end.

(** [printf(fd, fmt, ...)] with arguments that fit the format. *)
Definition uprintf (fd : Z) (fmt : list Z) (args : list carg) : prog unit :=
  match format fmt args with Some out => puts fd out | None => Diverge end.

(** [for(i = 0; i < argc; i++) body(argv[i])]. *)
Fixpoint foreach {A} (l : list A) (body : A → prog unit) : prog unit :=
  match l with [] => Ret tt | x :: l' => _ ← body x; foreach l' body end.

(** ulib.c *)
Definition ustat (path : list Z) : prog reply :=
  fd ← call (SOpen path 0);
  if fd <? 0 then Ret (mkReply (-1) [])
  else
    r ← sys (SFstat fd);
    _ ← do_ (SClose fd);
    Ret r.

(** ** Programs that read one input and write one output *)

(** What can be read: the bytes left, and how many of them the next calls of [read] give at
    most; when the list is used up they give what is asked for. *)
Record input := mkInput { in_bytes : list Z; in_sizes : list nat }.

Definition take_input (i : input) (n : nat) : list Z * input :=
  let k := match in_sizes i with [] => n | k :: _ => Nat.min k n end in
  (take k (in_bytes i), mkInput (drop k (in_bytes i)) (tail (in_sizes i))).

(** The program with this input: its result, [None] if it exits; what it writes to the
    standard output; and what it leaves unread.  Every write is done in full.  Other calls
    return 0. *)
Fixpoint feed {A} (p : prog A) (i : input) : option (option A * list Z * input) :=
  match p with
  | Ret a => Some (Some a, [], i)
  | Exit => Some (None, [], i)
  | Diverge => None
  | Sys c k =>
      match c with
      | SRead _ n =>
          let '(d, i') := take_input i (Z.to_nat n) in
          feed (k (mkReply (Z.of_nat (length d)) d)) i'
      | SWrite fd s =>
          '(o, out, i') ← feed (k (mkReply (Z.of_nat (length s)) [])) i;
          Some (o, (if fd =? 1 then s else []) ++ out, i')
      | _ => feed (k (mkReply 0 [])) i
      end
  end.

Lemma feed_bind {A B} (p : prog A) (f : A → prog B) i a out i1 o out2 i2 :
  feed p i = Some (Some a, out, i1) → feed (f a) i1 = Some (o, out2, i2) →
  feed (p ≫= f) i = Some (o, out ++ out2, i2).
Proof.
  revert i out i1. induction p as [x| |c k IH|]; intros i out i1 Hp Hf; cbn in Hp; try done.
  - by simplify_eq.
  - change (Sys c k ≫= f) with (Sys c (λ r, k r ≫= f)). destruct c; cbn [feed] in *; try by eapply IH.
    apply bind_Some in Hp as ([[o1 out1] i'] & Hk & Hp). simplify_eq.
    by rewrite (IH _ _ _ _ Hk Hf), <- app_assoc.
Qed.

Lemma feed_puts s i : feed (puts 1 s) i = Some (Some tt, s, i).
Proof.
  induction s as [|c s IH]; [done|]. cbn [puts].
  apply (feed_bind (do_ (SWrite 1 [c])) _ _ tt [c] i (Some tt) s i); [done|exact IH].
Qed.

Lemma feed_uprintf fmt args out i :
  format fmt args = Some out → feed (uprintf 1 fmt args) i = Some (Some tt, out, i).
Proof. unfold uprintf. intros ->. apply feed_puts. Qed.
