(* ===== verification/Grep.v ===== *)
(** * grep.c: searching for lines that match a regular expression

    The matcher of Kernighan and Pike decides membership in the language of the pattern;
    [grep] reads its input through a buffer of 1024 bytes in pieces that [read] chooses. *)

From S2P Require Import Prelude Layout State Ports Console User.

(** ** The matcher *)

Definition CH_NL : Z := 10.      (* newline *)
Definition CH_END : Z := 36.     (* dollar *)
Definition CH_STAR : Z := 42.    (* star *)
Definition CH_DOT : Z := 46.     (* dot *)
Definition CH_BEGIN : Z := 94.   (* caret *)

(** Search for [c*re] at the beginning of [text]; [here] is [matchhere re]. *)
Fixpoint matchstar (c : Z) (here : list Z → bool) (text : list Z) : bool :=
  if here text then true else
  match text with
  | [] => false
  | t :: text' => if (t =? c) || (c =? CH_DOT) then matchstar c here text' else false
  end.

(** Search for [re] at the beginning of [text]. *)
Fixpoint matchhere (re text : list Z) : bool :=
  match re with
  | [] => true
  | c :: re1 =>
      let one :=
        if (c =? CH_END) && bool_decide (re1 = []) then bool_decide (text = [])
        else match text with
             | t :: text' => if (c =? CH_DOT) || (c =? t) then matchhere re1 text' else false
             | [] => false
             end in
      match re1 with
      | d :: re2 => if d =? CH_STAR then matchstar c (matchhere re2) text else one
      | [] => one
      end
  end.

Fixpoint match_loop (re text : list Z) : bool :=
  if matchhere re text then true else
  match text with [] => false | _ :: text' => match_loop re text' end.

Definition match_ (re text : list Z) : bool :=
  match re with
  | c :: re1 => if c =? CH_BEGIN then matchhere re1 text else match_loop re text
  | [] => match_loop re text
  end.

(** ** Lines *)

Definition BUFSIZE : nat := 1024.   (* sizeof(buf) *)

(** [strchr(p, '\n')] in a buffer that ends with a zero byte: what is before the newline
    and what is after it. *)
Fixpoint find_nl (p : list Z) : option (list Z * list Z) :=
  match p with
  | [] => None
  | c :: p' =>
      if c =? 0 then None
      else if c =? CH_NL then Some ([], p')
      else '(line, rest) ← find_nl p'; Some (c :: line, rest)
  end.

(** The inner loop returns what is left from [p] on; each time round it moves [p]. *)
Fixpoint grep_lines (fuel : nat) (pattern p : list Z) : prog (list Z) :=
  match fuel with
  | O => Diverge
  | S fuel' =>
      match find_nl p with
      | None => Ret p
      | Some (line, rest) =>
          _ ← (if match_ pattern line then do_ (SWrite 1 (line ++ [CH_NL])) else Ret tt);
          grep_lines fuel' pattern rest
      end
  end.

(** The outer loop; [b] are the [m] bytes in the buffer. *)
Fixpoint grep_loop (fuel : nat) (pattern : list Z) (fd : Z) (b : list Z) : prog unit :=
  match fuel with
  | O => Diverge
  | S fuel' =>
      r ← sys (SRead fd (Z.of_nat (BUFSIZE - length b - 1)));
      if ret r <=? 0 then Ret tt
      else
        let b1 := b ++ stored r in
        p ← grep_lines (S (length b1)) pattern b1;
        grep_loop fuel' pattern fd (if bool_decide (length p = length b1) then [] else p)
  end.

Definition grep (fuel : nat) (pattern : list Z) (fd : Z) : prog unit := grep_loop fuel pattern fd [].

(** [main] of grep.c; the arguments are those behind the name of the program. *)
Definition grep_main (fuel : nat) (args : list (list Z)) : prog unit :=
  match args with
  | [] => _ ← uprintf 2 (bytes_of "usage: grep pattern [file ...]" ++ [10]) []; Exit
  | [pattern] => _ ← grep fuel pattern 0; Exit
  | pattern :: files =>
      _ ← foreach files (λ f,
        fd ← call (SOpen f 0);
        if fd <? 0 then _ ← uprintf 1 (bytes_of "grep: cannot open %s" ++ [10]) [AStr f]; Exit
        else
          _ ← grep fuel pattern fd;
          do_ (SClose fd));
      Exit
  end.
