(* ===== verification/GrepProps.v ===== *)
(** * Correctness of grep.c

    The matcher decides the language of the pattern, and [grep] on a file writes the lines
    that match, in their order, however they lie across the buffer. *)

From Stdlib Require Import ssreflect.
From S2P Require Import Prelude Layout State Ports Console User Grep.

(** ** The language of a pattern *)

Inductive atom := AnyChar | Char (c : Z).
Inductive item := One (a : atom) | Many (a : atom).

Definition fits (a : atom) (x : Z) : Prop :=
  match a with AnyChar => True | Char c => x = c end.

(** The strings that a sequence of items describes. *)
Inductive describes : list item → list Z → Prop :=
  | describes_nil : describes [] []
  | describes_one a x its s : fits a x → describes its s → describes (One a :: its) (x :: s)
  | describes_none a its s : describes its s → describes (Many a :: its) s
  | describes_more a x its s :
      fits a x → describes (Many a :: its) s → describes (Many a :: its) (x :: s).

Definition to_atom (c : Z) : atom := if c =? CH_DOT then AnyChar else Char c.

(** The items of a pattern and whether a dollar ends it. *)
Fixpoint items (re : list Z) : list item * bool :=
  match re with
  | [] => ([], false)
  | c :: re1 =>
      match re1 with
      | d :: re2 =>
          if d =? CH_STAR then let '(its, e) := items re2 in (Many (to_atom c) :: its, e)
          else let '(its, e) := items re1 in (One (to_atom c) :: its, e)
      | [] => if c =? CH_END then ([], true) else ([One (to_atom c)], false)
      end
  end.

Definition begins (re text : list Z) : Prop :=
  ∃ s rest, text = s ++ rest ∧ describes (items re).1 s ∧ ((items re).2 = true → rest = []).

Definition occurs (re text : list Z) : Prop :=
  match re with
  | c :: re1 => if c =? CH_BEGIN then begins re1 text else ∃ pre post, text = pre ++ post ∧ begins re post
  | [] => True
  end.

Lemma fits_to_atom c x : fits (to_atom c) x ↔ (x =? c) || (c =? CH_DOT) = true.
Proof. rw /to_atom orb_true_iff Z.eqb_eq Z.eqb_eq. destruct (Z.eqb_spec c CH_DOT); naive_solver. Qed.

Lemma matchstar_spec c here text :
  matchstar c here text = true ↔
  ∃ s rest, text = s ++ rest ∧ Forall (fits (to_atom c)) s ∧ here rest = true.
Proof.
  induction text as [|t text IH]; simpl.
  - destruct (here []) eqn:E; split; try done.
    + by exists [], [].
    + intros (s & rest & Heq & _ & Hr). destruct s, rest; simplify_eq/=. congruence.
  - destruct (here (t :: text)) eqn:E.
    { split; [|done]. by exists [], (t :: text). }
    destruct ((t =? c) || (c =? CH_DOT)) eqn:Et.
    + rw IH. split; intros (s & rest & Heq & Hs & Hr).
      * exists (t :: s), rest. subst. by rw Forall_cons fits_to_atom.
      * destruct s as [|x s]; simplify_eq/=; [congruence|].
        apply Forall_cons in Hs as [_ Hs]. by exists s, rest.
    + split; [done|]. intros (s & rest & Heq & Hs & Hr).
      destruct s as [|x s]; simplify_eq/=; [congruence|].
      apply Forall_cons in Hs as [Hx _]. apply fits_to_atom in Hx. congruence.
Qed.

Lemma describes_many a its s :
  describes (Many a :: its) s ↔ ∃ s1 s2, s = s1 ++ s2 ∧ Forall (fits a) s1 ∧ describes its s2.
Proof.
  split.
  - intros H. remember (Many a :: its) as l eqn:El. induction H; simplify_eq.
    + by exists [], s.
    + destruct IHdescribes as (s1 & s2 & -> & ? & ?); [done|].
      exists (x :: s1), s2. by rw Forall_cons.
  - intros (s1 & s2 & -> & Hs & H2). induction Hs; simpl; by constructor.
Qed.

Lemma begins_star c re text :
  begins (c :: CH_STAR :: re) text ↔
  ∃ s rest, text = s ++ rest ∧ Forall (fits (to_atom c)) s ∧ begins re rest.
Proof.
  rw /begins. simpl. destruct (items re) as [its e]; simpl. split.
  - intros (s & rest & -> & (s1 & s2 & -> & H1 & H2)%describes_many & He).
    exists s1, (s2 ++ rest). rw -app_assoc. split_and!; [done..|]. by exists s2, rest.
  - intros (s1 & ? & -> & H1 & s2 & rest & -> & H2 & He).
    exists (s1 ++ s2), rest. rw -app_assoc describes_many. naive_solver.
Qed.

Lemma begins_end text : begins [CH_END] text ↔ text = [].
Proof.
  rw /begins /=. split.
  - intros (s & rest & -> & Hs & He). inversion Hs. by rw He.
  - intros ->. exists [], []. split_and!; [done|constructor|done].
Qed.

(** A pattern whose first item its one character. *)
Lemma begins_one c re text :
  (∀ d re', re = d :: re' → d ≠ CH_STAR) → ¬ (c = CH_END ∧ re = []) →
  begins (c :: re) text ↔ ∃ x text', text = x :: text' ∧ fits (to_atom c) x ∧ begins re text'.
Proof.
  intros Hd Hc. assert (items (c :: re) = (One (to_atom c) :: (items re).1, (items re).2)) as E.
  { destruct re as [|d re']; simpl.
    - destruct (Z.eqb_spec c CH_END); naive_solver.
    - rw (proj2 (Z.eqb_neq d CH_STAR)); [naive_solver|].
      by destruct (match re' with [] => _ | _ => _ end). }
  rw /begins E. simpl. split.
  - intros (s & rest & -> & Hs & He). inversion Hs; simplify_eq/=. naive_solver.
  - intros (x & ? & -> & Hx & s & rest & -> & Hs & He).
    exists (x :: s), rest. split_and!; [done|by constructor|done].
Qed.

Lemma matchhere_one c re text :
  (∀ d re', re = d :: re' → d ≠ CH_STAR) →
  matchhere (c :: re) text =
  if (c =? CH_END) && bool_decide (re = []) then bool_decide (text = [])
  else match text with
       | t :: text' => if (c =? CH_DOT) || (c =? t) then matchhere re text' else false
       | [] => false
       end.
Proof.
  intros Hd. destruct re as [|d re']; [done|]. cbn [matchhere].
  destruct (Z.eqb_spec d CH_STAR); naive_solver.
Qed.

Lemma star_or_one re :
  (∃ re', re = CH_STAR :: re') ∨ (∀ d re', re = d :: re' → d ≠ CH_STAR).
Proof. destruct re as [|d re]; [naive_solver|]. destruct (Z.eq_dec d CH_STAR); naive_solver. Qed.

Lemma matchhere_spec re text : matchhere re text = true ↔ begins re text.
Proof.
  revert text. induction re as [re IH] using (induction_ltof1 _ length); intros text.
  unfold ltof in IH. destruct re as [|c re1].
  { split; [|done]. intros _. exists [], text. split_and!; [done|constructor|done]. }
  destruct (star_or_one re1) as [[re2 ->]|Hone].
  - cbn [matchhere]. rw Z.eqb_refl matchstar_spec begins_star.
    repeat f_equiv. apply IH. simpl. lia.
  - rw matchhere_one //.
    destruct ((c =? CH_END) && bool_decide (re1 = [])) eqn:E.
    + apply andb_true_iff in E as [->%Z.eqb_eq ->%bool_decide_eq_true].
      by rw begins_end bool_decide_eq_true.
    + assert (¬ (c = CH_END ∧ re1 = [])) as Hc.
      { intros [-> ->]. done. }
      rw begins_one //.
      destruct text as [|t text]; [naive_solver|].
      rw orb_comm (Z.eqb_sym c t). pose proof (fits_to_atom c t) as Hf.
      specialize (IH re1 ltac:(simpl; lia) text).
      destruct ((t =? c) || (c =? CH_DOT)); naive_solver.
Qed.

Lemma match_loop_spec re text :
  match_loop re text = true ↔ ∃ pre post, text = pre ++ post ∧ begins re post.
Proof.
  induction text as [|t text IH]; simpl.
  - destruct (matchhere re []) eqn:E; split; try done.
    + exists [], []. by rw -matchhere_spec.
    + intros ([] & [] & ? & Hb); simplify_eq/=. apply matchhere_spec in Hb. congruence.
  - destruct (matchhere re (t :: text)) eqn:E.
    { split; [|done]. exists [], (t :: text). by rw -matchhere_spec. }
    rw IH. split.
    + intros (pre & post & -> & Hb). by exists (t :: pre), post.
    + intros ([|x pre] & post & ? & Hb); simplify_eq/=; [|by exists pre, post].
      apply matchhere_spec in Hb. congruence.
Qed.

Lemma match_spec re text : match_ re text = true ↔ occurs re text.
Proof.
  destruct re as [|c re]; simpl.
  - split; [done|intros _]. by destruct text.
  - destruct (c =? CH_BEGIN); [apply matchhere_spec|apply match_loop_spec].
Qed.

(** C28: grep.c's matcher decides the pattern's language: [match] returns 1 exactly when some
    part of the text is a string that the pattern describes, where a caret first in the
    pattern ties the part to the beginning of the text and a dollar last ties it to its end. *)
Theorem match_decides re text : match_ re text = true ↔ occurs re text.
Proof. apply match_spec. Qed.

(** ** Lines across the buffer *)

Definition line_ok (l : list Z) : Prop := 0 ∉ l ∧ CH_NL ∉ l.

Definition join_lines (ls : list (list Z)) : list Z := mjoin ((λ l, l ++ [CH_NL]) <$> ls).

(** What the loop reports of the lines [ls]. *)
Definition selected (pattern : list Z) (ls : list (list Z)) : list Z :=
  join_lines (filter (λ l, match_ pattern l = true) ls).

Lemma join_lines_cons l ls : join_lines (l :: ls) = (l ++ [CH_NL]) ++ join_lines ls.
Proof. done. Qed.

Lemma find_nl_line l rest : line_ok l → find_nl (l ++ CH_NL :: rest) = Some (l, rest).
Proof.
  intros [H0 H1]. induction l as [|c l IH]; simpl; [done|].
  apply not_elem_of_cons in H0 as [? H0], H1 as [? H1].
  destruct (Z.eqb_spec c 0); [done|]. destruct (Z.eqb_spec c CH_NL); [done|].
  by rw IH.
Qed.

Lemma find_nl_none l : CH_NL ∉ l → find_nl l = None.
Proof.
  induction l as [|c l IH]; simpl; [done|]. intros [? H]%not_elem_of_cons.
  destruct (c =? 0); [done|]. destruct (Z.eqb_spec c CH_NL); [done|]. by rw IH.
Qed.

(** The inner loop on the first [n] bytes of some lines. *)
Lemma grep_lines_prefix pattern ls n fuel i :
  Forall line_ok ls → (length (take n (join_lines ls)) < fuel)%nat →
  ∃ k tl, feed (grep_lines fuel pattern (take n (join_lines ls))) i =
            Some (Some tl, selected pattern (take k ls), i) ∧
          take n (join_lines ls) = join_lines (take k ls) ++ tl ∧ CH_NL ∉ tl ∧
          (match ls !! k with Some l => length tl ≤ length l | None => tl = [] end)%nat.
Proof.
  intros Hls. revert n fuel. induction Hls as [|l ls [H0 H1] Hls IH]; intros n [|fuel] Hf; try lia.
  { exists 0%nat, []. change (join_lines []) with (@nil Z). rw !take_nil.
    split_and!; [reflexivity|reflexivity|apply not_elem_of_nil|done]. }
  rw join_lines_cons -app_assoc /= in Hf |- *. destruct (decide (n ≤ length l)%nat) as [Hn|Hn].
  - exists 0%nat, (take n l). rw take_app_le //.
    assert (CH_NL ∉ take n l) by (intros (? & ?%list_elem_of_lookup_2 & _)%elem_of_take; done).
    split_and!; [|done..|]; [|simpl; rw length_take; lia]. by rw find_nl_none.
  - rw take_app_ge in Hf |- *; try lia.
    replace (n - length l)%nat with (S (n - length l - 1)) in Hf |- * by lia. simpl in *.
    rw length_app /= in Hf.
    destruct (IH (n - length l - 1)%nat fuel) as (k & tl & Hg & Heq & Htl & Hk); [lia|].
    exists (S k), tl. simpl. rw find_nl_line //. split_and!; [| |done..].
    + rw /selected filter_cons. destruct (match_ pattern l) eqn:E; [|exact Hg].
      simpl. rw join_lines_cons. by rw Hg.
    + by rw Heq join_lines_cons -!app_assoc.
Qed.

Lemma join_lines_no_nl ls : CH_NL ∉ join_lines ls → ls = [].
Proof. destruct ls as [|l ls]; [done|]. rw join_lines_cons. set_solver. Qed.

Lemma join_lines_app ls1 ls2 : join_lines (ls1 ++ ls2) = join_lines ls1 ++ join_lines ls2.
Proof. by rw /join_lines fmap_app join_app. Qed.

Lemma join_lines_nil ls : join_lines ls = [] → ls = [].
Proof. intros H. apply join_lines_no_nl. rw H. set_solver. Qed.

Lemma selected_split pattern k ls :
  selected pattern (take k ls) ++ selected pattern (drop k ls) = selected pattern ls.
Proof. by rw /selected -join_lines_app -filter_app take_drop. Qed.

Definition short_line (l : list Z) : Prop := line_ok l ∧ (length l < BUFSIZE - 1)%nat.

(** A full buffer holds the end of a line, and so does one with all that is left. *)
Lemma buffer_has_line ls k tl :
  Forall short_line ls → ls ≠ [] →
  take (BUFSIZE - 1) (join_lines ls) = join_lines (take k ls) ++ tl → CH_NL ∉ tl →
  (match ls !! k with Some l => length tl ≤ length l | None => tl = [] end)%nat →
  join_lines (take k ls) ≠ [].
Proof.
  intros Hls Hne Hsp Htl Hk Hnil. rw Hnil in Hsp. apply join_lines_nil in Hnil. cbn [app] in Hsp.
  destruct ls as [|l ls]; [done|]. destruct k as [|k]; [|done]. simpl in Hk.
  apply Forall_cons in Hls as [[_ Hl] _].
  assert (length tl = Nat.min (BUFSIZE - 1) (length (join_lines (l :: ls)))) as Hlen
    by (by rw -Hsp length_take).
  rw take_ge in Hsp; [lia|]. subst tl. by apply join_lines_no_nl in Htl.
Qed.

(** The outer loop when every [read] is full: the buffer holds the beginning of a line. *)
Lemma grep_loop_selects pattern ls fuel fd b rest :
  Forall short_line ls →
  b ++ rest = join_lines ls → CH_NL ∉ b → (length b < BUFSIZE - 1)%nat → (length rest < fuel)%nat →
  feed (grep_loop fuel pattern fd b) (mkInput rest []) = Some (Some tt, selected pattern ls, mkInput [] []).
Proof.
  revert ls b rest. induction fuel as [|fuel IH]; intros ls b rest Hls Heq Hb Hlen Hf; [lia|].
  set (n := (BUFSIZE - length b - 1)%nat).
  eapply (feed_bind (sys (SRead fd (Z.of_nat n))) _ _ _ [] _ _ (selected pattern ls)); [reflexivity|].
  rw /= Nat2Z.id. destruct (take n rest) as [|x new] eqn:Enew.
  { destruct rest; [|by destruct n eqn:En; [lia|]]. rw app_nil_r in Heq. subst b. cbn.
    by rw (join_lines_no_nl ls Hb) drop_nil. }
  rw (proj2 (Z.leb_gt _ _)); [simpl; lia|]. rw -Enew.
  assert (b ++ take n rest = take (BUFSIZE - 1) (join_lines ls)) as Hb1.
  { rw -Heq take_app_ge; [lia|]. do 2 f_equal. lia. }
  assert (Forall line_ok ls) as Hok by (eapply Forall_impl; [done|by intros ? []]).
  destruct (grep_lines_prefix pattern ls (BUFSIZE - 1) (S (length (b ++ take n rest)))
    (mkInput (drop n rest) []) Hok) as (k & tl & Hg & Hsp & Htl & Hk); [rw Hb1; lia|].
  assert (0 < length rest)%nat by (destruct rest; [by rw take_nil in Enew|simpl; lia]).
  assert (join_lines (take k ls) ≠ []) as Hj.
  { eapply buffer_has_line; [done| |done..]. intros ->. by destruct b, rest. }
  rw -(selected_split pattern k ls). rw -Hb1 in Hg.
  eapply feed_bind; [exact Hg|]. rw bool_decide_false.
  { rw Hb1 Hsp length_app. intros ?. apply Hj, length_zero_iff_nil. lia. }
  apply IH; [by apply Forall_drop| |done| |].
  - apply (app_inv_head (join_lines (take k ls))).
    by rw app_assoc -Hsp -Hb1 -app_assoc take_drop Heq -join_lines_app take_drop.
  - destruct (ls !! k) as [l|] eqn:El; [|subst tl; unfold BUFSIZE; simpl; lia].
    eapply Forall_lookup_1 in Hls as [_ Hl]; [|done]. unfold BUFSIZE in *. lia.
  - rw length_drop. lia.
Qed.

(** [sel] are the elements of [ls] with property [P]: those, all of those, in their order. *)
Inductive selects {A} (P : A → Prop) : list A → list A → Prop :=
  | selects_nil : selects P [] []
  | selects_keep x ls sel : P x → selects P ls sel → selects P (x :: ls) (x :: sel)
  | selects_skip x ls sel : ¬ P x → selects P ls sel → selects P (x :: ls) sel.

Lemma filter_selects pattern ls :
  selects (occurs pattern) ls (filter (λ l, match_ pattern l = true) ls).
Proof.
  induction ls as [|l ls IH]; [constructor|]. rw filter_cons.
  case_decide as Hm; constructor; rw -?match_spec //.
Qed.

(** C21: [grep] on a file, where every [read] gives as many bytes as it is asked for and has:
    if every line ends with a newline, is shorter than the buffer and has no zero byte, then
    [grep] ends, and what it has written is exactly the lines with an occurrence of the
    pattern, whole and in their order, however they lie across the fillings of the buffer. *)
Theorem grep_selects_lines pattern fd ls fuel :
  Forall short_line ls → (length (join_lines ls) < fuel)%nat →
  ∃ sel, selects (occurs pattern) ls sel ∧
         feed (grep fuel pattern fd) (mkInput (join_lines ls) []) =
           Some (Some tt, join_lines sel, mkInput [] []).
Proof.
  intros Hls Hf. eexists. split; [apply filter_selects|].
  apply grep_loop_selects; [done..|set_solver|unfold BUFSIZE; simpl; lia|done].
Qed.

(** A pattern that wants a [b]: of three lines it selects two. *)
Lemma grep_selects_lines_witness :
  ∃ sel, selects (occurs [98]) [[97; 98; 99]; [97; 97]; [98]] sel ∧
         join_lines sel = [97; 98; 99; 10; 98; 10].
Proof.
  destruct (grep_selects_lines [98] 0 [[97; 98; 99]; [97; 97]; [98]] 20) as (sel & Hsel & Hg).
  { repeat constructor; unfold BUFSIZE; simpl; set_solver || lia. }
  { simpl. lia. }
  exists sel. split; [done|]. vm_compute in Hg. by injection Hg.
Defined.

(** A [read] that stops inside a line, as a pipe's may: the beginning of the line is dropped
    and the line is not found, though the same bytes in one piece have it. *)
Lemma grep_drops_short_read :
  let line := [97; 98] in
  match_ [97] line = true ∧
  feed (grep 10 [97] 0) (mkInput (join_lines [line]) []) = Some (Some tt, join_lines [line], mkInput [] []) ∧
  feed (grep 10 [97] 0) (mkInput (join_lines [line]) [1%nat]) = Some (Some tt, [], mkInput [] []).
Proof. vm_compute. done. Qed.
