(* ===== verification/Utils.v ===== *)
(** * The small user programs: cat.c, wc.c, echo.c, ln.c, rm.c, mkdir.c, kill.c, ls.c, init.c,
    zombie.c, stressfs.c, forktest.c

    Each [main] takes the arguments behind the name of the program. *)

From S2P Require Import Prelude Layout State Str Ports Console Inode Sysfile Ulib User.

Definition nl (s : string) : list Z := bytes_of s ++ [10].

(** A process memory that holds the string [s] at address 0. *)
Definition mem_of (s : list Z) : memory := λ a, nth (Z.to_nat a) s 0.

(** ** cat.c *)

Fixpoint cat (fuel : nat) (fd : Z) : prog unit :=
  match fuel with
  | O => Diverge
  | S fuel' =>
      r ← sys (SRead fd 512);
      let n := ret r in
      if 0 <? n then
        w ← call (SWrite 1 (take (Z.to_nat n) (stored r)));
        if negb (w =? n) then _ ← uprintf 1 (nl "cat: write error") []; Exit
        else cat fuel' fd
      else if n <? 0 then _ ← uprintf 1 (nl "cat: read error") []; Exit
      else Ret tt
  end.

Definition cat_main (fuel : nat) (args : list (list Z)) : prog unit :=
  match args with
  | [] => _ ← cat fuel 0; Exit
  | _ =>
      _ ← foreach args (λ f,
        fd ← call (SOpen f 0);
        if fd <? 0 then _ ← uprintf 1 (nl "cat: cannot open %s") [AStr f]; Exit
        else _ ← cat fuel fd; do_ (SClose fd));
      Exit
  end.

(** ** wc.c *)

Record counts := mkCounts { wc_l : Z; wc_w : Z; wc_c : Z; inword : bool }.

Definition wc_space (c : Z) : bool := existsb (Z.eqb c) [32; 13; 9; 10; 11].

(** The body of the loop over the buffer. *)
Definition wc_char (s : counts) (x : Z) : counts :=
  let l := if x =? 10 then wc_l s + 1 else wc_l s in
  if wc_space x then mkCounts l (wc_w s) (wc_c s + 1) false
  else if negb (inword s) then mkCounts l (wc_w s + 1) (wc_c s + 1) true
  else mkCounts l (wc_w s) (wc_c s + 1) (inword s).

Fixpoint wc_loop (fuel : nat) (fd : Z) (s : counts) : prog (Z * counts) :=
  match fuel with
  | O => Diverge
  | S fuel' =>
      r ← sys (SRead fd 512);
      if 0 <? ret r then wc_loop fuel' fd (foldl wc_char s (take (Z.to_nat (ret r)) (stored r)))
      else Ret (ret r, s)
  end.

Definition wc (fuel : nat) (fd : Z) (name : list Z) : prog unit :=
  '(n, s) ← wc_loop fuel fd (mkCounts 0 0 0 false);
  if n <? 0 then _ ← uprintf 1 (nl "wc: read error") []; Exit
  else uprintf 1 (nl "%d %d %d %s") [AInt (wc_l s); AInt (wc_w s); AInt (wc_c s); AStr name].

Definition wc_main (fuel : nat) (args : list (list Z)) : prog unit :=
  match args with
  | [] => _ ← wc fuel 0 []; Exit
  | _ =>
      _ ← foreach args (λ f,
        fd ← call (SOpen f 0);
        if fd <? 0 then _ ← uprintf 1 (nl "wc: cannot open %s") [AStr f]; Exit
        else _ ← wc fuel fd f; do_ (SClose fd));
      Exit
  end.

(** ** echo.c *)

Fixpoint echo_loop (args : list (list Z)) : prog unit :=
  match args with
  | [] => Ret tt
  | a :: args' =>
      _ ← uprintf 1 (bytes_of "%s%s") [AStr a; AStr (if bool_decide (args' = []) then [10] else [32])];
      echo_loop args'
  end.
Definition echo_main (args : list (list Z)) : prog unit := _ ← echo_loop args; Exit.

(** ** ln.c, rm.c, mkdir.c, kill.c *)

Definition ln_main (args : list (list Z)) : prog unit :=
  match args with
  | [old; new] =>
      r ← call (SLink old new);
      _ ← (if r <? 0 then uprintf 2 (nl "link %s %s: failed") [AStr old; AStr new] else Ret tt);
      Exit
  | _ => _ ← uprintf 2 (nl "Usage: ln old new") []; Exit
  end.

(** The loops of rm.c and mkdir.c stop at the first failure. *)
Fixpoint until_failure (op : list Z → scall) (msg : string) (args : list (list Z)) : prog unit :=
  match args with
  | [] => Ret tt
  | a :: args' =>
      r ← call (op a);
      if r <? 0 then uprintf 2 (nl msg) [AStr a] else until_failure op msg args'
  end.

Definition rm_main (args : list (list Z)) : prog unit :=
  match args with
  | [] => _ ← uprintf 2 (nl "Usage: rm files...") []; Exit
  | _ => _ ← until_failure SUnlink "rm: %s failed to delete" args; Exit
  end.

Definition mkdir_main (args : list (list Z)) : prog unit :=
  match args with
  | [] => _ ← uprintf 2 (nl "Usage: mkdir files...") []; Exit
  | _ => _ ← until_failure SMkdir "mkdir: %s failed to create" args; Exit
  end.

Definition kill_main (args : list (list Z)) : prog unit :=
  match args with
  | [] => _ ← uprintf 2 (nl "usage: kill pid...") []; Exit
  | _ =>
      _ ← foreach args (λ a,
        match atoi (S (length a)) (mem_of a) 0 with
        | Some pid => do_ (SKill pid)
        | None => Diverge
        end);
      Exit
  end.

(** ** ls.c *)

(** [fmtname]: what is behind the last slash, padded with blanks to [DIRSIZ] characters. *)
Fixpoint after_slash (path : list Z) : list Z :=
  match path with
  | [] => []
  | c :: path' => if bool_decide (47 ∈ path) then after_slash path' else path
  end.
Definition fmtname (path : list Z) : list Z :=
  let p := after_slash path in
  if (14 <=? length p)%nat then p else p ++ replicate (14 - length p) 32.

(** [st.type], [st.ino] and [st.size] of a reply to [fstat]. *)
Definition ls_line (name : list Z) (r : reply) : prog unit :=
  match stored r with
  | [type; _; ino; _; size] => uprintf 1 (nl "%s %d %d %d") [AStr (fmtname name); AInt type; AInt ino; AInt size]
  | _ => Diverge
  end.

(** The string in a field of [DIRSIZ] bytes. *)
Fixpoint cstring_of (l : list Z) : list Z :=
  match l with [] => [] | c :: l' => if c =? 0 then [] else c :: cstring_of l' end.

(** The loop over the directory entries; an entry is its number and [DIRSIZ] bytes of name. *)
Fixpoint ls_dir (fuel : nat) (fd : Z) (path : list Z) : prog unit :=
  match fuel with
  | O => Diverge
  | S fuel' =>
      r ← sys (SRead fd 16);
      if negb (ret r =? 16) then Ret tt
      else
        match stored r with
        | i0 :: i1 :: name =>
            if i0 + 256 * i1 =? 0 then ls_dir fuel' fd path
            else
              let buf := path ++ 47 :: cstring_of (take 14 name) in
              st ← ustat buf;
              _ ← (if ret st <? 0 then uprintf 1 (nl "ls: cannot stat %s") [AStr buf]
                   else ls_line buf st);
              ls_dir fuel' fd path
        | _ => Diverge
        end
  end.

Definition ls (fuel : nat) (path : list Z) : prog unit :=
  fd ← call (SOpen path 0);
  if fd <? 0 then uprintf 2 (nl "ls: cannot open %s") [AStr path]
  else
    st ← sys (SFstat fd);
    if ret st <? 0 then
      _ ← uprintf 2 (nl "ls: cannot stat %s") [AStr path];
      do_ (SClose fd)
    else
      _ ← (let type := hd 0 (stored st) in
           if type =? T_FILE then ls_line path st
           else if type =? T_DIR then
             if (512 <? length path + 1 + 14 + 1)%nat then uprintf 1 (nl "ls: path too long") []
             else ls_dir fuel fd path
           else Ret tt);
      do_ (SClose fd).

Definition ls_main (fuel : nat) (args : list (list Z)) : prog unit :=
  match args with
  | [] => _ ← ls fuel (bytes_of "."); Exit
  | _ => _ ← foreach args (ls fuel); Exit
  end.

(** ** init.c *)

(** [while((wpid=wait()) >= 0 && wpid != pid) printf(1, "zombie!\n")]. *)
Fixpoint init_wait (fuel : nat) (pid : Z) : prog unit :=
  match fuel with
  | O => Diverge
  | S fuel' =>
      wpid ← call SWait;
      if (0 <=? wpid) && negb (wpid =? pid) then _ ← uprintf 1 (nl "zombie!") []; init_wait fuel' pid
      else Ret tt
  end.

(** The endless loop, [fuel] times round. *)
Fixpoint init_loop (fuel : nat) : prog unit :=
  match fuel with
  | O => Diverge
  | S fuel' =>
      _ ← uprintf 1 (nl "init: starting sh") [];
      pid ← call SFork;
      if pid <? 0 then _ ← uprintf 1 (nl "init: fork failed") []; Exit
      else if pid =? 0 then
        _ ← do_ (SExec (bytes_of "sh") [bytes_of "sh"]);
        _ ← uprintf 1 (nl "init: exec sh failed") [];
        Exit
      else _ ← init_wait fuel' pid; init_loop fuel'
  end.

Definition init_main (fuel : nat) : prog unit :=
  fd ← call (SOpen (bytes_of "console") O_RDWR);
  _ ← (if fd <? 0 then
         _ ← do_ (SMknod (bytes_of "console") 1 1);
         do_ (SOpen (bytes_of "console") O_RDWR)
       else Ret tt);
  _ ← do_ (SDup 0);
  _ ← do_ (SDup 0);
  init_loop fuel.

(** ** zombie.c, stressfs.c, forktest.c *)

Definition zombie_main : prog unit :=
  pid ← call SFork;
  _ ← (if 0 <? pid then do_ (SSleep 5) else Ret tt);
  Exit.

(** [for(i = 0; i < 4; i++) if(fork() > 0) break], with [n] rounds left. *)
Fixpoint stressfs_fork (n : nat) (i : Z) : prog Z :=
  match n with
  | O => Ret i
  | S n' => pid ← call SFork; if 0 <? pid then Ret i else stressfs_fork n' (i + 1)
  end.

Fixpoint times (n : nat) (p : prog unit) : prog unit :=
  match n with O => Ret tt | S n' => _ ← p; times n' p end.

Definition stressfs_main : prog unit :=
  _ ← uprintf 1 (nl "stressfs starting") [];
  i ← stressfs_fork 4 0;
  _ ← uprintf 1 (nl "write %d") [AInt i];
  let path := bytes_of "stressfs" ++ [48 + i] in
  fd ← call (SOpen path (Z.lor O_CREATE O_RDWR));
  _ ← times 20 (do_ (SWrite fd (replicate 512 97)));
  _ ← do_ (SClose fd);
  _ ← uprintf 1 (nl "read") [];
  fd ← call (SOpen path O_RDONLY);
  _ ← times 20 (do_ (SRead fd 512));
  _ ← do_ (SClose fd);
  _ ← do_ SWait;
  Exit.

(** forktest.c has a [printf] of its own, which writes the format. *)
Definition say (s : list Z) : prog unit := do_ (SWrite 1 s).

(** The loop that forks returns how often it did; a child exits. *)
Fixpoint forktest_fork (rounds : nat) (n : Z) : prog Z :=
  match rounds with
  | O => Ret n
  | S rounds' =>
      pid ← call SFork;
      if pid <? 0 then Ret n
      else if pid =? 0 then Exit
      else forktest_fork rounds' (n + 1)
  end.

Fixpoint forktest_wait (n : nat) : prog unit :=
  match n with
  | O => Ret tt
  | S n' =>
      r ← call SWait;
      if r <? 0 then _ ← say (nl "wait stopped early"); Exit else forktest_wait n'
  end.

Definition forktest : prog unit :=
  _ ← say (nl "fork test");
  n ← forktest_fork 1000 0;
  if n =? 1000 then _ ← say (nl "fork claimed to work N times!"); Exit
  else
    _ ← forktest_wait (Z.to_nat n);
    r ← call SWait;
    if negb (r =? -1) then _ ← say (nl "wait got too many"); Exit
    else say (nl "fork test OK").

Definition forktest_main : prog unit := _ ← forktest; Exit.
