(* ===== verification/UtilsProps.v ===== *)
(** * Properties of cat.c, wc.c and echo.c *)

From S2P Require Import Prelude Layout State Str Ports Console Inode Sysfile Ulib UlibProps User Utils.

(** One [read] of at most [n] bytes. *)
Lemma take_input_cases i n :
  (0 < n)%nat → Forall (λ k, 0 < k)%nat (in_sizes i) →
  let '(d, i') := take_input i n in
  in_bytes i = d ++ in_bytes i' ∧ Forall (λ k, 0 < k)%nat (in_sizes i') ∧ (d = [] ↔ in_bytes i = []).
Proof.
  intros Hn Hs. unfold take_input. set (k := match in_sizes i with [] => n | k :: _ => _ end).
  assert (0 < k)%nat as Hk by (unfold k; destruct Hs; lia). cbn. split_and!.
  - by rewrite take_drop.
  - by destruct Hs.
  - destruct k; [lia|]. by destruct (in_bytes i).
Qed.

(** A loop that reads: every round takes a piece off the input. *)
Lemma feed_read fd n i :
  0 < n → Forall (λ k, 0 < k)%nat (in_sizes i) →
  ∃ d i', (∀ B (f : reply → prog B),
             feed (sys (SRead fd n) ≫= f) i = feed (f (mkReply (Z.of_nat (length d)) d)) i') ∧
          in_bytes i = d ++ in_bytes i' ∧ Forall (λ k, 0 < k)%nat (in_sizes i') ∧
          (d = [] → in_bytes i = []).
Proof.
  intros Hn Hs. pose proof (take_input_cases i (Z.to_nat n) ltac:(lia) Hs) as H.
  destruct (take_input i (Z.to_nat n)) as [d i'] eqn:E. destruct H as (H1 & H2 & H3).
  exists d, i'. split_and!; [|done..|by apply H3]. intros B f.
  change (sys (SRead fd n) ≫= f) with (Sys (SRead fd n) f). cbn [feed]. by rewrite E.
Qed.

(** [cat] copies its input to its output, byte for byte, in whatever pieces [read] gives
    it, until the input ends; and it ends. *)
Lemma cat_copies fd i fuel :
  Forall (λ k, 0 < k)%nat (in_sizes i) → (length (in_bytes i) < fuel)%nat →
  ∃ i', feed (cat fuel fd) i = Some (Some tt, in_bytes i, i') ∧ in_bytes i' = [].
Proof.
  revert i. induction fuel as [|fuel IH]; intros i Hs Hf; [lia|]. cbn [cat].
  destruct (feed_read fd 512 i) as (d & i1 & Hrd & Hin & Hs1 & Hd); [lia|done|]. rewrite Hrd. cbn [ret stored].
  destruct d as [|x d].
  - exists i1. specialize (Hd eq_refl). rewrite Hd in *. by simpl in Hin.
  - rewrite (proj2 (Z.ltb_lt 0 _)) by (simpl; lia). rewrite Nat2Z.id, take_ge by lia.
    destruct (IH i1 Hs1) as (i' & Hrun & Hi'); [rewrite Hin, length_app in Hf; simpl in Hf; lia|].
    exists i'. split; [|done]. rewrite Hin. eapply feed_bind with (a := Z.of_nat (length (x :: d))).
    + change (feed (call (SWrite 1 (x :: d))) i1) with (Some (Some (Z.of_nat (length (x :: d))), (x :: d) ++ [], i1)).
      by rewrite app_nil_r.
    + by rewrite Z.eqb_refl.
Qed.

(** ** wc *)

(** The parts of the text between blanks. *)
Fixpoint fields (l : list Z) : list (list Z) :=
  match l with
  | [] => [[]]
  | c :: l' =>
      if wc_space c then [] :: fields l'
      else match fields l' with w :: ws => (c :: w) :: ws | [] => [[c]] end
  end.

Definition words (l : list Z) : Z := Z.of_nat (length (filter (λ w, w ≠ []) (fields l))).
Definition lines (l : list Z) : Z := Z.of_nat (length (filter (λ c, c = 10) l)).

(** The text begins inside a word. *)
Definition begins_word (l : list Z) : bool := match l with c :: _ => negb (wc_space c) | [] => false end.

Lemma fields_nonempty l : fields l ≠ [].
Proof. destruct l as [|c l]; [done|]. simpl. destruct (wc_space c); [done|]. by destruct (fields l). Qed.

Lemma words_cons c l :
  words (c :: l) =
  if wc_space c then words l else words l + b2z (negb (begins_word l)).
Proof.
  unfold words. cbn [fields]. destruct (wc_space c); [by rewrite filter_cons_False by auto|].
  destruct l as [|d l]; [done|]. cbn [fields begins_word]. destruct (wc_space d); cbn [negb b2z].
  - rewrite filter_cons_True, (filter_cons_False _ []) by auto. cbn [length]. lia.
  - pose proof (fields_nonempty l). destruct (fields l) as [|w ws]; [done|].
    rewrite !filter_cons_True by auto. cbn [length]. lia.
Qed.

Lemma lines_cons c l : lines (c :: l) = lines l + b2z (c =? 10).
Proof.
  unfold lines. rewrite filter_cons.
  destruct (Z.eqb_spec c 10); case_decide; try done; cbn [length b2z]; lia.
Qed.

Lemma wc_fold l s :
  let s' := foldl wc_char s l in
  wc_l s' = wc_l s + lines l ∧
  wc_w s' = wc_w s + words l - b2z (inword s && begins_word l) ∧
  wc_c s' = wc_c s + Z.of_nat (length l).
Proof.
  revert s. induction l as [|c l IH]; intros s; cbn [foldl]; cbv zeta.
  - change (words []) with 0. change (lines []) with 0. cbn. rewrite andb_false_r. cbn. lia.
  - destruct (IH (wc_char s c)) as (-> & -> & ->). rewrite words_cons, lines_cons.
    unfold wc_char. cbn [begins_word length].
    destruct (c =? 10), (wc_space c), (inword s) eqn:Ei, (begins_word l); cbn; rewrite ?Ei; cbn; lia.
Qed.

Lemma wc_loop_folds fd s i fuel :
  Forall (λ k, 0 < k)%nat (in_sizes i) → (length (in_bytes i) < fuel)%nat →
  ∃ i', feed (wc_loop fuel fd s) i = Some (Some (0, foldl wc_char s (in_bytes i)), [], i').
Proof.
  revert i s. induction fuel as [|fuel IH]; intros i s Hs Hf; [lia|]. cbn [wc_loop].
  destruct (feed_read fd 512 i) as (d & i1 & Hrd & Hin & Hs1 & Hd); [lia|done|].
  rewrite Hrd. cbn [ret stored]. destruct d as [|x d].
  - exists i1. specialize (Hd eq_refl). by rewrite Hd.
  - rewrite (proj2 (Z.ltb_lt 0 _)) by (simpl; lia). rewrite Nat2Z.id, take_ge by lia.
    rewrite Hin, foldl_app. apply IH; [done|]. rewrite Hin, length_app in Hf. simpl in Hf. lia.
Qed.

(** C36: [wc] prints the number of newlines, of words and of characters of its input, in
    whatever pieces [read] gives it.  A word is a nonempty part of the text between blanks; one
    that lies across two pieces counts once. *)
Theorem wc_counts fd name i fuel :
  Forall (λ k, 0 < k)%nat (in_sizes i) → (length (in_bytes i) < fuel)%nat →
  ∃ i' out, feed (wc fuel fd name) i = Some (Some tt, out, i') ∧
    let text := in_bytes i in
    format (nl "%d %d %d %s")
      [AInt (lines text); AInt (words text); AInt (Z.of_nat (length text)); AStr name] = Some out.
Proof.
  intros Hs Hf. destruct (wc_loop_folds fd (mkCounts 0 0 0 false) i fuel Hs Hf) as [i' Hrun].
  exists i'. eexists. split; [|reflexivity]. unfold wc.
  eapply (feed_bind _ _ _ _ []); [exact Hrun|]. cbn [Z.ltb Z.compare].
  destruct (wc_fold (in_bytes i) (mkCounts 0 0 0 false)) as (-> & -> & ->).
  cbn [wc_l wc_w wc_c inword andb b2z]. rewrite !Z.add_0_l, Z.sub_0_r. by apply feed_uprintf.
Qed.

Lemma wc_counts_witness :
  ∃ i' out, feed (wc 20 0 (bytes_of "f")) (mkInput (bytes_of "ab c" ++ [10]) [1%nat; 2%nat]) = Some (Some tt, out, i') ∧
    out = nl "1 2 5 f".
Proof.
  destruct (wc_counts 0 (bytes_of "f") (mkInput (bytes_of "ab c" ++ [10]) [1%nat; 2%nat]) 20)
    as (i' & out & Hrun & Hout); [repeat constructor|vm_compute; lia|].
  exists i', out. split; [exact Hrun|]. vm_compute in Hout. injection Hout as <-. by vm_compute.
Defined.

(** ** echo *)

(** The arguments with a blank between two of them and a newline at the end. *)
Fixpoint spaced (args : list (list Z)) : list Z :=
  match args with
  | [] => []
  | [a] => a ++ [10]
  | a :: args' => a ++ 32 :: spaced args'
  end.

(** [echo] writes its arguments with a blank between two of them and a newline at the
    end, and exits. *)
Lemma echo_writes args i : feed (echo_main args) i = Some (None, spaced args, i).
Proof.
  assert (feed (echo_loop args) i = Some (Some tt, spaced args, i)) as Hl.
  { induction args as [|a args IH]; [done|]. cbn [echo_loop].
    assert (spaced (a :: args) = (a ++ (if bool_decide (args = []) then [10] else [32])) ++ spaced args) as ->.
    { destruct args as [|b args]; [by rewrite app_nil_r|]. cbn [spaced]. by rewrite <- app_assoc. }
    eapply feed_bind; [|exact IH]. apply feed_uprintf.
    set (e := if bool_decide (args = []) then [10] else [32]).
    rewrite <- (app_nil_r e) at 2. done. }
  unfold echo_main. rewrite <- (app_nil_r (spaced args)). by eapply feed_bind.
Qed.
