(* ===== verification/Sh.v ===== *)
(** * sh.c: the command parser of the shell

    The command line is a buffer of characters; the parser keeps pointers into it, which are
    offsets here, and builds commands in memory that [malloc] gives it.  Its [struct cmd]
    objects live in a store, a [struct cmd *] is an index into it, and [parseexec] fills in
    an object that the commands built meanwhile may already point to.  [panic] prints its
    message and ends the process.  Memory never runs out in the model: sh.c does not test
    what [malloc] returns. *)

From S2P Require Import Prelude Layout Sysfile.

Definition MAXARGS : nat := 10.

(** ** Parsed command representation *)

(** [struct execcmd], [redircmd], [pipecmd], [listcmd] and [backcmd]; the constructor is the
    [type] field. *)
Inductive node :=
  | EXEC (argv eargv : list (option nat))
  | REDIR (cmd file efile : nat) (mode fd : Z)
  | PIPE (left right : nat)
  | LIST (left right : nat)
  | BACK (cmd : nat).

(** [sbuf]: the characters of the line, with zero bytes behind them; [ps]: the position
    [*ps] of the parser. *)
Record sh := mkSh { sbuf : list Z; heap : list node; ps : nat }.
#[export] Instance eta_sh : Settable sh := λ s, mkSh (sbuf s) (heap s) (ps s).

Definition char_at (b : list Z) (i : nat) : Z := default 0 (b !! i).

(** [strlen(s)]. *)
Fixpoint slen (s : list Z) : nat :=
  match s with [] => 0 | c :: s' => if c =? 0 then 0 else S (slen s') end.

(** *** Constructors *)

Definition new_node (n : node) : M sh nat :=
  p ← gets (λ s, length (heap s));
  _ ← modify (λ s, s <| heap ::= λ h, h ++ [n] |>);
  mret p.

Definition execcmd : M sh nat := new_node (EXEC (replicate MAXARGS None) (replicate MAXARGS None)).
Definition redircmd (subcmd file efile : nat) (mode fd : Z) : M sh nat :=
  new_node (REDIR subcmd file efile mode fd).
Definition pipecmd (left right : nat) : M sh nat := new_node (PIPE left right).
Definition listcmd (left right : nat) : M sh nat := new_node (LIST left right).
Definition backcmd (subcmd : nat) : M sh nat := new_node (BACK subcmd).

(** ** Tokens *)

Definition whitespace : list Z := [32; 9; 13; 10; 11].
(** The characters [<|>&;()]. *)
Definition symbols : list Z := [60; 124; 62; 38; 59; 40; 41].

(** [strchr(s, c) != 0] for a string [s]. *)
Definition has_char (s : list Z) (c : Z) : bool := existsb (Z.eqb c) s.

(** [while(s < es && p( *s)) s++], with [n] characters left. *)
Fixpoint skip_while (p : Z → bool) (b : list Z) (n s : nat) : nat :=
  match n with
  | O => s
  | S n' => if p (char_at b s) then skip_while p b n' (S s) else s
  end.

Definition is_space (c : Z) : bool := has_char whitespace c.
Definition in_word (c : Z) : bool := negb (has_char whitespace c) && negb (has_char symbols c).

Definition skip_space (b : list Z) (es s : nat) : nat := skip_while is_space b (es - s) s.

(** [gettoken]: the kind of the token, the pointers to its beginning and its end, and the
    position behind it. *)
Definition gettoken_at (b : list Z) (es s : nat) : Z * nat * nat * nat :=
  let q := skip_space b es s in
  let c := char_at b q in
  let '(ret, eq) :=
    if c =? 0 then (0, q)
    else if has_char [124; 40; 41; 59; 38; 60] c then (c, S q)
    else if c =? 62 then
      (if char_at b (S q) =? 62 then (43, S (S q)) else (62, S q))
    else (97, skip_while in_word b (es - q) q) in
  (ret, q, eq, skip_space b es eq).

Definition gettoken (es : nat) : M sh (Z * nat * nat) :=
  b ← gets sbuf; s ← gets ps;
  let '(ret, q, eq, s') := gettoken_at b es s in
  _ ← modify (λ st, st <| ps := s' |>);
  mret (ret, q, eq).

Definition peek (es : nat) (toks : list Z) : M sh bool :=
  b ← gets sbuf; s ← gets ps;
  let s' := skip_space b es s in
  _ ← modify (λ st, st <| ps := s' |>);
  mret (negb (char_at b s' =? 0) && has_char toks (char_at b s')).

(** ** Parsing *)


(** One round of the loop of [parseredirs]. *)
Definition redirs_round (es cmd : nat) : M sh (nat + nat) :=
  more ← peek es [60; 62];
  if (more : bool) then
    '(tok, _, _) ← gettoken es;
    '(tok2, q, eq) ← gettoken es;
    if negb (tok2 =? 97) then panic "missing file for redirection"
    else if tok =? 60 then
      cmd' ← redircmd cmd q eq O_RDONLY 0; mret (inl cmd')
    else if tok =? 62 then
      cmd' ← redircmd cmd q eq (Z.lor O_WRONLY O_CREATE) 1; mret (inl cmd')
    else if tok =? 43 then
      cmd' ← redircmd cmd q eq (Z.lor O_WRONLY O_CREATE) 1; mret (inl cmd')
    else mret (inl cmd)
  else mret (inr cmd).

(** This loop and those of [parseline] and [parseexec] read at least one character each time
    round. *)
Definition parseredirs (cmd es : nat) : M sh nat := iterate (S es) (redirs_round es) cmd.

(** [cmd->argv[argc] = q; cmd->eargv[argc] = eq]. *)
Definition set_arg (cmd argc : nat) (q eq : option nat) : M sh unit :=
  modify (λ s, s <| heap ::= alter (λ n,
    match n with
    | EXEC argv eargv => EXEC (<[argc := q]> argv) (<[argc := eq]> eargv)
    | n => n
    end) cmd |>).

(** One round of the loop over the arguments; its variables are [argc] and [ret]. *)
Definition args_round (es cmd : nat) (v : nat * nat) : M sh (nat * nat + nat * nat) :=
  let '(argc, ret) := v in
  stop ← peek es [124; 41; 38; 59];
  if (stop : bool) then mret (inr (argc, ret))
  else
    '(tok, q, eq) ← gettoken es;
    if tok =? 0 then mret (inr (argc, ret))
    else if negb (tok =? 97) then panic "syntax"
    else
      _ ← set_arg cmd argc (Some q) (Some eq);
      let argc := S argc in
      if (MAXARGS <=? argc)%nat then panic "too many args"
      else
        ret ← parseredirs ret es;
        mret (inl (argc, ret)).

(** One round of [while(peek(ps, es, "&"))]. *)
Definition amps_round (es cmd : nat) : M sh (nat + nat) :=
  more ← peek es [38];
  if (more : bool) then
    _ ← gettoken es;
    cmd' ← backcmd cmd;
    mret (inl cmd')
  else mret (inr cmd).

Fixpoint parseline (fuel es : nat) {struct fuel} : M sh nat :=
  match fuel with
  | O => out_of_fuel
  | S fuel =>
      cmd ← parsepipe fuel es;
      cmd ← iterate (S es) (amps_round es) cmd;
      semi ← peek es [59];
      if (semi : bool) then
        _ ← gettoken es;
        r ← parseline fuel es;
        listcmd cmd r
      else mret cmd
  end
with parsepipe (fuel es : nat) {struct fuel} : M sh nat :=
  match fuel with
  | O => out_of_fuel
  | S fuel =>
      cmd ← parseexec fuel es;
      bar ← peek es [124];
      if (bar : bool) then
        _ ← gettoken es;
        r ← parsepipe fuel es;
        pipecmd cmd r
      else mret cmd
  end
with parseblock (fuel es : nat) {struct fuel} : M sh nat :=
  match fuel with
  | O => out_of_fuel
  | S fuel =>
      op ← peek es [40];
      if negb op then panic "parseblock" else
      _ ← gettoken es;
      cmd ← parseline fuel es;
      cl ← peek es [41];
      if negb cl then panic "syntax - missing )" else
      _ ← gettoken es;
      parseredirs cmd es
  end
with parseexec (fuel es : nat) {struct fuel} : M sh nat :=
  match fuel with
  | O => out_of_fuel
  | S fuel =>
      op ← peek es [40];
      if (op : bool) then parseblock fuel es
      else
        cmd ← execcmd;
        ret ← parseredirs cmd es;
        '(argc, ret) ← iterate (S es) (args_round es cmd) (0%nat, ret);
        _ ← set_arg cmd argc None None;
        mret ret
  end.

(** ** Terminating the strings *)

(** [*p = 0]. *)
Definition put_nul (p : nat) : M sh unit := modify (λ s, s <| sbuf ::= <[p := 0]> |>).

(** [for(i=0; ecmd->argv[i]; i++) *ecmd->eargv[i] = 0]. *)
Fixpoint nul_args (argv eargv : list (option nat)) : M sh unit :=
  match argv, eargv with
  | Some _ :: argv', Some e :: eargv' => _ ← put_nul e; nul_args argv' eargv'
  | None :: _, _ => mret tt
  | _, _ => fault
  end.

(** A command points to older ones only, so [fuel] is its index. *)
Fixpoint nulterminate (fuel cmd : nat) : M sh unit :=
  match fuel with
  | O => out_of_fuel
  | S fuel =>
      n ← gets (λ s, heap s !! cmd); n ← deref n;
      match n with
      | EXEC argv eargv => nul_args argv eargv
      | REDIR cmd _ efile _ _ => _ ← nulterminate fuel cmd; put_nul efile
      | PIPE l r => _ ← nulterminate fuel l; nulterminate fuel r
      | LIST l r => _ ← nulterminate fuel l; nulterminate fuel r
      | BACK cmd => nulterminate fuel cmd
      end
  end.

(** [parsecmd(s)] with [s] the beginning of the buffer.  A level of nesting takes four calls
    and one character. *)
Definition parsecmd : M sh nat :=
  es ← gets (λ s, slen (sbuf s));
  _ ← modify (λ s, s <| ps := 0%nat |>);
  cmd ← parseline (4 * (es + 2)) es;
  _ ← peek es [];
  s ← gets ps;
  if negb (s =? es)%nat then panic "syntax"
  else
    _ ← nulterminate (S cmd) cmd;
    mret cmd.
