(* ===== verification/ShLex.v ===== *)
(** * Tokens of the shell

    A line is laid out as a list of tokens with blanks around them; [gettoken] and [peek]
    read the tokens one after the other. *)

From S2P Require Import Prelude Layout Sysfile Sh.

Inductive token := Sym (c : Z) | Append | Word (w : list Z).

Definition code (t : token) : Z :=
  match t with Sym c => c | Append => 43 | Word _ => 97 end.

Notation space sp := (Forall (λ c, is_space c = true) sp).

(** [lays toks r]: the characters [r] are the tokens [toks].  A word ends at the first
    character that is not part of one, and [>>] is one token. *)
Inductive lays : list token → list Z → Prop :=
  | lays_nil sp : space sp → lays [] sp
  | lays_sym sp c toks r :
      space sp → c ∈ symbols → (c = 62 → head r ≠ Some 62) → lays toks r →
      lays (Sym c :: toks) (sp ++ c :: r)
  | lays_append sp toks r : space sp → lays toks r → lays (Append :: toks) (sp ++ 62 :: 62 :: r)
  | lays_word sp w toks r :
      space sp → w ≠ [] → Forall (λ c, in_word c = true) w →
      (∀ c, head r = Some c → in_word c = false) → lays toks r →
      lays (Word w :: toks) (sp ++ w ++ r).

(** The first character of the first token, when it is a symbol. *)
Definition first_sym (toks : list token) : option Z :=
  match toks with Sym c :: _ => Some c | Append :: _ => Some 62 | _ => None end.

Definition sees (tk : list Z) (toks : list token) : bool :=
  match first_sym toks with Some c => has_char tk c | None => false end.

(** ** Characters *)

Lemma strchr_elem s c : has_char s c = true ↔ c ∈ s.
Proof.
  unfold has_char. rewrite existsb_exists, list_elem_of_In. split.
  - intros (x & ? & <-%Z.eqb_eq). done.
  - intros. exists c. by rewrite Z.eqb_refl.
Qed.

Lemma strchr_not s c : has_char s c = false ↔ c ∉ s.
Proof. rewrite <- strchr_elem. by destruct (has_char s c). Qed.

Lemma symbol_not_space c : c ∈ symbols → is_space c = false.
Proof. unfold is_space. rewrite strchr_not. unfold symbols, whitespace. set_solver by lia. Qed.

Lemma in_word_spec c : in_word c = true ↔ is_space c = false ∧ c ∉ symbols.
Proof. unfold in_word, is_space. by rewrite andb_true_iff, !negb_true_iff, (strchr_not symbols). Qed.

Lemma symbol_not_in_word c : c ∈ symbols → in_word c = false.
Proof. intros H. apply not_true_iff_false. rewrite in_word_spec. by intros [_ ?]. Qed.

Lemma space_not_in_word c : is_space c = true → in_word c = false.
Proof. intros H. apply not_true_iff_false. rewrite in_word_spec. intros [? _]. congruence. Qed.

(** ** Skipping *)

Definition stops (p : Z → bool) (r : list Z) : Prop := ∀ c, head r = Some c → p c = false.

Lemma head_drop (b : list Z) s : head (drop s b) = b !! s.
Proof. rewrite <- (Nat.add_0_r s) at 2. rewrite <- lookup_drop. by destruct (drop s b). Qed.

Lemma skip_while_prefix p b pre r s :
  drop s b = pre ++ r → Forall (λ c, p c = true) pre → stops p r →
  skip_while p b (length b - s) s = (s + length pre)%nat.
Proof.
  revert s. induction pre as [|x pre IH]; intros s Hd Hp Hr; simpl in *.
  - destruct (length b - s)%nat as [|n] eqn:En; simpl; [lia|].
    assert (∃ c, b !! s = Some c) as [c Hc] by (apply lookup_lt_is_Some; lia).
    unfold char_at. rewrite Hc. simpl. rewrite Hr; [lia|]. by rewrite <- Hd, head_drop.
  - apply Forall_cons in Hp as [Hx Hp].
    assert (b !! s = Some x) as Hs by (by rewrite <- head_drop, Hd).
    assert (s < length b)%nat by (by eapply lookup_lt_Some).
    replace (length b - s)%nat with (S (length b - S s)) by lia. simpl.
    unfold char_at at 1. rewrite Hs. simpl. rewrite Hx, IH; [lia| |done..].
    replace (S s) with (s + 1)%nat by lia. by rewrite <- drop_drop, Hd.
Qed.

Lemma lays_skip toks c r : is_space c = true → lays toks (c :: r) → lays toks r.
Proof.
  intros Hc H. inversion H as [sp Hsp|sp c' ? r' Hsp ?|sp ? r' Hsp|sp w ? r' Hsp ? Hw]; subst.
  - apply Forall_cons in Hsp as [_ ?]. by constructor.
  - destruct sp as [|x sp]; simplify_eq/=.
    + by rewrite symbol_not_space in Hc.
    + apply Forall_cons in Hsp as [_ ?]. by constructor.
  - destruct sp as [|x sp]; simplify_eq/=. apply Forall_cons in Hsp as [_ ?]. by constructor.
  - destruct sp as [|x sp]; simplify_eq/=.
    + destruct w as [|x w]; simplify_eq/=. apply Forall_cons in Hw as [Hw _].
      apply in_word_spec in Hw as [? _]. congruence.
    + apply Forall_cons in Hsp as [_ ?]. by constructor.
Qed.

Lemma lays_skips toks sp r : space sp → lays toks (sp ++ r) → lays toks r.
Proof. induction 1; [done|]. intros H1%lays_skip; auto. Qed.

(** The blanks before the first token and what follows them. *)
Lemma split_space r : ∃ sp r', r = sp ++ r' ∧ space sp ∧ stops is_space r'.
Proof.
  induction r as [|c r (sp & r' & -> & Hsp & Hr)].
  { exists [], []. done. }
  destruct (is_space c) eqn:Ec.
  - exists (c :: sp), r'. split_and!; [done|by constructor|done].
  - exists [], (c :: sp ++ r'). split_and!; [done..|]. intros c' [= <-]. done.
Qed.

(** Every line is some list of tokens. *)
Lemma lays_total r : ∃ toks, lays toks r.
Proof.
  induction r as [r IH] using (induction_ltof1 _ length). unfold ltof in IH.
  destruct (split_space r) as (sp & r' & -> & Hsp & Hr).
  destruct r' as [|c r']; [exists []; constructor; by rewrite app_nil_r|].
  destruct (decide (c ∈ symbols)) as [Hc|Hc].
  - destruct (decide (c = 62 ∧ head r' = Some 62)) as [[-> Hh]|Hn].
    + destruct r' as [|? r']; simplify_eq/=.
      destruct (IH r') as [toks ?]; [rewrite length_app; simpl; lia|].
      exists (Append :: toks). by constructor.
    + destruct (IH r') as [toks ?]; [rewrite length_app; simpl; lia|].
      exists (Sym c :: toks). constructor; [done..|naive_solver|done].
  - assert (∃ w r2, c :: r' = w ++ r2 ∧ w ≠ [] ∧ Forall (λ c, in_word c = true) w ∧
      stops in_word r2) as (w & r2 & Hcr & Hw & Hin & Hs).
    { assert (in_word c = true) as Hin by (apply in_word_spec; split; [by apply Hr|done]).
      clear -Hin. revert c Hin. induction r' as [|d r' IH]; intros c Hin.
      - exists [c], []. split_and!; [done..|by constructor|done].
      - destruct (in_word d) eqn:Ed.
        + destruct (IH d Ed) as (w & r2 & Heq & Hw & Hall & Hs).
          exists (c :: w), r2. rewrite Heq. split_and!; [done..|by constructor|done].
        + exists [c], (d :: r'). split_and!; [done..|by constructor|]. by intros ? [= <-]. }
    rewrite Hcr in IH |- *. destruct (IH r2) as [toks ?].
    { rewrite !length_app. destruct w; [done|simpl; lia]. }
    exists (Word w :: toks). by constructor.
Qed.

Lemma lays_length toks r : lays toks r → (length toks ≤ length r)%nat.
Proof.
  induction 1 as [| | |sp w]; simpl; rewrite ?length_app; simpl; rewrite ?length_app; try lia.
  destruct w; [done|simpl; lia].
Qed.

Definition token_ok (t : token) : Prop := match t with Sym c => c ∈ symbols | _ => True end.

Lemma lays_ok toks r : lays toks r → Forall token_ok toks.
Proof. induction 1; by constructor. Qed.

Lemma code_word t : token_ok t → code t = 97 ↔ ∃ w, t = Word w.
Proof. destruct t; simpl; [|naive_solver..]. unfold symbols. split; [set_solver by lia|naive_solver]. Qed.

(** ** Reading *)

Section Reading.
Context (b : list Z) (Hb : 0 ∉ b).
Notation es := (length b).

(** The tokens [toks] are left at position [s]. *)
Definition At (s : nat) (toks : list token) : Prop := (s ≤ es)%nat ∧ lays toks (drop s b).

(** Between [q] and [e] is the word [w]. *)
Definition ok_span (q e : nat) (w : list Z) : Prop :=
  ∃ r, drop q b = w ++ r ∧ (q + length w = e)%nat ∧ w ≠ [] ∧
       Forall (λ c, in_word c = true) w ∧ stops in_word r.

Lemma drop_app_add s (pre r : list Z) : drop s b = pre ++ r → drop (s + length pre) b = r.
Proof. intros H. by rewrite <- drop_drop, H, drop_app_length. Qed.

Lemma drop_pos s pre c r : drop s b = pre ++ c :: r → (s + length pre < es)%nat ∧ b !! (s + length pre)%nat = Some c.
Proof.
  intros H%drop_app_add. assert (b !! (s + length pre)%nat = Some c) by (by rewrite <- head_drop, H).
  split; [by eapply lookup_lt_Some|done].
Qed.

(** Where the first token begins. *)
Lemma skip_space_at s toks :
  At s toks → ∃ s', skip_space b es s = s' ∧ At s' toks ∧ (s ≤ s')%nat ∧
                    stops is_space (drop s' b).
Proof.
  intros [Hs Hl]. destruct (split_space (drop s b)) as (sp & r & Hd & Hsp & Hr).
  eexists. split; [done|]. unfold skip_space. rewrite (skip_while_prefix _ _ sp r) by done.
  assert (drop (s + length sp) b = r) as Hdr by by apply drop_app_add.
  assert (length (drop s b) = length sp + length r)%nat as Hlen by by rewrite Hd, length_app.
  rewrite length_drop in Hlen. split_and!; [split; [lia|]|lia|by rewrite Hdr].
  rewrite Hdr. eapply lays_skips; [done|]. by rewrite <- Hd.
Qed.

Lemma lays_first toks r :
  lays toks r → stops is_space r →
  match toks with
  | [] => r = []
  | Sym c :: toks' => c ∈ symbols ∧ ∃ r', r = c :: r' ∧ (c = 62 → head r' ≠ Some 62) ∧ lays toks' r'
  | Append :: toks' => ∃ r', r = 62 :: 62 :: r' ∧ lays toks' r'
  | Word w :: toks' => ∃ r', r = w ++ r' ∧ w ≠ [] ∧ Forall (λ c, in_word c = true) w ∧
                             stops in_word r' ∧ lays toks' r'
  end.
Proof.
  intros H. destruct H as [sp Hsp|sp ? ? ? Hsp|sp ? ? Hsp|sp ? ? ? Hsp]; intros Hst;
    (destruct sp as [|x sp]; [|apply Forall_cons in Hsp as [Hx _];
                               specialize (Hst x eq_refl); congruence]).
  all: naive_solver.
Qed.

Lemma char_here s c r : drop s b = c :: r → char_at b s = c ∧ c ≠ 0 ∧ (s < es)%nat.
Proof.
  intros H. assert (b !! s = Some c) as Hc by (by rewrite <- head_drop, H).
  unfold char_at. rewrite Hc. split_and!; [done| |by eapply lookup_lt_Some].
  intros ->. by apply list_elem_of_lookup_2 in Hc.
Qed.

Lemma char_end s : drop s b = [] → char_at b s = 0.
Proof. intros H. unfold char_at. by rewrite <- head_drop, H. Qed.

Lemma char_next s c r : drop s b = c :: r → char_at b (S s) = default 0 (head r).
Proof.
  intros H. unfold char_at. replace (S s) with (s + length [c])%nat by (simpl; lia).
  rewrite <- head_drop. by erewrite drop_app_add by exact H.
Qed.

Lemma At_drop s pre toks r :
  drop s b = pre ++ r → (s ≤ es)%nat → lays toks r → At (s + length pre) toks.
Proof.
  intros Hd Hs Hl. split; [|by erewrite drop_app_add].
  assert (length (drop s b) = length pre + length r)%nat as H by by rewrite Hd, length_app.
  rewrite length_drop in H. lia.
Qed.

(** The characters of the token at [q]: its kind and its end. *)
Lemma token_end q toks :
  At q toks → stops is_space (drop q b) →
  ∃ e, (if char_at b q =? 0 then (0, q)
        else if has_char [124; 40; 41; 59; 38; 60] (char_at b q) then (char_at b q, S q)
        else if char_at b q =? 62 then
          (if char_at b (S q) =? 62 then (43, S (S q)) else (62, S q))
        else (97, skip_while in_word b (es - q) q))
       = (from_option code 0 (head toks), e) ∧ At e (tail toks) ∧
       (∀ w, head toks = Some (Word w) → ok_span q e w).
Proof.
  intros [Hq Hl] Hst. pose proof (lays_first _ _ Hl Hst) as Hf. destruct toks as [|[c| |w] toks]; cbn [from_option head tail].
  - rewrite char_end by done. exists q. split_and!; [done|by split|done].
  - destruct Hf as (Hc & r & Hd & Hne & Hr). destruct (char_here _ _ _ Hd) as (-> & H0 & Hlt).
    exists (S q). rewrite (proj2 (Z.eqb_neq _ _) H0). split_and!; [| |done].
    2: { replace (S q) with (q + length [c])%nat by (simpl; lia). by apply (At_drop q [c] _ r). }
    rewrite (char_next _ _ _ Hd). destruct (Z.eqb_spec c 62) as [->|Hn].
    + destruct r as [|d r]; simpl; [done|]. destruct (Z.eqb_spec d 62); [|done]. subst. naive_solver.
    + rewrite (proj2 (strchr_elem _ _)); [done|]. unfold symbols in Hc. set_solver.
  - destruct Hf as (r & Hd & Hr). destruct (char_here _ _ _ Hd) as (-> & H0 & Hlt).
    rewrite (char_next _ _ _ Hd). exists (S (S q)). split_and!; [done| |done].
    replace (S (S q)) with (q + length [62; 62])%nat by (simpl; lia). by apply (At_drop q [62; 62] _ r).
  - destruct Hf as (r & Hd & Hw & Hin & Hs & Hr). rewrite (skip_while_prefix _ _ w r) by done.
    exists (q + length w)%nat. split_and!; [|by eapply At_drop|intros ? [= <-]; by exists r].
    destruct w as [|c w]; [done|]. destruct (char_here _ _ _ Hd) as (-> & H0 & Hlt).
    apply Forall_cons in Hin as [Hc _]. apply in_word_spec in Hc as [_ Hc].
    rewrite (proj2 (Z.eqb_neq _ _) H0).
    rewrite (proj2 (strchr_not _ _)) by (unfold symbols in Hc; set_solver).
    by rewrite (proj2 (Z.eqb_neq c 62)) by (unfold symbols in Hc; set_solver).
Qed.

Lemma gettoken_reads s toks h :
  At s toks → ∃ q e s', gettoken es (mkSh b h s) = Ok (from_option code 0 (head toks), q, e) (mkSh b h s') ∧
                        At s' (tail toks) ∧ (∀ w, head toks = Some (Word w) → ok_span q e w).
Proof.
  intros (q & Hsk & Hq & _ & Hst)%skip_space_at.
  destruct (token_end q toks Hq Hst) as (e & He & Hat & Hw).
  destruct (skip_space_at e _ Hat) as (s' & Hs' & Hat' & _ & _).
  exists q, e, s'. split_and!; [|done..].
  unfold gettoken. mpure. simpl. unfold gettoken_at. rewrite Hsk. cbv zeta. rewrite He, Hs'. done.
Qed.

Lemma peek_sees s toks h tk :
  At s toks → (∀ c, c ∈ tk → c ∈ symbols) →
  ∃ s', peek es tk (mkSh b h s) = Ok (sees tk toks) (mkSh b h s') ∧ At s' toks.
Proof.
  intros (q & Hsk & Hq & _ & Hst)%skip_space_at Htk. exists q. split; [|done].
  unfold peek. mpure. simpl. rewrite Hsk. unfold mret, M_ret. f_equal.
  destruct Hq as [_ Hl]. pose proof (lays_first _ _ Hl Hst) as Hf. unfold sees, first_sym.
  destruct toks as [|[c| |w] toks].
  - by rewrite char_end.
  - destruct Hf as (Hc & r & Hd & _). destruct (char_here _ _ _ Hd) as (-> & H0 & _).
    by rewrite (proj2 (Z.eqb_neq _ _) H0).
  - destruct Hf as (r & Hd & _). by destruct (char_here _ _ _ Hd) as (-> & H0 & _).
  - destruct Hf as (r & Hd & Hw & Hin & _). destruct w as [|c w]; [done|].
    destruct (char_here _ _ _ Hd) as (-> & H0 & _).
    apply Forall_cons in Hin as [Hc _]. apply in_word_spec in Hc as [_ Hc].
    rewrite (proj2 (strchr_not _ _)) by auto. apply andb_false_r.
Qed.

End Reading.
