(* ===== verification/ShGrammar.v ===== *)
(** * The language of the shell

    The grammar of command lines, the command that a line stands for, and how commands lie
    in the parser's store. *)

From S2P Require Import Prelude Layout Sysfile Sh ShLex.

(** ** Lines *)

Inductive rkind := RIn | ROut | RAppend.
Record redir := mkRedir { r_kind : rkind; r_file : list Z }.

(** An argument with the redirections behind it. *)
Notation garg := (list Z * list redir)%type.

(** A line is a pipeline, ampersands, and a line after a semicolon; a pipeline is an
    elementary command and a pipeline after a bar; an elementary command is a line in
    parentheses with redirections, or words with redirections among them. *)
Inductive gline := GLine (p : gpipe) (amps : nat) (next : option gline)
with gpipe := GPipe (e : gexec) (next : option gpipe)
with gexec := GBlock (l : gline) (rs : list redir) | GExec (rs : list redir) (args : list garg).

Definition kind_tok (k : rkind) : token :=
  match k with RIn => Sym 60 | ROut => Sym 62 | RAppend => Append end.
Definition redirs_toks (rs : list redir) : list token :=
  mjoin ((λ r, [kind_tok (r_kind r); Word (r_file r)]) <$> rs).
Definition args_toks (args : list garg) : list token :=
  mjoin ((λ a : garg, Word a.1 :: redirs_toks a.2) <$> args).

Fixpoint line_toks (l : gline) : list token :=
  match l with
  | GLine p amps next =>
      pipe_toks p ++ replicate amps (Sym 38) ++
      match next with None => [] | Some l' => Sym 59 :: line_toks l' end
  end
with pipe_toks (p : gpipe) : list token :=
  match p with
  | GPipe e next => exec_toks e ++ match next with None => [] | Some p' => Sym 124 :: pipe_toks p' end
  end
with exec_toks (e : gexec) : list token :=
  match e with
  | GBlock l rs => Sym 40 :: line_toks l ++ Sym 41 :: redirs_toks rs
  | GExec rs args => redirs_toks rs ++ args_toks args
  end.

(** Every elementary command leaves room for the null pointer behind its arguments. *)
Fixpoint few_line (l : gline) : Prop :=
  match l with
  | GLine p _ next => few_pipe p ∧ match next with None => True | Some l' => few_line l' end
  end
with few_pipe (p : gpipe) : Prop :=
  match p with
  | GPipe e next => few_exec e ∧ match next with None => True | Some p' => few_pipe p' end
  end
with few_exec (e : gexec) : Prop :=
  match e with
  | GBlock l _ => few_line l
  | GExec _ args => (length args < MAXARGS)%nat
  end.

(** ** Commands *)

Inductive command :=
  | CExec (argv : list (list Z))
  | CRedir (c : command) (file : list Z) (mode fd : Z)
  | CPipe (left right : command)
  | CList (left right : command)
  | CBack (c : command).

Definition kind_mode (k : rkind) : Z := match k with RIn => O_RDONLY | _ => Z.lor O_WRONLY O_CREATE end.
Definition kind_fd (k : rkind) : Z := match k with RIn => 0 | _ => 1 end.

Definition add_redir (c : command) (r : redir) : command :=
  CRedir c (r_file r) (kind_mode (r_kind r)) (kind_fd (r_kind r)).

Fixpoint line_cmd (l : gline) : command :=
  match l with
  | GLine p amps next =>
      let c := Nat.iter amps CBack (pipe_cmd p) in
      match next with None => c | Some l' => CList c (line_cmd l') end
  end
with pipe_cmd (p : gpipe) : command :=
  match p with
  | GPipe e next =>
      match next with None => exec_cmd e | Some p' => CPipe (exec_cmd e) (pipe_cmd p') end
  end
with exec_cmd (e : gexec) : command :=
  match e with
  | GBlock l rs => foldl add_redir (line_cmd l) rs
  | GExec rs args => foldl add_redir (CExec args.*1) (rs ++ mjoin args.*2)
  end.

(** ** Commands in the store *)

Definition argvec (l : list nat) : list (option nat) :=
  (Some <$> l) ++ replicate (MAXARGS - length l) None.

(** [rep sp h p c]: the object at [p] is the command [c], where [sp q e w] relates the
    pointers to the beginning and the end of a word to the word. *)
Inductive rep (sp : nat → nat → list Z → Prop) (h : list node) : nat → command → Prop :=
  | rep_exec p args ws :
      h !! p = Some (EXEC (argvec args.*1) (argvec args.*2)) →
      (length args < MAXARGS)%nat → Forall2 (λ a w, sp a.1 a.2 w) args ws → rep sp h p (CExec ws)
  | rep_redir p q f e m d c w :
      h !! p = Some (REDIR q f e m d) → (q < p)%nat → sp f e w → rep sp h q c →
      rep sp h p (CRedir c w m d)
  | rep_pipe p q1 q2 c1 c2 :
      h !! p = Some (PIPE q1 q2) → (q1 < p)%nat → (q2 < p)%nat → rep sp h q1 c1 → rep sp h q2 c2 →
      rep sp h p (CPipe c1 c2)
  | rep_list p q1 q2 c1 c2 :
      h !! p = Some (LIST q1 q2) → (q1 < p)%nat → (q2 < p)%nat → rep sp h q1 c1 → rep sp h q2 c2 →
      rep sp h p (CList c1 c2)
  | rep_back p q c :
      h !! p = Some (BACK q) → (q < p)%nat → rep sp h q c → rep sp h p (CBack c).

Lemma rep_mono (sp sp' : nat → nat → list Z → Prop) h h' p c :
  (∀ q e w, sp q e w → sp' q e w) → h `prefix_of` h' → rep sp h p c → rep sp' h' p c.
Proof.
  intros Hsp Hp. assert (∀ q n, h !! q = Some n → h' !! q = Some n) as Hl
    by (intros; by eapply prefix_lookup_Some).
  induction 1; econstructor; eauto. eapply Forall2_impl; [done|]. auto.
Qed.

Lemma rep_prefix sp h h' p c : h `prefix_of` h' → rep sp h p c → rep sp h' p c.
Proof. by apply rep_mono. Qed.

Lemma rep_bound sp h p c : rep sp h p c → (p < length h)%nat.
Proof. destruct 1; by eapply lookup_lt_Some. Qed.

(** The string that begins at [q]. *)
Definition cstr (b : list Z) (q : nat) : list Z := take (slen (drop q b)) (drop q b).

(** The command at [p] in a finished store: every word is a string of its own. *)
Definition denotes (st : sh) (p : nat) (c : command) : Prop :=
  rep (λ q _ w, cstr (sbuf st) q = w) (heap st) p c.

Section Store.
Context (b : list Z).

(** [p'] is [p] with the redirections [rs] around it. *)
Inductive chain (h : list node) (p : nat) : list redir → nat → Prop :=
  | chain_nil : chain h p [] p
  | chain_snoc rs p1 p2 r f e :
      chain h p rs p1 → h !! p2 = Some (REDIR p1 f e (kind_mode (r_kind r)) (kind_fd (r_kind r))) →
      (p1 < p2)%nat → ok_span b f e (r_file r) → chain h p (rs ++ [r]) p2.

Lemma rep_chain h p rs p' c : chain h p rs p' → rep (ok_span b) h p c → rep (ok_span b) h p' (foldl add_redir c rs).
Proof.
  intros Hc Hr. induction Hc; [done|]. rewrite foldl_snoc. by econstructor.
Qed.

Lemma chain_trans h p rs p' rs' p'' :
  chain h p rs p' → chain h p' rs' p'' → chain h p (rs ++ rs') p''.
Proof.
  intros H1 H2. induction H2; [by rewrite app_nil_r|]. rewrite app_assoc. by econstructor.
Qed.

Lemma chain_mono h h' p rs p' :
  (∀ q q1 f e m d, h !! q = Some (REDIR q1 f e m d) → h' !! q = Some (REDIR q1 f e m d)) →
  chain h p rs p' → chain h' p rs p'.
Proof. intros Hl. induction 1; econstructor; eauto. Qed.

Lemma chain_prefix h h' p rs p' : h `prefix_of` h' → chain h p rs p' → chain h' p rs p'.
Proof. intros Hp. apply chain_mono. intros. by eapply prefix_lookup_Some. Qed.

Lemma chain_bound h p rs p' : (p < length h)%nat → chain h p rs p' → (p' < length h)%nat.
Proof. intros ?. destruct 1; [done|]. by eapply lookup_lt_Some. Qed.

Lemma argvec_snoc l q : (length l < MAXARGS)%nat → <[length l := Some q]> (argvec l) = argvec (l ++ [q]).
Proof.
  intros H. unfold argvec. rewrite fmap_app, length_app. simpl.
  rewrite <- (length_fmap Some l) at 1. rewrite <- (Nat.add_0_r (length (Some <$> l))), insert_app_r.
  replace (MAXARGS - length l)%nat with (S (MAXARGS - (length l + 1))) by lia. simpl.
  by rewrite <- app_assoc.
Qed.

Lemma argvec_none l : (length l < MAXARGS)%nat → <[length l := None]> (argvec l) = argvec l.
Proof.
  intros H. unfold argvec. rewrite <- (length_fmap Some l) at 1.
  rewrite <- (Nat.add_0_r (length (Some <$> l))), insert_app_r.
  replace (MAXARGS - length l)%nat with (S (MAXARGS - length l - 1)) by lia. done.
Qed.

(** ** Reasoning about the parser

    [wp P toks h m Q]: with the tokens [toks] left to read and the store [h], [m] returns with
    [Q] of its result, of the tokens left then and of the store; or it panics, if [P]. *)

Definition wp {A} (P : Prop) (toks : list token) (h : list node) (m : M sh A)
    (Q : A → list token → list node → Prop) : Prop :=
  ∀ s, At b s toks →
  match m (mkSh b h s) with
  | Ok a st => ∃ s' toks' h', st = mkSh b h' s' ∧ At b s' toks' ∧ Q a toks' h'
  | Panic _ => P
  | _ => False
  end.

Lemma wp_mono {A} P toks h (m : M sh A) (Q Q' : A → _) :
  (∀ a toks' h', Q a toks' h' → Q' a toks' h') → wp P toks h m Q → wp P toks h m Q'.
Proof.
  intros HQ H s Hs. specialize (H s Hs). destruct (m (mkSh b h s)); try done. naive_solver.
Qed.

Lemma wp_bind {A B} P toks h (m : M sh A) (f : A → M sh B) Q :
  wp P toks h m (λ a toks' h', wp P toks' h' (f a) Q) → wp P toks h (m ≫= f) Q.
Proof.
  intros H s Hs. specialize (H s Hs). destruct (m (mkSh b h s)) as [a st| | | | |] eqn:E; try done.
  - destruct H as (s' & toks' & h' & -> & Hat & H). rewrite (bind_ok _ _ _ _ _ E). by apply H.
  - by rewrite (bind_panic _ _ _ _ E).
Qed.

Lemma wp_ret {A} P toks h (a : A) (Q : A → _) : Q a toks h → wp P toks h (mret a) Q.
Proof. intros HQ s Hs. exists s, toks, h. done. Qed.

Lemma wp_panic {A} (P : Prop) toks h msg (Q : A → _) : P → wp P toks h (panic msg) Q.
Proof. by intros ? s Hs. Qed.

(** The number of tokens is at most that of characters. *)
Lemma wp_len {A} P toks h (m : M sh A) Q :
  ((length toks ≤ length b)%nat → Forall token_ok toks → wp P toks h m Q) → wp P toks h m Q.
Proof.
  intros H s [Hs Hl]. apply H; [|by eapply lays_ok|done].
  apply lays_length in Hl. rewrite length_drop in Hl. lia.
Qed.

(** A loop that reads a token each time round. *)
Lemma wp_iterate {A B} P (I : A → list token → list node → Prop) (body : A → M sh (A + B)) Q fuel a toks h :
  (∀ a toks h, I a toks h →
    wp P toks h (body a) (λ r toks' h',
      match r with inl a' => I a' toks' h' ∧ (length toks' < length toks)%nat | inr v => Q v toks' h' end)) →
  I a toks h → (length toks < fuel)%nat → wp P toks h (iterate fuel body a) Q.
Proof.
  intros Hbody. revert a toks h. induction fuel as [|fuel IH]; intros a toks h HI Hf; [lia|].
  cbn [iterate]. apply wp_bind. eapply wp_mono; [|by apply Hbody].
  intros [a'|v] toks' h'; simpl.
  - intros [HI' Hlt]. apply IH; [done|lia].
  - apply wp_ret.
Qed.

Lemma wp_new_node P toks h n (Q : nat → _) :
  Q (length h) toks (h ++ [n]) → wp P toks h (new_node n) Q.
Proof. intros HQ s Hs. exists s, toks, (h ++ [n]). done. Qed.

Context (Hb : 0 ∉ b).

Lemma wp_peek P toks h tk (Q : bool → _) :
  (∀ c, c ∈ tk → c ∈ symbols) → Q (sees tk toks) toks h → wp P toks h (peek (length b) tk) Q.
Proof.
  intros Htk HQ s Hs. destruct (peek_sees b Hb s toks h tk Hs Htk) as (s' & -> & Hat).
  exists s', toks, h. done.
Qed.

Lemma wp_gettoken P toks h (Q : Z * nat * nat → _) :
  (∀ q e, (∀ w, head toks = Some (Word w) → ok_span b q e w) →
     Q (from_option code 0 (head toks), q, e) (tail toks) h) →
  wp P toks h (gettoken (length b)) Q.
Proof.
  intros HQ s Hs. destruct (gettoken_reads b Hb s toks h Hs) as (q & e & s' & -> & Hat & Hw).
  exists s', (tail toks), h. split_and!; [done..|]. by apply HQ.
Qed.

End Store.
