(* ===== verification/ShProps.v ===== *)
(** * Correctness of the shell's parser

    [parsecmd] accepts exactly the lines of the grammar of ShGrammar.v, builds the command
    that the line stands for, with every word a string of its own, and always ends. *)

From S2P Require Import Prelude Layout Sysfile Sh ShLex ShGrammar.

(** Symbol lists are symbols. *)
Ltac syms := let c := fresh in intros c; unfold symbols; set_solver.

Lemma sees_app tk toks rest :
  sees tk (toks ++ rest) = match toks with [] => sees tk rest | _ => sees tk toks end.
Proof. by destruct toks as [|[]]. Qed.

Lemma redirs_toks_cons r rs :
  redirs_toks (r :: rs) = kind_tok (r_kind r) :: Word (r_file r) :: redirs_toks rs.
Proof. done. Qed.

Lemma redirs_toks_app rs1 rs2 : redirs_toks (rs1 ++ rs2) = redirs_toks rs1 ++ redirs_toks rs2.
Proof. unfold redirs_toks. by rewrite fmap_app, join_app. Qed.

Section Parser.
Context (b : list Z) (Hb : 0 ∉ b).
Notation es := (length b).
Notation wp := (wp b).
Notation chain := (chain b).

(** The tokens of a redirection. *)
Lemma sees_redir toks :
  sees [60; 62] toks = true → ∃ k toks', toks = kind_tok k :: toks'.
Proof.
  destruct toks as [|[c| |w] toks]; try done.
  - unfold sees, first_sym. rewrite strchr_elem. intros Hc.
    assert (c = 60 ∨ c = 62) as [->| ->] by set_solver; [by exists RIn, toks|by exists ROut, toks].
  - intros _. by exists RAppend, toks.
Qed.

(** A round that meets no redirection, and one that meets one with its file. *)
Lemma wp_redirs_stop P toks h p (Q : nat + nat → _) :
  sees [60; 62] toks = false → Q (inr p) toks h → wp P toks h (redirs_round es p) Q.
Proof.
  intros Hs HQ. apply wp_bind, wp_peek; [done|syms|]. rewrite Hs. by apply wp_ret.
Qed.

Lemma wp_redirs_step P r toks h p (Q : nat + nat → _) :
  (p < length h)%nat →
  (∀ n, chain (h ++ [n]) p [r] (length h) → Q (inl (length h)) toks (h ++ [n])) →
  wp P (kind_tok (r_kind r) :: Word (r_file r) :: toks) h (redirs_round es p) Q.
Proof.
  intros Hp HQ. apply wp_bind, wp_peek; [done|syms|].
  replace (sees [60; 62] _) with true by (by destruct (r_kind r)).
  apply wp_bind, wp_gettoken; [done|]. intros _ _ _.
  apply wp_bind, wp_gettoken; [done|]. intros q e Hw. specialize (Hw _ eq_refl).
  simpl from_option. cbn [negb Z.eqb tail]. destruct r as [k f]; destruct k; simpl.
  all: apply wp_bind, wp_new_node, wp_ret, HQ.
  all: apply (chain_snoc _ _ _ [] p _ (mkRedir _ f) q e); simpl; [constructor| |done..].
  all: by rewrite lookup_app_r, Nat.sub_diag by lia.
Qed.

Lemma wp_redirs_missing (P : Prop) k toks h p (Q : nat + nat → _) :
  P → (∀ w, head toks ≠ Some (Word w)) →
  wp P (kind_tok k :: toks) h (redirs_round es p) Q.
Proof.
  intros HP Hw. apply wp_len. intros _ [_ Hok]%Forall_cons.
  apply wp_bind, wp_peek; [done|syms|].
  replace (sees [60; 62] _) with true by (by destruct k).
  apply wp_bind, wp_gettoken; [done|]. intros _ _ _.
  apply wp_bind, wp_gettoken; [done|]. intros q e _. cbn [tail].
  destruct (Z.eqb_spec (from_option code 0 (head toks)) 97) as [E|E]; [|by apply wp_panic].
  destruct toks as [|t toks]; [done|]. apply Forall_cons in Hok as [Ht _].
  apply code_word in E as [w ->]; [|done]. by destruct (Hw w).
Qed.

Lemma wp_redirs toks h p :
  (p < length h)%nat →
  wp True toks h (parseredirs p es) (λ p' toks' h', ∃ rs,
    toks = redirs_toks rs ++ toks' ∧ sees [60; 62] toks' = false ∧ h `prefix_of` h' ∧ chain h' p rs p').
Proof.
  intros Hp. apply wp_len. intros Hlen _. unfold parseredirs.
  eapply (wp_iterate _ _ (λ p1 toks1 h1, ∃ rs, toks = redirs_toks rs ++ toks1 ∧
    h `prefix_of` h1 ∧ chain h1 p rs p1 ∧ (p1 < length h1)%nat)); [|by exists []; repeat constructor|lia].
  intros p1 toks1 h1 (rs & -> & Hpre & Hch & Hp1).
  destruct (sees [60; 62] toks1) eqn:Es; [|apply wp_redirs_stop; eauto].
  destruct (sees_redir _ Es) as (k & toks2 & ->).
  destruct toks2 as [|[c| |w] toks2]; try (by apply wp_redirs_missing).
  apply (wp_redirs_step _ (mkRedir k w)); [done|]. intros n Hn. split; [|simpl; lia].
  exists (rs ++ [mkRedir k w]). rewrite redirs_toks_app, <- app_assoc. split_and!; [done| | |].
  - by apply prefix_app_r.
  - eapply chain_trans; [|done]. eapply chain_prefix; [|done]. by apply prefix_app_r.
  - rewrite length_app. simpl. lia.
Qed.

Lemma wp_redirs_all P rs rest h p :
  (p < length h)%nat → sees [60; 62] rest = false →
  wp P (redirs_toks rs ++ rest) h (parseredirs p es)
    (λ p' toks' h', toks' = rest ∧ h `prefix_of` h' ∧ chain h' p rs p').
Proof.
  intros Hp Hrest. apply wp_len. intros Hlen _. unfold parseredirs.
  eapply (wp_iterate _ _ (λ p1 toks1 h1, ∃ rs1 rs2, rs = rs1 ++ rs2 ∧ toks1 = redirs_toks rs2 ++ rest ∧
    h `prefix_of` h1 ∧ chain h1 p rs1 p1 ∧ (p1 < length h1)%nat)); [|by exists [], rs; repeat constructor|lia].
  intros p1 toks1 h1 (rs1 & rs2 & -> & -> & Hpre & Hch & Hp1). destruct rs2 as [|r rs2].
  - rewrite app_nil_r. by apply wp_redirs_stop.
  - rewrite redirs_toks_cons, <- !app_comm_cons. apply (wp_redirs_step _ r); [done|]. intros n Hn. split; [|simpl; lia].
    exists (rs1 ++ [r]), rs2. rewrite <- app_assoc. split_and!; [done..| | |].
    + by apply prefix_app_r.
    + eapply chain_trans; [|done]. eapply chain_prefix; [|done]. by apply prefix_app_r.
    + rewrite length_app. simpl. lia.
Qed.

(** *** Arguments *)

(** The store while [parseexec] fills in the command at [c]. *)
Definition filling (h0 h : list node) (c : nat) (ws : list (list Z)) (rs : list redir) (ret : nat) : Prop :=
  ∃ args hs, h = h0 ++ EXEC (argvec args.*1) (argvec args.*2) :: hs ∧ c = length h0 ∧
    length args = length ws ∧ (length ws < MAXARGS)%nat ∧ Forall2 (λ a w, ok_span b a.1 a.2 w) args ws ∧ chain h c rs ret.

Lemma filling_rep h0 h c ws rs ret :
  filling h0 h c ws rs ret → rep (ok_span b) h ret (foldl add_redir (CExec ws) rs) ∧ h0 `prefix_of` h.
Proof.
  intros (args & hs & -> & -> & Hl & Hlt & Hs & Hch). split; [|by eexists].
  eapply rep_chain; [done|]. apply (rep_exec _ _ _ args); [|lia|done].
  by rewrite lookup_app_r, Nat.sub_diag by lia.
Qed.

Lemma filling_bound h0 h c ws rs ret : filling h0 h c ws rs ret → (ret < length h)%nat.
Proof.
  intros (args & hs & -> & -> & _ & _ & _ & Hch). eapply chain_bound; [|done].
  rewrite length_app. simpl. lia.
Qed.

Lemma filling_chain h0 hs c x1 y1 x2 y2 rs ret :
  c = length h0 → chain (h0 ++ EXEC x1 y1 :: hs) c rs ret → chain (h0 ++ EXEC x2 y2 :: hs) c rs ret.
Proof.
  intros ->. apply chain_mono. intros q q1 f e m d Hq.
  destruct (decide (q = length h0)) as [->|Hne].
  - by rewrite lookup_app_r, Nat.sub_diag in Hq by lia.
  - destruct (decide (q < length h0)%nat).
    + by rewrite lookup_app_l in Hq |- * by done.
    + rewrite lookup_app_r in Hq |- * by lia.
      by replace (q - length h0)%nat with (S (q - length h0 - 1)) in Hq |- * by lia.
Qed.

Lemma filling_more h0 h h' c ws rs ret rs' ret' :
  filling h0 h c ws rs ret → h `prefix_of` h' → chain h' ret rs' ret' →
  filling h0 h' c ws (rs ++ rs') ret'.
Proof.
  intros (args & hs & -> & -> & Hl & Hlt & Hs & Hch) [hs' ->] Hch'.
  exists args, (hs ++ hs'). split_and!; [by rewrite <- app_assoc|done..|].
  eapply chain_trans; [|done]. eapply chain_prefix; [|done]. by eexists.
Qed.

(** [set_arg] on the command that is filled in. *)
Lemma wp_set_exec P toks h0 c x y hs argc q e (Q : unit → _) :
  c = length h0 → Q tt toks (h0 ++ EXEC (<[argc := q]> x) (<[argc := e]> y) :: hs) →
  wp P toks (h0 ++ EXEC x y :: hs) (set_arg c argc q e) Q.
Proof.
  intros -> HQ s Hs. eexists s, toks, _. split_and!; [|done..].
  unfold set. simpl. f_equal. by rewrite <- (Nat.add_0_r (length h0)), alter_app_r.
Qed.

Lemma wp_args_word P w toks h0 h c ws rs ret (Q : nat * nat + nat * nat → _) :
  filling h0 h c ws rs ret →
  (if (MAXARGS <=? S (length ws))%nat then P else
   ∀ h', filling h0 h' c (ws ++ [w]) rs ret →
         wp P toks h' (parseredirs ret es) (λ ret', Q (inl (S (length ws), ret')))) →
  wp P (Word w :: toks) h (args_round es c (length ws, ret)) Q.
Proof.
  intros (args & hs & -> & Hc & Hl & Hlt & Hs & Hch) HQ. unfold args_round.
  apply wp_bind, wp_peek; [done|syms|]. cbn [sees first_sym].
  apply wp_bind, wp_gettoken; [done|]. intros q e Hw. specialize (Hw _ eq_refl).
  cbn [head from_option code Z.eqb Pos.eqb negb tail].
  apply wp_bind. rewrite <- Hl. apply wp_set_exec; [done|]. cbv zeta. rewrite Hl.
  destruct (Nat.leb_spec MAXARGS (S (length ws))); [by apply wp_panic|].
  apply wp_bind. eapply wp_mono; [|apply HQ].
  - intros ret' toks' h' H'. by apply wp_ret.
  - exists (args ++ [(q, e)]), hs. rewrite !fmap_app, !length_app. cbn [fmap list_fmap fst snd].
    rewrite <- !argvec_snoc, !length_fmap, Hl by (by rewrite length_fmap, Hl). split_and!; [done..|simpl; lia|simpl; lia| |by eapply filling_chain].
    by apply Forall2_app; [|repeat constructor].
Qed.

Lemma wp_args_end P toks h c argc ret (Q : nat * nat + nat * nat → _) :
  sees [124; 41; 38; 59] toks = true ∨ toks = [] → Q (inr (argc, ret)) toks h →
  wp P toks h (args_round es c (argc, ret)) Q.
Proof.
  intros Ht HQ. unfold args_round. apply wp_bind, wp_peek; [done|syms|].
  destruct (sees _ toks) eqn:E; [by apply wp_ret|]. destruct Ht as [| ->]; [done|].
  apply wp_bind, wp_gettoken; [done|]. intros q e _. by apply wp_ret.
Qed.

Lemma wp_args_bad (P : Prop) toks h c argc ret (Q : nat * nat + nat * nat → _) :
  P → sees [124; 41; 38; 59] toks = false → toks ≠ [] → (∀ w, head toks ≠ Some (Word w)) →
  wp P toks h (args_round es c (argc, ret)) Q.
Proof.
  intros HP Hs Hne Hw. apply wp_len. intros _ Hok. unfold args_round.
  apply wp_bind, wp_peek; [done|syms|]. rewrite Hs.
  apply wp_bind, wp_gettoken; [done|]. intros q e _.
  destruct toks as [|t toks]; [done|]. apply Forall_cons in Hok as [Ht _]. cbn [head from_option tail].
  assert (code t ≠ 0) as H0.
  { destruct t; simpl in *; [|done..]. unfold symbols in Ht. set_solver by lia. }
  assert (code t ≠ 97) as H97.
  { intros [w ->]%code_word; [|done]. by destruct (Hw w). }
  apply Z.eqb_neq in H0, H97. rewrite H0, H97. by apply wp_panic.
Qed.

(** *** The loops over arguments and ampersands *)

Lemma args_toks_app a1 a2 : args_toks (a1 ++ a2) = args_toks a1 ++ args_toks a2.
Proof. unfold args_toks. by rewrite fmap_app, join_app. Qed.

Lemma args_toks_cons w rs args :
  args_toks ((w, rs) :: args) = Word w :: redirs_toks rs ++ args_toks args.
Proof. done. Qed.

Lemma args_toks_one w rs : args_toks [(w, rs)] = Word w :: redirs_toks rs.
Proof. unfold args_toks. simpl. by rewrite app_nil_r. Qed.

Lemma wp_args toks h0 h c rs0 ret :
  filling h0 h c [] rs0 ret →
  wp True toks h (iterate (S es) (args_round es c) (0%nat, ret)) (λ '(argc, ret') toks' h',
    ∃ args, toks = args_toks args ++ toks' ∧ argc = length args ∧
            filling h0 h' c args.*1 (rs0 ++ mjoin args.*2) ret').
Proof.
  intros Hf. apply wp_len. intros Hlen _.
  eapply (wp_iterate _ _ (λ '(argc, ret1) toks1 h1, ∃ args, toks = args_toks args ++ toks1 ∧
    argc = length args ∧ filling h0 h1 c args.*1 (rs0 ++ mjoin args.*2) ret1)); [| |lia].
  2: { exists []. by rewrite app_nil_r. }
  intros [argc ret1] toks1 h1 (args & -> & -> & Hf1).
  destruct (sees [124; 41; 38; 59] toks1) eqn:Es.
  { apply wp_args_end; [by left|]. by exists args. }
  destruct toks1 as [|t toks1]; [apply wp_args_end; [by right|by exists args]|].
  destruct t as [|  |w]; try by apply wp_args_bad.
  replace (length args) with (length args.*1) by apply length_fmap.
  eapply wp_args_word; [done|]. destruct (_ <=? _)%nat; [done|]. intros h2 Hf2.
  eapply wp_mono; [|eapply wp_redirs, filling_bound, Hf2].
  intros ret3 toks3 h3 (rs & -> & _ & Hpre & Hch). split; [|simpl; rewrite length_app; lia].
  exists (args ++ [(w, rs)]). split_and!.
  - by rewrite args_toks_app, args_toks_one, <- app_assoc.
  - rewrite length_app, length_fmap. simpl. lia.
  - rewrite !fmap_app, join_app. simpl. rewrite app_nil_r, app_assoc. by eapply filling_more.
Qed.

Lemma wp_args_all P args rest h0 h c rs0 ret :
  filling h0 h c [] rs0 ret → (length args < MAXARGS)%nat →
  sees [124; 41; 38; 59] rest = true ∨ rest = [] →
  wp P (args_toks args ++ rest) h (iterate (S es) (args_round es c) (0%nat, ret))
    (λ '(argc, ret') toks' h', toks' = rest ∧ argc = length args ∧
       filling h0 h' c args.*1 (rs0 ++ mjoin args.*2) ret').
Proof.
  intros Hf Hfew Hrest. apply wp_len. intros Hlen _.
  eapply (wp_iterate _ _ (λ '(argc, ret1) toks1 h1, ∃ a1 a2, args = a1 ++ a2 ∧
    toks1 = args_toks a2 ++ rest ∧ argc = length a1 ∧
    filling h0 h1 c a1.*1 (rs0 ++ mjoin a1.*2) ret1)); [| |lia].
  2: { exists [], args. by rewrite app_nil_r. }
  intros [argc ret1] toks1 h1 (a1 & a2 & -> & -> & -> & Hf1).
  destruct a2 as [|[w rs] a2].
  { apply wp_args_end; [done|]. by rewrite app_nil_r. }
  rewrite args_toks_cons, <- app_comm_cons, <- app_assoc.
  replace (length a1) with (length a1.*1) by apply length_fmap.
  eapply wp_args_word; [done|]. rewrite length_app in Hfew. simpl in Hfew.
  destruct (Nat.leb_spec MAXARGS (S (length a1.*1))) as [Hle|_].
  { rewrite length_fmap in Hle. lia. }
  intros h2 Hf2. eapply wp_mono; [|eapply wp_redirs_all; [eapply filling_bound, Hf2|]].
  - intros ret3 toks3 h3 (-> & Hpre & Hch). split; [|cbn [length]; rewrite !length_app; lia].
    exists (a1 ++ [(w, rs)]), a2. rewrite <- app_assoc. split_and!; [done..| |].
    + rewrite length_app, length_fmap. simpl. lia.
    + rewrite !fmap_app, join_app. simpl. rewrite app_nil_r, app_assoc. by eapply filling_more.
  - rewrite sees_app. destruct a2 as [|[]]; [|done]. simpl.
    destruct Hrest as [Hrest| ->]; [|done]. destruct rest as [|[c1| |]]; try done.
    unfold sees, first_sym in *. rewrite strchr_elem in Hrest. rewrite strchr_not. set_solver by lia.
Qed.

(** [cmd = backcmd(cmd)] for each ampersand. *)
Lemma wp_amps_round P toks h p c (Q : nat + nat → _) :
  rep (ok_span b) h p c →
  (if sees [38] toks then
     ∀ h', h `prefix_of` h' → rep (ok_span b) h' (length h) (CBack c) → Q (inl (length h)) (tail toks) h'
   else Q (inr p) toks h) →
  wp P toks h (amps_round es p) Q.
Proof.
  intros Hr HQ. apply wp_bind, wp_peek; [done|syms|]. destruct (sees [38] toks); [|by apply wp_ret].
  apply wp_bind, wp_gettoken; [done|]. intros _ _ _. apply wp_bind, wp_new_node, wp_ret, HQ.
  - by eexists.
  - eapply (rep_back _ _ _ p); [by rewrite lookup_app_r, Nat.sub_diag by lia|by eapply rep_bound|].
    eapply rep_prefix; [|done]. by eexists.
Qed.

Lemma sees_one c toks : sees [c] toks = true → c ≠ 62 → ∃ toks', toks = Sym c :: toks'.
Proof.
  destruct toks as [|[d| |] toks]; try done; unfold sees, first_sym; rewrite strchr_elem.
  - intros ->%list_elem_of_singleton _. by exists toks.
  - by intros <-%list_elem_of_singleton.
Qed.

Lemma wp_amps P toks h p c :
  rep (ok_span b) h p c →
  wp P toks h (iterate (S es) (amps_round es) p) (λ p' toks' h', ∃ n,
    toks = replicate n (Sym 38) ++ toks' ∧ sees [38] toks' = false ∧ h `prefix_of` h' ∧
    rep (ok_span b) h' p' (Nat.iter n CBack c)).
Proof.
  intros Hr. apply wp_len. intros Hlen _.
  eapply (wp_iterate _ _ (λ p1 toks1 h1, ∃ n, toks = replicate n (Sym 38) ++ toks1 ∧
    h `prefix_of` h1 ∧ rep (ok_span b) h1 p1 (Nat.iter n CBack c))); [| |lia].
  2: { by exists 0%nat. }
  intros p1 toks1 h1 (n & -> & Hpre & Hr1). eapply wp_amps_round; [done|].
  destruct (sees [38] toks1) eqn:Es; [|by exists n].
  destruct (sees_one _ _ Es) as [toks2 ->]; [done|]. intros h2 Hpre2 Hr2. split; [|simpl; lia].
  exists (S n). rewrite replicate_S_end, <- app_assoc. split_and!; [done|by etrans|done].
Qed.

(** *** Accepted lines

    Whatever is parsed is of the grammar: the parser reads the tokens of some [g] and returns
    its command. *)

Definition parsed {G} (gt : G → list token) (gf : G → Prop) (gc : G → command)
    (toks : list token) (h : list node) (p : nat) (toks' : list token) (h' : list node) : Prop :=
  ∃ g, toks = gt g ++ toks' ∧ gf g ∧ h `prefix_of` h' ∧ rep (ok_span b) h' p (gc g).

Notation parsed_line := (parsed line_toks few_line line_cmd).
Notation parsed_pipe := (parsed pipe_toks few_pipe pipe_cmd).
Notation parsed_exec := (parsed exec_toks few_exec exec_cmd).

Definition line_sound fuel := ∀ toks h, (4 * length toks + 4 ≤ fuel)%nat →
  wp True toks h (parseline fuel es) (parsed_line toks h).
Definition pipe_sound fuel := ∀ toks h, (4 * length toks + 3 ≤ fuel)%nat →
  wp True toks h (parsepipe fuel es) (parsed_pipe toks h).
Definition exec_sound fuel := ∀ toks h, (4 * length toks + 2 ≤ fuel)%nat →
  wp True toks h (parseexec fuel es) (parsed_exec toks h).
Definition block_sound fuel := ∀ toks h, (4 * length toks + 1 ≤ fuel)%nat →
  wp True toks h (parseblock fuel es) (parsed_exec toks h).

Lemma wp_binary P toks h p1 p2 c1 c2 n c (Q : nat → _) :
  rep (ok_span b) h p1 c1 → rep (ok_span b) h p2 c2 →
  (n, c) = (PIPE p1 p2, CPipe c1 c2) ∨ (n, c) = (LIST p1 p2, CList c1 c2) →
  (∀ h', h `prefix_of` h' → rep (ok_span b) h' (length h) c → Q (length h) toks h') →
  wp P toks h (new_node n) Q.
Proof.
  intros H1 H2 Hn HQ. apply wp_new_node, HQ; [by eexists|].
  assert (h `prefix_of` h ++ [n]) as Hpre by by eexists.
  pose proof (rep_bound _ _ _ _ H1). pose proof (rep_bound _ _ _ _ H2).
  destruct Hn as [[= -> ->]|[= -> ->]]; [eapply rep_pipe|eapply rep_list];
    first [by rewrite lookup_app_r, Nat.sub_diag by lia|done|by eapply rep_prefix].
Qed.

Lemma line_sound_step fuel : pipe_sound fuel → line_sound fuel → line_sound (S fuel).
Proof.
  intros IHp IHl toks h Hf. cbn [parseline]. apply wp_bind.
  eapply wp_mono; [|apply IHp; lia]. intros p1 toks1 h1 (g & -> & Hfew & Hpre & Hr).
  apply wp_bind. eapply wp_mono; [|by apply wp_amps].
  intros p2 toks2 h2 (n & -> & _ & Hpre2 & Hr2).
  apply wp_bind, wp_peek; [done|syms|]. destruct (sees [59] toks2) eqn:Es.
  - destruct (sees_one _ _ Es) as [toks3 ->]; [done|].
    apply wp_bind, wp_gettoken; [done|]. intros _ _ _. cbn [tail].
    rewrite !length_app in Hf. simpl in Hf.
    apply wp_bind. eapply wp_mono; [|apply IHl; lia].
    intros p4 toks4 h4 (l & -> & Hfew4 & Hpre4 & Hr4).
    eapply wp_binary; [by eapply rep_prefix|done|by right|]. intros h5 Hpre5 Hr5.
    exists (GLine g n (Some l)). simpl. rewrite <- !app_assoc. split_and!; [done..| |done].
    by do 3 (etrans; [done|]).
  - apply wp_ret. exists (GLine g n None). simpl. rewrite app_nil_r, <- app_assoc.
    split_and!; [done..|by etrans|done].
Qed.

Lemma pipe_sound_step fuel : exec_sound fuel → pipe_sound fuel → pipe_sound (S fuel).
Proof.
  intros IHe IHp toks h Hf. cbn [parsepipe]. apply wp_bind.
  eapply wp_mono; [|apply IHe; lia]. intros p1 toks1 h1 (g & -> & Hfew & Hpre & Hr).
  apply wp_bind, wp_peek; [done|syms|]. destruct (sees [124] toks1) eqn:Es.
  - destruct (sees_one _ _ Es) as [toks3 ->]; [done|].
    apply wp_bind, wp_gettoken; [done|]. intros _ _ _. cbn [tail].
    rewrite !length_app in Hf. simpl in Hf.
    apply wp_bind. eapply wp_mono; [|apply IHp; lia].
    intros p4 toks4 h4 (l & -> & Hfew4 & Hpre4 & Hr4).
    eapply wp_binary; [by eapply rep_prefix|done|by left|]. intros h5 Hpre5 Hr5.
    exists (GPipe g (Some l)). simpl. rewrite <- !app_assoc. split_and!; [done..| |done].
    by do 2 (etrans; [done|]).
  - apply wp_ret. exists (GPipe g None). simpl. by rewrite app_nil_r.
Qed.

Lemma block_sound_step fuel : line_sound fuel → block_sound (S fuel).
Proof.
  intros IHl toks h Hf. cbn [parseblock].
  apply wp_bind, wp_peek; [done|syms|]. destruct (sees [40] toks) eqn:Es; [|by apply wp_panic].
  destruct (sees_one _ _ Es) as [toks1 ->]; [done|]. simpl in Hf. cbn [negb].
  apply wp_bind, wp_gettoken; [done|]. intros _ _ _. cbn [tail].
  apply wp_bind. eapply wp_mono; [|apply IHl; lia].
  intros p2 toks2 h2 (l & -> & Hfew & Hpre & Hr).
  apply wp_bind, wp_peek; [done|syms|]. destruct (sees [41] toks2) eqn:Es2; [|by apply wp_panic].
  destruct (sees_one _ _ Es2) as [toks3 ->]; [done|]. cbn [negb].
  apply wp_bind, wp_gettoken; [done|]. intros _ _ _. cbn [tail].
  eapply wp_mono; [|by eapply wp_redirs, rep_bound].
  intros p4 toks4 h4 (rs & -> & _ & Hpre4 & Hch).
  exists (GBlock l rs). simpl. rewrite <- app_assoc. split_and!; [done..|by etrans|].
  eapply rep_chain; [done|]. by eapply rep_prefix.
Qed.

Lemma filling_start h : filling h (h ++ [EXEC (argvec []) (argvec [])]) (length h) [] [] (length h).
Proof. exists [], []. split_and!; try done; [unfold MAXARGS; simpl; lia|by constructor..]. Qed.

Lemma filling_end h0 h c ws rs ret toks P (Q : unit → _) :
  filling h0 h c ws rs ret → Q tt toks h → wp P toks h (set_arg c (length ws) None None) Q.
Proof.
  intros (args & hs & -> & -> & Hl & Hlt & _) HQ. apply wp_set_exec; [done|].
  rewrite <- Hl. rewrite <- (length_fmap fst args) at 1. rewrite <- (length_fmap snd args) at 1.
  by rewrite !argvec_none by (rewrite length_fmap; lia).
Qed.

Lemma exec_sound_step fuel : block_sound fuel → exec_sound (S fuel).
Proof.
  intros IHb toks h Hf. cbn [parseexec].
  apply wp_bind, wp_peek; [done|syms|]. destruct (sees [40] toks); [apply IHb; lia|].
  apply wp_bind, wp_new_node. apply wp_bind. eapply wp_mono; [|apply wp_redirs; rewrite length_app; simpl; lia].
  intros ret toks1 h1 (rs & -> & _ & Hpre & Hch).
  pose proof (filling_more _ _ _ _ _ _ _ _ _ (filling_start h) Hpre Hch) as Hfill.
  apply wp_bind. eapply wp_mono; [|by eapply wp_args].
  intros [argc ret2] toks2 h2 (args & -> & -> & Hfill2). apply wp_bind.
  replace (length args) with (length args.*1) by apply length_fmap.
  eapply filling_end; [done|]. apply wp_ret. destruct (filling_rep _ _ _ _ _ _ Hfill2) as [Hr2 Hpre2].
  exists (GExec rs args). simpl. rewrite <- app_assoc. split_and!; [done| |done..].
  destruct Hfill2 as (_ & _ & _ & _ & _ & Hlt & _). by rewrite length_fmap in Hlt.
Qed.

Lemma parser_sound fuel : line_sound fuel ∧ pipe_sound fuel ∧ exec_sound fuel ∧ block_sound fuel.
Proof.
  induction fuel as [|fuel (IHl & IHp & IHe & IHb)].
  { split_and!; intros toks h Hf; lia. }
  split_and!; [by apply line_sound_step|by apply pipe_sound_step|by apply exec_sound_step|by apply block_sound_step].
Qed.

(** *** Lines are accepted

    The parser reads all of a line of the grammar, without a panic. *)

Definition follow (cs : list Z) (rest : list token) : Prop :=
  rest = [] ∨ ∃ c toks, rest = Sym c :: toks ∧ c ∈ cs.

Lemma follow_cons cs c toks : c ∈ cs → follow cs (Sym c :: toks).
Proof. right. by exists c, toks. Qed.

Lemma follow_weaken cs cs' rest : cs ⊆ cs' → follow cs rest → follow cs' rest.
Proof. intros Hcs [->|(c & toks & -> & Hc)]; [by left|]. by apply follow_cons, Hcs. Qed.

Lemma follow_not tk cs rest :
  follow cs rest → (∀ c, c ∈ cs → c ∉ tk) → sees tk rest = false.
Proof. intros [->|(c & toks & -> & Hc)] H; [done|]. by apply strchr_not, H. Qed.

Lemma replicate_inj (c : Z) n m r1 r2 :
  replicate n (Sym c) ++ r1 = replicate m (Sym c) ++ r2 →
  sees [c] r1 = false → sees [c] r2 = false → n = m ∧ r1 = r2.
Proof.
  assert (∀ r, sees [c] (Sym c :: r) ≠ false) as Hc
    by (intros r; unfold sees, first_sym, has_char; simpl; by rewrite Z.eqb_refl).
  revert m. induction n as [|n IH]; intros [|m]; simpl; intros He H1 H2.
  - done.
  - subst r1. by apply Hc in H1.
  - subst r2. by apply Hc in H2.
  - simplify_eq. destruct (IH m); naive_solver.
Qed.

Definition read_all (c : command) (rest : list token) (h : list node)
    (p : nat) (toks' : list token) (h' : list node) : Prop :=
  toks' = rest ∧ h `prefix_of` h' ∧ rep (ok_span b) h' p c.

Definition line_complete fuel := ∀ l rest h,
  few_line l → follow [41] rest → (4 * length (line_toks l ++ rest) + 4 ≤ fuel)%nat →
  wp False (line_toks l ++ rest) h (parseline fuel es) (read_all (line_cmd l) rest h).
Definition pipe_complete fuel := ∀ p rest h,
  few_pipe p → follow [41; 38; 59] rest → (4 * length (pipe_toks p ++ rest) + 3 ≤ fuel)%nat →
  wp False (pipe_toks p ++ rest) h (parsepipe fuel es) (read_all (pipe_cmd p) rest h).
Definition exec_complete fuel := ∀ e rest h,
  few_exec e → follow [41; 38; 59; 124] rest → (4 * length (exec_toks e ++ rest) + 2 ≤ fuel)%nat →
  wp False (exec_toks e ++ rest) h (parseexec fuel es) (read_all (exec_cmd e) rest h).
Definition block_complete fuel := ∀ l rs rest h,
  few_line l → follow [41; 38; 59; 124] rest →
  (4 * length (exec_toks (GBlock l rs) ++ rest) + 1 ≤ fuel)%nat →
  wp False (exec_toks (GBlock l rs) ++ rest) h (parseblock fuel es)
    (read_all (exec_cmd (GBlock l rs)) rest h).

(** What follows the pipeline of a line. *)
Definition line_tail (next : option gline) (rest : list token) : list token :=
  match next with None => rest | Some l => Sym 59 :: line_toks l ++ rest end.

Lemma line_tail_follow next rest : follow [41] rest → follow [41; 59] (line_tail next rest).
Proof.
  intros H. destruct next; [apply follow_cons; set_solver|].
  eapply follow_weaken; [|done]. set_solver.
Qed.

Lemma line_complete_step fuel : pipe_complete fuel → line_complete fuel → line_complete (S fuel).
Proof.
  intros IHp IHl [p amps next] rest h Hfew Hfo Hf. simpl in Hfew. destruct Hfew as [Hfp Hfn].
  assert (line_toks (GLine p amps next) ++ rest =
    pipe_toks p ++ replicate amps (Sym 38) ++ line_tail next rest) as E.
  { simpl. rewrite <- !app_assoc. by destruct next. }
  rewrite E in Hf |- *. pose proof (line_tail_follow next rest Hfo) as Hft.
  cbn [parseline]. apply wp_bind. eapply wp_mono; [|apply IHp; [done| |lia]].
  2: { destruct amps; [eapply follow_weaken; [|done]; set_solver|apply follow_cons; set_solver]. }
  intros p1 toks1 h1 (-> & Hpre & Hr). apply wp_bind. eapply wp_mono; [|by apply wp_amps].
  intros p2 toks2 h2 (n & Heq & Hs2 & Hpre2 & Hr2).
  apply replicate_inj in Heq as [<- <-]; [|by eapply follow_not; [done|set_solver by lia]|done].
  apply wp_bind, wp_peek; [done|syms|]. destruct next as [l|].
  - cbn [line_tail]. change (sees [59] _) with true. apply wp_bind, wp_gettoken; [done|].
    intros _ _ _. cbn [tail]. rewrite !length_app in Hf. cbn [line_tail length] in Hf.
    apply wp_bind. eapply wp_mono; [|apply IHl; [done..|lia]]. intros p4 toks4 h4 (-> & Hpre4 & Hr4).
    eapply wp_binary; [by eapply rep_prefix|done|by right|]. intros h5 Hpre5 Hr5.
    split_and!; [done| |done]. by do 3 (etrans; [done|]).
  - rewrite (follow_not _ [41]); [|done|set_solver by lia]. apply wp_ret.
    split_and!; [done|by etrans|done].
Qed.

Definition pipe_tail (next : option gpipe) (rest : list token) : list token :=
  match next with None => rest | Some p => Sym 124 :: pipe_toks p ++ rest end.

Lemma pipe_complete_step fuel : exec_complete fuel → pipe_complete fuel → pipe_complete (S fuel).
Proof.
  intros IHe IHp [e next] rest h Hfew Hfo Hf. simpl in Hfew. destruct Hfew as [Hfe Hfn].
  assert (pipe_toks (GPipe e next) ++ rest = exec_toks e ++ pipe_tail next rest) as E.
  { simpl. rewrite <- !app_assoc. by destruct next. }
  rewrite E in Hf |- *. cbn [parsepipe]. apply wp_bind.
  eapply wp_mono; [|apply IHe; [done| |lia]].
  2: { destruct next; [apply follow_cons; set_solver|]. eapply follow_weaken; [|done]. set_solver. }
  intros p1 toks1 h1 (-> & Hpre & Hr). apply wp_bind, wp_peek; [done|syms|].
  destruct next as [p|].
  - cbn [pipe_tail]. change (sees [124] _) with true. apply wp_bind, wp_gettoken; [done|].
    intros _ _ _. cbn [tail]. rewrite !length_app in Hf. cbn [pipe_tail length] in Hf.
    apply wp_bind. eapply wp_mono; [|apply IHp; [done..|lia]]. intros p4 toks4 h4 (-> & Hpre4 & Hr4).
    eapply wp_binary; [by eapply rep_prefix|done|by left|]. intros h5 Hpre5 Hr5.
    split_and!; [done| |done]. by do 2 (etrans; [done|]).
  - rewrite (follow_not _ [41; 38; 59]); [|done|set_solver by lia]. by apply wp_ret.
Qed.

Lemma block_complete_step fuel : line_complete fuel → block_complete (S fuel).
Proof.
  intros IHl l rs rest h Hfew Hfo Hf.
  assert (exec_toks (GBlock l rs) ++ rest =
    Sym 40 :: line_toks l ++ Sym 41 :: redirs_toks rs ++ rest) as E.
  { simpl. by rewrite <- !app_assoc. }
  rewrite E in Hf |- *. cbn [length] in Hf. cbn [parseblock].
  apply wp_bind, wp_peek; [done|syms|]. change (sees [40] _) with true. cbn [negb].
  apply wp_bind, wp_gettoken; [done|]. intros _ _ _. cbn [tail].
  apply wp_bind. eapply wp_mono; [|apply IHl; [done|by apply follow_cons; set_solver|lia]].
  intros p2 toks2 h2 (-> & Hpre & Hr).
  apply wp_bind, wp_peek; [done|syms|]. change (sees [41] _) with true. cbn [negb].
  apply wp_bind, wp_gettoken; [done|]. intros _ _ _. cbn [tail].
  eapply wp_mono; [|apply wp_redirs_all; [by eapply rep_bound|by eapply follow_not; [done|set_solver by lia]]].
  intros p4 toks4 h4 (-> & Hpre4 & Hch). split_and!; [done|by etrans|].
  eapply rep_chain; [done|]. by eapply rep_prefix.
Qed.

Lemma exec_complete_step fuel : block_complete fuel → exec_complete (S fuel).
Proof.
  intros IHb e rest h Hfew Hfo Hf. cbn [parseexec].
  apply wp_bind, wp_peek; [done|syms|]. destruct e as [l rs|rs args].
  { change (sees [40] _) with true. apply IHb; [done..|lia]. }
  cbn [exec_toks]. rewrite <- app_assoc.
  replace (sees [40] _) with false; last first.
  { destruct rs as [|[[] ?] ?]; [|done..]. destruct args as [|[]]; [|done].
    symmetry. eapply follow_not; [done|set_solver by lia]. }
  apply wp_bind, wp_new_node. apply wp_bind.
  eapply wp_mono; [|apply wp_redirs_all; [rewrite length_app; simpl; lia|]].
  2: { destruct args as [|[]]; [|done]. eapply follow_not; [done|set_solver by lia]. }
  intros ret toks1 h1 (-> & Hpre & Hch).
  pose proof (filling_more _ _ _ _ _ _ _ _ _ (filling_start h) Hpre Hch) as Hfill.
  apply wp_bind. eapply wp_mono; [|eapply wp_args_all; [done..|]].
  2: { destruct Hfo as [->|(c & toks & -> & Hc)]; [by right|left].
       apply strchr_elem. set_solver. }
  intros [argc ret2] toks2 h2 (-> & -> & Hfill2). apply wp_bind.
  replace (length args) with (length args.*1) by apply length_fmap.
  eapply filling_end; [done|]. apply wp_ret. by destruct (filling_rep _ _ _ _ _ _ Hfill2) as [Hr2 Hpre2].
Qed.

Lemma parser_complete fuel :
  line_complete fuel ∧ pipe_complete fuel ∧ exec_complete fuel ∧ block_complete fuel.
Proof.
  induction fuel as [|fuel (IHl & IHp & IHe & IHb)].
  { split_and!; intros; intros s Hs; lia. }
  split_and!; [by apply line_complete_step|by apply pipe_complete_step
              |by apply exec_complete_step|by apply block_complete_step].
Qed.

End Parser.
