(* ===== verification/ShParse.v ===== *)
(** * [parsecmd]

    Terminating the strings, and the theorem about the whole parser. *)

From S2P Require Import Prelude Layout Sysfile Sh ShLex ShGrammar ShProps.

(** ** Terminating the strings *)

Section Terminate.
Context (b : list Z) (Hb : 0 ∉ b).

(** [b1] is [b] with zero bytes, none of them in a word. *)
Definition keeps (b1 : list Z) : Prop :=
  length b1 = length b ∧ ∀ i x, b !! i = Some x → in_word x = true → b1 !! i = Some x.

Definition zero_at (b1 : list Z) (e : nat) : Prop := char_at b1 e = 0.

Definition closed (b1 : list Z) (q e : nat) (w : list Z) : Prop := ok_span b q e w ∧ zero_at b1 e.

(** [b2] has the zero bytes of [b1] and more. *)
Definition more_zeros (b1 b2 : list Z) : Prop := keeps b2 ∧ ∀ e, zero_at b1 e → zero_at b2 e.

Lemma more_zeros_refl b1 : keeps b1 → more_zeros b1 b1.
Proof. by split. Qed.
Lemma more_zeros_trans b1 b2 b3 : more_zeros b1 b2 → more_zeros b2 b3 → more_zeros b1 b3.
Proof. intros [_ H1] [H2 H3]. split; auto. Qed.

Lemma closed_more b1 b2 q e w : more_zeros b1 b2 → closed b1 q e w → closed b2 q e w.
Proof. intros [_ Hz] [? ?]. split; auto. Qed.

(** The end of a word is not in a word. *)
Lemma ok_span_end q e w x : ok_span b q e w → b !! e = Some x → in_word x = false.
Proof.
  intros (r & Hd & <- & _ & _ & Hs) Hx. apply Hs.
  by rewrite <- (drop_app_add b q w r), head_drop.
Qed.

Lemma put_nul_spec b1 h s q e w :
  keeps b1 → ok_span b q e w →
  ∃ b2, put_nul e (mkSh b1 h s) = Ok tt (mkSh b2 h s) ∧ more_zeros b1 b2 ∧ closed b2 q e w.
Proof.
  intros [Hlen Hk] Hsp. exists (<[e := 0]> b1). split; [done|].
  assert (∀ i, zero_at b1 i ∨ i = e → zero_at (<[e := 0]> b1) i) as Hz.
  { intros i Hi. unfold zero_at, char_at in *. rewrite list_lookup_insert.
    case_decide as Hc; [done|]. destruct Hi as [| ->]; [done|].
    rewrite lookup_ge_None_2; [done|]. lia. }
  split; [|split; [done|by auto]]. split; [split; [by rewrite length_insert|]|by auto].
  intros i x Hi Hx. rewrite list_lookup_insert_ne; [auto|]. intros <-.
  apply (ok_span_end q e w) in Hi; [congruence|done].
Qed.

Lemma nul_args_spec args ws n b1 h s :
  keeps b1 → Forall2 (λ a w, ok_span b a.1 a.2 w) args ws →
  ∃ b2, nul_args ((Some <$> args.*1) ++ replicate (S n) None)
                 ((Some <$> args.*2) ++ replicate (S n) None) (mkSh b1 h s) = Ok tt (mkSh b2 h s) ∧
        more_zeros b1 b2 ∧ Forall2 (λ a w, closed b2 a.1 a.2 w) args ws.
Proof.
  intros Hk Hs. revert b1 Hk. induction Hs as [|[q e] w args ws Hsp Hs IH]; intros b1 Hk.
  { exists b1. split_and!; [done|by apply more_zeros_refl|constructor]. }
  destruct (put_nul_spec b1 h s q e w Hk Hsp) as (b2 & Hrun & Hmore & Hcl).
  destruct (IH b2) as (b3 & Hrun3 & Hmore3 & Hcl3); [by destruct Hmore|].
  exists b3. split_and!; [|by eapply more_zeros_trans|].
  - cbn [fmap list_fmap app nul_args fst snd]. by mstep Hrun.
  - constructor; [by eapply closed_more|done].
Qed.

Lemma argvec_null (l : list nat) : (length l < MAXARGS)%nat →
  argvec l = (Some <$> l) ++ replicate (S (MAXARGS - length l - 1)) None.
Proof. intros H. unfold argvec. do 2 f_equal. lia. Qed.

Lemma two_spec (m1 m2 : M sh unit) h s b1 (R1 R2 : list Z → Prop) :
  keeps b1 → (∀ b b', more_zeros b b' → R1 b → R1 b') →
  (∀ b1, keeps b1 → ∃ b2, m1 (mkSh b1 h s) = Ok tt (mkSh b2 h s) ∧ more_zeros b1 b2 ∧ R1 b2) →
  (∀ b1, keeps b1 → ∃ b2, m2 (mkSh b1 h s) = Ok tt (mkSh b2 h s) ∧ more_zeros b1 b2 ∧ R2 b2) →
  ∃ b3, (_ ← m1; m2) (mkSh b1 h s) = Ok tt (mkSh b3 h s) ∧ more_zeros b1 b3 ∧ R1 b3 ∧ R2 b3.
Proof.
  intros Hk Hmono H1 H2. destruct (H1 b1 Hk) as (b2 & Hrun & Hm & HR1).
  destruct (H2 b2) as (b3 & Hrun3 & Hm3 & HR2); [by destruct Hm|].
  exists b3. split_and!; [by mstep Hrun|by eapply more_zeros_trans|by eapply Hmono|done].
Qed.

Lemma rep_closed_more b1 b2 h p c : more_zeros b1 b2 → rep (closed b1) h p c → rep (closed b2) h p c.
Proof. intros Hm. apply rep_mono; [|done]. intros *. by apply closed_more. Qed.

(** [nulterminate] reaches every word of the command. *)
Lemma nulterminate_spec h p c fuel s :
  rep (ok_span b) h p c → (p < fuel)%nat → ∀ b1, keeps b1 →
  ∃ b2, nulterminate fuel p (mkSh b1 h s) = Ok tt (mkSh b2 h s) ∧
        more_zeros b1 b2 ∧ rep (closed b2) h p c.
Proof.
  intros Hr. revert fuel. induction Hr as
    [p args ws Hn Hl Hs|p q f e m d c w Hn Hq Hsp Hr IH|p q1 q2 c1 c2 Hn Hq1 Hq2 Hr1 IH1 Hr2 IH2
    |p q1 q2 c1 c2 Hn Hq1 Hq2 Hr1 IH1 Hr2 IH2|p q c Hn Hq Hr IH];
    intros [|fuel] Hf b1 Hk; try lia; cbn [nulterminate]; setoid_rewrite bind_gets;
    cbn [heap]; rewrite Hn; cbn [deref]; setoid_rewrite bind_ret.
  - rewrite !argvec_null by (by rewrite length_fmap). rewrite !length_fmap.
    destruct (nul_args_spec args ws (MAXARGS - length args - 1) b1 h s Hk Hs) as (b2 & Hrun & Hm & Hc).
    exists b2. split_and!; [done..|]. by eapply rep_exec.
  - destruct (two_spec (nulterminate fuel q) (put_nul e) h s b1 (λ b, rep (closed b) h q c)
      (λ b, closed b f e w)) as (b3 & Hrun & Hm & H1 & H2); [done| |by apply IH; lia| |].
    + intros b2 b3. apply rep_closed_more.
    + intros b2 Hk2. by apply put_nul_spec.
    + exists b3. split_and!; [done..|]. by eapply rep_redir.
  - destruct (two_spec (nulterminate fuel q1) (nulterminate fuel q2) h s b1 (λ b, rep (closed b) h q1 c1)
      (λ b, rep (closed b) h q2 c2)) as (b3 & Hrun & Hm & H1 & H2);
      [done|by intros *; apply rep_closed_more|by apply IH1; lia|by apply IH2; lia|].
    exists b3. split_and!; [done..|]. by eapply rep_pipe.
  - destruct (two_spec (nulterminate fuel q1) (nulterminate fuel q2) h s b1 (λ b, rep (closed b) h q1 c1)
      (λ b, rep (closed b) h q2 c2)) as (b3 & Hrun & Hm & H1 & H2);
      [done|by intros *; apply rep_closed_more|by apply IH1; lia|by apply IH2; lia|].
    exists b3. split_and!; [done..|]. by eapply rep_list.
  - destruct (IH fuel) with (b1 := b1) as (b2 & Hrun & Hm & Hc); [lia|done|].
    exists b2. split_and!; [done..|]. by eapply rep_back.
Qed.

Lemma strlen_app w r : 0 ∉ w → (∀ c, head r = Some c → c = 0) → slen (w ++ r) = length w.
Proof.
  intros Hw Hr. induction w as [|c w IH]; simpl.
  - destruct r as [|c r]; [done|]. simpl. by rewrite (Hr c).
  - apply not_elem_of_cons in Hw as [H0 Hw]. by rewrite (proj2 (Z.eqb_neq c 0)), IH by done.
Qed.

(** A word with a zero byte behind it is a string. *)
Lemma closed_cstr b2 q e w : keeps b2 → closed b2 q e w → cstr b2 q = w.
Proof.
  intros [Hlen Hk] [(r & Hd & <- & Hne & Hin & _) Hz].
  assert (0 ∉ w) as Hw.
  { intros H0. apply Hb. rewrite <- (take_drop q b), Hd. set_solver. }
  assert (drop q b2 = w ++ drop (q + length w) b2) as Heq.
  { rewrite <- (take_drop (length w) (drop q b2)), drop_drop. f_equal.
    apply list_eq. intros i. destruct (decide (i < length w)%nat) as [Hi|Hi].
    - destruct (lookup_lt_is_Some_2 w i Hi) as [x Hx].
      rewrite lookup_take_lt, lookup_drop, Hx by done. apply Hk.
      + rewrite <- lookup_drop, Hd, lookup_app_l by done. done.
      + by apply (Forall_lookup_1 (λ c, in_word c = true) w i x).
    - rewrite lookup_take_ge, lookup_ge_None_2 by lia. done. }
  unfold cstr. rewrite Heq, strlen_app, take_app_length; [done..|].
  intros c Hc. rewrite head_drop in Hc. unfold zero_at, char_at in Hz. by rewrite Hc in Hz.
Qed.

End Terminate.

(** ** The parser *)

(** [peek] moves to the end of the line exactly when no token is left. *)
Lemma peek_end b (Hb : 0 ∉ b) s toks h tk :
  At b s toks → ∃ s' r, peek (length b) tk (mkSh b h s) = Ok r (mkSh b h s') ∧ (s' = length b ↔ toks = []).
Proof.
  intros (q & Hsk & [Hq Hl] & _ & Hst)%skip_space_at.
  exists q. eexists. split.
  { unfold peek. mpure. simpl. rewrite Hsk. done. }
  pose proof (lays_first _ _ Hl Hst) as Hf.
  assert (drop q b = [] ↔ q = length b) as <-.
  { rewrite <- length_zero_iff_nil, length_drop. lia. }
  destruct toks as [|[c| |w] toks]; [done|split; [|done]; intros E; rewrite E in Hf..].
  - by destruct Hf as (_ & r & ? & _).
  - by destruct Hf as (r & ? & _).
  - destruct Hf as (r & ? & ? & _). by destruct w.
Qed.

Lemma strlen_whole b : 0 ∉ b → slen b = length b.
Proof. intros H. rewrite <- (app_nil_r b) at 1. by apply strlen_app. Qed.

Lemma keeps_refl b : keeps b b.
Proof. by split. Qed.

(** When [parseline] has read the tokens. *)
Lemma parsecmd_after b h0 s0 p c h s toks :
  0 ∉ b → parseline (4 * (length b + 2)) (length b) (mkSh b h0 0) = Ok p (mkSh b h s) →
  At b s toks → rep (ok_span b) h p c →
  if decide (toks = []) then ∃ st, parsecmd (mkSh b h0 s0) = Ok p st ∧ denotes st p c
  else parsecmd (mkSh b h0 s0) = Panic "syntax".
Proof.
  intros Hb Hrun Hat Hr. destruct (peek_end b Hb s toks h [] Hat) as (s' & r & Hpk & Hend).
  assert (parsecmd (mkSh b h0 s0) =
    (if negb (s' =? length b)%nat then panic "syntax"
     else _ ← nulterminate (S p) p; mret p) (mkSh b h s')) as ->.
  { unfold parsecmd. rewrite bind_gets. cbn [sbuf]. rewrite strlen_whole by done.
    rewrite bind_modify. by rewrite (bind_ok _ _ _ _ _ Hrun), (bind_ok _ _ _ _ _ Hpk), bind_gets. }
  case_decide as Ht.
  - rewrite (proj2 (Nat.eqb_eq _ _)) by (by apply Hend). cbn [negb].
    destruct (nulterminate_spec b h p c (S p) s' Hr (Nat.lt_succ_diag_r p) b (keeps_refl b))
      as (b2 & Hnul & [Hk _] & Hc).
    exists (mkSh b2 h s'). split; [by mstep Hnul|]. eapply rep_mono; [|done..].
    intros *. by apply closed_cstr.
  - rewrite (proj2 (Nat.eqb_neq _ _)); [done|]. by intros ?%Hend.
Qed.

Lemma At_start b toks : lays toks b → At b 0 toks.
Proof. intros. split; [lia|done]. Qed.

(** A line of the grammar is parsed. *)
Lemma parsecmd_line b h0 s0 l :
  0 ∉ b → lays (line_toks l) b → few_line l →
  ∃ p st, parsecmd (mkSh b h0 s0) = Ok p st ∧ denotes st p (line_cmd l).
Proof.
  intros Hb Hl Hfew. pose proof (lays_length _ _ Hl) as Hlen.
  destruct (parser_complete b Hb (4 * (length b + 2))) as [Hc _].
  specialize (Hc l [] h0 Hfew (or_introl eq_refl)). rewrite app_nil_r in Hc.
  specialize (Hc ltac:(lia) 0%nat (At_start _ _ Hl)).
  destruct (parseline _ _ _) as [p st| | | | |] eqn:E; try done.
  destruct Hc as (s & toks & h & -> & Hat & -> & _ & Hr).
  destruct (parsecmd_after b h0 s0 p _ h s [] Hb E Hat Hr) as (st & ? & ?). by exists p, st.
Qed.

(** C14: the shell's parser accepts exactly its grammar.  If the characters of a line are laid
    out, with any blanks, as the tokens of a line [l] of the grammar, no command of which has
    more than nine arguments, then [parsecmd] returns a command, with no panic; the object
    that it returns is the tree of [l], and every argument and file name in it is a string of
    its own in the buffer.  On any other line it prints a message and exits.  In both cases it
    ends. *)
Theorem parsecmd_accepts_grammar b h0 s0 :
  0 ∉ b →
  (∀ l, lays (line_toks l) b → few_line l →
     ∃ p st, parsecmd (mkSh b h0 s0) = Ok p st ∧ denotes st p (line_cmd l)) ∧
  (¬ (∃ l, lays (line_toks l) b ∧ few_line l) → ∃ msg, parsecmd (mkSh b h0 s0) = Panic msg).
Proof.
  intros Hb. split; [intros l; by apply parsecmd_line|].
  intros Hno. destruct (lays_total b) as [toks Hl]. pose proof (lays_length _ _ Hl) as Hlen.
  destruct (parser_sound b Hb (4 * (length b + 2))) as [Hc _].
  specialize (Hc toks h0 ltac:(lia) 0%nat (At_start _ _ Hl)).
  destruct (parseline _ _ _) as [p st|msg| | | |] eqn:E; try done.
  + destruct Hc as (s & toks' & h & -> & Hat & l & -> & Hfew & _ & Hr).
    pose proof (parsecmd_after b h0 s0 p _ h s toks' Hb E Hat Hr) as H.
    case_decide as Ht; [|by exists "syntax"]. subst toks'. rewrite app_nil_r in Hl. naive_solver.
  + exists msg. unfold parsecmd. rewrite bind_gets. cbn [sbuf]. rewrite strlen_whole by done.
    rewrite bind_modify. by rewrite (bind_panic _ _ _ _ E).
Qed.

(** The line [a b<c|(d;e)&], with its newline. *)
Definition example_line : gline :=
  GLine (GPipe (GExec [] [([97], []); ([98], [mkRedir RIn [99]])])
    (Some (GPipe (GBlock (GLine (GPipe (GExec [] [([100], [])]) None) 0
      (Some (GLine (GPipe (GExec [] [([101], [])]) None) 0 None))) []) None))) 1 None.

Definition example_text : list Z := [97; 32; 98; 60; 99; 124; 40; 100; 59; 101; 41; 38; 10].

Ltac lay_word w :=
  apply (lays_word [] w); [constructor|done|repeat constructor|by intros ? [= <-]|].
Ltac lay_sym c := apply (lays_sym [] c); [constructor|by apply strchr_elem|done|].

Lemma example_lays : lays (line_toks example_line) example_text.
Proof.
  unfold example_text. simpl. lay_word [97].
  apply (lays_word [32] [98]); [repeat constructor|done|repeat constructor|by intros ? [= <-]|].
  lay_sym 60. lay_word [99]. lay_sym 124. lay_sym 40. lay_word [100]. lay_sym 59.
  lay_word [101]. lay_sym 41. lay_sym 38. constructor. repeat constructor.
Qed.

Lemma parsecmd_accepts_grammar_witness :
  (∃ p st, parsecmd (mkSh example_text [] 0) = Ok p st ∧ denotes st p (line_cmd example_line)) ∧
  line_cmd example_line =
    CBack (CPipe (CRedir (CExec [[97]; [98]]) [99] 0 0) (CList (CExec [[100]]) (CExec [[101]]))).
Proof.
  split; [|done]. assert (0 ∉ example_text) as H0.
  { apply strchr_not. done. }
  destruct (parsecmd_accepts_grammar example_text [] 0 H0) as [H _].
  apply H; [apply example_lays|]. simpl. unfold MAXARGS. lia.
Defined.
