(* ===== verification/ShRun.v ===== *)
(** * sh.c: running commands

    [runcmd], [getcmd] and [main] as programs of system calls. *)

From S2P Require Import Prelude Layout State Str Ports Console Sysfile User Sh ShGrammar Utils.

(** [panic] of sh.c. *)
Definition sh_panic (s : list Z) : prog unit := _ ← uprintf 2 (nl "%s") [AStr s]; Exit.

Definition fork1 : prog Z :=
  pid ← call SFork;
  _ ← (if pid =? -1 then sh_panic (bytes_of "fork") else Ret tt);
  Ret pid.

(** The strings of [argv] up to the null pointer. *)
Fixpoint argv_strings (b : list Z) (argv : list (option nat)) : list (list Z) :=
  match argv with Some q :: argv' => cstr b q :: argv_strings b argv' | _ => [] end.

(** A command points to older ones only; [runcmd] itself does not return. *)
Fixpoint runcmd (fuel : nat) (st : sh) (cmd : nat) : prog unit :=
  match fuel with
  | O => Diverge
  | S fuel' =>
      match heap st !! cmd with
      | None => Diverge
      | Some (EXEC argv _) =>
          match argv_strings (sbuf st) argv with
          | [] => Exit
          | a :: args =>
              _ ← do_ (SExec a (a :: args));
              _ ← uprintf 2 (nl "exec %s failed") [AStr a];
              Exit
          end
      | Some (REDIR c file _ mode fd) =>
          let file := cstr (sbuf st) file in
          _ ← do_ (SClose fd);
          r ← call (SOpen file mode);
          if r <? 0 then _ ← uprintf 2 (nl "open %s failed") [AStr file]; Exit
          else runcmd fuel' st c
      | Some (LIST l r) =>
          pid ← fork1;
          _ ← (if pid =? 0 then runcmd fuel' st l else Ret tt);
          _ ← do_ SWait;
          runcmd fuel' st r
      | Some (PIPE l r) =>
          pr ← sys SPipe;
          if ret pr <? 0 then sh_panic (bytes_of "pipe")
          else
            match stored pr with
            | [p0; p1] =>
                pid ← fork1;
                _ ← (if pid =? 0 then
                       _ ← do_ (SClose 1); _ ← do_ (SDup p1); _ ← do_ (SClose p0); _ ← do_ (SClose p1);
                       runcmd fuel' st l
                     else Ret tt);
                pid ← fork1;
                _ ← (if pid =? 0 then
                       _ ← do_ (SClose 0); _ ← do_ (SDup p0); _ ← do_ (SClose p0); _ ← do_ (SClose p1);
                       runcmd fuel' st r
                     else Ret tt);
                _ ← do_ (SClose p0);
                _ ← do_ (SClose p1);
                _ ← do_ SWait;
                _ ← do_ SWait;
                Exit
            | _ => Diverge
            end
      | Some (BACK c) =>
          pid ← fork1;
          _ ← (if pid =? 0 then runcmd fuel' st c else Ret tt);
          Exit
      end
  end.

(** ulib.c's [gets], with room for [n] characters. *)
Fixpoint gets_line (n : nat) : prog (list Z) :=
  match n with
  | O => Ret []
  | S n' =>
      r ← sys (SRead 0 1);
      if ret r <? 1 then Ret []
      else
        let c := hd 0 (stored r) in
        if (c =? 10) || (c =? 13) then Ret [c]
        else l ← gets_line n'; Ret (c :: l)
  end.

(** [None]: the end of the input. *)
Definition getcmd (nbuf : nat) : prog (option (list Z)) :=
  _ ← uprintf 2 (bytes_of "$ ") [];
  l ← gets_line (nbuf - 1);
  let buf := cstring_of l in
  Ret (if bool_decide (buf = []) then None else Some buf).

(** [runcmd(parsecmd(buf))], in the child.  Before the panic about characters behind a command
    [parsecmd] also prints them, which is not in the model of it. *)
Definition run_line (buf : list Z) : prog unit :=
  match parsecmd (mkSh buf [] 0) with
  | Ok cmd st => runcmd (S cmd) st cmd
  | Panic msg => sh_panic (bytes_of msg)
  | _ => Diverge
  end.

(** Ensure that three file descriptors are open. *)
Fixpoint open_console (fuel : nat) : prog unit :=
  match fuel with
  | O => Diverge
  | S fuel' =>
      fd ← call (SOpen (bytes_of "console") O_RDWR);
      if 0 <=? fd then if 3 <=? fd then do_ (SClose fd) else open_console fuel'
      else Ret tt
  end.

Fixpoint sh_loop (fuel : nat) : prog unit :=
  match fuel with
  | O => Diverge
  | S fuel' =>
      cmd ← getcmd 100;
      match cmd with
      | None => Exit
      | Some buf =>
          if bool_decide (take 3 buf = bytes_of "cd ") then
            let path := drop 3 (removelast buf) in
            r ← call (SChdir path);
            _ ← (if r <? 0 then uprintf 2 (nl "cannot cd %s") [AStr path] else Ret tt);
            sh_loop fuel'
          else
            pid ← fork1;
            _ ← (if pid =? 0 then run_line buf else Ret tt);
            _ ← do_ SWait;
            sh_loop fuel'
      end
  end.

Definition sh_main (fuel : nat) : prog unit := _ ← open_console fuel; sh_loop fuel.
