(* ===== verification/ShRunProps.v ===== *)
(** * Properties of the shell's commands

    What processes a command becomes: which programs they run, with which open files, and who
    waits for whom. *)

From S2P Require Import Prelude Layout State Str Ports Console Sysfile UlibProps User Sh ShLex ShGrammar ShParse Utils ShRun.

(** ** Processes with descriptors *)

(** What a descriptor refers to.  A pipe is named after the process that made it. *)
Inductive obj :=
  | Inherited (n : nat)
  | File (path : list Z) (mode : Z)
  | PipeR (id : list bool)
  | PipeW (id : list bool).

(** The table of a process: its entry for a descriptor is empty or an object. *)
Notation fdtable := (list (option obj)).

(** What a process does: it ends, it becomes another program with its table, it forks, it
    waits, with its table, for a child, or it writes. *)
Inductive ptree :=
  | PExit
  | PExec (path : list Z) (argv : list (list Z)) (F : fdtable)
  | PFork (child parent : ptree)
  | PWait (F : fdtable) (rest : ptree)
  | PWrite (o : option obj) (s : list Z) (rest : ptree)
  | PStuck.

(** A new descriptor is the lowest one that is free, as [fdalloc] of the kernel chooses it. *)
Fixpoint lowest (F : fdtable) : option nat :=
  match F with
  | [] => None
  | None :: _ => Some 0%nat
  | Some _ :: F' => S <$> lowest F'
  end.

Definition entry (F : fdtable) (fd : Z) : option obj :=
  if fd <? 0 then None else mjoin (F !! Z.to_nat fd).

Section Processes.
(** Whether a call of the process [id] that can fail for reasons of its own succeeds.  The
    child of a process is [true :: id], and after the fork the parent is [false :: id]. *)
Context (ok : list bool → scall → bool).

Definition failed : reply := mkReply (-1) [].

Fixpoint interp (p : prog unit) (id : list bool) (F : fdtable) : ptree :=
  match p with
  | Ret _ => PStuck
  | Exit => PExit
  | Diverge => PStuck
  | Sys c k =>
      match c with
      | SClose fd =>
          match entry F fd with
          | Some _ => interp (k (mkReply 0 [])) id (<[Z.to_nat fd := None]> F)
          | None => interp (k failed) id F
          end
      | SDup fd =>
          match entry F fd, lowest F with
          | Some o, Some e => interp (k (mkReply (Z.of_nat e) [])) id (<[e := Some o]> F)
          | _, _ => interp (k failed) id F
          end
      | SOpen path mode =>
          match lowest F with
          | Some e =>
              if ok id c then interp (k (mkReply (Z.of_nat e) [])) id (<[e := Some (File path mode)]> F)
              else interp (k failed) id F
          | None => interp (k failed) id F
          end
      | SPipe =>
          match lowest F with
          | Some e0 =>
              let F0 := <[e0 := Some (PipeR id)]> F in
              match lowest F0 with
              | Some e1 =>
                  if ok id c then
                    interp (k (mkReply 0 [Z.of_nat e0; Z.of_nat e1])) id (<[e1 := Some (PipeW id)]> F0)
                  else interp (k failed) id F
              | None => interp (k failed) id F
              end
          | None => interp (k failed) id F
          end
      | SFork =>
          if ok id c then
            PFork (interp (k (mkReply 0 [])) (true :: id) F) (interp (k (mkReply 2 [])) (false :: id) F)
          else interp (k failed) id F
      | SWait => PWait F (interp (k (mkReply 2 [])) id F)
      | SExec path argv =>
          if ok id c then PExec path argv F else interp (k failed) id F
      | SWrite fd s => PWrite (entry F fd) s (interp (k (mkReply (Z.of_nat (length s)) [])) id F)
      | _ => interp (k (mkReply 0 [])) id F
      end
  end.

(** ** What a command means *)

(** A message on the standard error output, one character at a time. *)
Definition says (F : fdtable) (fmt : list Z) (args : list carg) (rest : ptree) : ptree :=
  foldr (λ c t, PWrite (entry F 2) [c] t) rest (default [] (format fmt args)).

Definition fork_failed (F : fdtable) : ptree := says F (nl "%s") [AStr (bytes_of "fork")] PExit.

Fixpoint meaning (c : command) (id : list bool) (F : fdtable) : ptree :=
  match c with
  | CExec [] => PExit
  | CExec (a :: args) =>
      if ok id (SExec a (a :: args)) then PExec a (a :: args) F
      else says F (nl "exec %s failed") [AStr a] PExit
  | CRedir c file mode fd =>
      if ok id (SOpen file mode) then meaning c id (<[Z.to_nat fd := Some (File file mode)]> F)
      else says F (nl "open %s failed") [AStr file] PExit
  | CList c1 c2 =>
      if ok id SFork then PFork (meaning c1 (true :: id) F) (PWait F (meaning c2 (false :: id) F))
      else fork_failed F
  | CPipe c1 c2 =>
      if ok id SPipe then
        if ok id SFork then
          PFork (meaning c1 (true :: id) (<[1%nat := Some (PipeW id)]> F))
            (if ok (false :: id) SFork then
               PFork (meaning c2 (true :: false :: id) (<[0%nat := Some (PipeR id)]> F))
                 (PWait F (PWait F PExit))
             else fork_failed F)
        else fork_failed F
      else says F (nl "%s") [AStr (bytes_of "pipe")] PExit
  | CBack c =>
      if ok id SFork then PFork (meaning c (true :: id) F) PExit else fork_failed F
  end.

(** Redirections are of the standard input and output. *)
Fixpoint std_redirs (c : command) : Prop :=
  match c with
  | CExec _ => True
  | CRedir c _ _ fd => (fd = 0 ∨ fd = 1) ∧ std_redirs c
  | CList c1 c2 | CPipe c1 c2 => std_redirs c1 ∧ std_redirs c2
  | CBack c => std_redirs c
  end.

End Processes.

(** ** Descriptors *)

(** A table: the standard descriptors, and the first two places behind them that are not used
    by something else. *)
Definition table (a0 a1 a2 : option obj) (n1 : list obj) (x : option obj) (n2 : list obj)
    (y : option obj) (rest : fdtable) : fdtable :=
  a0 :: a1 :: a2 :: (Some <$> n1) ++ x :: (Some <$> n2) ++ y :: rest.

(** The first three descriptors are open, and two others are free. *)
Definition table_ok (F : fdtable) : Prop :=
  ∃ o0 o1 o2 n1 n2 rest, F = table (Some o0) (Some o1) (Some o2) n1 None n2 None rest.

Section Table.
Context (n1 n2 : list obj) (rest : fdtable).
Notation T a0 a1 a2 x y := (table a0 a1 a2 n1 x n2 y rest).
Definition e0 : nat := 3 + length n1.
Definition e1 : nat := 3 + (length n1 + S (length n2)).

Lemma lowest_app (l : list obj) (r : fdtable) : lowest ((Some <$> l) ++ r) = Nat.add (length l) <$> lowest r.
Proof.
  induction l as [|o l IH]; cbn; [by destruct (lowest r)|]. rewrite IH. by destruct (lowest r).
Qed.

Lemma lowest_e0 o0 o1 o2 y : lowest (T (Some o0) (Some o1) (Some o2) None y) = Some e0.
Proof. unfold table. cbn [lowest]. rewrite lowest_app. cbn. do 2 f_equal. unfold e0. lia. Qed.

Lemma lowest_e1 o0 o1 o2 x : lowest (T (Some o0) (Some o1) (Some o2) (Some x) None) = Some e1.
Proof.
  unfold table. cbn [lowest]. rewrite lowest_app. cbn [lowest]. rewrite lowest_app. cbn.
  do 2 f_equal. unfold e1. lia.
Qed.

Lemma insert_at (l : list obj) (x : option obj) r v :
  <[length l := v]> ((Some <$> l) ++ x :: r) = (Some <$> l) ++ v :: r.
Proof. induction l as [|o l IH]; [done|]. cbn. f_equal. exact IH. Qed.
Lemma insert_behind (l : list obj) (x : option obj) r k v :
  <[(length l + S k)%nat := v]> ((Some <$> l) ++ x :: r) = (Some <$> l) ++ x :: <[k := v]> r.
Proof. induction l as [|o l IH]; [done|]. cbn. f_equal. exact IH. Qed.
Lemma lookup_at (l : list obj) (x : option obj) r : ((Some <$> l) ++ x :: r) !! length l = Some x.
Proof. induction l as [|o l IH]; [done|]. exact IH. Qed.
Lemma lookup_behind (l : list obj) (x : option obj) r k : ((Some <$> l) ++ x :: r) !! (length l + S k)%nat = r !! k.
Proof. induction l as [|o l IH]; [done|]. exact IH. Qed.

Lemma insert_e0 a0 a1 a2 x y v : <[e0 := v]> (T a0 a1 a2 x y) = T a0 a1 a2 v y.
Proof. unfold table, e0. cbn. do 3 f_equal. apply insert_at. Qed.

Lemma insert_e1 a0 a1 a2 x y v : <[e1 := v]> (T a0 a1 a2 x y) = T a0 a1 a2 x v.
Proof. unfold table, e1. cbn. do 3 f_equal. rewrite insert_behind. do 2 f_equal. apply insert_at. Qed.

Lemma entry_e0 a0 a1 a2 x y : entry (T a0 a1 a2 x y) (Z.of_nat e0) = x.
Proof.
  unfold entry. rewrite (proj2 (Z.ltb_ge _ _)) by lia. rewrite Nat2Z.id. unfold table, e0. cbn.
  by rewrite lookup_at.
Qed.

Lemma entry_e1 a0 a1 a2 x y : entry (T a0 a1 a2 x y) (Z.of_nat e1) = y.
Proof.
  unfold entry. rewrite (proj2 (Z.ltb_ge _ _)) by lia. rewrite Nat2Z.id. unfold table, e1. cbn.
  by rewrite lookup_behind, lookup_at.
Qed.

End Table.

(** ** The system calls of [runcmd], one by one *)

Section Calls.
Context (ok : list bool → scall → bool).
Notation interp := (interp ok).
Notation meaning := (meaning ok).

Lemma interp_puts fd s k id F :
  interp (puts fd s ≫= k) id F = foldr (λ c t, PWrite (entry F fd) [c] t) (interp (k tt) id F) s.
Proof.
  induction s as [|c s IH]; [done|].
  change (interp (puts fd (c :: s) ≫= k) id F) with (PWrite (entry F fd) [c] (interp (puts fd s ≫= k) id F)).
  by rewrite IH.
Qed.

Lemma interp_uprintf fmt args out k id F :
  format fmt args = Some out →
  interp (uprintf 2 fmt args ≫= k) id F = says F fmt args (interp (k tt) id F).
Proof. intros H. unfold uprintf, says. rewrite H. apply interp_puts. Qed.

Lemma interp_sh_panic s id F : interp (sh_panic s) id F = says F (nl "%s") [AStr s] PExit.
Proof. unfold sh_panic. by erewrite interp_uprintf by reflexivity. Qed.

(** A program that does not return. *)
Fixpoint noret {A} (p : prog A) : Prop :=
  match p with Ret _ => False | Exit => True | Diverge => True | Sys _ k => ∀ r, noret (k r) end.

Lemma noret_bind {A B} (p : prog A) (f : A → prog B) : (∀ a, noret (f a)) → noret (p ≫= f).
Proof. intros Hf. induction p; cbn; [apply Hf|done..|done]. Qed.

Lemma interp_noret (p : prog unit) k id F : noret p → interp (p ≫= k) id F = interp p id F.
Proof.
  revert id F. induction p as [a| |c kk IH|]; intros id F Hp; [done..| |done].
  change (Sys c kk ≫= k) with (Sys c (λ r, kk r ≫= k)).
  destruct c; cbn [interp]; repeat case_match; first [done|by apply IH|f_equal; by apply IH].
Qed.

Lemma runcmd_noret fuel st p : noret (runcmd fuel st p).
Proof.
  revert p. induction fuel as [|fuel IH]; intros p; [done|]. cbn [runcmd].
  destruct (heap st !! p) as [[argv|c f e m d|l r|l r|c]|]; [| | | | |done].
  - destruct (argv_strings _ _); [done|]. do 2 (apply noret_bind; intros). done.
  - do 2 (apply noret_bind; intros). destruct (_ <? _); [apply noret_bind; intros; done|apply IH].
  - apply noret_bind. intros pr. destruct (_ <? _); [apply noret_bind; intros; done|].
    destruct (stored pr) as [|? [|? [|]]]; try done. do 8 (apply noret_bind; intros). done.
  - do 3 (apply noret_bind; intros). apply IH.
  - do 2 (apply noret_bind; intros). done.
Qed.

(** [fork1] and the test for the child. *)
Lemma interp_fork1 (child : prog unit) (k : unit → prog unit) id F :
  noret child →
  interp (pid ← fork1; _ ← (if pid =? 0 then child else Ret tt); k tt) id F =
  if ok id SFork then PFork (interp child (true :: id) F) (interp (k tt) (false :: id) F)
  else fork_failed F.
Proof.
  intros Hc. unfold fork1, call.
  change (interp _ id F) with
    (if ok id SFork then PFork (interp (child ≫= λ _, k tt) (true :: id) F) (interp (k tt) (false :: id) F)
     else interp (sh_panic (bytes_of "fork") ≫= λ _, _ ← (if -1 =? 0 then child else Ret tt); k tt) id F).
  rewrite interp_noret by done. destruct (ok id SFork); [done|].
  rewrite interp_noret; [by rewrite interp_sh_panic|]. unfold sh_panic. by apply noret_bind.
Qed.

(** A message and the end. *)
Lemma interp_fails fmt args out id F :
  format fmt args = Some out → interp (_ ← uprintf 2 fmt args; Exit) id F = says F fmt args PExit.
Proof. intros H. by erewrite interp_uprintf. Qed.

Lemma says_entry F F' fmt args t : entry F 2 = entry F' 2 → says F fmt args t = says F' fmt args t.
Proof. intros H. unfold says. by rewrite H. Qed.

(** [runs_as p c]: the program [p] is the command [c], whatever process runs it. *)
Definition runs_as (p : prog unit) (c : command) : Prop :=
  ∀ id F, table_ok F → interp p id F = meaning c id F.

Lemma redirect_runs p c file mode fd :
  fd = 0 ∨ fd = 1 → runs_as p c →
  runs_as (_ ← do_ (SClose fd); r ← call (SOpen file mode);
           if r <? 0 then _ ← uprintf 2 (nl "open %s failed") [AStr file]; Exit else p)
    (CRedir c file mode fd).
Proof.
  intros Hfd Hp id F (o0 & o1 & o2 & n1 & n2 & rest & ->). cbn [meaning].
  destruct Hfd as [->| ->].
  - change (interp _ id _) with
      (if ok id (SOpen file mode)
       then interp p id (table (Some (File file mode)) (Some o1) (Some o2) n1 None n2 None rest)
       else interp (_ ← uprintf 2 (nl "open %s failed") [AStr file]; Exit) id
              (table None (Some o1) (Some o2) n1 None n2 None rest)).
    destruct (ok id (SOpen file mode)); [apply Hp; by repeat eexists|]. by erewrite interp_fails.
  - change (interp _ id _) with
      (if ok id (SOpen file mode)
       then interp p id (table (Some o0) (Some (File file mode)) (Some o2) n1 None n2 None rest)
       else interp (_ ← uprintf 2 (nl "open %s failed") [AStr file]; Exit) id
              (table (Some o0) None (Some o2) n1 None n2 None rest)).
    destruct (ok id (SOpen file mode)); [apply Hp; by repeat eexists|]. by erewrite interp_fails.
Qed.

Lemma exec_runs a args :
  runs_as (_ ← do_ (SExec a (a :: args)); _ ← uprintf 2 (nl "exec %s failed") [AStr a]; Exit)
    (CExec (a :: args)).
Proof.
  intros id F _. cbn [meaning].
  change (interp _ id F) with
    (if ok id (SExec a (a :: args)) then PExec a (a :: args) F
     else interp (_ ← uprintf 2 (nl "exec %s failed") [AStr a]; Exit) id F).
  destruct (ok id _); [done|]. by erewrite interp_fails.
Qed.

Lemma list_runs p1 p2 c1 c2 :
  noret p1 → runs_as p1 c1 → runs_as p2 c2 →
  runs_as (pid ← fork1; _ ← (if pid =? 0 then p1 else Ret tt); _ ← do_ SWait; p2) (CList c1 c2).
Proof.
  intros Hn H1 H2 id F HF. rewrite (interp_fork1 p1 (λ _, _ ← do_ SWait; p2)) by done.
  cbn [meaning]. destruct (ok id SFork); [|done]. f_equal; [by apply H1|].
  change (interp (_ ← do_ SWait; p2) (false :: id) F) with (PWait F (interp p2 (false :: id) F)).
  f_equal. by apply H2.
Qed.

Lemma back_runs p c :
  noret p → runs_as p c →
  runs_as (pid ← fork1; _ ← (if pid =? 0 then p else Ret tt); Exit) (CBack c).
Proof.
  intros Hn H1 id F HF. rewrite (interp_fork1 p (λ _, Exit)) by done.
  cbn [meaning]. destruct (ok id SFork); [|done]. f_equal. by apply H1.
Qed.

(** *** Pipes *)

(** A process with the two ends of a pipe takes one of them as a standard descriptor and
    closes both. *)
Lemma interp_close fd (p : prog unit) id F :
  interp (_ ← do_ (SClose fd); p) id F =
  match entry F fd with Some _ => interp p id (<[Z.to_nat fd := None]> F) | None => interp p id F end.
Proof. done. Qed.

Lemma close_end p id a0 a1 a2 n1 x n2 y rest :
  interp (_ ← do_ (SClose (Z.of_nat (e0 n1))); _ ← do_ (SClose (Z.of_nat (e1 n1 n2))); p) id
    (table a0 a1 a2 n1 (Some x) n2 (Some y) rest) = interp p id (table a0 a1 a2 n1 None n2 None rest).
Proof. by rewrite interp_close, entry_e0, Nat2Z.id, insert_e0, interp_close, entry_e1, Nat2Z.id, insert_e1. Qed.

Lemma left_end p id o0 o1 a2 n1 x n2 y rest :
  interp (_ ← do_ (SClose 1); _ ← do_ (SDup (Z.of_nat (e1 n1 n2)));
          _ ← do_ (SClose (Z.of_nat (e0 n1))); _ ← do_ (SClose (Z.of_nat (e1 n1 n2))); p) id
    (table (Some o0) (Some o1) a2 n1 (Some x) n2 (Some y) rest) =
  interp p id (table (Some o0) (Some y) a2 n1 None n2 None rest).
Proof.
  rewrite <- (close_end p id (Some o0) (Some y) a2 n1 x n2 y rest).
  set (q := _ ← do_ (SClose (Z.of_nat (e0 n1))); _).
  change (interp _ id (table (Some o0) (Some o1) a2 n1 (Some x) n2 (Some y) rest)) with
    (match entry (table (Some o0) None a2 n1 (Some x) n2 (Some y) rest) (Z.of_nat (e1 n1 n2)) with
     | Some o => interp q id (table (Some o0) (Some o) a2 n1 (Some x) n2 (Some y) rest)
     | None => interp q id (table (Some o0) None a2 n1 (Some x) n2 (Some y) rest)
     end).
  by rewrite entry_e1.
Qed.

Lemma right_end p id o0 a1 a2 n1 x n2 y rest :
  interp (_ ← do_ (SClose 0); _ ← do_ (SDup (Z.of_nat (e0 n1)));
          _ ← do_ (SClose (Z.of_nat (e0 n1))); _ ← do_ (SClose (Z.of_nat (e1 n1 n2))); p) id
    (table (Some o0) a1 a2 n1 (Some x) n2 (Some y) rest) =
  interp p id (table (Some x) a1 a2 n1 None n2 None rest).
Proof.
  rewrite <- (close_end p id (Some x) a1 a2 n1 x n2 y rest).
  set (q := _ ← do_ (SClose (Z.of_nat (e0 n1))); _).
  change (interp _ id (table (Some o0) a1 a2 n1 (Some x) n2 (Some y) rest)) with
    (match entry (table None a1 a2 n1 (Some x) n2 (Some y) rest) (Z.of_nat (e0 n1)) with
     | Some o => interp q id (table (Some o) a1 a2 n1 (Some x) n2 (Some y) rest)
     | None => interp q id (table None a1 a2 n1 (Some x) n2 (Some y) rest)
     end).
  by rewrite entry_e0.
Qed.

Lemma interp_pipe (f : reply → prog unit) id o0 o1 o2 n1 n2 rest :
  interp (sys SPipe ≫= f) id (table (Some o0) (Some o1) (Some o2) n1 None n2 None rest) =
  if ok id SPipe then
    interp (f (mkReply 0 [Z.of_nat (e0 n1); Z.of_nat (e1 n1 n2)])) id
      (table (Some o0) (Some o1) (Some o2) n1 (Some (PipeR id)) n2 (Some (PipeW id)) rest)
  else interp (f failed) id (table (Some o0) (Some o1) (Some o2) n1 None n2 None rest).
Proof.
  change (sys SPipe ≫= f) with (Sys SPipe f). cbn [interp].
  rewrite lowest_e0. cbv zeta. by rewrite insert_e0, lowest_e1, insert_e1.
Qed.

Lemma pipe_runs p1 p2 c1 c2 :
  noret p1 → noret p2 → runs_as p1 c1 → runs_as p2 c2 →
  runs_as (pr ← sys SPipe;
           if ret pr <? 0 then sh_panic (bytes_of "pipe")
           else
             match stored pr with
             | [q0; q1] =>
                 pid ← fork1;
                 _ ← (if pid =? 0 then
                        _ ← do_ (SClose 1); _ ← do_ (SDup q1); _ ← do_ (SClose q0); _ ← do_ (SClose q1); p1
                      else Ret tt);
                 pid ← fork1;
                 _ ← (if pid =? 0 then
                        _ ← do_ (SClose 0); _ ← do_ (SDup q0); _ ← do_ (SClose q0); _ ← do_ (SClose q1); p2
                      else Ret tt);
                 _ ← do_ (SClose q0); _ ← do_ (SClose q1); _ ← do_ SWait; _ ← do_ SWait; Exit
             | _ => Diverge
             end) (CPipe c1 c2).
Proof.
  intros Hn1 Hn2 H1 H2 id F (o0 & o1 & o2 & n1 & n2 & rest & ->).
  rewrite interp_pipe. cbn [meaning ret stored failed Z.ltb Z.compare].
  destruct (ok id SPipe); [|apply interp_sh_panic].
  set (q0 := Z.of_nat (e0 n1)). set (q1 := Z.of_nat (e1 n1 n2)).
  rewrite (interp_fork1 (_ ← do_ (SClose 1); _ ← do_ (SDup q1); _ ← do_ (SClose q0); _ ← do_ (SClose q1); p1)
    (λ _, pid ← fork1; _ ← (if pid =? 0 then _ else _); _)); [|by do 4 (apply noret_bind; intros)].
  destruct (ok id SFork); [|done]. f_equal.
  { unfold q0, q1. rewrite left_end. apply H1. by repeat eexists. }
  rewrite (interp_fork1 (_ ← do_ (SClose 0); _ ← do_ (SDup q0); _ ← do_ (SClose q0); _ ← do_ (SClose q1); p2)
    (λ _, _ ← do_ (SClose q0); _ ← do_ (SClose q1); _)); [|by do 4 (apply noret_bind; intros)].
  destruct (ok (false :: id) SFork); [|done]. f_equal.
  { unfold q0, q1. rewrite right_end. apply H2. by repeat eexists. }
  unfold q0, q1. by rewrite close_end.
Qed.

(** ** Commands *)

Lemma argv_strings_null b (args : list (nat * nat)) ws r :
  Forall2 (λ a w, cstr b a.1 = w) args ws → argv_strings b ((Some <$> args.*1) ++ None :: r) = ws.
Proof. induction 1 as [|a w args ws <- _ IH]; [done|]. cbn. f_equal. exact IH. Qed.

Lemma runcmd_meaning st p c fuel :
  denotes st p c → std_redirs c → (p < fuel)%nat → runs_as (runcmd fuel st p) c.
Proof.
  intros Hd. revert fuel. induction Hd as
    [p args ws Hn Hl Hs|p q f e m d c w Hn Hq Hsp Hr IH|p q1 q2 c1 c2 Hn Hq1 Hq2 Hr1 IH1 Hr2 IH2
    |p q1 q2 c1 c2 Hn Hq1 Hq2 Hr1 IH1 Hr2 IH2|p q c Hn Hq Hr IH];
    intros [|fuel] Hstd Hf; try lia; cbn [runcmd]; rewrite Hn; cbn [std_redirs] in Hstd.
  - rewrite argvec_null by (by rewrite length_fmap). cbn [replicate].
    rewrite (argv_strings_null _ _ ws) by done. destruct ws; [done|apply exec_runs].
  - destruct Hstd as [Hfd Hstd]. cbv zeta. rewrite Hsp. apply redirect_runs; [done|]. apply IH; [done|lia].
  - destruct Hstd as [Hs1 Hs2].
    apply pipe_runs; [apply runcmd_noret..|apply IH1; [done|lia]|apply IH2; [done|lia]].
  - destruct Hstd as [Hs1 Hs2].
    apply list_runs; [apply runcmd_noret|apply IH1; [done|lia]|apply IH2; [done|lia]].
  - apply back_runs; [apply runcmd_noret|]. apply IH; [done|lia].
Qed.

(** The redirections of a parsed line are of the standard input and output. *)
Lemma std_redirs_fold c rs : std_redirs c → std_redirs (foldl add_redir c rs).
Proof.
  revert c. induction rs as [|[k f] rs IH]; intros c Hc; [done|]. cbn. apply IH. cbn.
  split; [destruct k; auto|done].
Qed.

Lemma std_redirs_back n c : std_redirs c → std_redirs (Nat.iter n CBack c).
Proof. by induction n. Qed.

Fixpoint std_redirs_line (l : gline) : std_redirs (line_cmd l)
with std_redirs_pipe (p : gpipe) : std_redirs (pipe_cmd p)
with std_redirs_exec (e : gexec) : std_redirs (exec_cmd e).
Proof.
  - destruct l as [p n [l|]]; cbn [line_cmd]; [split; [|apply std_redirs_line]|]; apply std_redirs_back, std_redirs_pipe.
  - destruct p as [e [p|]]; cbn [pipe_cmd]; [split; [|apply std_redirs_pipe]|]; apply std_redirs_exec.
  - destruct e; cbn [exec_cmd]; apply std_redirs_fold; [apply std_redirs_line|done].
Qed.

(** C9: the shell runs command lines.  If the characters of a line are laid out as the tokens
    of a line of the grammar, the child that the shell forks for it does what the line means:
    a simple command is executed with the open files of the shell, [<] and [>] replace the
    standard input or output by the file, the parts of a pipeline run at once with the one's
    output and the other's input the two ends of a new pipe, of which no process keeps another
    copy, [;] waits for the first part before it runs the second, and [&] does not wait.  When a
    call fails there is a message, and the process ends. *)
Theorem shell_runs_line b l id F :
  0 ∉ b → lays (line_toks l) b → few_line l → table_ok F →
  interp (run_line b) id F = meaning (line_cmd l) id F.
Proof.
  intros Hb Hl Hfew HF. destruct (parsecmd_line b [] 0 l Hb Hl Hfew) as (p & st & Hrun & Hd).
  unfold run_line. rewrite Hrun. apply runcmd_meaning; [done|apply std_redirs_line|lia|done].
Qed.

End Calls.

(** The line of ShParse.v: the reader of the pipe is the block, which the shell's child forks. *)
Lemma shell_runs_line_witness :
  let F := table (Some (Inherited 0)) (Some (Inherited 1)) (Some (Inherited 2)) [] None [] None [] in
  interp (λ _ _, true) (run_line example_text) [] F = meaning (λ _ _, true) (line_cmd example_line) [] F ∧
  match meaning (λ _ _, true) (line_cmd example_line) [] F with
  | PFork (PFork (PExec a _ Fa) (PFork (PFork (PExec d _ Fd) _) _)) PExit =>
      a = [97] ∧ Fa = table (Some (File [99] 0)) (Some (PipeW [true])) (Some (Inherited 2)) [] None [] None [] ∧
      d = [100] ∧ Fd = table (Some (PipeR [true])) (Some (Inherited 1)) (Some (Inherited 2)) [] None [] None []
  | _ => False
  end.
Proof.
  intros F. split; [|by vm_compute]. apply shell_runs_line.
  - by apply strchr_not.
  - apply example_lays.
  - simpl. unfold MAXARGS. lia.
  - by repeat eexists.
Defined.
