(* ===== verification/Bootmain.v ===== *)
(** * bootmain.c: the boot loader

    The disk controller is a set of registers, a status that the loader polls, and sectors;
    the loader copies the segments of the kernel from the disk to memory. *)

From S2P Require Import Prelude Layout State Str Ports Exec.

Definition SECTSIZE : Z := 512.

(** The memory, the registers of the controller as last written, and the number of times that
    the status was read. *)
Record boot := mkBoot { bmem : memory; reg : Z → Z; polls : nat }.
#[export] Instance eta_boot : Settable boot := λ b, mkBoot (bmem b) (reg b) (polls b).

Section Loader.
(** The hardware: byte [i] of sector [n], what the status port gives at each reading, and a
    bound for the loops that poll it. *)
Context (disk : Z → Z → Z) (status : nat → Z) (patience : nat).

Definition inb_status : M boot Z :=
  t ← gets polls;
  _ ← modify (λ b, b <| polls := S t |>);
  mret (status t).

Definition outb (port data : Z) : M boot unit :=
  modify (λ b, b <| reg ::= λ r p, if p =? port then u8 data else r p |>).

(** The sector that the registers select, as a 28-bit number. *)
Definition selected_sector (r : Z → Z) : Z :=
  r 0x1F3 + 256 * r 0x1F4 + 65536 * r 0x1F5 + 16777216 * Z.land (r 0x1F6) 0xF.

(** [insl(0x1F0, dst, SECTSIZE/4)] after a read command for one sector. *)
Definition insl_sector (dst : Z) : M boot unit :=
  r ← gets reg;
  if (r 0x1F7 =? 0x20) && (r 0x1F2 =? 1)
  then modify (λ b, b <| bmem ::= λ m, fill m dst SECTSIZE (disk (selected_sector r)) |>)
  else fault.

Definition waitdisk : M boot unit :=
  iterate patience (λ _,
    s ← inb_status;
    mret (if negb (Z.land s 0xC0 =? 0x40) then inl tt else inr tt)) tt.

Definition readsect (dst offset : Z) : M boot unit :=
  _ ← waitdisk;
  _ ← outb 0x1F2 1;
  _ ← outb 0x1F3 offset;
  _ ← outb 0x1F4 (Z.shiftr offset 8);
  _ ← outb 0x1F5 (Z.shiftr offset 16);
  _ ← outb 0x1F6 (Z.lor (Z.shiftr offset 24) 0xE0);
  _ ← outb 0x1F7 0x20;
  _ ← waitdisk;
  insl_sector dst.

Fixpoint readseg_loop (fuel : nat) (pa epa offset : Z) : M boot unit :=
  match fuel with
  | O => out_of_fuel
  | S fuel' =>
      if pa <? epa then
        _ ← readsect pa offset;
        readseg_loop fuel' (u32 (pa + SECTSIZE)) epa (u32 (offset + 1))
      else mret tt
  end.

Definition readseg (pa count offset : Z) : M boot unit :=
  let epa := u32 (pa + count) in
  let pa := u32 (pa - offset mod SECTSIZE) in
  let offset := offset / SECTSIZE + 1 in
  readseg_loop (S (S (S (Z.to_nat (count / SECTSIZE))))) pa epa offset.

(** [elf->phnum] and the like: fields of the structures in memory. *)
Definition load16 (m : memory) (a : Z) : Z := u8 (m a) + 256 * u8 (m (a + 1)).

(** One round of the loop over the program headers. *)
Definition load_segment (ph : Z) : M boot unit :=
  m ← gets bmem;
  let pa := load32 m (ph + 12) in
  _ ← readseg pa (load32 m (ph + 16)) (load32 m (ph + 4));
  m ← gets bmem;
  let filesz := load32 m (ph + 16) in
  let memsz := load32 m (ph + 20) in
  when (filesz <? memsz)
    (modify (λ b, b <| bmem ::= λ m, stosb m (u32 (pa + filesz)) 0 (memsz - filesz) |>)).

Fixpoint load_segments (n : nat) (ph : Z) : M boot unit :=
  match n with
  | O => mret tt
  | S n' => _ ← load_segment ph; load_segments n' (ph + 32)
  end.

Definition ELF : Z := 0x10000.   (* scratch space *)

(** The address that the loader jumps to, or [None] when it returns. *)
Definition bootmain : M boot (option Z) :=
  _ ← readseg ELF 4096 0;
  m ← gets bmem;
  if negb (load32 m ELF =? ELF_MAGIC) then mret None
  else
    _ ← load_segments (Z.to_nat (load16 m (ELF + 44))) (ELF + load32 m (ELF + 28));
    m ← gets bmem;
    mret (Some (load32 m (ELF + 24))).

End Loader.
