(* ===== verification/BootmainProps.v ===== *)
(** * The boot loader loads the kernel *)

From S2P Require Import Prelude Layout State Str Ports Exec Bootmain.

Section Loader.
Context (disk : Z → Z → Z) (status : nat → Z) (patience : nat).

(** The controller becomes ready within [patience] readings of its status. *)
Hypothesis disk_answers : ∀ t, ∃ n, (n < patience)%nat ∧ Z.land (status (t + n)) 0xC0 = 0x40.

Notation waitdisk := (waitdisk status patience).
Notation readsect := (readsect disk status patience).
Notation readseg := (readseg disk status patience).

(** The kernel's file: it begins at sector 1. *)
Definition kimage : memory := λ j, disk (j / SECTSIZE + 1) (j mod SECTSIZE).

Lemma bind_poll {A} (f : Z → M boot A) b :
  (inb_status status ≫= f) b = f (status (polls b)) (b <| polls := S (polls b) |>).
Proof. unfold inb_status. by mpure. Qed.

Lemma waitdisk_ok b : ∃ t, waitdisk b = Ok tt (b <| polls := t |>).
Proof.
  destruct (disk_answers (polls b)) as (n & Hn & Hready). unfold Bootmain.waitdisk.
  revert b Hready. generalize patience Hn. clear Hn. induction n as [|n IH]; intros [|fuel] Hn b Hready; try lia.
  - exists (S (polls b)). cbn [iterate]. rewrite bind_assoc, bind_poll, bind_ret.
    rewrite Nat.add_0_r in Hready. by rewrite Hready.
  - destruct (Z.land (status (polls b)) 0xC0 =? 0x40) eqn:E.
    + exists (S (polls b)). cbn [iterate]. rewrite bind_assoc, bind_poll, bind_ret, E. done.
    + destruct (IH fuel ltac:(lia) (b <| polls := S (polls b) |>)) as [t Ht].
      { cbn. by rewrite Nat.add_succ_r in Hready. }
      exists t. cbn [iterate]. rewrite bind_assoc, bind_poll, bind_ret, E. exact Ht.
Qed.

Lemma select_high x : 0 ≤ x < 16 → Z.land (u8 (Z.lor x 0xE0)) 0xF = x.
Proof.
  intros Hx. assert (Forall (λ x, Z.land (u8 (Z.lor x 0xE0)) 0xF = x) (seqZ 0 16)) as Hf
    by (apply (bool_decide_unpack _); by vm_compute).
  rewrite Forall_forall in Hf. apply Hf, elem_of_seqZ. lia.
Qed.

Lemma selected_offset o :
  0 ≤ o < 2 ^ 28 →
  u8 o + 256 * u8 (Z.shiftr o 8) + 65536 * u8 (Z.shiftr o 16) +
  16777216 * Z.land (u8 (Z.lor (Z.shiftr o 24) 0xE0)) 0xF = o.
Proof.
  intros Ho. rewrite select_high; rewrite !Z.shiftr_div_pow2 by lia; unfold u8.
  - change (2 ^ 8) with 256. change (2 ^ 16) with 65536. change (2 ^ 24) with 16777216. zl.
  - change (2 ^ 24) with 16777216. zl.
Qed.

Lemma readsect_ok dst o b :
  0 ≤ o < 2 ^ 28 → ∃ r t, readsect dst o b = Ok tt (mkBoot (fill (bmem b) dst SECTSIZE (disk o)) r t).
Proof.
  intros Ho. unfold Bootmain.readsect. destruct (waitdisk_ok b) as [t1 H1].
  rewrite (bind_ok _ _ _ _ _ H1). unfold outb. mpure.
  match goal with |- context [(_ ≫= _) ?s] => set (b1 := s) end.
  destruct (waitdisk_ok b1) as [t2 H2]. rewrite (bind_ok _ _ _ _ _ H2).
  assert (selected_sector (reg b1) = o) as Hsel by (by apply selected_offset).
  eexists _, t2. unfold insl_sector. mpure. cbn [reg set]. rewrite Hsel. done.
Qed.
(** [k] sectors from sector [o] on. *)
Lemma readseg_loop_ok k fuel pa epa o b :
  (k < fuel)%nat → 0 ≤ pa → epa + SECTSIZE ≤ two32 →
  (k = 0%nat ∧ epa ≤ pa ∨ epa ≤ pa + SECTSIZE * Z.of_nat k < epa + SECTSIZE) →
  0 ≤ o → o + Z.of_nat k ≤ 2 ^ 28 →
  ∃ r t m', readseg_loop disk status patience fuel pa epa o b = Ok tt (mkBoot m' r t) ∧
    (∀ x, m' x = if (pa <=? x) && (x <? pa + SECTSIZE * Z.of_nat k)
                 then disk (o + (x - pa) / SECTSIZE) ((x - pa) mod SECTSIZE) else bmem b x).
Proof.
  unfold SECTSIZE. revert fuel pa o b. induction k as [|k IH]; intros [|fuel] pa o b Hf Hpa Hepa Hk Ho Hok; try lia.
  - exists (reg b), (polls b), (bmem b). split.
    + cbn [readseg_loop]. rewrite (proj2 (Z.ltb_ge pa epa)) by lia. by destruct b.
    + intros x. by destruct (Z.leb_spec pa x), (Z.ltb_spec x (pa + 512 * Z.of_nat 0)); cbn; try lia.
  - assert (pa < epa) by lia.
    destruct (readsect_ok pa o b ltac:(lia)) as (r1 & t1 & H1).
    destruct (IH fuel (pa + 512) (o + 1) (mkBoot (fill (bmem b) pa SECTSIZE (disk o)) r1 t1)) as (r & t & m' & Hrun & Hm); [lia..|].
    exists r, t, m'. split.
    + cbn [readseg_loop]. rewrite (proj2 (Z.ltb_lt pa epa)) by lia. mstep H1. unfold SECTSIZE in *.
      unfold u32. unfold two32 in *. rewrite !Z.mod_small by lia. exact Hrun.
    + intros x. rewrite Hm. cbn [bmem]. unfold SECTSIZE, fill.
      destruct (Z.leb_spec (pa + 512) x), (Z.ltb_spec x (pa + 512 + 512 * Z.of_nat k)), (Z.leb_spec pa x),
        (Z.ltb_spec x (pa + 512 * Z.of_nat (S k))), (Z.ltb_spec x (pa + 512)); cbn; try lia; try done.
      * replace (x - pa) with (x - (pa + 512) + 1 * 512) by lia. rewrite Z.div_add, Z_mod_plus_full by lia. f_equal. lia.
      * rewrite Z.div_small, Z.mod_small by lia. by rewrite Z.add_0_r.
Qed.

(** [readseg] copies the bytes asked for; it may write up to the ends of the sectors. *)
Lemma readseg_ok pa count offset b :
  0 ≤ count → 0 ≤ offset → offset mod SECTSIZE ≤ pa → pa + count + SECTSIZE ≤ two32 →
  offset + count < 2 ^ 36 →
  ∃ r t m', readseg pa count offset b = Ok tt (mkBoot m' r t) ∧
    (∀ i, 0 ≤ i < count → m' (pa + i) = kimage (offset + i)) ∧
    (∀ x, x < pa - offset mod SECTSIZE ∨ pa + count + SECTSIZE ≤ x → m' x = bmem b x).
Proof.
  intros Hc Ho Hpa Htop Hbig. unfold Bootmain.readseg. cbv zeta. unfold SECTSIZE in *.
  pose proof (Z.mod_pos_bound offset 512 ltac:(lia)) as Hm. pose proof (Z.div_mod offset 512 ltac:(lia)) as Hd.
  assert (0 ≤ offset / 512) by (apply Z.div_pos; lia).
  set (pa' := pa - offset mod 512). assert (pa' = pa - offset mod 512) as Epa by done. clearbody pa'.
  set (k := Z.to_nat ((pa + count - pa' + 511) / 512)).
  assert (Z.of_nat k = (pa + count - pa' + 511) / 512) as Ek by (unfold k; rewrite Z2Nat.id; [done|apply Z.div_pos; lia]).
  clearbody k.
  pose proof (Z.div_mod (pa + count - pa' + 511) 512 ltac:(lia)) as Hk1.
  pose proof (Z.mod_pos_bound (pa + count - pa' + 511) 512 ltac:(lia)) as Hk2.
  assert (u32 (pa + count) = pa + count) as -> by (unfold u32, two32 in *; apply Z.mod_small; lia).
  assert (u32 pa' = pa') as -> by (unfold u32, two32 in *; apply Z.mod_small; lia).
  destruct (readseg_loop_ok k (S (S (S (Z.to_nat (count / 512))))) pa' (pa + count) (offset / 512 + 1) b)
    as (r & t & m' & Hrun & Hmem); unfold SECTSIZE; try lia.
  { pose proof (Z.div_mod count 512 ltac:(lia)). pose proof (Z.mod_pos_bound count 512 ltac:(lia)).
    assert (0 ≤ count / 512) by (apply Z.div_pos; lia). lia. }
  exists r, t, m'. split_and!; [exact Hrun| |].
  - intros i Hi. rewrite Hmem. unfold SECTSIZE, kimage.
    rewrite (proj2 (Z.leb_le _ _)), (proj2 (Z.ltb_lt _ _)) by lia. cbn.
    replace (pa + i - pa') with (offset mod 512 + i) by lia.
    replace (offset + i) with (offset mod 512 + i + offset / 512 * 512) by lia.
    unfold SECTSIZE. rewrite Z.div_add, Z_mod_plus_full by lia. f_equal. lia.
  - intros x Hx. rewrite Hmem. unfold SECTSIZE.
    destruct (Z.leb_spec pa' x), (Z.ltb_spec x (pa' + 512 * Z.of_nat k)); cbn; try done. lia.
Qed.

(** ** Segments *)

(** The program header at offset [h] of the file. *)
Record seg := mkSeg { s_off : Z; s_pa : Z; s_filesz : Z; s_memsz : Z }.
Definition seg_at (h : Z) : seg :=
  mkSeg (load32 kimage (h + 4)) (load32 kimage (h + 12)) (load32 kimage (h + 16)) (load32 kimage (h + 20)).

(** Where the loader begins to write for a segment, and where the segment ends. *)
Definition s_start (s : seg) : Z := s_pa s - s_off s mod SECTSIZE.
Definition s_end (s : seg) : Z := s_pa s + Z.max (s_filesz s) (s_memsz s).

Definition seg_ok (s : seg) : Prop := ELF + 4096 ≤ s_start s ∧ s_end s + SECTSIZE ≤ two32.

(** The segment is in memory: its bytes of the file, and zeros behind them. *)
Definition loaded (m : memory) (s : seg) : Prop :=
  (∀ i, 0 ≤ i < s_filesz s → m (s_pa s + i) = kimage (s_off s + i)) ∧
  (∀ i, s_filesz s ≤ i < s_memsz s → m (s_pa s + i) = 0).

(** The first page of the file is in the scratch space. *)
Definition hdr_ok (m : memory) : Prop := ∀ x, 0 ≤ x < 4096 → m (ELF + x) = kimage x.

Lemma hdr_load32 m o : hdr_ok m → 0 ≤ o → o + 4 ≤ 4096 → load32 m (ELF + o) = load32 kimage o.
Proof. intros Hm H1 H2. unfold load32. rewrite <- !Z.add_assoc, !Hm by lia. done. Qed.
Lemma hdr_load16 m o : hdr_ok m → 0 ≤ o → o + 2 ≤ 4096 → load16 m (ELF + o) = load16 kimage o.
Proof. intros Hm H1 H2. unfold load16. rewrite <- !Z.add_assoc, !Hm by lia. done. Qed.

Lemma hdr_ok_ext m m' B : hdr_ok m → ELF + 4096 ≤ B → (∀ x, x < B → m' x = m x) → hdr_ok m'.
Proof. intros Hm HB H x Hx. rewrite H by lia. by apply Hm. Qed.

Lemma load_segment_ok h b :
  hdr_ok (bmem b) → 0 ≤ h → h + 32 ≤ 4096 → seg_ok (seg_at h) →
  ∃ r t m', load_segment disk status patience (ELF + h) b = Ok tt (mkBoot m' r t) ∧
    loaded m' (seg_at h) ∧ (∀ x, x < s_start (seg_at h) → m' x = bmem b x).
Proof.
  intros Hh H0 H1 [Hs1 Hs2]. unfold load_segment. rewrite bind_gets. cbv zeta.
  rewrite <- !Z.add_assoc, !(hdr_load32 (bmem b)) by (done || lia).
  set (s := seg_at h) in *. change (load32 kimage (h + 12)) with (s_pa s).
  change (load32 kimage (h + 16)) with (s_filesz s). change (load32 kimage (h + 4)) with (s_off s).
  pose proof (load32_range kimage (h + 16) : is_u32 (s_filesz s)) as [F1 F2].
  pose proof (load32_range kimage (h + 4) : is_u32 (s_off s)) as [O1 O2].
  pose proof (load32_range kimage (h + 20) : is_u32 (s_memsz s)) as [M1 M2].
  unfold s_start, s_end, ELF in *. unfold SECTSIZE, two32 in *.
  pose proof (Z.mod_pos_bound (s_off s) 512 ltac:(lia)) as Hm.
  destruct (readseg_ok (s_pa s) (s_filesz s) (s_off s) b) as (r & t & m1 & Hrun & Hin & Hout);
    unfold SECTSIZE, two32; try lia.
  rewrite (bind_ok _ _ _ _ _ Hrun), bind_gets. cbn [bmem]. unfold SECTSIZE in Hout.
  assert (hdr_ok m1) as Hh1.
  { eapply (hdr_ok_ext _ _ (s_pa s - s_off s mod 512) Hh); unfold ELF; [lia|]. intros x Hx. apply Hout. lia. }
  change 65536 with ELF. rewrite !(hdr_load32 m1) by (done || lia).
  change (load32 kimage (h + 16)) with (s_filesz s). change (load32 kimage (h + 20)) with (s_memsz s).
  destruct (Z.ltb_spec (s_filesz s) (s_memsz s)) as [Hlt|Hge]; cbn [when].
  - eexists r, t, _. split; [reflexivity|]. unfold stosb.
    assert (u32 (s_pa s + s_filesz s) = s_pa s + s_filesz s) as -> by (unfold u32, two32; apply Z.mod_small; lia).
    split; [split|]; intros i Hi.
    + rewrite fill_out by lia. by apply Hin.
    + rewrite fill_in by lia. done.
    + rewrite fill_out by lia. apply Hout. lia.
  - exists r, t, m1. split; [done|]. split; [split|]; intros i Hi; [by apply Hin|lia|apply Hout; lia].
Qed.

Lemma load_segments_ok n h b :
  hdr_ok (bmem b) → 0 ≤ h → h + 32 * Z.of_nat n ≤ 4096 →
  (∀ i, 0 ≤ i < Z.of_nat n → seg_ok (seg_at (h + 32 * i))) →
  (∀ i j, 0 ≤ i < j → j < Z.of_nat n → s_end (seg_at (h + 32 * i)) ≤ s_start (seg_at (h + 32 * j))) →
  ∃ r t m', load_segments disk status patience n (ELF + h) b = Ok tt (mkBoot m' r t) ∧
    (∀ i, 0 ≤ i < Z.of_nat n → loaded m' (seg_at (h + 32 * i))) ∧
    (∀ x, (∀ i, 0 ≤ i < Z.of_nat n → x < s_start (seg_at (h + 32 * i))) → m' x = bmem b x).
Proof.
  revert h b. induction n as [|n IH]; intros h b Hh H0 H1 Hok Hord.
  { exists (reg b), (polls b), (bmem b). split_and!; [by destruct b|intros; lia|done]. }
  pose proof (Hok 0 ltac:(lia)) as Hok0. rewrite Z.mul_0_r, Z.add_0_r in Hok0.
  destruct (load_segment_ok h b Hh H0 ltac:(lia) Hok0) as (r1 & t1 & m1 & Hrun1 & Hl1 & Hk1).
  assert (∀ i, h + 32 + 32 * i = h + 32 * (i + 1)) as E by (intros; lia).
  destruct (IH (h + 32) (mkBoot m1 r1 t1)) as (r & t & m' & Hrun & Hl & Hk); [|lia|lia| | |].
  - apply (hdr_ok_ext _ _ _ Hh (proj1 Hok0)), Hk1.
  - intros i Hi. rewrite E. apply Hok. lia.
  - intros i j Hi Hj. rewrite !E. apply Hord; lia.
  - exists r, t, m'. cbn [bmem] in *. split_and!.
    + cbn [load_segments]. mstep Hrun1. by rewrite <- Z.add_assoc.
    + intros i Hi. destruct (decide (i = 0)) as [->|Hi0].
      * rewrite Z.mul_0_r, Z.add_0_r. destruct Hl1 as [Ha Hz].
        assert (∀ x, x < s_end (seg_at h) → m' x = m1 x) as Hkeep.
        { intros x Hx. apply Hk. intros j Hj. rewrite E. specialize (Hord 0 (j + 1) ltac:(lia) ltac:(lia)).
          rewrite Z.mul_0_r, Z.add_0_r in Hord. lia. }
        unfold s_end in Hkeep. split; intros j Hj; rewrite Hkeep by lia; [by apply Ha|by apply Hz].
      * specialize (Hl (i - 1) ltac:(lia)). rewrite E in Hl. by replace (i - 1 + 1) with i in Hl by lia.
    + intros x Hx. rewrite Hk.
      * apply Hk1. specialize (Hx 0 ltac:(lia)). by rewrite Z.mul_0_r, Z.add_0_r in Hx.
      * intros i Hi. rewrite E. apply Hx. lia.
Qed.

(** C15: the boot loader loads the kernel.  If the disk answers, the file that begins at sector 1
    is an ELF file whose program headers are in its first page, and its segments lie above the
    scratch space and in increasing order, the sectors read for one beginning after the end of
    the one before, then [bootmain] jumps to the entry point of the file with every segment in
    memory: the bytes of the file, and zeros up to the segment's size.  On a file without the
    ELF magic number it returns. *)
Theorem bootmain_loads b :
  let phoff := load32 kimage 28 in
  let phnum := load16 kimage 44 in
  phoff + 32 * phnum ≤ 4096 →
  (∀ i, 0 ≤ i < phnum → seg_ok (seg_at (phoff + 32 * i))) →
  (∀ i j, 0 ≤ i < j → j < phnum → s_end (seg_at (phoff + 32 * i)) ≤ s_start (seg_at (phoff + 32 * j))) →
  if load32 kimage 0 =? ELF_MAGIC then
    ∃ st, bootmain disk status patience b = Ok (Some (load32 kimage 24)) st ∧
          ∀ i, 0 ≤ i < phnum → loaded (bmem st) (seg_at (phoff + 32 * i))
  else ∃ st, bootmain disk status patience b = Ok None st.
Proof.
  intros phoff phnum Hph Hok Hord. unfold bootmain.
  destruct (readseg_ok ELF 4096 0 b) as (r & t & m & Hrun & Hin & _); [done..|].
  rewrite (bind_ok _ _ _ _ _ Hrun), bind_gets. cbn [bmem].
  assert (hdr_ok m) as Hm by (intros x Hx; by apply Hin).
  pose proof (hdr_load32 m 0 Hm ltac:(lia) ltac:(lia)) as E0. rewrite Z.add_0_r in E0. rewrite E0.
  destruct (load32 kimage 0 =? ELF_MAGIC); cbn [negb]; [|by eexists].
  rewrite hdr_load16, hdr_load32 by (done || lia). fold phoff phnum.
  pose proof (load32_range kimage 28) as [P1 P2]. fold phoff in P1, P2.
  assert (0 ≤ phnum) as P3 by (unfold phnum, load16, u8; zl).
  destruct (load_segments_ok (Z.to_nat phnum) phoff (mkBoot m r t)) as (r1 & t1 & m1 & Hrun1 & Hl & Hk);
    rewrite ?Z2Nat.id by done; try done.
  rewrite (bind_ok _ _ _ _ _ Hrun1), bind_gets. cbn [bmem]. rewrite Z2Nat.id in Hl, Hk by done.
  exists (mkBoot m1 r1 t1). split; [|exact Hl]. unfold mret, M_ret. do 2 f_equal. apply hdr_load32; [|lia..].
  intros x Hx. rewrite Hk; [by apply Hm|]. intros i Hi. destruct (Hok i Hi) as [Hs _]. lia.
Qed.

End Loader.

(** A disk with a kernel of one segment: two bytes of the file and two zeros at 1 MB. *)
Definition tiny_kernel (j : Z) : Z :=
  nth (Z.to_nat j)
    ([0x7F; 0x45; 0x4C; 0x46] ++ replicate 20 0 ++ [12; 0; 16; 0] ++ [52; 0; 0; 0] ++ replicate 12 0 ++
     [1; 0] ++ replicate 6 0 ++
     [1; 0; 0; 0] ++ [84; 0; 0; 0] ++ replicate 4 0 ++ [0; 0; 16; 0] ++ [2; 0; 0; 0] ++ [4; 0; 0; 0] ++
     replicate 8 0 ++ [0xAB; 0xCD]) 0.
Definition tiny_disk (n i : Z) : Z := tiny_kernel ((n - 1) * SECTSIZE + i).

Lemma tiny_seg : seg_at tiny_disk (52 + 32 * 0) = mkSeg 84 0x100000 2 4.
Proof. by vm_compute. Qed.
Lemma tiny_byte : kimage tiny_disk (84 + 1) = 0xCD.
Proof. by vm_compute. Qed.

Lemma bootmain_loads_witness :
  ∃ st, bootmain tiny_disk (λ _, 0x40) 1 (mkBoot (λ _, 7) (λ _, 0) 0) = Ok (Some 0x10000C) st ∧
        bmem st 0x100001 = 0xCD ∧ bmem st 0x100002 = 0.
Proof.
  assert (∀ t, ∃ n, (n < 1)%nat ∧ Z.land ((λ _, 0x40) (t + n)%nat) 0xC0 = 0x40) as Hd
    by (intros t; exists 0%nat; split; [lia|done]).
  pose proof (bootmain_loads tiny_disk (λ _, 0x40) 1 Hd (mkBoot (λ _, 7) (λ _, 0) 0)) as H.
  change (load32 (kimage tiny_disk) 28) with 52 in H. change (load16 (kimage tiny_disk) 44) with 1 in H.
  change (load32 (kimage tiny_disk) 0 =? ELF_MAGIC) with true in H.
  change (load32 (kimage tiny_disk) 24) with 0x10000C in H.
  destruct H as (st & Hrun & Hl); [lia| |intros; lia|].
  - intros i Hi. assert (i = 0) as -> by lia. by split; vm_compute.
  - exists st. split; [exact Hrun|]. pose proof (Hl 0 ltac:(lia)) as Hl0. rewrite tiny_seg in Hl0.
    destruct Hl0 as [Ha Hz]. cbn [s_filesz s_memsz s_pa s_off] in *.
    pose proof (Ha 1 ltac:(lia)) as H1. rewrite tiny_byte in H1. split; [exact H1|exact (Hz 2 ltac:(lia))].
Defined.
