(* ===== verification/Mkfs.v ===== *)
(** * mkfs.c: building a file system image

    The program runs on the host.  The image file is a function from sector numbers to blocks
    with the number of sectors in the file; what is read behind its end is an error, and the
    program exits.  Integers are stored in the byte order of the disk by [xshort] and [xint],
    which is that of [bytes16] and [bytes32]. *)

From S2P Require Import Prelude Layout State Str Ports Inode Fs.

Definition NINODES : Z := 200.
Definition nbitmap : Z := FSSIZE / (BSIZE * 8) + 1.
Definition ninodeblocks : Z := NINODES / IPB + 1.
Definition nlog : Z := LOGSIZE.
Definition nmeta : Z := 2 + nlog + ninodeblocks + nbitmap.
Definition nblocks : Z := FSSIZE - nmeta.

(** The superblock that [main] fills in. *)
Definition mkfs_sb : superblock :=
  mkSb FSSIZE nblocks NINODES nlog 2 (2 + nlog) (2 + nlog + ninodeblocks).

Definition zeroes : list Z := replicate (Z.to_nat BSIZE) 0.

Record mkfs := mkMkfs { image : Z → list Z; nsect : Z; freeinode : Z; freeblock : Z }.
#[export] Instance eta_mkfs : Settable mkfs :=
  λ s, mkMkfs (image s) (nsect s) (freeinode s) (freeblock s).

(** A [struct dinode] and its bytes. *)
Record dinode := mkDin {
  d_type : Z; d_major : Z; d_minor : Z; d_nlink : Z; d_size : Z; d_addrs : list Z
}.
#[export] Instance eta_dinode : Settable dinode :=
  λ d, mkDin (d_type d) (d_major d) (d_minor d) (d_nlink d) (d_size d) (d_addrs d).

Definition dinode_bytes (d : dinode) : list Z :=
  bytes16 (d_type d) ++ bytes16 (d_major d) ++ bytes16 (d_minor d) ++ bytes16 (d_nlink d) ++
  bytes32 (d_size d) ++ mjoin (bytes32 <$> d_addrs d).
Definition dinode_at (b : list Z) (o : Z) : dinode :=
  mkDin (get16 b o) (get16 b (o + 2)) (get16 b (o + 4)) (get16 b (o + 6)) (get32 b (o + 8)) (dinode_addrs b o).

(** ** Sectors *)

Definition wsect (sec : Z) (buf : list Z) : M mkfs unit :=
  modify (λ s, s <| image ::= λ f x, if x =? sec then buf else f x |>
                 <| nsect ::= λ n, Z.max n (sec + 1) |>).

Definition rsect (sec : Z) : M mkfs (list Z) :=
  n ← gets nsect;
  if negb (sec <? n) then panic "read" else gets (λ s, image s sec).

(** ** Inodes *)

Definition winode (inum : Z) (ip : dinode) : M mkfs unit :=
  let bn := IBLOCK inum mkfs_sb in
  buf ← rsect bn;
  wsect bn (splice buf (dip_off inum) (dinode_bytes ip)).

Definition rinode (inum : Z) : M mkfs dinode :=
  buf ← rsect (IBLOCK inum mkfs_sb);
  mret (dinode_at buf (dip_off inum)).

Definition mk_ialloc (type : Z) : M mkfs Z :=
  inum ← gets freeinode;
  _ ← modify (λ s, s <| freeinode := u32 (inum + 1) |>);
  _ ← winode inum (mkDin type 0 0 1 0 (replicate (Z.to_nat (NDIRECT + 1)) 0));
  mret inum.

(** [buf[i/8] = buf[i/8] | (0x1 << (i%8))] for every [i < used]. *)
Definition mk_balloc (used : Z) : M mkfs unit :=
  if negb (used <? BSIZE * 8) then panic "assert" else
  wsect (sb_bmapstart mkfs_sb) (foldl set_bit zeroes (seqZ 0 used)).

(** [freeblock++]. *)
Definition new_block : M mkfs Z :=
  b ← gets freeblock;
  _ ← modify (λ s, s <| freeblock := u32 (b + 1) |>);
  mret b.

(** The entry for [fbn] of the indirect block [a]; it may be new. *)
Definition indirect_entry (a fbn : Z) : M mkfs Z :=
  indirect ← rsect a;
  let x := get32 indirect (4 * (fbn - NDIRECT)) in
  if x =? 0 then
    b ← new_block;
    _ ← wsect a (put32 indirect (4 * (fbn - NDIRECT)) b);
    mret b
  else mret x.

(** The entry [i] of [din.addrs], which is filled in if it is 0. *)
Definition inode_entry (din : dinode) (i : Z) : M mkfs (dinode * Z) :=
  a ← deref (d_addrs din !! Z.to_nat i);
  if a =? 0 then
    b ← new_block;
    mret (din <| d_addrs ::= <[Z.to_nat i := b]> |>, b)
  else mret (din, a).

(** The block of the file for [fbn], and the inode, in which it may be new. *)
Definition file_block (din : dinode) (fbn : Z) : M mkfs (dinode * Z) :=
  if fbn <? NDIRECT then inode_entry din fbn
  else
    '(din, a) ← inode_entry din NDIRECT;
    x ← indirect_entry a fbn;
    mret (din, x).

(** The loop of [iappend]; [off] is where the bytes [p] go. *)
Fixpoint iappend_loop (fuel : nat) (din : dinode) (off : Z) (p : list Z) : M mkfs (dinode * Z) :=
  match fuel with
  | O => out_of_fuel
  | S fuel' =>
      if bool_decide (p = []) then mret (din, off)
      else
        let fbn := off / BSIZE in
        if negb (fbn <? MAXFILE) then panic "assert"
        else
          '(din, x) ← file_block din fbn;
          let n1 := Z.min (Z.of_nat (length p)) ((fbn + 1) * BSIZE - off) in
          buf ← rsect x;
          _ ← wsect x (splice buf (off - fbn * BSIZE) (take (Z.to_nat n1) p));
          iappend_loop fuel' din (off + n1) (drop (Z.to_nat n1) p)
  end.

Definition iappend (inum : Z) (p : list Z) : M mkfs unit :=
  din ← rinode inum;
  '(din, off) ← iappend_loop (S (length p)) din (d_size din) p;
  winode inum (din <| d_size := off |>).

(** ** main *)

(** A [struct dirent]. *)
Definition dirent (inum : Z) (name : list Z) : list Z :=
  bytes16 inum ++ take (Z.to_nat DIRSIZ) (name ++ replicate (Z.to_nat DIRSIZ) 0).

(** [while((cc = read(fd, buf, sizeof(buf))) > 0) iappend(inum, buf, cc)], on the host's file. *)
Fixpoint copy_file (fuel : nat) (inum : Z) (bytes : list Z) : M mkfs unit :=
  match fuel with
  | O => out_of_fuel
  | S fuel' =>
      if bool_decide (bytes = []) then mret tt
      else
        _ ← iappend inum (take (Z.to_nat BSIZE) bytes);
        copy_file fuel' inum (drop (Z.to_nat BSIZE) bytes)
  end.

(** [if(argv[i][0] == '_') ++argv[i]]. *)
Definition strip_name (name : list Z) : list Z :=
  match name with c :: name' => if c =? 95 then name' else name | [] => [] end.

(** One file of the command line. *)
Definition add_file (rootino : Z) (f : list Z * list Z) : M mkfs unit :=
  let '(name, bytes) := f in
  if bool_decide (47 ∈ name) then panic "assert"
  else
    let name := strip_name name in
    inum ← mk_ialloc T_FILE;
    _ ← iappend rootino (dirent inum name);
    copy_file (S (length bytes)) inum bytes.

(** The program on files that can be opened, and an image file that can be written. *)
Definition mkfs_main (files : list (list Z * list Z)) : M mkfs unit :=
  _ ← modify (λ s, s <| freeblock := nmeta |>);
  _ ← for_each (seqZ 0 FSSIZE) (λ i, wsect i zeroes);
  _ ← wsect 1 (splice zeroes 0
        (bytes32 (sb_size mkfs_sb) ++ bytes32 (sb_nblocks mkfs_sb) ++ bytes32 (sb_ninodes mkfs_sb) ++
         bytes32 (sb_nlog mkfs_sb) ++ bytes32 (sb_logstart mkfs_sb) ++ bytes32 (sb_inodestart mkfs_sb) ++
         bytes32 (sb_bmapstart mkfs_sb)));
  rootino ← mk_ialloc T_DIR;
  if negb (rootino =? ROOTINO) then panic "assert"
  else
    _ ← iappend rootino (dirent rootino (bytes_of "."));
    _ ← iappend rootino (dirent rootino (bytes_of ".."));
    _ ← for_each files (add_file rootino);
    din ← rinode rootino;
    let off := (d_size din / BSIZE + 1) * BSIZE in
    _ ← winode rootino (din <| d_size := off |>);
    used ← gets freeblock;
    mk_balloc used.

(** The image file when the program starts: it has been truncated. *)
Definition mkfs_start : mkfs := mkMkfs (λ _, zeroes) 0 1 0.
