(* ===== verification/MkfsProps.v ===== *)
(** * The image that mkfs.c builds

    A file in the image is described by its blocks, its indirect block and its contents; the
    operations of mkfs.c are shown to keep a set of such files, with blocks of their own. *)

From S2P Require Import Prelude Layout State Str Ports Inode Fs LogProps BallocProps Mkfs.

(** ** Inodes as bytes *)

Lemma byte_at_splice_in d o l j :
  0 ≤ o → o + Z.of_nat (length l) ≤ Z.of_nat (length d) → 0 ≤ j < Z.of_nat (length l) →
  byte_at (splice d o l) (o + j) = byte_at l j.
Proof. intros Ho Hl Hj. unfold byte_at. f_equal. apply nth_splice_in; lia. Qed.

Lemma byte_at_splice_out d o l j :
  0 ≤ o → o + Z.of_nat (length l) ≤ Z.of_nat (length d) → 0 ≤ j → j < o ∨ o + Z.of_nat (length l) ≤ j →
  byte_at (splice d o l) j = byte_at d j.
Proof. intros. unfold byte_at. f_equal. apply nth_splice_out; lia. Qed.

Lemma byte_at_app_l l1 l2 j : 0 ≤ j < Z.of_nat (length l1) → byte_at (l1 ++ l2) j = byte_at l1 j.
Proof. intros Hj. unfold byte_at. by rewrite app_nth1 by lia. Qed.

Lemma byte_at_app_r l1 l2 k j : k = Z.of_nat (length l1) → 0 ≤ j → byte_at (l1 ++ l2) (k + j) = byte_at l2 j.
Proof. intros -> Hj. unfold byte_at. rewrite app_nth2 by lia. do 2 f_equal. lia. Qed.

Lemma get16_app_r l1 l2 k j : k = Z.of_nat (length l1) → 0 ≤ j → get16 (l1 ++ l2) (k + j) = get16 l2 j.
Proof. intros Hk Hj. unfold get16. rewrite <- !Z.add_assoc, !(byte_at_app_r l1 l2 k) by lia. done. Qed.
Lemma get32_app_r l1 l2 k j : k = Z.of_nat (length l1) → 0 ≤ j → get32 (l1 ++ l2) (k + j) = get32 l2 j.
Proof. intros Hk Hj. unfold get32. rewrite <- !Z.add_assoc, !(byte_at_app_r l1 l2 k) by lia. done. Qed.

Lemma get16_bytes16 v r : get16 (bytes16 v ++ r) 0 = u16 v.
Proof.
  unfold get16. rewrite !byte_at_app_l by (simpl; lia).
  change (u8 (byte_of v 0) + 256 * u8 (byte_of v 1) = u16 v). rewrite !u8_byte_of.
  unfold byte_of, u8, u16. rewrite !Z.shiftr_div_pow2 by done.
  change (2 ^ (8 * 0)) with 1. change (2 ^ (8 * 1)) with 256. zl.
Qed.

Lemma get32_bytes32 v r : get32 (bytes32 v ++ r) 0 = u32 v.
Proof.
  unfold get32. rewrite !byte_at_app_l by (simpl; lia).
  change (u8 (byte_of v 0) + 256 * u8 (byte_of v 1) + 65536 * u8 (byte_of v 2) + 16777216 * u8 (byte_of v 3) = u32 v).
  rewrite !u8_byte_of. apply bytes_u32.
Qed.

Lemma get32_words ws k :
  (k < length ws)%nat → get32 (mjoin (bytes32 <$> ws)) (4 * Z.of_nat k) = u32 (nth k ws 0).
Proof.
  revert k. induction ws as [|w ws IH]; intros [|k] Hk; simpl in Hk; try lia.
  - apply get32_bytes32.
  - replace (4 * Z.of_nat (S k)) with (4 + 4 * Z.of_nat k) by lia.
    change (mjoin (bytes32 <$> (w :: ws))) with (bytes32 w ++ mjoin (bytes32 <$> ws)).
    rewrite get32_app_r by (done || lia). apply IH. lia.
Qed.

Definition is_u16 (x : Z) : Prop := 0 ≤ x < 65536.

(** The fields fit the structure. *)
Record din_ok (d : dinode) : Prop := mkDinOk {
  dk_half : is_u16 (d_type d) ∧ is_u16 (d_major d) ∧ is_u16 (d_minor d) ∧ is_u16 (d_nlink d);
  dk_size : is_u32 (d_size d);
  dk_len : length (d_addrs d) = 13%nat;
  dk_addrs : Forall is_u32 (d_addrs d)
}.

Lemma u16_id x : is_u16 x → u16 x = x.
Proof. intros. unfold u16. by apply Z.mod_small. Qed.

Lemma length_words (ws : list Z) : length (mjoin (bytes32 <$> ws)) = (4 * length ws)%nat.
Proof. induction ws as [|w ws IH]; [done|].
  change (mjoin (bytes32 <$> (w :: ws))) with (bytes32 w ++ mjoin (bytes32 <$> ws)). rewrite length_app.
  rewrite IH. change (length (bytes32 w)) with 4%nat. cbn [length]. lia.
Qed.

Lemma length_dinode d : din_ok d → length (dinode_bytes d) = 64%nat.
Proof. intros [_ _ Hl _]. unfold dinode_bytes. rewrite !length_app, length_words, Hl. done. Qed.

Lemma dinode_bytes_at d : din_ok d → dinode_at (dinode_bytes d) 0 = d.
Proof.
  intros [(H1 & H2 & H3 & H4) Hs Hl Ha]. destruct d as [t ma mi nl sz ad]; cbn [d_type d_major d_minor d_nlink d_size d_addrs] in *.
  unfold dinode_at, dinode_bytes. cbn [d_type d_major d_minor d_nlink d_size d_addrs].
  set (r5 := bytes32 sz ++ mjoin (bytes32 <$> ad)). f_equal.
  - rewrite get16_bytes16. by apply u16_id.
  - rewrite (Z.add_comm 0 2), get16_app_r, get16_bytes16 by done. by apply u16_id.
  - change (0 + 4) with (2 + 2). rewrite get16_app_r by done. rewrite <- (Z.add_0_r 2), get16_app_r, get16_bytes16 by done. by apply u16_id.
  - change (0 + 6) with (2 + 4). rewrite get16_app_r by done. change 4 with (2 + 2). rewrite get16_app_r by done.
    rewrite <- (Z.add_0_r 2), get16_app_r, get16_bytes16 by done. by apply u16_id.
  - rewrite !app_assoc. change (0 + 8) with (8 + 0). rewrite get32_app_r by done. unfold r5. rewrite get32_bytes32. by apply u32_id.
  - unfold dinode_addrs. change (Z.to_nat (NDIRECT + 1)) with 13%nat. rewrite <- Hl.
    unfold r5. rewrite !app_assoc. set (pre := _ ++ bytes32 sz). apply list_eq. intros i. rewrite list_lookup_fmap.
    destruct (decide (i < length ad)%nat) as [Hi|Hi].
    + rewrite lookup_seq_lt by done. cbn [fmap option_fmap option_map]. rewrite Nat.add_0_l.
      rewrite Z.add_0_l, get32_app_r, get32_words by (done || lia).
      destruct (lookup_lt_is_Some_2 ad i Hi) as [a Hai]. rewrite nth_lookup, Hai. f_equal. cbn. apply u32_id.
      by eapply Forall_lookup_1.
    + rewrite lookup_seq_ge, lookup_ge_None_2 by lia. done.
Qed.

(** ** Files in the image *)

(** A file: its type, its blocks in order, the indirect block or 0, and its contents. *)
Record mfile := mkMfile { mf_type : Z; mf_blocks : list Z; mf_ind : Z; mf_data : list Z }.

Definition mf_addrs (f : mfile) : list Z := resize 12 0 (mf_blocks f) ++ [mf_ind f].
Definition mf_din (f : mfile) : dinode :=
  mkDin (mf_type f) 0 0 1 (Z.of_nat (length (mf_data f))) (mf_addrs f).
(** The blocks that belong to the file. *)
Definition mf_own (f : mfile) : list Z := (if mf_ind f =? 0 then [] else [mf_ind f]) ++ mf_blocks f.
Definition owned (fs : list mfile) : list Z := mjoin (mf_own <$> fs).

(** The blocks of the image [I] hold the file; what follows the contents is zero. *)
Record mf_ok (I : Z → list Z) (f : mfile) : Prop := mkMfOk {
  mo_len : (length (mf_data f) ≤ 512 * length (mf_blocks f))%nat ∧ (length (mf_blocks f) ≤ 140)%nat;
  mo_ind : (12 < length (mf_blocks f))%nat → mf_ind f ≠ 0;
  mo_tab : mf_ind f ≠ 0 → ∀ k, (k < 128)%nat → get32 (I (mf_ind f)) (4 * Z.of_nat k) = nth k (drop 12 (mf_blocks f)) 0;
  mo_data : mjoin (I <$> mf_blocks f) =
              mf_data f ++ replicate (512 * length (mf_blocks f) - length (mf_data f)) 0
}.

(** The data blocks of the image belong to the files [fs], each to one of them. *)
Record data_ok (s : mkfs) (fs : list mfile) : Prop := mkDataOk {
  do_len : ∀ b, length (image s b) = 512%nat;
  do_sect : nsect s = FSSIZE;
  do_free : nmeta + Z.of_nat (length (owned fs)) = freeblock s ∧ freeblock s ≤ FSSIZE;
  do_zero : ∀ b, freeblock s ≤ b < FSSIZE → image s b = zeroes;
  do_range : Forall (λ b, nmeta ≤ b < freeblock s) (owned fs);
  do_nodup : NoDup (owned fs);
  do_files : Forall (mf_ok (image s)) fs
}.

#[export] Instance owned_perm : Proper ((≡ₚ) ==> (≡ₚ)) owned.
Proof. intros fs fs' H. unfold owned. by rewrite H. Qed.

#[export] Instance data_ok_perm s : Proper ((≡ₚ) ==> iff) (data_ok s).
Proof.
  assert (∀ fs fs', fs ≡ₚ fs' → data_ok s fs → data_ok s fs') as Himp.
  { intros fs fs' H [H1 H2 H3 H4 H5 H6 H7]. split; try done.
    - by rewrite <- (Permutation_length (owned_perm _ _ H)).
    - by rewrite <- H.
    - by rewrite <- H.
    - by rewrite <- H. }
  intros fs fs' H. split; apply Himp; [done|by symmetry].
Qed.

Lemma mf_ok_frame I I' f : (∀ b, b ∈ mf_own f → I' b = I b) → mf_ok I f → mf_ok I' f.
Proof.
  intros Hf [H1 H2 H3 H4]. split; [done..| |].
  - intros Hi k Hk. rewrite Hf; [by apply H3|]. unfold mf_own. apply Z.eqb_neq in Hi. rewrite Hi. set_solver.
  - rewrite <- H4. f_equal. apply list_fmap_ext. intros i b Hb. apply Hf. unfold mf_own.
    apply elem_of_app. right. by eapply list_elem_of_lookup_2.
Qed.

(** A change that touches only the blocks of the file [f], and new ones. *)
Lemma data_ok_step s s' f f' R :
  data_ok s (f :: R) → nsect s' = nsect s → (∀ b, length (image s' b) = 512%nat) →
  freeblock s ≤ freeblock s' ≤ FSSIZE →
  mf_own f' ≡ₚ seqZ (freeblock s) (freeblock s' - freeblock s) ++ mf_own f →
  (∀ b, b ∉ mf_own f' → image s' b = image s b) → mf_ok (image s') f' →
  data_ok s' (f' :: R).
Proof.
  intros [H1 H2 [H3 H3'] H4 H5 H6 H7] Hn Hl Hfb Hp Hfr Hok.
  change (owned (f :: R)) with (mf_own f ++ owned R) in *. apply Forall_cons in H7 as [_ H7].
  assert (mf_own f' ++ owned R ≡ₚ seqZ (freeblock s) (freeblock s' - freeblock s) ++ (mf_own f ++ owned R)) as HP.
  { by rewrite Hp, <- app_assoc. }
  assert (∀ b, b ∈ mf_own f ++ owned R → nmeta ≤ b < freeblock s) as Hr by (by apply Forall_forall).
  assert (NoDup (mf_own f' ++ owned R)) as HN.
  { rewrite HP. apply NoDup_app. split_and!; [apply NoDup_seqZ| |done].
    intros b Hb%elem_of_seqZ Hb'%Hr. lia. }
  split; change (owned (f' :: R)) with (mf_own f' ++ owned R).
  - done.
  - congruence.
  - rewrite HP, length_app, length_seqZ. lia.
  - intros b Hb. rewrite Hfr; [apply H4; lia|]. intros Hin.
    assert (b ∈ mf_own f' ++ owned R) as Hin' by (apply elem_of_app; by left).
    rewrite HP in Hin'. apply elem_of_app in Hin' as [?%elem_of_seqZ|?%Hr]; lia.
  - rewrite HP. apply Forall_app. split; apply Forall_forall; [intros b Hb%elem_of_seqZ|intros b Hb%Hr]; lia.
  - done.
  - constructor; [done|]. eapply Forall_impl; [apply Forall_and; split; [exact H7|apply Forall_forall; intros g Hg; exact Hg]|].
    intros g [Hg Hin]. eapply mf_ok_frame; [|exact Hg]. intros b Hb. apply Hfr. intros Hb'.
    apply NoDup_app in HN as (_ & HN & _). apply (HN b Hb'). unfold owned. apply list_elem_of_join.
    exists (mf_own g). split; [done|]. apply list_elem_of_fmap. eauto.
Qed.

Lemma owned_range s f R b : data_ok s (f :: R) → b ∈ mf_own f → nmeta ≤ b < freeblock s.
Proof.
  intros H Hb. pose proof (do_range _ _ H) as Hr. rewrite Forall_forall in Hr. apply Hr.
  change (owned (f :: R)) with (mf_own f ++ owned R). apply elem_of_app. by left.
Qed.

Lemma block_range s f R i b : data_ok s (f :: R) → mf_blocks f !! i = Some b → nmeta ≤ b < FSSIZE ∧ b ≠ 0.
Proof.
  intros H Hb. assert (b ∈ mf_own f) as Hin by (apply elem_of_app; right; by eapply list_elem_of_lookup_2).
  pose proof (owned_range _ _ _ _ H Hin). pose proof (do_free _ _ H). assert (nmeta = 59) as En by done. lia.
Qed.

Lemma ind_range s f R : data_ok s (f :: R) → mf_ind f ≠ 0 → nmeta ≤ mf_ind f < FSSIZE ∧ mf_ind f ∉ mf_blocks f.
Proof.
  intros H Hi. pose proof (do_nodup _ _ H) as HN. assert (mf_ind f ∈ mf_own f) as Hin.
  { unfold mf_own. rewrite (proj2 (Z.eqb_neq _ _) Hi). set_solver. }
  split; [pose proof (owned_range _ _ _ _ H Hin); pose proof (do_free _ _ H); lia|].
  change (owned (f :: R)) with (mf_own f ++ owned R) in HN. apply NoDup_app in HN as [HN _].
  unfold mf_own in HN. rewrite (proj2 (Z.eqb_neq _ _) Hi) in HN. by apply NoDup_cons in HN as [? _].
Qed.

Lemma file_ok s f R : data_ok s (f :: R) → mf_ok (image s) f.
Proof. intros H. pose proof (do_files _ _ H) as Hf. by apply Forall_cons in Hf as [? _]. Qed.

(** [s'] has the same metadata blocks. *)
Definition same_meta (s s' : mkfs) : Prop :=
  freeinode s' = freeinode s ∧ ∀ b, b < nmeta → image s' b = image s b.

#[export] Instance same_meta_preorder : PreOrder same_meta.
Proof.
  split; [by intros s|]. intros s1 s2 s3 [H1 H2] [H3 H4]. split; [congruence|]. intros b Hb. by rewrite H4, H2.
Qed.

Lemma run_new_block s : 0 ≤ freeblock s < FSSIZE →
  new_block s = Ok (freeblock s) (s <| freeblock := freeblock s + 1 |>).
Proof.
  intros H. unfold new_block. rewrite bind_gets, bind_modify. unfold mret, M_ret. rewrite u32_id; [done|].
  unfold is_u32, two32. unfold FSSIZE in H. lia.
Qed.

Lemma run_rsect s b : b < nsect s → rsect b s = Ok (image s b) s.
Proof. intros H. unfold rsect. rewrite bind_gets. apply Z.ltb_lt in H. by rewrite H. Qed.

Definition put_image (s : mkfs) (b : Z) (d : list Z) : mkfs := s <| image ::= λ f x, if x =? b then d else f x |>.

Lemma run_wsect s b d : b < nsect s → wsect b d s = Ok tt (put_image s b d).
Proof.
  intros H. unfold wsect, modify, put_image. f_equal. destruct s as [im n fi fb]. cbn in *. unfold set. cbn. f_equal. lia.
Qed.

Lemma image_put s b d x : image (put_image s b d) x = if x =? b then d else image s x.
Proof. done. Qed.

Lemma get32_zeroes k : get32 zeroes k = 0.
Proof.
  assert (∀ j, byte_at zeroes j = 0) as H; [|unfold get32; by rewrite !H].
  intros j. unfold byte_at, zeroes. rewrite nth_lookup.
  destruct (_ !! _) as [x|] eqn:E; [by apply lookup_replicate in E as [-> _]|done].
Qed.

(** *** Growing a file *)

Definition mf_grow (f : mfile) (b : Z) : mfile := mkMfile (mf_type f) (mf_blocks f ++ [b]) (mf_ind f) (mf_data f).
Definition mf_set_ind (f : mfile) (b : Z) : mfile := mkMfile (mf_type f) (mf_blocks f) b (mf_data f).

Lemma grow_data (I I' : Z → list Z) f b :
  mf_ok I f → (∀ x, x ∈ mf_blocks f → I' x = I x) → I' b = zeroes →
  mjoin (I' <$> mf_blocks (mf_grow f b)) =
    mf_data f ++ replicate (512 * length (mf_blocks (mf_grow f b)) - length (mf_data f)) 0.
Proof.
  intros [[H1 _] _ _ H4] Hsame Hb. unfold mf_grow. cbn [mf_blocks mf_data]. rewrite fmap_app, join_app.
  rewrite (list_fmap_ext I' I (mf_blocks f)), H4; [|intros i x Hx; apply Hsame; by eapply list_elem_of_lookup_2].
  rewrite <- app_assoc. f_equal. cbn [fmap list_fmap mjoin list_join]. rewrite Hb, app_nil_r. unfold zeroes.
  rewrite <- replicate_add. f_equal. rewrite length_app. cbn [length]. change (Z.to_nat BSIZE) with 512%nat. lia.
Qed.

Lemma own_grow f b : mf_own (mf_grow f b) ≡ₚ b :: mf_own f.
Proof. unfold mf_own, mf_grow. cbn [mf_ind mf_blocks]. rewrite app_assoc. by rewrite Permutation_app_comm. Qed.

Lemma seqZ_one m : seqZ m (m + 1 - m) = [m].
Proof. replace (m + 1 - m) with 1 by lia. cbn. f_equal. Qed.

Section Grow.
Context (s : mkfs) (f : mfile) (R : list mfile).
Context (Hd : data_ok s (f :: R)) (Hroom : freeblock s < FSSIZE).
Local Notation b := (freeblock s).
Local Notation s1 := (s <| freeblock := b + 1 |>).

Lemma new_fresh : nmeta ≤ b ∧ b ∉ mf_own f ∧ image s b = zeroes.
Proof.
  pose proof (do_free _ _ Hd) as [Hf _]. split_and!; [lia| |apply (do_zero _ _ Hd); lia].
  intros Hin. pose proof (owned_range _ _ _ _ Hd Hin). lia.
Qed.

Lemma grow_direct : (length (mf_blocks f) < 12)%nat → data_ok s1 (mf_grow f b :: R).
Proof.
  intros Hlt. destruct new_fresh as (_ & _ & Hz). pose proof (file_ok _ _ _ Hd) as Hok.
  apply (data_ok_step s s1 f _ R Hd); [done|apply (do_len _ _ Hd)|cbn; lia| |done|].
  - cbn [freeblock set]. change (freeblock s1) with (b + 1). rewrite seqZ_one. apply own_grow.
  - split; [| | |by apply (grow_data (image s) _ f b)]; destruct Hok as [[H1 H2] H3 H4 H5]; unfold mf_grow; cbn [mf_blocks mf_ind mf_data];
      rewrite ?length_app; cbn [length]; [lia|lia|].
    intros Hi k Hk. change (image s1) with (image s). rewrite H4 by done. rewrite !drop_ge by (rewrite ?length_app; cbn [length]; lia). done.
Qed.

Lemma grow_ind : length (mf_blocks f) = 12%nat → mf_ind f = 0 → data_ok s1 (mf_set_ind f b :: R).
Proof.
  intros Hl Hi. destruct new_fresh as (Hn & _ & Hz). pose proof (file_ok _ _ _ Hd) as Hok. assert (nmeta = 59) as En by done.
  apply (data_ok_step s s1 f _ R Hd); [done|apply (do_len _ _ Hd)|cbn; lia| |done|].
  - change (freeblock s1) with (b + 1). rewrite seqZ_one. unfold mf_own, mf_set_ind. cbn [mf_ind mf_blocks].
    rewrite Hi, (proj2 (Z.eqb_neq b 0)) by lia. done.
  - destruct Hok as [[H1 H2] H3 H4 H5]. unfold mf_set_ind. split; cbn [mf_blocks mf_ind mf_data]; [done|lia| |done].
    intros _ k Hk. change (image s1) with (image s). rewrite Hz, get32_zeroes, drop_ge by lia. by destruct k.
Qed.

Lemma grow_indirect : (12 ≤ length (mf_blocks f) < 140)%nat → mf_ind f ≠ 0 →
  data_ok (put_image s1 (mf_ind f) (put32 (image s (mf_ind f)) (4 * (Z.of_nat (length (mf_blocks f)) - 12)) b)) (mf_grow f b :: R).
Proof.
  intros Hl Hi. destruct new_fresh as (Hn & Hb & Hz). pose proof (file_ok _ _ _ Hd) as Hok. pose proof (do_len _ _ Hd) as H512.
  destruct (ind_range _ _ _ Hd Hi) as [Hir Hnin]. assert (mf_ind f ∈ mf_own f) as Hio.
  { unfold mf_own. rewrite (proj2 (Z.eqb_neq _ _) Hi). set_solver. }
  apply (data_ok_step s _ f _ R Hd); [done| |cbn; lia| | |].
  - intros x. rewrite image_put. destruct (x =? mf_ind f); [|apply H512]. rewrite length_put32; rewrite ?H512; lia.
  - change (freeblock (put_image _ _ _)) with (b + 1). rewrite seqZ_one. apply own_grow.
  - intros x Hx. rewrite image_put. destruct (Z.eqb_spec x (mf_ind f)) as [->|]; [|done]. exfalso. apply Hx.
    rewrite own_grow. by right.
  - split; [| | |apply (grow_data (image s) _ f b); [done| |]].
    + destruct Hok as [[H1 H2] _ _ _]. unfold mf_grow. cbn [mf_blocks mf_data]. rewrite length_app. cbn [length]. lia.
    + intros _. done.
    + intros _ k Hk. change (mf_ind (mf_grow f b)) with (mf_ind f). rewrite image_put, Z.eqb_refl. unfold mf_grow. cbn [mf_blocks].
      rewrite drop_app_le by lia. destruct (decide (k = length (mf_blocks f) - 12)%nat) as [->|Hne].
      * replace (4 * Z.of_nat (length (mf_blocks f) - 12)) with (4 * (Z.of_nat (length (mf_blocks f)) - 12)) by lia.
        rewrite get32_put32 by (rewrite ?H512; lia). rewrite u32_id by (unfold is_u32, two32, FSSIZE in *; assert (nmeta = 59) by done; lia).
        rewrite app_nth2, length_drop by (rewrite length_drop; lia). by rewrite Nat.sub_diag.
      * rewrite get32_put32_ne by (rewrite ?H512; lia). rewrite (mo_tab _ _ Hok Hi k Hk).
        destruct (decide (k < length (mf_blocks f) - 12)%nat); [rewrite app_nth1 by (rewrite length_drop; lia); done|].
        rewrite !nth_overflow; [done|rewrite length_app, length_drop; cbn [length]; lia|rewrite length_drop; lia].
    + intros x Hx. rewrite image_put. destruct (Z.eqb_spec x (mf_ind f)) as [->|]; [by destruct Hnin|done].
    + rewrite image_put. destruct (Z.eqb_spec b (mf_ind f)) as [E|]; [rewrite E in Hb; by destruct Hb|done].
Qed.
End Grow.

(** *** The addresses in the inode *)

Lemma addrs_direct f i : (i < 12)%nat → mf_addrs f !! i = Some (nth i (mf_blocks f) 0).
Proof.
  intros Hi. unfold mf_addrs. rewrite lookup_app_l by (by rewrite length_resize).
  rewrite nth_lookup. destruct (decide (i < length (mf_blocks f))%nat) as [Hl|Hl].
  - rewrite lookup_resize by done. destruct (lookup_lt_is_Some_2 _ _ Hl) as [x ->]. done.
  - rewrite lookup_resize_new by lia. by rewrite lookup_ge_None_2 by lia.
Qed.

Lemma addrs_ind f : mf_addrs f !! 12%nat = Some (mf_ind f).
Proof. unfold mf_addrs. rewrite lookup_app_r by (by rewrite length_resize). by rewrite length_resize. Qed.

Lemma addrs_grow_direct f b :
  (length (mf_blocks f) < 12)%nat → <[length (mf_blocks f) := b]> (mf_addrs f) = mf_addrs (mf_grow f b).
Proof.
  intros Hl. unfold mf_addrs, mf_grow. cbn [mf_blocks mf_ind]. rewrite insert_app_l by (by rewrite length_resize). f_equal.
  rewrite !resize_ge by (rewrite ?length_app; cbn [length]; lia). rewrite length_app. cbn [length].
  replace (12 - length (mf_blocks f))%nat with (S (12 - (length (mf_blocks f) + 1))) by lia. cbn [replicate].
  rewrite insert_app_r_alt by done. rewrite Nat.sub_diag, <- app_assoc. done.
Qed.

Lemma addrs_grow_indirect f b : (12 ≤ length (mf_blocks f))%nat → mf_addrs (mf_grow f b) = mf_addrs f.
Proof.
  intros Hl. unfold mf_addrs, mf_grow. cbn [mf_blocks mf_ind]. rewrite !resize_le by (rewrite ?length_app; lia).
  by rewrite take_app_le by lia.
Qed.

Lemma addrs_set_ind f b : <[12%nat := b]> (mf_addrs f) = mf_addrs (mf_set_ind f b).
Proof. unfold mf_addrs. rewrite insert_app_r_alt by (by rewrite length_resize). by rewrite length_resize. Qed.

(** *** file_block *)

(** The number of blocks, with the indirect block, of a file with [n] data blocks. *)
Definition cost (n : nat) : nat := if decide (n ≤ 12)%nat then n else S n.

Definition tight (f : mfile) : Prop := mf_ind f = 0 ↔ (length (mf_blocks f) ≤ 12)%nat.

Lemma own_cost f : tight f → length (mf_own f) = cost (length (mf_blocks f)).
Proof.
  unfold tight, mf_own, cost. intros Ht. rewrite length_app. destruct (Z.eqb_spec (mf_ind f) 0), (decide _); cbn [length]; tauto || lia.
Qed.

Definition mf_same (f f' : mfile) : Prop := mf_type f' = mf_type f ∧ mf_data f' = mf_data f.

Lemma set_addrs_id din : din <| d_addrs := d_addrs din |> = din.
Proof. by destruct din. Qed.

Lemma run_entry_old din i a s : d_addrs din !! Z.to_nat i = Some a → a ≠ 0 → inode_entry din i s = Ok (din, a) s.
Proof. intros Ha Hn. unfold inode_entry. rewrite Ha. cbn [deref]. rewrite bind_ret. by rewrite (proj2 (Z.eqb_neq a 0)). Qed.

Lemma run_entry_new din i s : d_addrs din !! Z.to_nat i = Some 0 → 0 ≤ freeblock s < FSSIZE →
  inode_entry din i s = Ok (din <| d_addrs := <[Z.to_nat i := freeblock s]> (d_addrs din) |>, freeblock s) (s <| freeblock := freeblock s + 1 |>).
Proof.
  intros Ha Hf. unfold inode_entry. rewrite Ha. cbn [deref]. rewrite bind_ret, Z.eqb_refl.
  by rewrite (bind_ok _ _ _ _ _ (run_new_block s Hf)).
Qed.

Lemma same_meta_free s b : same_meta s (s <| freeblock := b |>).
Proof. done. Qed.
Lemma same_meta_put s b d : nmeta ≤ b → same_meta s (put_image s b d).
Proof. intros Hb. split; [done|]. intros x Hx. rewrite image_put. by rewrite (proj2 (Z.eqb_neq x b)) by lia. Qed.

Lemma run_indirect_new s f R n :
  data_ok s (f :: R) → mf_ind f ≠ 0 → length (mf_blocks f) = n → (12 ≤ n < 140)%nat → freeblock s < FSSIZE →
  ∃ s', indirect_entry (mf_ind f) (Z.of_nat n) s = Ok (freeblock s) s' ∧ data_ok s' (mf_grow f (freeblock s) :: R) ∧ same_meta s s'.
Proof.
  intros Hd Hi <- Hn Hf. pose proof (do_free _ _ Hd). assert (nmeta = 59) as En by done. destruct (ind_range _ _ _ Hd Hi) as [Hr _].
  eexists. split_and!; [|by apply grow_indirect|transitivity (s <| freeblock := freeblock s + 1 |>); [apply same_meta_free|apply same_meta_put; lia]].
  unfold indirect_entry. rewrite (bind_ok _ _ _ _ _ (run_rsect s (mf_ind f) ltac:(rewrite (do_sect _ _ Hd); lia))). cbv zeta.
  replace (4 * (Z.of_nat (length (mf_blocks f)) - NDIRECT)) with (4 * Z.of_nat (length (mf_blocks f) - 12)) by (unfold NDIRECT; lia).
  rewrite (mo_tab _ _ (file_ok _ _ _ Hd) Hi) by lia. rewrite nth_overflow by (rewrite length_drop; lia). rewrite Z.eqb_refl.
  rewrite (bind_ok _ _ _ _ _ (run_new_block s ltac:(lia))). erewrite bind_ok by (apply run_wsect; cbn; rewrite (do_sect _ _ Hd); lia).
  unfold mret, M_ret. do 3 f_equal. lia.
Qed.

Lemma run_indirect_old s f R n x :
  data_ok s (f :: R) → mf_ind f ≠ 0 → mf_blocks f !! n = Some x → (12 ≤ n < 140)%nat →
  indirect_entry (mf_ind f) (Z.of_nat n) s = Ok x s.
Proof.
  intros Hd Hi Hx Hn. destruct (ind_range _ _ _ Hd Hi) as [Hr _]. destruct (block_range _ _ _ _ _ Hd Hx) as [_ Hx0].
  unfold indirect_entry. rewrite (bind_ok _ _ _ _ _ (run_rsect s (mf_ind f) ltac:(rewrite (do_sect _ _ Hd); lia))). cbv zeta.
  replace (4 * (Z.of_nat n - NDIRECT)) with (4 * Z.of_nat (n - 12)) by (unfold NDIRECT; lia).
  rewrite (mo_tab _ _ (file_ok _ _ _ Hd) Hi) by lia. rewrite nth_lookup, lookup_drop.
  replace (12 + (n - 12))%nat with n by lia. rewrite Hx. change (default 0 (Some x)) with x. by rewrite (proj2 (Z.eqb_neq x 0)).
Qed.

(** The file gets a block with number [n], unless it has it. *)
Definition block_found (s : mkfs) (f : mfile) (R : list mfile) (din : dinode) (n : nat) : Prop :=
  ∃ s' f' x, file_block din (Z.of_nat n) s = Ok (din <| d_addrs := mf_addrs f' |>, x) s' ∧
    data_ok s' (f' :: R) ∧ tight f' ∧ mf_same f f' ∧ length (mf_blocks f') = S n ∧ mf_blocks f' !! n = Some x ∧ same_meta s s'.

Section FileBlock.
Context (s : mkfs) (f : mfile) (R : list mfile) (din : dinode) (n : nat).
Context (Hd : data_ok s (f :: R)) (Ht : tight f) (Ha : d_addrs din = mf_addrs f) (Hn : (n < 140)%nat).

Lemma found_old : length (mf_blocks f) = S n → block_found s f R din n.
Proof.
  intros Hl. destruct (lookup_lt_is_Some_2 (mf_blocks f) n ltac:(lia)) as [x Hx]. destruct (block_range _ _ _ _ _ Hd Hx) as [_ Hx0].
  exists s, f, x. split_and!; try done. rewrite <- Ha, set_addrs_id. unfold file_block, NDIRECT. destruct (Z.ltb_spec (Z.of_nat n) 12).
  - apply run_entry_old; [|done]. rewrite Nat2Z.id, Ha, addrs_direct by lia. by rewrite nth_lookup, Hx.
  - assert (mf_ind f ≠ 0) as Hi by (destruct Ht; lia).
    erewrite bind_ok by (apply (run_entry_old _ _ (mf_ind f)); [change (Z.to_nat 12) with 12%nat; by rewrite Ha, addrs_ind|done]).
    cbv beta iota. by erewrite bind_ok by (eapply run_indirect_old; [done|done|done|lia]).
Qed.

Context (Hroom : nmeta + Z.of_nat (cost (S n) + length (owned R)) ≤ FSSIZE) (Hl : length (mf_blocks f) = n).

Lemma free_before : freeblock s = nmeta + Z.of_nat (cost n + length (owned R)).
Proof.
  pose proof (do_free _ _ Hd) as [Hf _]. change (owned (f :: R)) with (mf_own f ++ owned R) in Hf.
  rewrite length_app, own_cost, Hl in Hf by done. lia.
Qed.

Lemma found_direct : (n < 12)%nat → block_found s f R din n.
Proof.
  intros Hlt. pose proof free_before as Hf. assert (nmeta = 59) as En by done. assert (freeblock s < FSSIZE) as Hfs.
  { unfold cost in *. destruct (decide (n ≤ 12)%nat), (decide (S n ≤ 12)%nat); lia. }
  exists (s <| freeblock := freeblock s + 1 |>), (mf_grow f (freeblock s)), (freeblock s). split_and!; try done.
  - unfold file_block, NDIRECT. rewrite (proj2 (Z.ltb_lt _ _)) by lia.
    rewrite run_entry_new; [|rewrite Nat2Z.id, Ha, addrs_direct, nth_overflow by lia; done|lia].
    rewrite Nat2Z.id, Ha, <- Hl, addrs_grow_direct by lia. done.
  - apply grow_direct; [done..|lia].
  - unfold tight, mf_grow in *. cbn [mf_ind mf_blocks]. rewrite length_app. cbn [length]. rewrite Ht. lia.
  - unfold mf_grow. cbn [mf_blocks]. rewrite length_app, Hl. cbn [length]. lia.
  - unfold mf_grow. cbn [mf_blocks]. rewrite lookup_app_r, Hl, Nat.sub_diag by lia. done.
Qed.

(** The indirect block is there, or is taken. *)
Lemma found_ind : (12 ≤ n)%nat → ∃ s1 f1,
  inode_entry din NDIRECT s = Ok (din <| d_addrs := mf_addrs f1 |>, mf_ind f1) s1 ∧ data_ok s1 (f1 :: R) ∧ mf_ind f1 ≠ 0 ∧
  mf_blocks f1 = mf_blocks f ∧ mf_same f f1 ∧ freeblock s1 < FSSIZE ∧ same_meta s s1.
Proof.
  intros Hge. pose proof free_before as Hf. assert (nmeta = 59) as En by done. unfold cost in *. rewrite decide_False in Hroom by lia.
  destruct (decide (n ≤ 12)%nat) as [Hle|Hgt].
  - assert (mf_ind f = 0) as Hi by (apply Ht; lia). exists (s <| freeblock := freeblock s + 1 |>), (mf_set_ind f (freeblock s)).
    split_and!; try done; [|apply grow_ind; lia || done|unfold mf_set_ind; cbn [mf_ind]; lia|cbn; lia].
    rewrite run_entry_new; [|change (Z.to_nat NDIRECT) with 12%nat; rewrite Ha, addrs_ind; congruence|lia].
    change (Z.to_nat NDIRECT) with 12%nat. rewrite Ha, addrs_set_ind. done.
  - assert (mf_ind f ≠ 0) as Hi by (intros E%Ht; lia). exists s, f. split_and!; try done; [|lia].
    rewrite <- Ha, set_addrs_id. apply run_entry_old; [|done]. change (Z.to_nat NDIRECT) with 12%nat. by rewrite Ha, addrs_ind.
Qed.

Lemma found_indirect : (12 ≤ n)%nat → block_found s f R din n.
Proof.
  intros Hge. destruct (found_ind Hge) as (s1 & f1 & E1 & Hd1 & Hi & Hb & [Hs1 Hs2] & Hf1 & Hm1).
  destruct (run_indirect_new s1 f1 R n Hd1 Hi ltac:(by rewrite Hb) ltac:(lia) Hf1) as (s2 & E2 & Hd2 & Hm2).
  exists s2, (mf_grow f1 (freeblock s1)), (freeblock s1). split_and!; try done.
  - unfold file_block, NDIRECT in *. rewrite (proj2 (Z.ltb_ge _ _)) by lia. rewrite (bind_ok _ _ _ _ _ E1). cbv beta iota.
    rewrite (bind_ok _ _ _ _ _ E2). rewrite addrs_grow_indirect by (rewrite Hb; lia). done.
  - unfold tight, mf_grow. cbn [mf_ind mf_blocks]. rewrite length_app, Hb. cbn [length]. lia.
  - unfold mf_grow. cbn [mf_blocks]. rewrite length_app, Hb, Hl. cbn [length]. lia.
  - unfold mf_grow. cbn [mf_blocks]. rewrite lookup_app_r, Hb, Hl, Nat.sub_diag by (rewrite Hb; lia). done.
  - by transitivity s1.
Qed.
End FileBlock.

Lemma run_file_block s f R din n :
  data_ok s (f :: R) → tight f → d_addrs din = mf_addrs f → (n < 140)%nat →
  nmeta + Z.of_nat (cost (S n) + length (owned R)) ≤ FSSIZE →
  length (mf_blocks f) = n ∨ length (mf_blocks f) = S n → block_found s f R din n.
Proof.
  intros Hd Ht Ha Hn Hr [Hl|Hl]; [|by apply found_old].
  destruct (decide (n < 12)%nat); [by apply found_direct|apply found_indirect; done || lia].
Qed.

(** *** Writing the last block *)

Definition mf_append (f : mfile) (c : list Z) : mfile := mkMfile (mf_type f) (mf_blocks f) (mf_ind f) (mf_data f ++ c).

Lemma length_blocks (I : Z → list Z) bl : (∀ b, length (I b) = 512%nat) → length (mjoin (I <$> bl)) = (512 * length bl)%nat.
Proof.
  intros H. induction bl as [|b bl IH]; [done|]. change (mjoin (I <$> (b :: bl))) with (I b ++ mjoin (I <$> bl)).
  rewrite length_app, H, IH. cbn [length]. lia.
Qed.

Lemma splice_zeros (d c : list Z) (o : nat) : (o + length c ≤ 512)%nat → length d = o →
  splice (d ++ replicate (512 - o) 0) (Z.of_nat o) c = d ++ c ++ replicate (512 - (o + length c)) 0.
Proof.
  intros Ho Hd. unfold splice. rewrite Nat2Z.id, take_app_length' by done. do 2 f_equal.
  rewrite drop_app_ge, drop_replicate by lia. f_equal. lia.
Qed.

Lemma last_block (I : Z → list Z) f n x :
  mf_ok I f → (∀ b, length (I b) = 512%nat) → mf_blocks f = take n (mf_blocks f) ++ [x] → length (mf_blocks f) = S n →
  (512 * n ≤ length (mf_data f))%nat →
  ∃ d, mf_data f = mjoin (I <$> take n (mf_blocks f)) ++ d ∧ (length (mf_data f) = 512 * n + length d)%nat ∧
       I x = d ++ replicate (512 - length d) 0.
Proof.
  intros Hok H512 Hb Hl Hge. pose proof (mo_data _ _ Hok) as Hm. destruct Hok as [[H1 H2] _ _ _].
  set (q := mjoin (I <$> take n (mf_blocks f))) in *. assert (length q = 512 * n)%nat as Hq.
  { unfold q. rewrite length_blocks, length_take by done. lia. }
  rewrite Hb, fmap_app, join_app in Hm at 1. fold q in Hm. cbn [fmap list_fmap mjoin list_join] in Hm. rewrite app_nil_r in Hm.
  rewrite <- (take_drop (length q) (mf_data f)), <- app_assoc in Hm at 1.
  apply app_inj_1 in Hm as [Hm1 Hm2]; [|rewrite length_take; lia]. exists (drop (length q) (mf_data f)). split_and!.
  - rewrite Hm1 at 1. by rewrite take_drop.
  - rewrite length_drop. lia.
  - rewrite Hm2. f_equal. f_equal. rewrite length_drop, Hl. lia.
Qed.

Lemma blocks_split (bl : list Z) n x : bl !! n = Some x → length bl = S n → bl = take n bl ++ [x].
Proof. intros Hx Hl. rewrite <- (take_S_r _ _ _ Hx). by rewrite take_ge by lia. Qed.

Lemma write_last s f R n x c o :
  data_ok s (f :: R) → length (mf_blocks f) = S n → mf_blocks f !! n = Some x →
  (length (mf_data f) = 512 * n + o)%nat → (o + length c ≤ 512)%nat →
  data_ok (put_image s x (splice (image s x) (Z.of_nat o) c)) (mf_append f c :: R).
Proof.
  intros Hd Hl Hx Hlen Ho. pose proof (file_ok _ _ _ Hd) as Hok. pose proof (do_len _ _ Hd) as H512.
  pose proof (blocks_split _ _ _ Hx Hl) as Hb. pose proof (do_free _ _ Hd) as [_ Hf].
  destruct (last_block _ _ _ _ Hok H512 Hb Hl ltac:(lia)) as (d & Hd1 & Hd2 & Hd3).
  assert (x ∈ mf_blocks f) as Hxin by (by eapply list_elem_of_lookup_2).
  assert (x ∉ take n (mf_blocks f)) as Hxn.
  { pose proof (do_nodup _ _ Hd) as HN. change (owned (f :: R)) with (mf_own f ++ owned R) in HN. apply NoDup_app in HN as [HN _].
    apply NoDup_app in HN as (_ & _ & HN). rewrite Hb in HN. apply NoDup_app in HN as (_ & HN & _). intros Hin. apply (HN x Hin). set_solver. }
  apply (data_ok_step s _ f _ R Hd); [done| |cbn; lia| | |].
  - intros b. rewrite image_put. destruct (b =? x); [|apply H512]. rewrite length_splice; rewrite ?Nat2Z.id, ?H512; lia.
  - change (freeblock (put_image _ _ _)) with (freeblock s). rewrite Z.sub_diag. done.
  - intros b Hbn. rewrite image_put. destruct (Z.eqb_spec b x) as [->|]; [|done]. destruct Hbn. apply elem_of_app. by right.
  - destruct Hok as [[H1 H2] H3 H4 H5]. unfold mf_append. split; cbn [mf_blocks mf_ind mf_data]; rewrite ?length_app; [lia|done| |].
    + intros Hi k Hk. rewrite image_put. destruct (Z.eqb_spec (mf_ind f) x) as [E|]; [|by apply H4].
      destruct (ind_range _ _ _ Hd Hi) as [_ Hnin]. by rewrite E in Hnin.
    + rewrite Hb at 1. rewrite fmap_app, join_app. cbn [fmap list_fmap mjoin list_join]. rewrite app_nil_r, image_put, Z.eqb_refl.
      rewrite (list_fmap_ext _ (image s) (take n (mf_blocks f))).
      2:{ intros i b Hbi. rewrite image_put. destruct (Z.eqb_spec b x) as [->|]; [|done]. destruct Hxn. by eapply list_elem_of_lookup_2. }
      rewrite Hd3. replace (length d) with o by lia. rewrite splice_zeros by lia. rewrite Hd1 at 1. rewrite <- !app_assoc. do 4 f_equal. lia.
Qed.

(** *** iappend *)

(** The number of blocks for [l] bytes. *)
Definition nblk (l : nat) : nat := ((l + 511) / 512)%nat.
Definition mf_wf (f : mfile) : Prop := tight f ∧ length (mf_blocks f) = nblk (length (mf_data f)).

Lemma nblk_spec l : (l ≤ 512 * nblk l < l + 512)%nat.
Proof.
  unfold nblk. pose proof (Nat.div_mod_eq (l + 511) 512). pose proof (Nat.mod_upper_bound (l + 511) 512 ltac:(lia)). lia.
Qed.
Lemma nblk_le a b : (a ≤ b)%nat → (nblk a ≤ nblk b)%nat.
Proof. intros H. unfold nblk. apply Nat.Div0.div_le_mono. lia. Qed.
Lemma cost_le a b : (a ≤ b)%nat → (cost a ≤ cost b)%nat.
Proof. intros H. unfold cost. destruct (decide (a ≤ 12)%nat), (decide (b ≤ 12)%nat); lia. Qed.

(** One turn: as many bytes as the block has room for. *)
Lemma append_round R fuel s f din p :
  p ≠ [] → data_ok s (f :: R) → mf_wf f → d_addrs din = mf_addrs f →
  (nblk (length (mf_data f) + length p) ≤ 140)%nat →
  nmeta + Z.of_nat (cost (nblk (length (mf_data f) + length p)) + length (owned R)) ≤ FSSIZE →
  ∃ s' f' k, (0 < k ≤ length p)%nat ∧ iappend_loop (S fuel) din (Z.of_nat (length (mf_data f))) p s =
      iappend_loop fuel (din <| d_addrs := mf_addrs f' |>) (Z.of_nat (length (mf_data f'))) (drop k p) s' ∧
    data_ok s' (f' :: R) ∧ mf_wf f' ∧ mf_type f' = mf_type f ∧ mf_data f' = mf_data f ++ take k p ∧ same_meta s s'.
Proof.
  intros Hnil Hd [Ht Hw] Ha Hmax Hroom. cbn [iappend_loop]. rewrite bool_decide_eq_false_2 by done.
  assert (0 < length p)%nat as Hp0 by (destruct p; [done|cbn; lia]).
  set (l := length (mf_data f)) in *. set (n := (l / 512)%nat). set (o := (l mod 512)%nat).
  assert (l = 512 * n + o ∧ o < 512)%nat as [El Eo] by (unfold n, o; split; [apply Nat.div_mod_eq|by apply Nat.mod_upper_bound]).
  clearbody n o. assert (Z.of_nat l / BSIZE = Z.of_nat n) as Ez by (unfold BSIZE; rewrite El; zl).
  assert (S n ≤ nblk (l + length p))%nat as Hsn by (pose proof (nblk_spec (l + length p)); lia). pose proof (cost_le _ _ Hsn).
  rewrite Ez. change MAXFILE with 140. rewrite (proj2 (Z.ltb_lt _ _)) by lia. cbn [negb].
  destruct (run_file_block s f R din n Hd Ht Ha) as (s1 & f1 & x & E1 & Hd1 & Ht1 & [Hs1 Hs2] & Hl1 & Hx & Hm1);
    [lia|lia|pose proof (nblk_spec l); lia|].
  rewrite (bind_ok _ _ _ _ _ E1). cbv beta iota zeta. replace (Z.of_nat n * BSIZE) with (Z.of_nat (512 * n)) by (unfold BSIZE; lia).
  set (k := Nat.min (length p) (512 - o)). replace (Z.min _ _) with (Z.of_nat k) by (unfold BSIZE; lia). rewrite Nat2Z.id.
  destruct (block_range _ _ _ _ _ Hd1 Hx) as [Hxr _]. assert (x < nsect s1) as Hxs by (rewrite (do_sect _ _ Hd1); lia).
  rewrite (bind_ok _ _ _ _ _ (run_rsect s1 x Hxs)), (bind_ok _ _ _ _ _ (run_wsect s1 x _ Hxs)).
  replace (Z.of_nat l - Z.of_nat (512 * n)) with (Z.of_nat o) by lia. assert (length (take k p) = k) as Hk by (rewrite length_take; lia).
  eexists _, (mf_append f1 (take k p)), k.
  assert (length (mf_data (mf_append f1 (take k p))) = l + k)%nat as Hl2 by (cbn [mf_append mf_data]; rewrite length_app, Hs2; lia).
  split_and!; [lia|lia| |apply (write_last s1 f1 R n x (take k p) o Hd1 Hl1 Hx); [rewrite Hs2|]; lia| |done| |].
  - by rewrite Hl2, Nat2Z.inj_add.
  - split; [done|]. rewrite Hl2. change (mf_blocks (mf_append f1 (take k p))) with (mf_blocks f1). pose proof (nblk_spec (l + k)). lia.
  - cbn [mf_append mf_data]. by rewrite Hs2.
  - transitivity s1; [done|]. apply same_meta_put. lia.
Qed.

Lemma append_loop_ok R fuel : ∀ s f din p,
  (length p < fuel)%nat → data_ok s (f :: R) → mf_wf f → d_addrs din = mf_addrs f →
  (nblk (length (mf_data f) + length p) ≤ 140)%nat →
  nmeta + Z.of_nat (cost (nblk (length (mf_data f) + length p)) + length (owned R)) ≤ FSSIZE →
  ∃ s' f', iappend_loop fuel din (Z.of_nat (length (mf_data f))) p s =
             Ok (din <| d_addrs := mf_addrs f' |>, Z.of_nat (length (mf_data f'))) s' ∧
    data_ok s' (f' :: R) ∧ mf_wf f' ∧ mf_type f' = mf_type f ∧ mf_data f' = mf_data f ++ p ∧ same_meta s s'.
Proof.
  induction fuel as [|fuel IH]; intros s f din p Hp Hd Hw Ha Hmax Hroom; [lia|]. destruct (decide (p = [])) as [->|Hnil].
  { exists s, f. cbn [iappend_loop]. rewrite <- Ha, set_addrs_id, app_nil_r. done. }
  destruct (append_round R fuel s f din p Hnil Hd Hw Ha Hmax Hroom) as (s1 & f1 & k & Hk & E1 & Hd1 & Hw1 & Hty1 & Hda1 & Hm1).
  assert (length (mf_data f1) + length (drop k p) = length (mf_data f) + length p)%nat as El.
  { rewrite Hda1, length_app, length_take, length_drop. lia. }
  destruct (IH s1 f1 (din <| d_addrs := mf_addrs f1 |>) (drop k p)) as (s2 & f2 & E2 & Hd2 & Hw2 & Hty2 & Hda2 & Hm2);
    [rewrite length_drop; lia|done|done|done|by rewrite El|by rewrite El|].
  rewrite E1. exists s2, f2. split_and!; [exact E2|done|done|congruence| |by transitivity s1].
  by rewrite Hda2, Hda1, <- app_assoc, take_drop.
Qed.

(** ** The inode blocks *)

Definition inode_at (I : Z → list Z) (inum : Z) : dinode := dinode_at (I (IBLOCK inum mkfs_sb)) (dip_off inum).
Definition no_din : dinode := mkDin 0 0 0 0 0 (replicate 13 0).
(** The inode blocks have room for the numbers below this one. *)
Definition inode_max : Z := ninodeblocks * IPB.

Lemma dinode_at_ext b b' o o' :
  (∀ j, 0 ≤ j < 64 → byte_at b (o + j) = byte_at b' (o' + j)) → dinode_at b o = dinode_at b' o'.
Proof.
  intros H. assert (byte_at b o = byte_at b' o') as H0 by (rewrite <- (Z.add_0_r o), <- (Z.add_0_r o'); apply H; lia).
  unfold dinode_at, get16, get32. f_equal; [by rewrite H0, H by lia| | | | |].
  1-4: by rewrite <- !Z.add_assoc, !H by lia.
  - unfold dinode_addrs. apply list_fmap_ext. intros i k Hk. apply lookup_seq in Hk as [-> Hk]. unfold get32.
    change (Z.to_nat (NDIRECT + 1)) with 13%nat in Hk. rewrite <- !Z.add_assoc. rewrite !H by lia. done.
Qed.

Lemma iblock_at j : 0 ≤ j < inode_max → IBLOCK j mkfs_sb = j / 8 + 32.
Proof.
  unfold inode_max. change (ninodeblocks * IPB) with 208. intros Hj. unfold IBLOCK. change IPB with 8.
  change (sb_inodestart mkfs_sb) with 32. apply u32_id. unfold is_u32, two32. zl.
Qed.

Lemma iblock_range j : 0 ≤ j < inode_max → 32 ≤ IBLOCK j mkfs_sb < 58 ∧ 0 ≤ dip_off j ≤ 448.
Proof.
  intros Hj. rewrite iblock_at by done. unfold inode_max in Hj. change (ninodeblocks * IPB) with 208 in Hj.
  unfold dip_off. change IPB with 8. change sizeof_dinode with 64. zl.
Qed.

Definition put_inode (s : mkfs) (inum : Z) (d : dinode) : mkfs :=
  put_image s (IBLOCK inum mkfs_sb) (splice (image s (IBLOCK inum mkfs_sb)) (dip_off inum) (dinode_bytes d)).

Lemma inode_at_put s inum d j :
  (∀ b, length (image s b) = 512%nat) → din_ok d → 0 ≤ inum < inode_max → 0 ≤ j < inode_max →
  inode_at (image (put_inode s inum d)) j = if j =? inum then d else inode_at (image s) j.
Proof.
  intros H512 Hd Hi Hj. pose proof (length_dinode d Hd) as Hl. pose proof (iblock_range inum Hi) as [_ Ho]. pose proof (iblock_range j Hj) as [_ Ho'].
  unfold inode_at, put_inode. rewrite image_put. destruct (Z.eqb_spec j inum) as [->|Hne].
  - rewrite Z.eqb_refl. rewrite <- (dinode_bytes_at d Hd) at 2. apply dinode_at_ext. intros k Hk.
    rewrite byte_at_splice_in by (rewrite ?H512, ?Hl; lia). done.
  - destruct (Z.eqb_spec (IBLOCK j mkfs_sb) (IBLOCK inum mkfs_sb)) as [E|]; [|done]. rewrite E. apply dinode_at_ext. intros k Hk.
    rewrite !iblock_at in E by done. unfold dip_off in *. change IPB with 8 in *. change sizeof_dinode with 64 in *.
    apply byte_at_splice_out; rewrite ?H512, ?Hl; try lia. assert (j mod 8 ≠ inum mod 8); zl.
Qed.

Lemma run_rinode s inum : nsect s = FSSIZE → 0 ≤ inum < inode_max → rinode inum s = Ok (inode_at (image s) inum) s.
Proof.
  intros Hn Hi. pose proof (iblock_range inum Hi). unfold rinode.
  rewrite (bind_ok _ _ _ _ _ (run_rsect s (IBLOCK inum mkfs_sb) ltac:(rewrite Hn; unfold FSSIZE; lia))). done.
Qed.

Lemma run_winode s inum d : nsect s = FSSIZE → 0 ≤ inum < inode_max → winode inum d s = Ok tt (put_inode s inum d).
Proof.
  intros Hn Hi. pose proof (iblock_range inum Hi). assert (IBLOCK inum mkfs_sb < nsect s) as Hb by (rewrite Hn; unfold FSSIZE; lia).
  unfold winode. cbv zeta. rewrite (bind_ok _ _ _ _ _ (run_rsect s _ Hb)). by rewrite run_wsect.
Qed.

Lemma length_put_inode s inum d : (∀ b, length (image s b) = 512%nat) → din_ok d → 0 ≤ inum < inode_max →
  ∀ b, length (image (put_inode s inum d) b) = 512%nat.
Proof.
  intros H512 Hd Hi b. unfold put_inode. rewrite image_put. destruct (_ =? _); [|done]. pose proof (iblock_range inum Hi).
  rewrite length_splice; [done|lia|rewrite H512, length_dinode by done; lia].
Qed.

(** Metadata may change under the files. *)
Lemma data_ok_meta s s' fs : data_ok s fs → nsect s' = nsect s → freeblock s' = freeblock s →
  (∀ b, length (image s' b) = 512%nat) → (∀ b, nmeta ≤ b → image s' b = image s b) → data_ok s' fs.
Proof.
  intros [H1 H2 H3 H4 H5 H6 H7] Hn Hf Hl Hb. split; rewrite ?Hf; try done; [congruence| |].
  - intros b Hr. rewrite Hb by lia. by apply H4.
  - rewrite Forall_forall in H5. apply Forall_forall. intros f Hin. rewrite Forall_forall in H7. eapply mf_ok_frame; [|by apply H7].
    intros b Hbf. apply Hb. apply H5. apply list_elem_of_join. exists (mf_own f). split; [done|]. apply list_elem_of_fmap. eauto.
Qed.

Lemma data_ok_put_inode s fs inum d : data_ok s fs → din_ok d → 0 ≤ inum < inode_max → data_ok (put_inode s inum d) fs.
Proof.
  intros Hd Hok Hi. apply (data_ok_meta s); [done..|by apply length_put_inode; [apply (do_len _ _ Hd)|..]|].
  intros b Hb. unfold put_inode. rewrite image_put. pose proof (iblock_range inum Hi). assert (nmeta = 59) as En by done.
  by rewrite (proj2 (Z.eqb_neq b _)) by lia.
Qed.
