(* ===== verification/MkfsImage.v ===== *)
(** * The whole image that mkfs.c builds

    The operations of mkfs.c are seen as changes of a list of files with their types and
    contents; inode [i + 1] is the file with index [i] in the list. *)

From S2P Require Import Prelude Layout State Str Ports Inode Fs LogProps BallocProps Mkfs MkfsProps.

(** ** Files and inodes *)

Definition sb_block : list Z :=
  splice zeroes 0
    (bytes32 (sb_size mkfs_sb) ++ bytes32 (sb_nblocks mkfs_sb) ++ bytes32 (sb_ninodes mkfs_sb) ++
     bytes32 (sb_nlog mkfs_sb) ++ bytes32 (sb_logstart mkfs_sb) ++ bytes32 (sb_inodestart mkfs_sb) ++
     bytes32 (sb_bmapstart mkfs_sb)).

Definition type_ok (f : mfile) : Prop := is_u16 (mf_type f).

Record fs_ok (s : mkfs) (fs : list mfile) : Prop := mkFsOk {
  fo_data : data_ok s fs;
  fo_wf : Forall mf_wf fs;
  fo_type : Forall type_ok fs;
  fo_free : freeinode s = 1 + Z.of_nat (length fs) ∧ freeinode s ≤ inode_max;
  fo_inodes : ∀ j, 1 ≤ j < inode_max → inode_at (image s) j = from_option mf_din no_din (fs !! Z.to_nat (j - 1));
  fo_low : ∀ b, b < sb_inodestart mkfs_sb ∨ b = sb_bmapstart mkfs_sb → image s b = if b =? 1 then sb_block else zeroes
}.

Definition contents (fs : list mfile) : list (Z * list Z) := (λ f, (mf_type f, mf_data f)) <$> fs.
(** The image holds the files [C]. *)
Definition holds (s : mkfs) (C : list (Z * list Z)) : Prop := ∃ fs, fs_ok s fs ∧ contents fs = C.

(** The blocks that the files take. *)
Definition total (C : list (Z * list Z)) : nat := sum_list_with (λ x, cost (nblk (length (x.2)))) C.
Definition fits (C : list (Z * list Z)) : Prop :=
  nmeta + Z.of_nat (total C) ≤ FSSIZE ∧ Forall (λ x, (nblk (length (x.2)) ≤ 140)%nat) C.

Lemma total_owned fs : Forall mf_wf fs → length (owned fs) = total (contents fs).
Proof.
  induction 1 as [|f fs [Ht Hw] _ IH]; [done|]. change (owned (f :: fs)) with (mf_own f ++ owned fs).
  rewrite length_app, own_cost, Hw, IH by done. done.
Qed.

#[export] Instance total_perm : Proper ((≡ₚ) ==> (=)) total.
Proof. intros C C' H. unfold total. induction H; simpl in *; lia. Qed.

Lemma insert_perm {A} (l : list A) i x : (i < length l)%nat → <[i := x]> l ≡ₚ x :: delete i l.
Proof.
  intros Hi. rewrite insert_take_drop, delete_take_drop by done. by rewrite Permutation_middle.
Qed.

(** The inode of a file fits the structure. *)
Lemma mf_din_ok s fs f : data_ok s fs → f ∈ fs → type_ok f → din_ok (mf_din f).
Proof.
  intros Hd Hf Ht. apply elem_of_Permutation in Hf as [R HR]. rewrite HR in Hd. pose proof (file_ok _ _ _ Hd) as Hok.
  assert (∀ b, b ∈ mf_own f → is_u32 b) as Hown.
  { intros b Hb. pose proof (owned_range _ _ _ _ Hd Hb). pose proof (do_free _ _ Hd). assert (nmeta = 59) by done.
    unfold is_u32, two32, FSSIZE in *. lia. }
  assert (is_u32 0) as H0 by done. split; cbn [mf_din d_type d_major d_minor d_nlink d_size d_addrs].
  - split_and!; [exact Ht|done..].
  - destruct (mo_len _ _ Hok). unfold is_u32, two32. lia.
  - unfold mf_addrs. rewrite length_app, length_resize. done.
  - unfold mf_addrs. apply Forall_app. split; [|constructor; [|done]].
    + apply Forall_forall. intros b Hb. unfold mf_own in Hown. rewrite resize_spec in Hb. apply elem_of_app in Hb as [Hb|Hb].
      * apply Hown, elem_of_app. right. by eapply subseteq_take.
      * by apply elem_of_replicate in Hb as [-> _].
    + destruct (decide (mf_ind f = 0)) as [->|Hi]; [done|]. apply Hown. unfold mf_own. rewrite (proj2 (Z.eqb_neq _ _) Hi). set_solver.
Qed.

(** Writing the inode of the file with index [i]. *)
Lemma fs_ok_put_inode s s1 fs fs' i f :
  fs_ok s fs → same_meta s s1 → data_ok s1 fs' → Forall mf_wf fs' → Forall type_ok fs' →
  fs' !! i = Some f → (∀ j, j ≠ i → fs' !! j = fs !! j) → 1 + Z.of_nat (length fs') ≤ inode_max →
  ∀ s2, s2 = put_inode (s1 <| freeinode := 1 + Z.of_nat (length fs') |>) (1 + Z.of_nat i) (mf_din f) → fs_ok s2 fs'.
Proof.
  intros Hok [Hm1 Hm2] Hd Hw Ht Hi Hoth Hmax s2 ->. pose proof (lookup_lt_Some _ _ _ Hi) as Hlt.
  assert (din_ok (mf_din f)) as Hdin.
  { eapply mf_din_ok; [exact Hd|by eapply list_elem_of_lookup_2|]. rewrite Forall_forall in Ht. apply Ht. by eapply list_elem_of_lookup_2. }
  set (s1' := s1 <| freeinode := _ |>). assert (data_ok s1' fs') as Hd' by (by destruct Hd).
  assert (nmeta = 59) as En by done. split; [by apply data_ok_put_inode; [..|lia]|done|done|done| |].
  - intros j Hj. rewrite inode_at_put by (apply (do_len _ _ Hd) || done || lia). destruct (Z.eqb_spec j (1 + Z.of_nat i)) as [->|Hne].
    + replace (Z.to_nat (1 + Z.of_nat i - 1)) with i by lia. by rewrite Hi.
    + rewrite Hoth by lia. rewrite <- (fo_inodes _ _ Hok j Hj). unfold inode_at. change (image s1') with (image s1).
      rewrite Hm2; [done|]. pose proof (iblock_range j ltac:(lia)). lia.
  - intros b Hb. change (sb_inodestart mkfs_sb) with 32 in Hb. change (sb_bmapstart mkfs_sb) with 58 in Hb.
    pose proof (iblock_range (1 + Z.of_nat i) ltac:(lia)). unfold put_inode. rewrite image_put, (proj2 (Z.eqb_neq b _)) by lia.
    change (image s1') with (image s1). rewrite Hm2 by lia. apply (fo_low _ _ Hok). done.
Qed.

Lemma contents_insert fs i f : contents (<[i := f]> fs) = <[i := (mf_type f, mf_data f)]> (contents fs).
Proof. unfold contents. by rewrite list_fmap_insert. Qed.

Lemma run_iappend s C i t d p :
  holds s C → C !! i = Some (t, d) → fits (<[i := (t, d ++ p)]> C) →
  ∃ s', iappend (1 + Z.of_nat i) p s = Ok tt s' ∧ holds s' (<[i := (t, d ++ p)]> C).
Proof.
  intros (fs & Hok & <-) Hi [Hfit Hmax]. unfold contents in Hi. rewrite list_lookup_fmap in Hi.
  destruct (fs !! i) as [f|] eqn:Ef; [|done]. injection Hi as <- <-. pose proof (lookup_lt_Some _ _ _ Ef) as Hlt.
  destruct Hok as [Hd Hw Ht [Hf1 Hf2] Hin Hlow] eqn:Eok. clear Eok. pose proof (delete_Permutation _ _ _ Ef) as HP.
  assert (length (contents fs) = length fs) as Hlc by (unfold contents; by rewrite length_fmap).
  assert (Forall mf_wf (delete i fs)) as HwR by (rewrite HP in Hw; by apply Forall_cons in Hw as [_ ?]).
  assert (mf_wf f) as Hwf by (rewrite Forall_forall in Hw; apply Hw; by eapply list_elem_of_lookup_2).
  assert (contents (delete i fs) = delete i (contents fs)) as Ed by (unfold contents; by rewrite list_fmap_delete).
  rewrite insert_perm in Hfit, Hmax by (by rewrite Hlc). apply Forall_cons in Hmax as [Hmax _]. cbn [snd] in Hmax. rewrite length_app in Hmax.
  cbn [total sum_list_with] in Hfit. fold (total (delete i (contents fs))) in Hfit. rewrite <- Ed, <- total_owned in Hfit by done.
  cbn [snd] in Hfit. rewrite length_app in Hfit. rewrite HP in Hd.
  destruct (append_loop_ok (delete i fs) (S (length p)) s f (mf_din f) p) as (s1 & f1 & E1 & Hd1 & Hw1 & Hty & Hda & Hm1); [lia|done|done|done|done|done|].
  assert (1 ≤ 1 + Z.of_nat i < inode_max) as Hir by lia.
  eexists. split.
  - unfold iappend. rewrite (bind_ok _ _ _ _ _ (run_rinode s (1 + Z.of_nat i) (do_sect _ _ Hd) ltac:(lia))).
    rewrite Hin by done. replace (Z.to_nat (1 + Z.of_nat i - 1)) with i by lia. rewrite Ef. cbn [from_option].
    change (d_size (mf_din f)) with (Z.of_nat (length (mf_data f))). rewrite (bind_ok _ _ _ _ _ E1). cbv beta iota.
    apply run_winode; [apply (do_sect _ _ Hd1)|lia].
  - exists (<[i := f1]> fs). rewrite contents_insert, Hty, Hda. split; [|done].
    assert (<[i := f1]> fs ≡ₚ f1 :: delete i fs) as HP1 by (by apply insert_perm).
    eapply (fs_ok_put_inode s s1 fs _ i f1); [done|done|by rewrite HP1| | |by apply list_lookup_insert_eq| | |].
    + rewrite HP1. by constructor.
    + apply Forall_insert; [done|]. unfold type_ok. rewrite Hty. rewrite Forall_forall in Ht. apply Ht. by eapply list_elem_of_lookup_2.
    + intros j Hj. by rewrite list_lookup_insert_ne.
    + rewrite length_insert. lia.
    + rewrite length_insert, <- Hf1. destruct Hm1 as [Hfi _]. rewrite <- Hfi.
      replace (s1 <| freeinode := freeinode s1 |>) with s1 by (by destruct s1). unfold mf_din. by rewrite Hty, Hda.
Qed.

Lemma run_ialloc s C t :
  holds s C → is_u16 t → 1 + Z.of_nat (length C) < inode_max →
  ∃ s', mk_ialloc t s = Ok (1 + Z.of_nat (length C)) s' ∧ holds s' (C ++ [(t, [])]).
Proof.
  intros (fs & Hok & <-) Ht Hmax. unfold contents in Hmax |- *. rewrite length_fmap in *. destruct (fo_free _ _ Hok) as [Hf _].
  assert (inode_max = 208) as Em by done. set (f := mkMfile t [] 0 []). pose proof (fo_data _ _ Hok) as Hd.
  assert (owned (fs ++ [f]) = owned fs) as Eo.
  { unfold owned. rewrite fmap_app, join_app. unfold mf_own at 2. cbn. by rewrite app_nil_r. }
  eexists. split.
  - unfold mk_ialloc. rewrite bind_gets, bind_modify. rewrite Hf, u32_id by (unfold is_u32, two32; lia).
    erewrite bind_ok by (apply run_winode; [apply (do_sect _ _ Hd)|lia]). done.
  - exists (fs ++ [f]). split; [|unfold contents; by rewrite fmap_app].
    eapply (fs_ok_put_inode s s fs (fs ++ [f]) (length fs) f); [done|done| | | | | | |].
    + destruct Hd as [H1 H2 H3 H4 H5 H6 H7]. split; rewrite ?Eo; try done. apply Forall_app. split; [done|]. constructor; [|done].
      split; cbn; [lia|lia|done|done].
    + apply Forall_app. split; [apply Hok|]. constructor; [|done]. split; [|done]. unfold tight. cbn. split; [lia|done].
    + apply Forall_app. split; [apply Hok|]. by constructor.
    + by rewrite lookup_app_r, Nat.sub_diag by lia.
    + intros j Hj. destruct (decide (j < length fs)%nat); [by rewrite lookup_app_l|]. rewrite !lookup_ge_None_2; [done|lia|rewrite length_app; cbn; lia].
    + rewrite length_app. cbn [length]. lia.
    + rewrite length_app. cbn [length]. replace (1 + Z.of_nat (length fs + 1)) with (1 + Z.of_nat (length fs) + 1) by lia. done.
Qed.

(** *** Smaller images fit *)

(** Every file of [C] is in [C'] with at least its length. *)
Definition below (C C' : list (Z * list Z)) : Prop :=
  ∃ C1 C2, C' = C1 ++ C2 ∧ Forall2 (λ x y, (length (x.2) ≤ length (y.2))%nat) C C1.

Lemma below_fits C C' : below C C' → fits C' → fits C.
Proof.
  intros (C1 & C2 & -> & Hb) [Hf Hm]. unfold total in Hf. rewrite sum_list_with_app in Hf. apply Forall_app in Hm as [Hm _]. split.
  - enough (total C ≤ total C1)%nat by (unfold total in *; lia). clear Hf Hm. induction Hb as [|x y C C1 Hxy _ IH]; [done|].
    cbn [total sum_list_with]. pose proof (cost_le _ _ (nblk_le _ _ Hxy)). unfold total in IH. lia.
  - clear Hf. induction Hb as [|x y C C1 Hxy _ IH]; [done|]. apply Forall_cons in Hm as [Hy Hm]. constructor; [|by apply IH].
    pose proof (nblk_le _ _ Hxy). lia.
Qed.

Lemma below_refl C : below C C.
Proof. exists C, []. rewrite app_nil_r. split; [done|]. induction C; by constructor. Qed.

Lemma below_app C C' : below C (C ++ C').
Proof. destruct (below_refl C) as (C1 & C2 & E & H). exists C1, (C2 ++ C'). split; [|done]. rewrite E at 1. by rewrite <- app_assoc. Qed.

Lemma below_insert C i t d d' : C !! i = Some (t, d) → (length d ≤ length d')%nat → below C (<[i := (t, d')]> C).
Proof.
  intros Hi Hle. exists (<[i := (t, d')]> C), []. rewrite app_nil_r. split; [done|].
  apply Forall2_same_length_lookup_2; [by rewrite length_insert|]. intros j x y Hx Hy. destruct (decide (j = i)) as [->|Hne].
  - rewrite list_lookup_insert_eq in Hy by (by eapply lookup_lt_Some). rewrite Hi in Hx. by injection Hx as <-; injection Hy as <-.
  - rewrite list_lookup_insert_ne in Hy by done. by rewrite Hx in Hy; injection Hy as <-.
Qed.

(** ** The files of the command line *)

Lemma run_copy_file t i fuel : ∀ s C d bytes,
  (length bytes < fuel)%nat → holds s C → C !! i = Some (t, d) → fits (<[i := (t, d ++ bytes)]> C) →
  ∃ s', copy_file fuel (1 + Z.of_nat i) bytes s = Ok tt s' ∧ holds s' (<[i := (t, d ++ bytes)]> C).
Proof.
  induction fuel as [|fuel IH]; intros s C d bytes Hlen Hh Hi Hf; [lia|]. cbn [copy_file]. case_bool_decide as Hnil.
  { subst. exists s. split; [done|]. rewrite app_nil_r, list_insert_id by done. done. }
  assert (0 < length bytes)%nat as Hp by (destruct bytes; [done|cbn; lia]). change (Z.to_nat BSIZE) with 512%nat.
  pose proof (lookup_lt_Some _ _ _ Hi) as Hlt. set (C1 := <[i := (t, d ++ take 512 bytes)]> C).
  assert (C1 !! i = Some (t, d ++ take 512 bytes)) as Hi1 by (by apply list_lookup_insert_eq).
  assert (<[i := (t, (d ++ take 512 bytes) ++ drop 512 bytes)]> C1 = <[i := (t, d ++ bytes)]> C) as E1.
  { unfold C1. by rewrite list_insert_insert_eq, <- app_assoc, take_drop. }
  destruct (run_iappend s C i t d (take 512 bytes) Hh Hi) as (s1 & R1 & Hh1).
  { eapply below_fits; [|exact Hf]. fold C1. rewrite <- E1. apply (below_insert _ _ _ _ _ Hi1). rewrite (length_app _ (drop _ _)). lia. }
  rewrite (bind_ok _ _ _ _ _ R1). rewrite <- E1. apply IH; [rewrite length_drop; lia|done|done|by rewrite E1].
Qed.

(** The bytes of the root directory. *)
Definition root_entries (files : list (list Z * list Z)) : list Z :=
  dirent 1 (bytes_of ".") ++ dirent 1 (bytes_of "..") ++
  mjoin (imap (λ i f, dirent (2 + Z.of_nat i) (strip_name (f.1))) files).

(** The files that the image is to hold. *)
Definition image_files (files : list (list Z * list Z)) : list (Z * list Z) :=
  (T_DIR, root_entries files) :: ((λ f, (T_FILE, f.2)) <$> files).

Lemma root_entries_snoc files f :
  root_entries (files ++ [f]) = root_entries files ++ dirent (2 + Z.of_nat (length files)) (strip_name (f.1)).
Proof.
  unfold root_entries. rewrite imap_app, join_app, <- !app_assoc. do 3 f_equal.
  cbn [imap mjoin list_join compose fst]. by rewrite app_nil_r, Nat.add_0_r.
Qed.

Lemma image_files_snoc files f :
  image_files (files ++ [f]) =
    (T_DIR, root_entries files ++ dirent (2 + Z.of_nat (length files)) (strip_name (f.1))) ::
    ((λ f, (T_FILE, f.2)) <$> files) ++ [(T_FILE, f.2)].
Proof. unfold image_files. by rewrite root_entries_snoc, fmap_app. Qed.

Lemma insert_cons_0 {A} (x y : A) l : <[0%nat := x]> (y :: l) = x :: l.
Proof. done. Qed.
Lemma insert_cons_S {A} n (x y : A) l : <[S n := x]> (y :: l) = y :: <[n := x]> l.
Proof. done. Qed.

Lemma image_files_below files more : below (image_files files) (image_files (files ++ more)).
Proof.
  exists ((T_DIR, root_entries (files ++ more)) :: ((λ f, (T_FILE, f.2)) <$> files)), ((λ f, (T_FILE, f.2)) <$> more).
  unfold image_files. split; [by rewrite fmap_app|]. constructor.
  - cbn [snd]. unfold root_entries. rewrite imap_app, join_app, !length_app. lia.
  - induction files; by constructor.
Qed.

Lemma last_file files d :
  <[0%nat := (T_DIR, d)]> (image_files files ++ [(T_FILE, [])]) !! S (length files) = Some (T_FILE, []).
Proof.
  assert (length (image_files files) = S (length files)) as Hl by (unfold image_files; cbn [length]; by rewrite length_fmap).
  by rewrite list_lookup_insert_ne, lookup_app_r, Hl, Nat.sub_diag by (rewrite ?Hl; lia).
Qed.

Lemma run_add_file s files f :
  holds s (image_files files) → 47 ∉ f.1 → 2 + Z.of_nat (length files) < inode_max → fits (image_files (files ++ [f])) →
  ∃ s', add_file 1 f s = Ok tt s' ∧ holds s' (image_files (files ++ [f])).
Proof.
  destruct f as [name bytes]. cbn [fst]. intros Hh Hn Hmax Hfit. unfold add_file. rewrite bool_decide_eq_false_2 by done. cbv zeta.
  assert (length (image_files files) = S (length files)) as Hl by (unfold image_files; cbn [length]; by rewrite length_fmap).
  destruct (run_ialloc s _ T_FILE Hh) as (s1 & R1 & Hh1); [done|lia|]. rewrite (bind_ok _ _ _ _ _ R1).
  replace (1 + Z.of_nat (length (image_files files))) with (2 + Z.of_nat (length files)) by lia.
  set (de := dirent (2 + Z.of_nat (length files)) (strip_name name)).
  assert (<[S (length files) := (T_FILE, bytes)]> (<[0%nat := (T_DIR, root_entries files ++ de)]> (image_files files ++ [(T_FILE, [])]))
          = image_files (files ++ [(name, bytes)])) as E2.
  { rewrite (image_files_snoc files (name, bytes)). unfold image_files. cbn [app]. rewrite insert_cons_0, insert_cons_S. f_equal.
    rewrite insert_app_r_alt by (rewrite length_fmap; lia). by rewrite length_fmap, Nat.sub_diag. }
  destruct (run_iappend s1 _ 0 T_DIR (root_entries files) de Hh1) as (s2 & R2 & Hh2); [done| |].
  { eapply below_fits; [|exact Hfit]. rewrite <- E2. eapply (below_insert _ _ _ []); [apply last_file|cbn; lia]. }
  change (1 + Z.of_nat 0) with 1 in R2. rewrite (bind_ok _ _ _ _ _ R2).
  replace (2 + Z.of_nat (length files)) with (1 + Z.of_nat (S (length files))) by lia. rewrite <- E2.
  apply (run_copy_file T_FILE (S (length files)) _ s2 _ []); [lia|done|apply last_file|by rewrite app_nil_l, E2].
Qed.

Lemma run_add_files todo : ∀ s files,
  holds s (image_files files) → Forall (λ f, 47 ∉ f.1) todo → 1 + Z.of_nat (length (files ++ todo)) < inode_max →
  fits (image_files (files ++ todo)) →
  ∃ s', for_each todo (add_file 1) s = Ok tt s' ∧ holds s' (image_files (files ++ todo)).
Proof.
  induction todo as [|f todo IH]; intros s files Hh Hn Hmax Hfit.
  { exists s. by rewrite app_nil_r. }
  apply Forall_cons in Hn as [Hf Hn]. rewrite length_app in Hmax. cbn [length] in Hmax.
  assert (files ++ f :: todo = (files ++ [f]) ++ todo) as E by (by rewrite <- app_assoc). rewrite E in *.
  destruct (run_add_file s files f Hh Hf ltac:(lia)) as (s1 & R1 & Hh1).
  { eapply below_fits; [apply image_files_below|exact Hfit]. }
  cbn [for_each]. rewrite (bind_ok _ _ _ _ _ R1). apply IH; [done|done| |done]. rewrite !length_app in *. cbn [length]. lia.
Qed.

(** ** main *)

Lemma run_zero n : ∀ m s, nsect s = Z.of_nat m → (∀ b, image s b = zeroes) →
  ∃ s', for_each (seqZ (Z.of_nat m) (Z.of_nat n)) (λ i, wsect i zeroes) s = Ok tt s' ∧ nsect s' = Z.of_nat (m + n) ∧
    (∀ b, image s' b = zeroes) ∧ freeinode s' = freeinode s ∧ freeblock s' = freeblock s.
Proof.
  induction n as [|n IH]; intros m s Hn Hz.
  { exists s. rewrite Nat.add_0_r. done. }
  rewrite seqZ_cons by lia. cbn [for_each]. erewrite bind_ok by (unfold wsect, modify; reflexivity).
  replace (Z.succ (Z.of_nat m)) with (Z.of_nat (S m)) by lia. replace (Z.pred (Z.of_nat (S n))) with (Z.of_nat n) by lia.
  edestruct (IH (S m)) as (s' & R & H1 & H2 & H3 & H4); [| |exists s'; split; [exact R|]].
  - cbn. rewrite Hn. lia.
  - intros b. cbn. by destruct (b =? _).
  - split_and!; [rewrite H1; lia|done|done|done].
Qed.

Lemma no_din_zeroes o : dinode_at zeroes o = no_din.
Proof.
  transitivity (dinode_at zeroes 0); [|vm_compute; reflexivity]. apply dinode_at_ext. intros j _.
  assert (∀ k, byte_at zeroes k = 0) as H; [|by rewrite !H]. intros k. unfold byte_at, zeroes. rewrite nth_lookup.
  destruct (_ !! _) as [x|] eqn:E; [by apply lookup_replicate in E as [-> _]|done].
Qed.

Lemma length_sb_block : length sb_block = 512%nat.
Proof. vm_compute. reflexivity. Qed.

Lemma holds_start s : nsect s = FSSIZE → (∀ b, image s b = zeroes) → freeinode s = 1 → freeblock s = nmeta →
  holds (put_image s 1 sb_block) [].
Proof.
  intros Hn Hz Hi Hf. exists []. split; [|done]. split; [split| | | | |]; try done.
  - intros b. rewrite image_put. destruct (b =? 1); [apply length_sb_block|by rewrite Hz].
  - change (freeblock (put_image s 1 sb_block)) with (freeblock s). rewrite Hf. split; [|done]. change (owned []) with (@nil Z). cbn [length]. lia.
  - intros b Hb. change (freeblock (put_image s 1 sb_block)) with (freeblock s) in Hb. rewrite Hf in Hb. assert (nmeta = 59) by done.
    rewrite image_put, (proj2 (Z.eqb_neq b 1)) by lia. apply Hz.
  - apply NoDup_nil_2.
  - change (freeinode (put_image s 1 sb_block)) with (freeinode s). by rewrite Hi.
  - intros j Hj. unfold inode_at. pose proof (iblock_range j ltac:(lia)). rewrite image_put, (proj2 (Z.eqb_neq _ 1)), Hz by lia.
    rewrite no_din_zeroes. done.
  - intros b _. rewrite image_put, Hz. done.
Qed.

Lemma fits_root files : fits (image_files files) → fits (image_files []).
Proof. apply below_fits. apply (image_files_below [] files). Qed.

(** Everything up to the last repair of the root's size. *)
Lemma run_main_files files :
  Forall (λ f, 47 ∉ f.1) files → 1 + Z.of_nat (length files) < inode_max → fits (image_files files) →
  ∃ s, holds s (image_files files) ∧ mkfs_main files mkfs_start =
    (din ← rinode 1; let off := (d_size din / BSIZE + 1) * BSIZE in
     _ ← winode 1 (din <| d_size := off |>); used ← gets freeblock; mk_balloc used) s.
Proof.
  intros Hn Hmax Hfit. unfold mkfs_main. rewrite bind_modify. set (s0 := mkfs_start <| freeblock := nmeta |>).
  destruct (run_zero 1000 0 s0) as (s1 & R1 & Hs1 & Hz1 & Hi1 & Hf1); [done|done|].
  change FSSIZE with (Z.of_nat 1000). change 0 with (Z.of_nat 0) at 1. rewrite (bind_ok _ _ _ _ _ R1).
  fold sb_block. rewrite (bind_ok _ _ _ _ _ (run_wsect s1 1 sb_block ltac:(rewrite Hs1; lia))).
  pose proof (holds_start s1 ltac:(rewrite Hs1; done) Hz1 Hi1 Hf1) as Hh2.
  destruct (run_ialloc _ _ T_DIR Hh2) as (s3 & R3 & Hh3); [done|done|]. rewrite (bind_ok _ _ _ _ _ R3).
  change (1 + Z.of_nat (length (@nil (Z * list Z)))) with 1. change (negb (1 =? ROOTINO)) with false. cbv iota.
  pose proof (fits_root files Hfit) as Hfit0. set (d1 := dirent 1 (bytes_of ".")). set (d2 := dirent 1 (bytes_of "..")).
  assert (image_files [] = [(T_DIR, d1 ++ d2)]) as E0 by (vm_compute; reflexivity).
  destruct (run_iappend s3 _ 0 T_DIR [] d1 Hh3) as (s4 & R4 & Hh4); [done| |].
  { eapply below_fits; [|exact Hfit0]. rewrite E0. exists [(T_DIR, d1 ++ d2)], []. split; [done|]. constructor; [|done]. cbn [snd app]. rewrite length_app. lia. }
  change (1 + Z.of_nat 0) with 1 in R4. rewrite (bind_ok _ _ _ _ _ R4).
  destruct (run_iappend s4 _ 0 T_DIR d1 d2 Hh4) as (s5 & R5 & Hh5); [done|exact Hfit0|]. change (1 + Z.of_nat 0) with 1 in R5. rewrite (bind_ok _ _ _ _ _ R5).
  destruct (run_add_files files s5 [] Hh5 Hn) as (s6 & R6 & Hh6); [exact Hmax|exact Hfit|]. rewrite (bind_ok _ _ _ _ _ R6). by exists s6.
Qed.

(** ** Reading the image *)

(** The superblock as [readsb] takes it from its block. *)
Definition sb_at (d : list Z) : superblock :=
  mkSb (get32 d 0) (get32 d 4) (get32 d 8) (get32 d 12) (get32 d 16) (get32 d 20) (get32 d 24).

(** The address of block [k] of the file with the inode [d]. *)
Definition addr_of (I : Z → list Z) (d : dinode) (k : nat) : Z :=
  if decide (k < 12)%nat then nth k (d_addrs d) 0
  else get32 (I (nth 12 (d_addrs d) 0)) (4 * Z.of_nat (k - 12)).
Definition addrs_of (I : Z → list Z) (d : dinode) : list Z := addr_of I d <$> seq 0 (nblk (Z.to_nat (d_size d))).

(** The contents of a file, if it has all blocks that its size needs. *)
Definition file_bytes (I : Z → list Z) (inum : Z) : option (list Z) :=
  let d := inode_at I inum in
  if bool_decide (0 ∈ addrs_of I d) then None
  else Some (take (Z.to_nat (d_size d)) (mjoin (I <$> addrs_of I d))).

(** The blocks of a file, with the indirect block. *)
Definition used_blocks (I : Z → list Z) (inum : Z) : list Z :=
  let d := inode_at I inum in filter (λ b, b ≠ 0) (nth 12 (d_addrs d) 0 :: addrs_of I d).

Lemma addr_of_file I f d k : mf_ok I f → d_addrs d = mf_addrs f → (k < length (mf_blocks f))%nat ∨ (k < 12)%nat →
  addr_of I d k = nth k (mf_blocks f) 0.
Proof.
  intros Hok Hd Hk. unfold addr_of. rewrite Hd. destruct (decide (k < 12)%nat).
  - by rewrite (nth_lookup (mf_addrs f)), addrs_direct by lia.
  - rewrite (nth_lookup (mf_addrs f) 12), addrs_ind. change (default 0 (Some (mf_ind f))) with (mf_ind f).
    assert (mf_ind f ≠ 0) as Hi by (apply (mo_ind _ _ Hok); lia). destruct (mo_len _ _ Hok).
    rewrite (mo_tab _ _ Hok Hi) by lia. rewrite !nth_lookup, lookup_drop. do 2 f_equal. lia.
Qed.

Lemma nth_seq (l : list Z) : (λ k, nth k l 0) <$> seq 0 (length l) = l.
Proof.
  apply list_eq. intros i. rewrite list_lookup_fmap. destruct (decide (i < length l)%nat) as [Hi|Hi].
  - rewrite lookup_seq_lt by done. cbn [fmap option_fmap option_map]. rewrite Nat.add_0_l, nth_lookup.
    by destruct (lookup_lt_is_Some_2 l i Hi) as [x ->].
  - by rewrite lookup_seq_ge, lookup_ge_None_2 by lia.
Qed.

(** The addresses in the inode are the blocks of the file. *)
Lemma addrs_of_file I f d : mf_ok I f → d_addrs d = mf_addrs f → nblk (Z.to_nat (d_size d)) = length (mf_blocks f) →
  addrs_of I d = mf_blocks f.
Proof.
  intros Hok Hd Hn. unfold addrs_of. rewrite Hn. rewrite <- (nth_seq (mf_blocks f)) at 2. apply list_fmap_ext.
  intros i k Hk. apply lookup_seq in Hk as [-> Hk]. by apply addr_of_file; [..|left].
Qed.

Lemma blocks_nonzero s fs f : data_ok s fs → f ∈ fs → 0 ∉ mf_own f.
Proof.
  intros Hd Hf Hin. apply elem_of_Permutation in Hf as [R HR]. rewrite HR in Hd. pose proof (owned_range _ _ _ _ Hd Hin).
  assert (nmeta = 59) by done. lia.
Qed.

Lemma filter_own f l : 0 ∉ mf_own f → l = mf_blocks f ∨ l = mf_blocks f ++ [0] → filter (λ b, b ≠ 0) (mf_ind f :: l) = mf_own f.
Proof.
  intros H0 Hl. assert (∀ b, b ∈ mf_blocks f → b ≠ 0) as Hb by (intros b Hb ->; apply H0; apply elem_of_app; by right).
  assert (filter (λ b, b ≠ 0) (mf_blocks f) = mf_blocks f) as E.
  { clear - Hb. induction (mf_blocks f) as [|b bl IH]; [done|]. rewrite filter_cons_True by (apply Hb; set_solver). f_equal. apply IH. set_solver. }
  unfold mf_own. rewrite filter_cons. replace (filter (λ b, b ≠ 0) l) with (mf_blocks f).
  - destruct (decide (mf_ind f ≠ 0)) as [Hi|Hi]; [by rewrite (proj2 (Z.eqb_neq _ _) Hi)|]. apply dec_stable in Hi. by rewrite Hi.
  - destruct Hl as [->| ->]; [by rewrite E|]. rewrite filter_app, E. cbn. by rewrite app_nil_r.
Qed.

(** ** The bitmap *)

Definition bitmap (used : Z) : list Z := foldl set_bit zeroes (seqZ 0 used).

Lemma bitmap_bits n : Z.of_nat n ≤ 4096 → length (bitmap (Z.of_nat n)) = 512%nat ∧
  ∀ x, 0 ≤ x → bit_free (bitmap (Z.of_nat n)) x = (Z.of_nat n <=? x).
Proof.
  intros Hn. unfold bitmap. induction n as [|n IH].
  - split; [done|]. intros x Hx. rewrite (proj2 (Z.leb_le _ _)) by lia. rewrite bit_free_testbit.
    change (foldl set_bit zeroes (seqZ 0 (Z.of_nat 0))) with zeroes. replace (byte_at zeroes (x / 8)) with 0; [by rewrite Z.bits_0|].
    symmetry. unfold byte_at, zeroes. rewrite nth_lookup. destruct (_ !! _) as [y|] eqn:E; [by apply lookup_replicate in E as [-> _]|done].
  - destruct (IH ltac:(lia)) as [Hl Hb]. replace (Z.of_nat (S n)) with (Z.of_nat n + 1) by lia.
    rewrite seqZ_app, foldl_app by lia. replace (seqZ (0 + Z.of_nat n) 1) with [Z.of_nat n] by (by rewrite seqZ_cons by lia). cbn [foldl].
    split; [unfold set_bit; by rewrite length_insert|]. intros x Hx.
    rewrite set_bit_free by (rewrite ?Hl; lia). rewrite Hb by done.
    destruct (Z.leb_spec (Z.of_nat n) x), (Z.eqb_spec x (Z.of_nat n)), (Z.leb_spec (Z.of_nat n + 1) x); done || lia.
Qed.

Lemma run_balloc s used : used < FSSIZE + 1 → nsect s = FSSIZE → mk_balloc used s = Ok tt (put_image s (sb_bmapstart mkfs_sb) (bitmap used)).
Proof.
  intros Hu Hn. unfold mk_balloc. unfold FSSIZE in *. rewrite (proj2 (Z.ltb_lt _ _)) by (unfold BSIZE; lia). cbn [negb].
  by rewrite run_wsect by (rewrite Hn; done).
Qed.

(** ** The final image *)

Section Final.
Context (s : mkfs) (f0 : mfile) (gs : list mfile).
Context (Hok : fs_ok s (f0 :: gs)).
Local Notation fs := (f0 :: gs).
Let off : Z := (Z.of_nat (length (mf_data f0)) / BSIZE + 1) * BSIZE.
Let d0 : dinode := (mf_din f0) <| d_size := off |>.
Let s' : mkfs := put_image (put_inode s 1 d0) (sb_bmapstart mkfs_sb) (bitmap (freeblock s)).
Let I : Z → list Z := image s'.

Lemma final_root_ok : mf_ok (image s) f0 ∧ mf_wf f0 ∧ din_ok (mf_din f0).
Proof.
  pose proof (fo_wf _ _ Hok) as Hw. pose proof (fo_type _ _ Hok) as Ht. pose proof (fo_data _ _ Hok) as Hd.
  apply Forall_cons in Hw as [Hw _]. apply Forall_cons in Ht as [Ht _]. split_and!; [by eapply file_ok|done|].
  eapply mf_din_ok; [done|left|done].
Qed.

Lemma off_range : 0 ≤ off < 2 ^ 17.
Proof.
  destruct final_root_ok as (Hm & _ & _). destruct (mo_len _ _ Hm). unfold off, BSIZE. zl.
Qed.

Lemma d0_ok : din_ok d0.
Proof.
  destruct final_root_ok as (_ & _ & [H1 H2 H3 H4]). split; [exact H1| |exact H3|exact H4].
  change (d_size d0) with off. pose proof off_range. unfold is_u32, two32. lia.
Qed.

Lemma final_data : data_ok s' fs.
Proof.
  pose proof (fo_data _ _ Hok) as Hd. pose proof (data_ok_put_inode s fs 1 d0 Hd d0_ok ltac:(done)) as Hd1.
  apply (data_ok_meta (put_inode s 1 d0)); [done..| |].
  - intros b. unfold s'. rewrite image_put. destruct (_ =? _); [|apply (do_len _ _ Hd1)]. destruct (do_free _ _ Hd). unfold FSSIZE in *.
    assert (nmeta = 59) by done. rewrite <- (Z2Nat.id (freeblock s)) by lia. apply bitmap_bits. lia.
  - intros b Hb. unfold s'. rewrite image_put, (proj2 (Z.eqb_neq b _)); [done|]. assert (nmeta = 59) by done. change (sb_bmapstart mkfs_sb) with 58. lia.
Qed.

Lemma final_inode j : 0 ≤ j < inode_max → inode_at I j = if j =? 1 then d0 else inode_at (image s) j.
Proof.
  intros Hj. rewrite <- (inode_at_put s 1 d0 j (do_len _ _ (fo_data _ _ Hok)) d0_ok ltac:(done) Hj).
  unfold inode_at, I, s'. rewrite image_put. pose proof (iblock_range j Hj). change (sb_bmapstart mkfs_sb) with 58.
  by rewrite (proj2 (Z.eqb_neq _ 58)) by lia.
Qed.

Lemma final_low b : b < sb_inodestart mkfs_sb → I b = if b =? 1 then sb_block else zeroes.
Proof.
  change (sb_inodestart mkfs_sb) with 32. intros Hb. unfold I, s', put_inode. rewrite !image_put. pose proof (iblock_range 1 ltac:(done)).
  change (sb_bmapstart mkfs_sb) with 58. rewrite (proj2 (Z.eqb_neq b 58)), (proj2 (Z.eqb_neq b (IBLOCK 1 mkfs_sb))) by lia.
  apply (fo_low _ _ Hok). by left.
Qed.

Lemma final_bitmap x : 0 ≤ x < FSSIZE → block_free mkfs_sb I x = (freeblock s <=? x).
Proof.
  intros Hx. destruct (do_free _ _ (fo_data _ _ Hok)). assert (nmeta = 59) by done. unfold FSSIZE in *. unfold block_free.
  replace (BBLOCK x mkfs_sb) with 58. 2:{ unfold BBLOCK. change BPB with 4096. change (sb_bmapstart mkfs_sb) with 58.
    rewrite Z.div_small by lia. done. }
  unfold I, s'. rewrite image_put. change (58 =? sb_bmapstart mkfs_sb) with true. cbv iota. change BPB with 4096. rewrite Z.mod_small by lia.
  rewrite <- (Z2Nat.id (freeblock s)) by lia. apply bitmap_bits; lia.
Qed.

Lemma final_file_ok f : f ∈ fs → mf_ok I f ∧ mf_wf f ∧ 0 ∉ mf_own f.
Proof.
  intros Hf. pose proof final_data as Hd. pose proof (do_files _ _ Hd) as Hfs. pose proof (fo_wf _ _ Hok) as Hw.
  rewrite Forall_forall in Hfs, Hw. split_and!; [by apply Hfs|by apply Hw|by eapply blocks_nonzero].
Qed.

Lemma final_inode_file j f : 2 ≤ j → fs !! Z.to_nat (j - 1) = Some f → inode_at I j = mf_din f.
Proof.
  intros Hj Hf. pose proof (lookup_lt_Some _ _ _ Hf) as Hlt. destruct (fo_free _ _ Hok) as [Hf1 Hf2].
  rewrite final_inode, (proj2 (Z.eqb_neq j 1)) by lia. by rewrite (fo_inodes _ _ Hok), Hf by lia.
Qed.

Lemma final_addrs_file j f : 2 ≤ j → fs !! Z.to_nat (j - 1) = Some f → addrs_of I (mf_din f) = mf_blocks f.
Proof.
  intros Hj Hf. destruct (final_file_ok f ltac:(by eapply list_elem_of_lookup_2)) as (Hm & [_ Hw] & _).
  apply addrs_of_file; [done|done|]. cbn [mf_din d_size]. by rewrite Nat2Z.id.
Qed.

Lemma final_file j f : 2 ≤ j → fs !! Z.to_nat (j - 1) = Some f → file_bytes I j = Some (mf_data f).
Proof.
  intros Hj Hf. destruct (final_file_ok f ltac:(by eapply list_elem_of_lookup_2)) as (Hm & _ & H0).
  unfold file_bytes. rewrite (final_inode_file j f), (final_addrs_file j f) by done. cbv zeta. rewrite bool_decide_eq_false_2.
  - rewrite (mo_data _ _ Hm). cbn [mf_din d_size]. by rewrite Nat2Z.id, take_app_length.
  - intros Hin. apply H0, elem_of_app. by right.
Qed.

(** The root directory: the size is that of whole blocks, one more than it has if they are full. *)
Context (Hroot : (length (mf_blocks f0) < 12)%nat).
Local Notation full := (length (mf_data f0) mod 512 = 0)%nat.

Lemma final_root_blocks : nblk (Z.to_nat off) = if decide full then S (length (mf_blocks f0)) else length (mf_blocks f0).
Proof.
  destruct final_root_ok as (_ & [_ Hw] & _). rewrite Hw. set (l := length (mf_data f0)) in *.
  pose proof (Nat.div_mod_eq l 512). pose proof (Nat.mod_upper_bound l 512 ltac:(lia)). pose proof (nblk_spec l).
  assert (Z.to_nat off = 512 * (l / 512 + 1))%nat as ->.
  { unfold off, BSIZE. fold l. change (Z.of_nat l / 512) with (Z.of_nat l / Z.of_nat 512). rewrite <- Nat2Z.inj_div. lia. }
  pose proof (nblk_spec (512 * (l / 512 + 1))). fold l. set (q := (l / 512)%nat) in *. set (r := (l mod 512)%nat) in *.
  clearbody q r. destruct (decide (r = 0)%nat); lia.
Qed.

Lemma final_root_addrs : addrs_of I d0 = if decide full then mf_blocks f0 ++ [0] else mf_blocks f0.
Proof.
  destruct (final_file_ok f0 ltac:(left)) as (Hm & [_ Hw] & _). pose proof final_root_blocks as Hb.
  unfold addrs_of. change (d_size d0) with off. rewrite Hb. destruct (decide full).
  - rewrite seq_S, fmap_app. f_equal.
    + rewrite <- (nth_seq (mf_blocks f0)) at 2. apply list_fmap_ext. intros i k Hk. apply lookup_seq in Hk as [-> Hk]. apply addr_of_file; [done|done|lia].
    + cbn [fmap list_fmap]. rewrite (addr_of_file _ f0) by (done || lia). by rewrite nth_overflow by lia.
  - rewrite <- (nth_seq (mf_blocks f0)) at 2. apply list_fmap_ext. intros i k Hk. apply lookup_seq in Hk as [-> Hk]. apply addr_of_file; [done|done|lia].
Qed.

Lemma final_root_bytes : file_bytes I 1 =
  if decide full then None else Some (mf_data f0 ++ replicate (512 * length (mf_blocks f0) - length (mf_data f0)) 0).
Proof.
  destruct (final_file_ok f0 ltac:(left)) as (Hm & _ & H0). unfold file_bytes. rewrite final_inode by done. change (1 =? 1) with true. cbv iota zeta.
  pose proof final_root_blocks as Hb. rewrite final_root_addrs. destruct (decide full) as [Hf|Hf].
  - rewrite bool_decide_eq_true_2; [done|]. apply elem_of_app. right. by left.
  - rewrite bool_decide_eq_false_2 by (intros Hin; apply H0, elem_of_app; by right). f_equal. rewrite <- (mo_data _ _ Hm). apply take_ge.
    rewrite length_blocks by apply (do_len _ _ final_data). change (d_size d0) with off. pose proof (nblk_spec (Z.to_nat off)). 
    destruct (mo_len _ _ Hm). rewrite Hb in *. unfold off, BSIZE in *. lia.
Qed.

Lemma final_used j f : 1 ≤ j → fs !! Z.to_nat (j - 1) = Some f → used_blocks I j = mf_own f.
Proof.
  intros Hj Hf. destruct (final_file_ok f ltac:(by eapply list_elem_of_lookup_2)) as (Hm & _ & H0). unfold used_blocks.
  assert (∀ g, nth 12 (mf_addrs g) 0 = mf_ind g) as Hind by (intros g; by rewrite nth_lookup, addrs_ind).
  destruct (decide (j = 1)) as [->|Hne].
  - injection Hf as <-. rewrite final_inode by done. change (1 =? 1) with true. cbv iota zeta. change (d_addrs d0) with (mf_addrs f0).
    rewrite Hind, final_root_addrs. apply filter_own; [done|]. destruct (decide full); auto.
  - rewrite (final_inode_file j f), (final_addrs_file j f) by (done || lia). cbv zeta. cbn [mf_din d_addrs]. rewrite Hind. apply filter_own; auto.
Qed.

Lemma final_all_used : mjoin (used_blocks I <$> seqZ 1 (Z.of_nat (length fs))) = owned fs.
Proof.
  unfold owned. f_equal. apply list_eq. intros i. rewrite !list_lookup_fmap. destruct (fs !! i) as [f|] eqn:Ef.
  - pose proof (lookup_lt_Some _ _ _ Ef). rewrite lookup_seqZ_lt by lia. cbn [fmap option_fmap option_map]. f_equal.
    apply final_used; [lia|]. by replace (Z.to_nat (1 + Z.of_nat i - 1)) with i by lia.
  - apply lookup_ge_None in Ef. by rewrite lookup_seqZ_ge by lia.
Qed.
End Final.

Lemma owned_all s fs x : data_ok s fs → x ∈ owned fs ↔ nmeta ≤ x < freeblock s.
Proof.
  intros Hd. destruct (do_free _ _ Hd) as [Hf _]. pose proof (do_range _ _ Hd) as Hr. rewrite Forall_forall in Hr.
  assert (owned fs ≡ₚ seqZ nmeta (Z.of_nat (length (owned fs)))) as ->; [|rewrite elem_of_seqZ; lia].
  apply submseteq_length_Permutation; [|rewrite length_seqZ; lia].
  apply NoDup_submseteq; [apply (do_nodup _ _ Hd)|]. intros y Hy%Hr. apply elem_of_seqZ. lia.
Qed.

(** [I] is an image with the given files. *)
Record built (files : list (list Z * list Z)) (I : Z → list Z) : Prop := mkBuilt {
  bi_super : sb_at (I 1) = mkfs_sb;
  bi_log : disk_ok FSSIZE I ∧ hdr_n (I (sb_logstart mkfs_sb)) = 0;
  bi_files : ∀ i name bytes, files !! i = Some (name, bytes) →
    let d := inode_at I (2 + Z.of_nat i) in
    d_type d = T_FILE ∧ d_nlink d = 1 ∧ d_size d = Z.of_nat (length bytes) ∧ file_bytes I (2 + Z.of_nat i) = Some bytes;
  bi_root : d_type (inode_at I 1) = T_DIR ∧ d_nlink (inode_at I 1) = 1 ∧
    file_bytes I 1 =
      if decide (length (root_entries files) mod 512 = 0)%nat then None
      else Some (root_entries files ++ replicate (512 * nblk (length (root_entries files)) - length (root_entries files)) 0);
  bi_free : ∀ j, 2 + Z.of_nat (length files) ≤ j < inode_max → inode_at I j = no_din;
  bi_own : NoDup (mjoin (used_blocks I <$> seqZ 1 (1 + Z.of_nat (length files))));
  bi_bitmap : ∀ x, 0 ≤ x < FSSIZE →
    block_free mkfs_sb I x = false ↔
    x < nmeta ∨ ∃ j, 1 ≤ j ≤ 1 + Z.of_nat (length files) ∧ x ∈ used_blocks I j
}.

Lemma length_root files : length (root_entries files) = (16 * (2 + length files))%nat.
Proof.
  induction files as [|f files IH] using rev_ind; [done|]. rewrite root_entries_snoc, !length_app, IH. cbn [length].
  enough (length (dirent (2 + Z.of_nat (length files)) (strip_name (f.1))) = 16)%nat by lia.
  unfold dirent. rewrite length_app, length_take, length_app, length_replicate. change (Z.to_nat DIRSIZ) with 14%nat. cbn [bytes16 length]. lia.
Qed.

Lemma sb_block_at : sb_at sb_block = mkfs_sb ∧ s32 (get32 sb_block 16) = 2 ∧ hdr_n zeroes = 0.
Proof. vm_compute. done. Qed.

Lemma final_built s f0 gs files :
  fs_ok s (f0 :: gs) → contents (f0 :: gs) = image_files files → 1 + Z.of_nat (length files) < inode_max →
  built files (image (put_image (put_inode s 1 ((mf_din f0) <| d_size := (Z.of_nat (length (mf_data f0)) / BSIZE + 1) * BSIZE |>))
                        (sb_bmapstart mkfs_sb) (bitmap (freeblock s)))).
Proof.
  intros Hok HC Hmax. change (contents (f0 :: gs)) with ((mf_type f0, mf_data f0) :: contents gs) in HC. unfold image_files in HC.
  assert (mf_type f0 = T_DIR) as Ht0 by congruence. assert (mf_data f0 = root_entries files) as Hd0 by congruence.
  assert (contents gs = (λ f, (T_FILE, f.2)) <$> files) as Hgs by congruence.
  assert (length gs = length files) as Hlen by (apply (f_equal length) in Hgs; unfold contents in Hgs; by rewrite !length_fmap in Hgs).
  destruct (final_root_ok s f0 gs Hok) as (_ & [_ Hw] & _). assert (inode_max = 208) as Em by done.
  assert (length (mf_blocks f0) < 12)%nat as Hroot.
  { rewrite Hw, Hd0, length_root. pose proof (nblk_spec (16 * (2 + length files))). lia. }
  set (I := image _). pose proof (final_low s f0 gs Hok) as Hlow. fold I in Hlow. destruct sb_block_at as (S1 & S2 & S3).
  assert (I 1 = sb_block ∧ I 2 = zeroes) as [E1 E2] by (split; by rewrite Hlow).
  split.
  - by rewrite E1.
  - change (sb_logstart mkfs_sb) with 2. rewrite E2. split; [|done]. assert (sb_log I = 2) as El by (unfold sb_log; by rewrite E1).
    split; rewrite El; [done|]. apply disk_log_empty; rewrite E2; done.
  - intros i name bytes Hi. assert (contents gs !! i = Some (T_FILE, bytes)) as Hg by (by rewrite Hgs, list_lookup_fmap, Hi).
    unfold contents in Hg. rewrite list_lookup_fmap in Hg. destruct (gs !! i) as [f|] eqn:Ef; [|done]. injection Hg as Hty Hda.
    assert ((f0 :: gs) !! Z.to_nat (2 + Z.of_nat i - 1) = Some f) as Hf by (by replace (Z.to_nat (2 + Z.of_nat i - 1)) with (S i) by lia).
    pose proof (final_inode_file s f0 gs Hok (2 + Z.of_nat i) f ltac:(lia) Hf) as Hin. fold I in Hin. rewrite Hin. cbn [mf_din d_type d_nlink d_size].
    split_and!; [done|done|by rewrite Hda|]. rewrite <- Hda. apply (final_file s f0 gs Hok _ f); [lia|done].
  - pose proof (final_inode s f0 gs Hok 1 ltac:(done)) as Hin. fold I in Hin. rewrite Hin. split_and!; [exact Ht0|done|].
    pose proof (final_root_bytes s f0 gs Hok Hroot) as Hb. fold I in Hb. by rewrite Hb, Hw, Hd0.
  - intros j Hj. pose proof (final_inode s f0 gs Hok j ltac:(lia)) as Hin. fold I in Hin. rewrite Hin, (proj2 (Z.eqb_neq j 1)) by lia.
    rewrite (fo_inodes _ _ Hok) by lia. rewrite lookup_ge_None_2; [done|]. cbn [length]. lia.
  - pose proof (final_all_used s f0 gs Hok Hroot) as Hu. fold I in Hu. cbn [length] in Hu. rewrite Hlen in Hu.
    replace (1 + Z.of_nat (length files)) with (Z.of_nat (S (length files))) by lia. rewrite Hu. apply (do_nodup _ _ (fo_data _ _ Hok)).
  - intros x Hx. pose proof (final_bitmap s f0 gs Hok x Hx) as Hb. fold I in Hb. rewrite Hb, Z.leb_gt.
    pose proof (owned_all s (f0 :: gs) x (fo_data _ _ Hok)) as Hall. rewrite <- (final_all_used s f0 gs Hok Hroot) in Hall. fold I in Hall.
    rewrite list_elem_of_join in Hall. setoid_rewrite list_elem_of_fmap in Hall. setoid_rewrite elem_of_seqZ in Hall. cbn [length] in Hall. rewrite Hlen in Hall.
    destruct (do_free _ _ (fo_data _ _ Hok)) as [Hf _]. split.
    + intros Hlt. destruct (decide (x < nmeta)); [by left|right]. destruct (proj2 Hall ltac:(lia)) as (l & Hl & j & -> & Hj). exists j. split; [lia|done].
    + intros [Hlt|(j & Hj & Hin)]; [lia|]. apply Hall. exists (used_blocks I j). split; [done|]. exists j. split; [done|lia].
Qed.

(** C8: [mkfs] builds the file system that the kernel boots from.  Whenever the files have
    names without a slash, fit the inode blocks, are no longer than [MAXFILE] blocks and fit the
    disk, the program returns, and its image has the superblock of [mkfs.c], an empty log that
    [initlog] accepts, for each file an inode with its type, link count and size from which
    exactly its bytes are read through the direct and indirect blocks, a root directory with
    the entries of all the files, free inodes behind them, no block that two files share, and
    a bitmap in which precisely the metadata and the blocks of the files are taken.  If the
    entries of the root directory fill whole blocks, its size covers a block that it has not
    ([file_bytes] gives [None]). *)
Theorem mkfs_builds files :
  Forall (λ f, 47 ∉ f.1) files → 1 + Z.of_nat (length files) < inode_max → fits (image_files files) →
  ∃ s, mkfs_main files mkfs_start = Ok tt s ∧ built files (image s).
Proof.
  intros Hn Hmax Hfit. destruct (run_main_files files Hn Hmax Hfit) as (s & (fs & Hok & HC) & E).
  destruct fs as [|f0 gs]; [discriminate HC|]. rewrite E. clear E. pose proof (fo_data _ _ Hok) as Hd. destruct (do_free _ _ Hd) as [_ Hf].
  assert (inode_at (image s) 1 = mf_din f0) as Hin by (apply (fo_inodes _ _ Hok 1); done).
  pose proof (final_built s f0 gs files Hok HC Hmax) as Hb.
  set (d0 := (mf_din f0) <| d_size := (Z.of_nat (length (mf_data f0)) / BSIZE + 1) * BSIZE |>) in *.
  eexists. split; [|exact Hb]. rewrite (bind_ok _ _ _ _ _ (run_rinode s 1 (do_sect _ _ Hd) ltac:(done))), Hin. cbv zeta.
  change ((mf_din f0) <| d_size := (d_size (mf_din f0) / BSIZE + 1) * BSIZE |>) with d0. clearbody d0.
  rewrite (bind_ok _ _ _ _ _ (run_winode s 1 d0 (do_sect _ _ Hd) ltac:(done))), bind_gets.
  change (freeblock (put_inode s 1 d0)) with (freeblock s). apply run_balloc; [lia|apply (do_sect _ _ Hd)].
Qed.

Definition demo_files : list (list Z * list Z) :=
  [(bytes_of "README", bytes_of "xv6"); (bytes_of "_cat", replicate 6700 7)].

Lemma demo_files_fit : fits (image_files demo_files).
Proof. split; [vm_compute; congruence|]. repeat constructor; apply Nat.leb_le; vm_compute; reflexivity. Qed.

Lemma mkfs_builds_witness : ∃ s, mkfs_main demo_files mkfs_start = Ok tt s ∧ built demo_files (image s).
Proof.
  apply mkfs_builds; [|reflexivity|exact demo_files_fit].
  apply (bool_decide_eq_true_1 (Forall (λ f, 47 ∉ f.1) demo_files)). vm_compute. reflexivity.
Defined.
